(* ===== verification/_CoqProject ===== *)
-Q . S2P
Prelude.v
Trace.v
GoStd.v
TlvLib.v
Wire.v
WireProofs.v
Terms.v
Stores.v
Replay.v
JobStore.v
ReqJobStore.v
PeerDir.v
PeerMsg.v
Pricing.v
Validation.v
Tasks.v
Lightning.v
Provider.v
ResultSend.v
Runner.v
ResultProofs.v
Waiter.v
WaiterProofs.v
WaiterInv.v
WaiterRoute.v
ProviderInv.v
ProviderSafety.v
ProviderTheorems.v
ProviderProgress.v
Requester.v
RequesterRun.v
RequesterLogic.v
RequesterCalls.v
RequesterRequests.v
RequesterSafety.v
RequesterTheorems.v
InputSend.v
Composition.v
Backend.v
Daemon.v
PeerLoops.v
RequesterExamples.v
Application.v
Gateway.v
Httpapi.v
HttpapiProofs.v
HttpapiStream.v
GatewayTheorems.v
GatewayExamples.v
Logging.v
Startup.v
Discovery.v
Oneshot.v
ChatTui.v
OneshotProofs.v
OneshotTheorems.v
EndToEnd.v
EndToEndExamples.v
