(* ===== verification/Prelude.v ===== *)
(** * Verification of go-lcpd, the Lightning Compute Protocol daemon

    go-lcpd ([src/go-lcpd]) lets a requester buy computations from a provider over
    Lightning custom messages: manifests are exchanged, the requester sends a quote
    request and streams its input, the provider answers with a quote whose terms
    hash is the description hash of an invoice, and, once the invoice is settled,
    executes the task and streams the result back.

    ** Files

    - [Prelude.v] (this file): results, bytes, machine integers, ranges over Go maps,
      automation and generic lemmas.
    - [Trace.v]: programs that leave a trace of events, and a program logic for them.
    - [GoStd.v]: what the code uses of Go's standard library: big-endian bytes,
      UTF-8, hex, SHA-256, times, trimming and integer parsing.
    - [TlvLib.v]: lnd's [tlv] package as a parameter ([TlvLib]) with its documented
      laws ([TlvLaws]), and [bolt_tlv], an instance that satisfies them.
    - [Wire.v], [WireProofs.v]: package [lcpwire]: the nine messages, their encoders
      and decoders; round trips and well-formedness of what is decoded.
    - [Terms.v]: [protocolcompat/terms.go] and [domain/lcp/types.go]: the terms hash.
    - [Stores.v]: [envconfig] and the scan-and-evict loops of the stores.
    - [Replay.v] (Module [ReplayStore]), [JobStore.v] (Module [JobStore]),
      [ReqJobStore.v] (Module [ReqJobStore]): packages [replaystore], [jobstore] and
      [requesterjobstore].
    - [PeerDir.v] (Module [PeerDir]), [PeerMsg.v]: packages [peerdirectory],
      [lcpmsgrouter], [inbounddispatch] and [lndpeermsg]: the manifest exchange.
    - [PeerLoops.v] (Module [PeerLoops]): the hooks and loops of [lndpeermsg/peermsg.go]:
      start, subscriptions, reconnection, resending, stop.
    - [Pricing.v]: packages [llm] and [computebackend] (its interface), surge pricing
      and invoices ([provider/dynamic_pricing.go], [provider/lnd_adapter.go]).
    - [Validation.v]: [provider/validation.go] and the validation, planning and
      quoting part of [provider/handler.go].
    - [Tasks.v] (Module [Tasks]): package [lcptasks]: the requester's tasks, their
      validation and conversion; a valid task is one the provider accepts.
    - [Lightning.v]: package [lightningrpc]: the requester's Lightning client over a
      parameter for lnd ([Node]); [LightningRPC] is the interface of the gRPC service
      to it, [LightningLaws] what the service relies on.
    - [Provider.v]: the handler's state and message handlers ([provider/handler.go]).
    - [ResultSend.v]: sending results: [sendResult], [sendResultStreaming] and what
      they call.
    - [Runner.v]: [runJob] and the provider as a transition system.
    - [ResultProofs.v], [ProviderInv.v], [ProviderSafety.v], [ProviderTheorems.v]:
      the proofs about the last three.
    - [ProviderProgress.v]: how the provider's runners advance and end.
    - [Waiter.v] (Module [Waiter]): package [requesterwait], the requester's side:
      reassembly of results and the calls that wait for them.
    - [WaiterProofs.v], [WaiterInv.v], [WaiterRoute.v]: results from the provider's
      [sendResult] to the requester's [WaitResult]; the waiter's invariants; what a
      call receives came from its peer and is about its job.
    - [Requester.v], [RequesterRun.v]: [grpcservice/lcpd/service.go], the requester's
      RPCs, and the requester as a transition system.
    - [RequesterLogic.v], [RequesterCalls.v], [RequesterRequests.v], [RequesterSafety.v],
      [RequesterTheorems.v], [InputSend.v]: a small program logic for the methods, how
      calls end, which request a call belongs to, the invariant of the requester, what it
      pays for and returns, what it sends.
    - [Composition.v]: requester and provider together.
    - [Backend.v]: package [computebackend] with its three backends, the OpenAI client
      over a parameter for HTTP.
    - [Daemon.v]: the configuration of the daemon ([tools/lcpd-grpcd/main.go],
      [lndpeermsg/config.go]): models, prices, manifest, backend.
    - [RequesterExamples.v]: a run of the requester against the provider's run in
      [ProviderTheorems.v].
    - [Application.v] (Module [Application]): lcpd-grpcd as a whole ([baseFXOptions]): the
      messaging, the directory, the provider and the requester as one transition system.
    - [Gateway.v] (Module [Gateway]), [Httpapi.v] (Module [Httpapi]): openai-serve
      ([src/apps/openai-serve]), the HTTP gateway in front of the requester's RPCs: its
      configuration, its routes and handlers.
    - [HttpapiProofs.v], [HttpapiStream.v], [GatewayTheorems.v], [GatewayExamples.v]: a
      program logic for the handlers, what the gateway pays for and whom it serves, what
      the client receives, routing, tasks, cancellation and configuration; a request and
      its trace.
    - [Startup.v] (Module [Startup]): the connection to lnd ([lndpeermsg/dial.go]), the
      lnd adapter's connection and sends, the start and the end of lcpd-grpcd and of
      openai-serve.
    - [Discovery.v] (Module [Discovery]): from the provider's configuration over its
      manifest and the requester's daemon to the gateway's routing.
    - [Oneshot.v] (Module [Oneshot]), [ChatTui.v] (Module [ChatTui]): lcpd-oneshot
      ([tools/lcpd-oneshot]), the command-line client: options, pipeline, chat session,
      plain REPL; the model and the updates of its terminal interface.
    - [OneshotProofs.v], [OneshotTheorems.v]: what the client asks and pays, its prompts,
      totals and histories; a conversation.
    - [EndToEnd.v] (Module [EndToEnd]), [EndToEndExamples.v]: the gateway and the
      command-line client on top of runs of the requester, and the provider behind them.
    - [Logging.v] (Module [Logging]): the log entries of the requester
      ([grpcservice/lcpd/observability.go]), of the provider's jobs and of the gateway.

    ** How the code is modelled

    A Go function with an [error] result is a function into [result]; its error type
    has the sentinel or the wrapped field of the Go error.  A struct is a Record with
    the fields of the source, prefixed; unsigned arithmetic that can wrap is written
    with [wrap_u32] or [wrap_u64].  An operation that holds a lock is a function on
    the locked state; where the order of a range over a map matters it is a parameter
    ([MapRange]) about which nothing but its being a permutation is assumed.

    The provider's handlers are functions in the state monad [M] of [Provider.v].
    What the code cannot compute (clock, random bytes, the outcome of a send or of
    adding an invoice) is answered by the parameter [ProviderEnv], a different answer
    for every effect; what leaves the handler is appended to a trace.  [Runner.v] has
    the events of the system: a message arrives, a runner's blocking call returns, a
    deadline passes, the peer directory changes.  Handlers and runner segments are
    atomic steps; any interleaving of them is a run, and a runner whose wait and plan
    segments are separated by any number of other steps is covered.  Finer
    interleavings, inside a handler, are not.

    The requester's waiter is a transition system too ([Waiter.step]): a message is
    handled in one step; a waiting call is its registration and its wake-up, by the
    channel or by its context.  A channel of capacity one is the list of the values
    in it, and an invariant shows that it never holds more than one.

    The requester's RPCs are functions in the state monad [RM] of [Requester.v], over
    the parameter [RequesterEnv] (clock, randomness, sends, contexts, the gRPC stream)
    and a trace.  An RPC is cut where it blocks: on the quote, on the payment, on the
    result, in the [select] of the streaming call; the goroutine of the streaming call
    is a part of its state.  The events of the system ([revent]) are an RPC, a custom
    message, a change of the peers, and a blocked call that goes on (it is woken, its
    payment returns, its context ends, its stream has an event); any sequence of
    events is a run ([rrun]).  [protovalidate] is the parameter [Validator].

    The gateway's handlers are functions in the monad [GM] of [Httpapi.v], an instance of
    [TM] of [Trace.v], which counts
    the effects and collects the calls of the daemon, with their answers, and what is
    given to the HTTP connection.  The daemon is the parameter [GatewayEnv]; a stream of
    it is the list of its messages and the error that ends it, and [stream_loop] is
    structural on that list.

    In [PeerLoops.v] the start hook, the two subscription loops, the resend loop and the
    stop hook are program counters beside the fields they share (the client, the
    connection, the context, the ready channels); an event lets one of them take its next
    step with lnd's answer to it, and any sequence of events is a run.  A call through a
    nil client is a state of its own.  [Application.v] puts these steps, the provider's and
    the requester's together: what a step of the messaging dispatches is handled in the
    same step, as in the code, and the directory it leaves is the one the others read.
    [EndToEnd.v] replaces the daemon of [GatewayEnv] and [OneshotEnv] by a run of the
    requester: the answers in the client's trace are returned by calls of that run
    ([answered_by]).

    The command-line client is a program in [TM] as well, over the parameter
    [OneshotEnv] for the daemon.  Its terminal interface is a transition system
    ([ChatTui.tstep]): a key, a window size, or the end of a turn that runs in the
    background; the turn takes effect when it ends, which no other turn can observe
    because there is never a second one ([one_turn_in_flight]).  Start and end of the
    programs ([Startup.v]) are programs in [TM] whose events are what is opened and closed.

    Fuel: the loops that are not structural are [evict_loop] (one entry less per
    round), [fit_loop] and [input_fit_loop] (the chunk is halved), [chunks_loop],
    [input_chunks_loop] and [streaming_loop] (a byte or a read less per round).  The
    definitions pass enough fuel, and [evict_loop_spec], [chunk_fitting],
    [input_chunk_equiv], [chunks_loop_spec], [streaming_loop_spec] and
    [input_chunks_spec] show that it is never used up.

    ** What is shown

    - Codec: every well-formed message round-trips; what is decoded is well formed;
      byte lists have one encoding.  The terms hash binds every field of the terms
      unless SHA-256 collides.
    - Stores: exact behaviour and bounds of each store; which entries eviction may
      take; when a replay is refused, and that it is accepted at capacity.
    - Peers: a peer is ready only after both manifests were exchanged in the current
      connection; where each inbound message goes.
    - Prices: rounding up, surge never undercharges, quotes cover the estimated cost,
      invoices carry the exact amount.
    - Provider, for every reachable state and trace: what is executed was paid for
      and is what the settled invoice commits to; quotes and invoices agree; input
      streams are bounded and checked; stale messages are ignored; cancellation
      takes effect; the in-flight count is exact.  A job whose invoice is settled is
      executed unless its context ends: planning cannot fail after the quote; a runner
      ends after at most four steps of its own, and nobody else moves it.
    - Results, from end to end: what [sendResult] or [sendResultStreaming] sent with
      success is what the requester's [WaitResult] returns.  Whatever a peer sends,
      a result handed out with status ok was verified, peers do not interfere and
      deliveries never block.
    - Requester, for every run: it pays an invoice only after it asked for the task and
      got a quote that commits to it, and the invoice is bound to the quote; a result
      it returns was paid for, came from the paid peer about the job and is verified;
      what it sends decodes to the task, within the peer's limits; every RPC is
      answered at most once, and a blocked one ends with its context.
    - Both together: the task that is executed for a payment is the one that was asked
      for, or SHA-256 collides on one of three explicit pairs.  A task the requester
      validates is one the provider accepts.  A model of the provider's configuration is
      listed, checked and routed by a gateway whose daemon got the manifest.
    - From the client to the backend: what the daemon pays for an HTTP request, or for a
      prompt of the command line, is a quote for the very bytes of the request, by the peer
      it was routed to and within the price limit; the data in an HTTP response are the
      verified result that was paid for; what the provider executes for the payment is the
      body of the request.
    - The daemon: a run of lcpd-grpcd is a run of each of its parts that agrees with the
      others on the directory and on the messages, so that the theorems about the parts
      hold in it; every quote it pays was delivered by lnd from the peer that is paid.
    - Lifecycle: in every interleaving of hooks, loops and lnd's answers the messaging
      calls lnd only through a live client unless the start failed, is subscribed after a
      successful start, and is quiet after a successful stop; cancelled loops end.
    - Logs: prompts, outputs and invoices are not in them; what is.
    - Backends: [Execute] and [ExecuteStreaming] agree; which error an answer of the
      server becomes; planned tasks pass the backend's checks.
    - Configuration: a provider that starts is well configured; what it advertises it
      accepts and prices; its models do not depend on the order of Go's maps.
    - Gateway, for every request and whatever the daemon answers: a job is executed only
      for an authorized request, for the peer, the model and the bytes it asked for, and
      within the price limit; the request is answered once; a streamed body is what the
      daemon streamed; a cancelled job is the executed one; tasks it forwards pass the
      daemon's validation.
    - Command-line client, whatever the daemon answers: it pays only for the quote it has
      just received and only when told to; its requests pass the daemon's validation; the
      prompt of a chat is the longest suffix of the history that fits; the total is what
      was charged for; the terminal interface has one turn in flight.
    - Start and end: what was opened is closed, exit codes, a connection to lnd is
      handed out only when it is ready.
    - Some theorems record behaviour one would not expect: a job that was cancelled,
      has failed or is done is paid again when it is accepted
      ([accept_ignores_job_state]); a long error message of the server hides its status
      ([upstream_error_class]); a replay is accepted when the replay store is full
      ([replay_accepted_at_capacity]); a retried quote request restarts a finished job
      without a second payment ([executed_twice_for_one_invoice],
      [retry_restarts_job]); keys that are all blank disable the gateway's authentication
      ([loaded_config_wf]), and a mapped peer that is away fails the request
      ([routing_order]); the waiter hands a failed result out with bytes
      ([failed_result_with_bytes]) and accepts a result that names another stream
      ([other_stream_accepted]); the command-line client takes a failed result for a
      reply ([failed_result_is_reply]); a subscription that lnd ends with EOF is never
      opened again ([ended_stream_is_final]), and a start that fails can leave a loop with
      a nil client ([failed_start_race]); the debug log quotes the model server's error
      body ([debug_log_quotes_upstream]).

    ** What is not modelled

    Interleavings inside a message handler or a runner's segment, which are atomic steps
    here; the other log entries than those of [Logging.v]; branches for dependencies that
    the daemon always supplies (a nil store or logger); the JSON library (the parameters
    [JsonLib], [TaskJson], [TokenJson], [GatewayJson] and [OneshotJson]); protovalidate's
    rules; the YAML decoder, the flag parsers and the process environment (parameters);
    generated protobuf code; the dependency-injection container and [grpcserver], which
    only starts and stops the gRPC library's server; the text input and the styles of the
    terminal interface (parameters); lcpdctl, whose commands are generated; the test
    harness.  What is left of the Go code is of these kinds. *)

From Stdlib Require Export Strings.Byte ZArith Lia.
From stdpp Require Export base sorting numbers option strings gmap list.

#[global] Open Scope Z_scope.

(** ** Results: the Go convention [(T, error)]

    A Go function that returns a value and an [error] is a function into
    [result]; [x ← c; k] is the early return [if err != nil { return err }]. *)

Inductive result (E A : Type) : Type :=
| Ok (a : A)
| Err (e : E).
Arguments Ok {E A} a.
Arguments Err {E A} e.

#[export] Instance result_ret {E} : MRet (result E) := λ A a, Ok a.
#[export] Instance result_bind {E} : MBind (result E) := λ A B f r,
  match r with Ok a => f a | Err e => Err e end.
#[export] Instance result_fmap {E} : FMap (result E) := λ A B f r,
  match r with Ok a => Ok (f a) | Err e => Err e end.

#[export] Instance result_eq_dec {E A} `{EqDecision E, EqDecision A} :
  EqDecision (result E A).
Proof. solve_decision. Defined.

(** [guard b else e]: the code's [if !b { return err }]. *)
Definition ensure {E} (b : bool) (e : E) : result E unit :=
  if b then Ok tt else Err e.

(** [fmt.Errorf("ctx: %w", err)] around a call. *)
Definition wrap_err {E A} (f : E → E) (r : result E A) : result E A :=
  match r with Ok a => Ok a | Err e => Err (f e) end.

(** A Go [(T, bool)] or pointer that must be present. *)
Definition or_err {E A} (o : option A) (e : E) : result E A :=
  match o with Some a => Ok a | None => Err e end.

(** The loop [for _, x := range xs { y, err := f(x); ...; ys = append(ys, y) }]. *)
Fixpoint mapM_result {E A B} (f : A → result E B) (xs : list A) : result E (list B) :=
  match xs with
  | [] => Ok []
  | x :: xs' => y ← f x; ys ← mapM_result f xs'; Ok (y :: ys)
  end.

(** ** Bytes *)

Abbreviation bytes := (list byte).

#[export] Instance byte_eq_dec : EqDecision byte := Byte.byte_eq_dec.
#[export] Instance byte_countable : Countable byte.
Proof.
  refine (inj_countable Byte.to_N Byte.of_N _). intros b. apply Byte.of_to_N.
Defined.

Definition Z_of_byte (b : byte) : Z := Z.of_N (Byte.to_N b).
(** The conversion [byte(v)]: it keeps the low eight bits. *)
Definition byte_of_Z (z : Z) : byte :=
  default Byte.x00 (Byte.of_N (Z.to_N (z mod 256))).

(** Go strings are immutable byte sequences, as [String.string] is. *)
Definition bytes_of_string (s : string) : bytes := String.list_byte_of_string s.
Definition string_of_bytes (b : bytes) : string := String.string_of_list_byte b.

Definition blen {A} (l : list A) : Z := Z.of_nat (length l).

(** A zeroed [n]-byte array. *)
Definition zero_bytes (n : nat) : bytes := repeat Byte.x00 n.

(** ** Machine integers *)

Definition is_uint (w : Z) (v : Z) : Prop := 0 ≤ v < 2 ^ w.
Abbreviation is_u16 := (is_uint 16).
Abbreviation is_u32 := (is_uint 32).
Abbreviation is_u64 := (is_uint 64).

(** Wrap-around arithmetic of Go's unsigned types. *)
Definition wrap_u32 (v : Z) : Z := v mod 2 ^ 32.
Definition wrap_u64 (v : Z) : Z := v mod 2 ^ 64.
Definition max_u64 : Z := 2 ^ 64 - 1.
Definition max_i64 : Z := 2 ^ 63 - 1.

#[export] Instance is_uint_dec w v : Decision (is_uint w v).
Proof. unfold is_uint. apply _. Defined.

(** ** Iterating over a Go map

    The order of [for k, v := range m] is unspecified, so every definition that
    depends on it takes the order as a parameter: a list of the map's entries,
    each once, in some order. *)
Class MapRange (K V : Type) `{Countable K} := {
  map_range : gmap K V → list (K * V);
  map_range_perm : ∀ m, map_range m ≡ₚ map_to_list m;
}.

(** One such order, for witnesses. *)
Definition canonical_range {K V} `{Countable K} : MapRange K V :=
  {| map_range := map_to_list; map_range_perm m := reflexivity _ |}.

(** ** Association lists with strictly ascending keys *)

Fixpoint ascending (ks : list Z) : bool :=
  match ks with
  | [] => true
  | k :: rest =>
    match rest with
    | [] => true
    | k' :: _ => (k <? k') && ascending rest
    end
  end.

Fixpoint assoc {V} (k : Z) (l : list (Z * V)) : option V :=
  match l with
  | [] => None
  | (k', v) :: l' => if k' =? k then Some v else assoc k l'
  end.

(** ** Automation *)

Create HintDb lcp.
Create Rewrite HintDb lcp.

(** Inversion of a chain of binds, guards and conditionals in a hypothesis. *)
Lemma bind_ok_inv {E A B} (r : result E A) (f : A → result E B) b :
  r ≫= f = Ok b → ∃ a, r = Ok a ∧ f a = Ok b.
Proof. destruct r as [a|e]; simpl; [eauto|discriminate]. Qed.

Lemma ensure_ok_inv {E} b (e : E) u : ensure b e = Ok u → b = true.
Proof. unfold ensure. by destruct b. Qed.

Lemma wrap_err_ok_inv {E A} (f : E → E) (r : result E A) a :
  wrap_err f r = Ok a → r = Ok a.
Proof. destruct r; naive_solver. Qed.

Lemma or_err_ok_inv {E A} (o : option A) (e : E) a :
  or_err o e = Ok a → o = Some a.
Proof. destruct o; naive_solver. Qed.

Ltac invert_ok :=
  repeat match goal with
  | H : _ ≫= _ = Ok _ |- _ =>
      apply bind_ok_inv in H; let x := fresh "x" in let Hx := fresh "Hx" in
      destruct H as (x & Hx & H)
  | H : ensure _ _ = Ok _ |- _ => apply ensure_ok_inv in H
  | H : wrap_err _ _ = Ok _ |- _ => apply wrap_err_ok_inv in H
  | H : or_err _ _ = Ok _ |- _ => apply or_err_ok_inv in H
  | H : Ok _ = Ok _ |- _ => injection H as H
  | H : Err _ = Ok _ |- _ => discriminate H
  end.

(** Split every conditional and match of the goal, keeping the equations. *)
Ltac split_matches :=
  repeat match goal with
  | |- context [match ?x with _ => _ end] => destruct x eqn:?
  end.

Ltac split_matches_in H :=
  repeat match type of H with
  | context [match ?x with _ => _ end] => destruct x eqn:?
  end.

(** Turn boolean comparisons in the context into propositions. *)
Ltac bool_to_prop :=
  repeat match goal with
  | H : (_ && _) = true |- _ => apply andb_true_iff in H as [? ?]
  | H : (_ || _) = false |- _ => apply orb_false_iff in H as [? ?]
  | H : (_ =? _) = true |- _ => apply Z.eqb_eq in H
  | H : (_ =? _) = false |- _ => apply Z.eqb_neq in H
  | H : (_ <? _) = true |- _ => apply Z.ltb_lt in H
  | H : (_ <? _) = false |- _ => apply Z.ltb_ge in H
  | H : (_ <=? _) = true |- _ => apply Z.leb_le in H
  | H : (_ <=? _) = false |- _ => apply Z.leb_gt in H
  | H : bool_decide _ = true |- _ => apply bool_decide_eq_true in H
  | H : bool_decide _ = false |- _ => apply bool_decide_eq_false in H
  | H : negb _ = true |- _ => apply negb_true_iff in H
  | H : negb _ = false |- _ => apply negb_false_iff in H
  end.

(** ** Lemmas: bytes *)

Lemma Z_of_byte_range b : 0 ≤ Z_of_byte b < 256.
Proof. unfold Z_of_byte. pose proof (Byte.to_N_bounded b). lia. Qed.

Lemma Z_of_byte_of_Z z : Z_of_byte (byte_of_Z z) = z mod 256.
Proof.
  unfold Z_of_byte, byte_of_Z. pose proof (Z.mod_pos_bound z 256 eq_refl).
  destruct (Byte.of_N (Z.to_N (z mod 256))) as [b|] eqn:E; simpl.
  - apply Byte.to_of_N in E. lia.
  - apply Byte.of_N_None_iff in E. lia.
Qed.

Lemma byte_of_Z_of_byte b : byte_of_Z (Z_of_byte b) = b.
Proof.
  unfold Z_of_byte, byte_of_Z. pose proof (Byte.to_N_bounded b).
  rewrite Z.mod_small by lia. by rewrite N2Z.id, Byte.of_to_N.
Qed.

#[export] Instance Z_of_byte_inj : Inj (=) (=) Z_of_byte.
Proof. intros a b H. by rewrite <-(byte_of_Z_of_byte a), H, byte_of_Z_of_byte. Qed.

Lemma string_of_bytes_of_string s : string_of_bytes (bytes_of_string s) = s.
Proof. apply String.string_of_list_byte_of_string. Qed.

Lemma bytes_of_string_of_bytes b : bytes_of_string (string_of_bytes b) = b.
Proof. apply String.list_byte_of_string_of_list_byte. Qed.

Lemma bytes_of_string_append s t : bytes_of_string (s +:+ t) = bytes_of_string s ++ bytes_of_string t.
Proof.
  unfold bytes_of_string, String.list_byte_of_string. rewrite <-map_app. f_equal.
  induction s as [|c s IH]; [done|]. simpl. by rewrite IH.
Qed.

#[export] Instance bytes_of_string_inj : Inj (=) (=) bytes_of_string.
Proof. intros a b H. by rewrite <-(string_of_bytes_of_string a), H, string_of_bytes_of_string. Qed.

Lemma blen_nonneg {A} (l : list A) : 0 ≤ blen l.
Proof. unfold blen. lia. Qed.

Lemma blen_app {A} (l k : list A) : blen (l ++ k) = blen l + blen k.
Proof. unfold blen. rewrite length_app. lia. Qed.

Lemma blen_zero {A} (l : list A) : blen l = 0 ↔ l = [].
Proof. unfold blen. destruct l; simpl; split; try done; lia. Qed.

#[export] Hint Rewrite string_of_bytes_of_string bytes_of_string_of_bytes @blen_app : lcp.
#[export] Hint Resolve blen_nonneg Z_of_byte_range : lcp.

(** ** Lemmas: ascending association lists *)

Lemma ascending_cons_inv k ks :
  ascending (k :: ks) = true → ascending ks = true ∧ Forall (λ k', k < k') ks.
Proof.
  revert k; induction ks as [|k1 ks IH]; intros k H; [by split|].
  change (((k <? k1) && ascending (k1 :: ks)) = true) in H.
  apply andb_true_iff in H as [Hlt H]. apply Z.ltb_lt in Hlt.
  destruct (IH _ H) as [? Hall]. split; [done|]. constructor; [done|].
  eapply Forall_impl; [exact Hall|]. simpl. lia.
Qed.

Lemma ascending_cons k ks :
  ascending ks = true → Forall (λ k', k < k') ks → ascending (k :: ks) = true.
Proof.
  intros H Hall. destruct ks as [|k1 ks]; [done|].
  change (((k <? k1) && ascending (k1 :: ks)) = true).
  apply Forall_cons_1 in Hall as [Hlt _]. apply andb_true_iff. split; [lia|done].
Qed.

Lemma ascending_NoDup ks : ascending ks = true → NoDup ks.
Proof.
  induction ks as [|k ks IH]; intros H; [constructor|].
  apply ascending_cons_inv in H as [H Hall]. constructor; [|by apply IH].
  intros Hin. rewrite Forall_forall in Hall. apply Hall in Hin. lia.
Qed.

Lemma lookup_list_to_map_assoc {V} (l : list (Z * V)) k :
  (list_to_map l : gmap Z V) !! k = assoc k l.
Proof.
  induction l as [|[k' v] l IH]; simpl; [apply lookup_empty|].
  rewrite lookup_insert. case_decide as Hk; destruct (Z.eqb_spec k' k); naive_solver.
Qed.

(** Two ascending lists with the same map are equal: the map determines the
    canonical order. *)
Lemma ascending_list_to_map_inj {V} (l1 l2 : list (Z * V)) :
  ascending l1.*1 = true → ascending l2.*1 = true →
  (list_to_map l1 : gmap Z V) = list_to_map l2 → l1 = l2.
Proof.
  intros H1 H2 Heq.
  assert (Hp : l1 ≡ₚ l2).
  { rewrite <-(map_to_list_to_map (M := gmap Z) l1) by (by apply ascending_NoDup).
    rewrite Heq. apply map_to_list_to_map. by apply ascending_NoDup. }
  clear Heq. revert l2 H2 Hp. induction l1 as [|[k v] l1 IH]; intros l2 H2 Hp.
  { by apply Permutation_nil in Hp. }
  destruct l2 as [|[k' v'] l2]; [symmetry in Hp; by apply Permutation_nil in Hp|].
  simpl in H1, H2. apply ascending_cons_inv in H1 as [H1 F1].
  apply ascending_cons_inv in H2 as [H2 F2]. rewrite Forall_forall in F1, F2.
  assert (Hkv : (k, v) = (k', v')).
  { assert (Ha : (k, v) ∈ (k', v') :: l2) by (rewrite <-Hp; left).
    assert (Hb : (k', v') ∈ (k, v) :: l1) by (rewrite Hp; left).
    apply elem_of_cons in Ha as [?|Ha]; [done|].
    apply elem_of_cons in Hb as [?|Hb]; [done|].
    apply (list_elem_of_fmap_2 fst) in Ha. apply (list_elem_of_fmap_2 fst) in Hb.
    apply F2 in Ha. apply F1 in Hb. simpl in *. lia. }
  rewrite Hkv in Hp |- *. f_equal. apply IH; [done..|].
  by eapply Permutation_cons_inv.
Qed.

(** ** Lemmas: ranges over maps *)

Section map_range.
Context {K V : Type} `{Countable K} `{!MapRange K V}.

Lemma elem_of_map_range (m : gmap K V) k v :
  (k, v) ∈ map_range m ↔ m !! k = Some v.
Proof. rewrite map_range_perm. apply elem_of_map_to_list. Qed.

Lemma map_range_empty_inv (m : gmap K V) : map_range m = [] → m = ∅.
Proof.
  intros Hm. apply map_to_list_empty_iff. apply Permutation_nil.
  by rewrite <-map_range_perm, Hm.
Qed.

(** Deleting, while ranging over the map, every entry that satisfies a test
    leaves exactly the entries that fail it. *)
Definition range_delete (P : K → V → bool) (m : gmap K V) : gmap K V :=
  fold_left (λ acc '(k, v), if P k v then delete k acc else acc) (map_range m) m.

Lemma fold_delete_keep (P : K → V → bool) l (acc : gmap K V) k :
  (∀ v, (k, v) ∈ l → P k v = false) →
  fold_left (λ acc '(k, v), if P k v then delete k acc else acc) l acc !! k = acc !! k.
Proof.
  revert acc; induction l as [|[k0 v0] l IH]; intros acc Hl; [done|]. simpl.
  rewrite IH by (intros v Hv; apply Hl; by right).
  destruct (P k0 v0) eqn:HP; [|done].
  destruct (decide (k0 = k)) as [->|]; [|by rewrite lookup_delete_ne].
  rewrite Hl in HP; [done|left].
Qed.

Lemma fold_delete_drop (P : K → V → bool) l (acc : gmap K V) k v :
  (k, v) ∈ l → P k v = true →
  fold_left (λ acc '(k, v), if P k v then delete k acc else acc) l acc !! k = None.
Proof.
  assert (Hnone : ∀ l (acc : gmap K V), acc !! k = None →
    fold_left (λ acc '(k, v), if P k v then delete k acc else acc) l acc !! k = None).
  { clear l acc. induction l as [|[k0 v0] l IH]; intros acc Hacc; [done|]. simpl. apply IH.
    destruct (P k0 v0); [|done]. rewrite lookup_delete. by case_decide. }
  revert acc; induction l as [|[k0 v0] l IH]; intros acc Hin HP; [by apply elem_of_nil in Hin|].
  apply elem_of_cons in Hin as [[= -> ->]|Hin]; simpl; [|by apply IH].
  rewrite HP. apply Hnone. apply lookup_delete_eq.
Qed.

Lemma range_delete_filter (P : K → V → bool) (m : gmap K V) :
  range_delete P m = filter (λ kv, P kv.1 kv.2 = false) m.
Proof.
  apply map_eq. intros k. unfold range_delete. rewrite map_lookup_filter.
  destruct (m !! k) as [v|] eqn:Hk; simpl.
  - destruct (P k v) eqn:HP.
    + rewrite option_guard_False by (simpl; congruence).
      eapply fold_delete_drop; [by apply elem_of_map_range|done].
    + rewrite option_guard_True by done. rewrite fold_delete_keep; [done|].
      intros v' Hin. apply elem_of_map_range in Hin. naive_solver.
  - rewrite fold_delete_keep; [done|].
    intros v' Hin. apply elem_of_map_range in Hin. naive_solver.
Qed.

Lemma lookup_range_delete (P : K → V → bool) (m : gmap K V) k v :
  range_delete P m !! k = Some v ↔ m !! k = Some v ∧ P k v = false.
Proof. rewrite range_delete_filter. apply map_lookup_filter_Some. Qed.
End map_range.
