(* ===== verification/Trace.v ===== *)
(** * Programs that leave a trace

    A monad that counts the effects of a program and collects its events: what the
    program cannot compute is answered by a function of the number of the effect, so
    that nothing relates two answers.  [gpost] is its program logic: what the events
    and the value of a program satisfy, whatever the answers. *)

From S2P Require Import Prelude.

(** ** The monad *)

Definition TM (E A : Type) : Type := nat → (nat * list E) * A.

#[export] Instance TM_ret {E} : MRet (TM E) := λ A a t, ((t, []), a).
#[export] Instance TM_bind {E} : MBind (TM E) := λ A B k m t,
  let r := m t in let r' := k r.2 r.1.1 in ((r'.1.1, r.1.2 ++ r'.1.2), r'.2).

Section monad.
Context {E : Type}.

Definition emit (e : E) : TM E unit := λ t, ((t, [e]), tt).
Definition ask {A} (f : nat → A) : TM E A := λ t, ((S t, []), f t).
(** A call with its answer in the trace. *)
Definition rpc {A} (ev : A → E) (f : nat → A) : TM E A := λ t, ((S t, [ev (f t)]), f t).

(** The program ends when a step has. *)
Definition and_then {A} (m : TM E (option A)) (k : A → TM E unit) : TM E unit :=
  r ← m; match r with Some a => k a | None => mret tt end.

Definition trace {A} (m : TM E A) : list E := (m 0%nat).1.2.
End monad.

Notation "x ←? y ; z" := (and_then y (λ x : _, z))
  (at level 20, y at level 100, z at level 200, only parsing).

(** ** A program logic *)

Section logic.
Context {E : Type}.

(** Whenever it runs, [m] leaves events and a value with [P]. *)
Definition gpost {A} (m : TM E A) (P : list E → A → Prop) : Prop := ∀ t, P (m t).1.2 (m t).2.

Lemma gpost_ret {A} (a : A) P : P [] a → gpost (mret a) P.
Proof. by intros H t. Qed.

Lemma gpost_bind {A B} (m : TM E A) (k : A → TM E B) P Q :
  gpost m P → (∀ evs a, P evs a → gpost (k a) (λ evs' b, Q (evs ++ evs') b)) → gpost (m ≫= k) Q.
Proof. intros Hm Hk t. exact (Hk _ _ (Hm t) _). Qed.

Lemma gpost_conseq {A} (m : TM E A) P Q :
  gpost m P → (∀ evs a, P evs a → Q evs a) → gpost m Q.
Proof. intros Hm HPQ t. apply HPQ, Hm. Qed.

Lemma gpost_emit e P : P [e] tt → gpost (emit e) P.
Proof. by intros H t. Qed.

Lemma gpost_ask {A} (f : nat → A) P : (∀ t, P [] (f t)) → gpost (ask f) P.
Proof. intros H t. apply H. Qed.

Lemma gpost_rpc {A} (ev : A → E) (f : nat → A) P : (∀ t, P [ev (f t)] (f t)) → gpost (rpc ev f) P.
Proof. intros H t. apply H. Qed.

Lemma gpost_and_then {A} (m : TM E (option A)) (k : A → TM E unit) P Q :
  gpost m P →
  (∀ evs, P evs None → Q evs tt) →
  (∀ evs a, P evs (Some a) → gpost (k a) (λ evs' b, Q (evs ++ evs') b)) →
  gpost (and_then m k) Q.
Proof.
  intros Hm Hn Hs. eapply gpost_bind; [exact Hm|]. intros evs [a|] H; [by apply Hs|].
  apply gpost_ret. rewrite app_nil_r. by apply Hn.
Qed.

End logic.

(** Run a computation whose branches have been chosen. *)
Ltac gm_run := cbv [mbind TM_bind mret TM_ret emit ask rpc]; cbn.

(** ** Every event of a computation *)

(** All events satisfy [R], whatever is returned. *)
Definition all_events {E A} (R : E → Prop) (m : TM E A) : Prop := gpost m (λ evs _, Forall R evs).

Section all_events.
Context {E : Type} (R : E → Prop).

Lemma all_ret {A} (a : A) : all_events R (mret a).
Proof. apply gpost_ret. constructor. Qed.

Lemma all_bind {A B} (m : TM E A) (k : A → TM E B) :
  all_events R m → (∀ a, all_events R (k a)) → all_events R (m ≫= k).
Proof.
  intros Hm Hk. eapply gpost_bind; [exact Hm|]. intros evs a H. eapply gpost_conseq; [apply Hk|].
  intros. by apply Forall_app.
Qed.

Lemma all_emit e : R e → all_events R (emit e).
Proof. intros. apply gpost_emit. by constructor. Qed.

Lemma all_ask {A} (f : nat → A) : all_events R (ask f).
Proof. apply gpost_ask. constructor. Qed.

Lemma all_rpc {A} (ev : A → E) f : (∀ a, R (ev a)) → all_events R (rpc ev f).
Proof. intros. apply gpost_rpc. intros t. by constructor. Qed.

Lemma all_and_then {A} (m : TM E (option A)) (k : A → TM E unit) :
  all_events R m → (∀ a, all_events R (k a)) → all_events R (and_then m k).
Proof. intros Hm Hk. apply all_bind; [done|]. intros [a|]; [apply Hk|apply all_ret]. Qed.

Lemma gpost_all {A} (m : TM E A) Q :
  all_events R m → (∀ evs a, Forall R evs → Q evs a) → gpost m Q.
Proof. apply gpost_conseq. Qed.
End all_events.

(** Walk through a computation; leaves are closed by computation. *)
Ltac all_events_step :=
  match goal with
  | |- all_events _ (mret _) => apply all_ret
  | |- all_events _ (_ ≫= _) => apply all_bind; [|intros ?]
  | |- all_events _ (and_then _ _) => apply all_and_then; [|intros ?]
  | |- all_events _ (emit _) => apply all_emit
  | |- all_events _ (ask _) => apply all_ask
  | |- all_events _ (rpc _ _) => apply all_rpc; intros ?
  | |- all_events _ (match ?x with _ => _ end) => destruct x
  end.
