(* ===== verification/GoStd.v ===== *)
(** * The Go standard library, as far as go-lcpd uses it

    - [encoding/binary]: big-endian integers ([be_bytes], [be_Z]);
    - [unicode/utf8]: [utf8_valid] is [utf8.Valid] (RFC 3629: no overlong forms,
      no surrogates, nothing above U+10FFFF);
    - [encoding/hex]: [hex_encode], [hex_decode];
    - [crypto/sha256]: [sha256_sum] is [sha256.Sum256] (FIPS 180-4), checked on
      the standard test vectors;
    - [time]: a [time.Time] is the number of nanoseconds since the Unix epoch;
    - [strings.TrimSpace] and [strconv.ParseInt]/[ParseUint] in base 10, as
      [envconfig] uses them. *)

From S2P Require Import Prelude.

(** ** encoding/binary *)

(** [binary.BigEndian.PutUintN]: the [n] low bytes of [v], most significant first. *)
Fixpoint be_bytes (n : nat) (v : Z) : bytes :=
  match n with
  | O => []
  | S k => byte_of_Z (Z.shiftr v (8 * Z.of_nat k)) :: be_bytes k v
  end.

(** [binary.BigEndian.UintN]. *)
Definition be_Z (bs : bytes) : Z :=
  fold_left (λ acc b, 256 * acc + Z_of_byte b) bs 0.

(** ** unicode/utf8 *)

Definition in_range (lo hi : Z) (b : byte) : bool :=
  (lo <=? Z_of_byte b) && (Z_of_byte b <=? hi).

Definition is_cont (b : byte) : bool := in_range 0x80 0xbf b.

Fixpoint utf8_valid (bs : bytes) : bool :=
  match bs with
  | [] => true
  | b0 :: r0 =>
    if in_range 0x00 0x7f b0 then utf8_valid r0 else
    match r0 with
    | [] => false
    | b1 :: r1 =>
      if in_range 0xc2 0xdf b0 then is_cont b1 && utf8_valid r1 else
      match r1 with
      | [] => false
      | b2 :: r2 =>
        if in_range 0xe0 0xef b0 then
          (if in_range 0xe0 0xe0 b0 then in_range 0xa0 0xbf b1
           else if in_range 0xed 0xed b0 then in_range 0x80 0x9f b1
           else is_cont b1) && is_cont b2 && utf8_valid r2
        else
        match r2 with
        | [] => false
        | b3 :: r3 =>
          in_range 0xf0 0xf4 b0 &&
          (if in_range 0xf0 0xf0 b0 then in_range 0x90 0xbf b1
           else if in_range 0xf4 0xf4 b0 then in_range 0x80 0x8f b1
           else is_cont b1) && is_cont b2 && is_cont b3 && utf8_valid r3
        end
      end
    end
  end.

(** ** encoding/hex *)

Definition hex_digit (v : Z) : byte :=
  byte_of_Z (if v <? 10 then 48 + v else 87 + v).

Definition hex_value (b : byte) : option Z :=
  let z := Z_of_byte b in
  if in_range 48 57 b then Some (z - 48)
  else if in_range 97 102 b then Some (z - 87)
  else if in_range 65 70 b then Some (z - 55)
  else None.

Definition hex_encode_bytes (bs : bytes) : bytes :=
  b ← bs; [hex_digit (Z_of_byte b / 16); hex_digit (Z_of_byte b mod 16)].

(** [hex.EncodeToString]. *)
Definition hex_encode (bs : bytes) : string := string_of_bytes (hex_encode_bytes bs).

Fixpoint hex_decode_bytes (bs : bytes) : option bytes :=
  match bs with
  | [] => Some []
  | hi :: lo :: rest =>
    h ← hex_value hi; l ← hex_value lo; r ← hex_decode_bytes rest;
    Some (byte_of_Z (16 * h + l) :: r)
  | _ => None
  end.

(** [hex.DecodeString]: [None] for an odd length or a character that is not a
    hexadecimal digit. *)
Definition hex_decode (s : string) : option bytes := hex_decode_bytes (bytes_of_string s).

(** ** crypto/sha256 *)

Module Sha256.

Definition round_constants : list Z := [
  1116352408; 1899447441; 3049323471; 3921009573; 961987163; 1508970993;
  2453635748; 2870763221; 3624381080; 310598401; 607225278; 1426881987;
  1925078388; 2162078206; 2614888103; 3248222580; 3835390401; 4022224774;
  264347078; 604807628; 770255983; 1249150122; 1555081692; 1996064986;
  2554220882; 2821834349; 2952996808; 3210313671; 3336571891; 3584528711;
  113926993; 338241895; 666307205; 773529912; 1294757372; 1396182291;
  1695183700; 1986661051; 2177026350; 2456956037; 2730485921; 2820302411;
  3259730800; 3345764771; 3516065817; 3600352804; 4094571909; 275423344;
  430227734; 506948616; 659060556; 883997877; 958139571; 1322822218;
  1537002063; 1747873779; 1955562222; 2024104815; 2227730452; 2361852424;
  2428436474; 2756734187; 3204031479; 3329325298 ].

(** The eight chaining words. *)
Record chain := Chain { wa : Z; wb : Z; wc : Z; wd : Z; we : Z; wf : Z; wg : Z; wh : Z }.

Definition initial : chain :=
  Chain 1779033703 3144134277 1013904242 2773480762
        1359893119 2600822924 528734635 1541459225.

Definition rot_right (n x : Z) : Z :=
  Z.lor (Z.shiftr x n) (wrap_u32 (Z.shiftl x (32 - n))).

Definition xor3 (x y z : Z) : Z := Z.lxor x (Z.lxor y z).

Definition big_sigma0 (x : Z) := xor3 (rot_right 2 x) (rot_right 13 x) (rot_right 22 x).
Definition big_sigma1 (x : Z) := xor3 (rot_right 6 x) (rot_right 11 x) (rot_right 25 x).
Definition small_sigma0 (x : Z) := xor3 (rot_right 7 x) (rot_right 18 x) (Z.shiftr x 3).
Definition small_sigma1 (x : Z) := xor3 (rot_right 17 x) (rot_right 19 x) (Z.shiftr x 10).

Definition choose (x y z : Z) := Z.lxor (Z.land x y) (Z.land (2 ^ 32 - 1 - x) z).
Definition majority (x y z : Z) := xor3 (Z.land x y) (Z.land x z) (Z.land y z).

(** One round with its constant and message word. *)
Definition round (k w : Z) (s : chain) : chain :=
  let t1 := wh s + big_sigma1 (we s) + choose (we s) (wf s) (wg s) + k + w in
  let t2 := big_sigma0 (wa s) + majority (wa s) (wb s) (wc s) in
  Chain (wrap_u32 (t1 + t2)) (wa s) (wb s) (wc s)
        (wrap_u32 (wd s + t1)) (we s) (wf s) (wg s).

(** The schedule as a sliding window of the next sixteen message words. *)
Definition slide (win : list Z) : list Z :=
  tail win ++
  [wrap_u32 (small_sigma1 (nth 14 win 0) + nth 9 win 0 + small_sigma0 (nth 1 win 0) + nth 0 win 0)].

Fixpoint rounds (ks win : list Z) (s : chain) : chain :=
  match ks with
  | [] => s
  | k :: ks' => rounds ks' (slide win) (round k (nth 0 win 0) s)
  end.

Definition add_chain (s t : chain) : chain :=
  Chain (wrap_u32 (wa s + wa t)) (wrap_u32 (wb s + wb t))
        (wrap_u32 (wc s + wc t)) (wrap_u32 (wd s + wd t))
        (wrap_u32 (we s + we t)) (wrap_u32 (wf s + wf t))
        (wrap_u32 (wg s + wg t)) (wrap_u32 (wh s + wh t)).

Definition compress (s : chain) (block : list Z) : chain :=
  add_chain s (rounds round_constants block s).

(** 0x80, zeroes up to 56 mod 64, the bit length in eight bytes. *)
Definition pad (msg : bytes) : bytes :=
  msg ++ Byte.x80 :: repeat Byte.x00 (Z.to_nat ((55 - blen msg) mod 64))
      ++ be_bytes 8 (8 * blen msg).

(** Big-endian 32-bit words. *)
Fixpoint words (bs : bytes) : list Z :=
  match bs with
  | b0 :: b1 :: b2 :: b3 :: rest => be_Z [b0; b1; b2; b3] :: words rest
  | _ => []
  end.

(** Every block takes sixteen words, so [length ws] steps are enough. *)
Fixpoint absorb (fuel : nat) (ws : list Z) (s : chain) : chain :=
  match fuel, ws with
  | S fuel', _ :: _ => absorb fuel' (drop 16 ws) (compress s (take 16 ws))
  | _, _ => s
  end.

Definition digest (s : chain) : bytes :=
  be_bytes 4 (wa s) ++ be_bytes 4 (wb s) ++ be_bytes 4 (wc s) ++ be_bytes 4 (wd s) ++
  be_bytes 4 (we s) ++ be_bytes 4 (wf s) ++ be_bytes 4 (wg s) ++ be_bytes 4 (wh s).

End Sha256.

(** [sha256.Sum256]. *)
Definition sha256_sum (msg : bytes) : bytes :=
  let ws := Sha256.words (Sha256.pad msg) in
  Sha256.digest (Sha256.absorb (length ws) ws Sha256.initial).

#[global] Arguments sha256_sum : simpl never.

(** ** time *)

Definition ns_per_sec : Z := 1_000_000_000.
(** [t.Unix()]: whole seconds since the epoch, rounded down. *)
Definition time_unix (t : Z) : Z := t / ns_per_sec.
(** The zero [time.Time], January 1 of year 1 UTC. *)
Definition time_zero : Z := -62135596800 * ns_per_sec.
Definition time_is_zero (t : Z) : bool := t =? time_zero.
(** [t.Before(u)]. *)
Definition time_before (t u : Z) : bool := t <? u.

(** ** strings.TrimSpace, strings.EqualFold and strconv *)

Definition is_space (b : byte) : bool :=
  in_range 9 13 b || in_range 32 32 b.

(** The white space of Unicode outside ASCII, as its UTF-8 encodings: U+0085 and
    U+00A0; U+1680, U+2000 to U+200A, U+2028, U+2029, U+202F, U+205F and U+3000. *)
Definition is_space2 (b1 b2 : byte) : bool :=
  in_range 0xc2 0xc2 b1 && (in_range 0x85 0x85 b2 || in_range 0xa0 0xa0 b2).
Definition is_space3 (b1 b2 b3 : byte) : bool :=
  (in_range 0xe1 0xe1 b1 && in_range 0x9a 0x9a b2 && in_range 0x80 0x80 b3) ||
  (in_range 0xe2 0xe2 b1 && in_range 0x80 0x80 b2 &&
     (in_range 0x80 0x8a b3 || in_range 0xa8 0xa9 b3 || in_range 0xaf 0xaf b3)) ||
  (in_range 0xe2 0xe2 b1 && in_range 0x81 0x81 b2 && in_range 0x9f 0x9f b3) ||
  (in_range 0xe3 0xe3 b1 && in_range 0x80 0x80 b2 && in_range 0x80 0x80 b3).

(** Strip white space from the front; [sp2] and [sp3] recognise the longer encodings. *)
Fixpoint strip (sp2 : byte → byte → bool) (sp3 : byte → byte → byte → bool) (bs : bytes) : bytes :=
  match bs with
  | [] => []
  | b1 :: r1 =>
    if is_space b1 then strip sp2 sp3 r1 else
    match r1 with
    | [] => bs
    | b2 :: r2 =>
      if sp2 b1 b2 then strip sp2 sp3 r2 else
      match r2 with
      | [] => bs
      | b3 :: r3 => if sp3 b1 b2 b3 then strip sp2 sp3 r3 else bs
      end
    end
  end.

Definition trim_left : bytes → bytes := strip is_space2 is_space3.
(** On the reversed bytes the encodings are reversed. *)
Definition trim_right (bs : bytes) : bytes :=
  rev (strip (λ b2 b1, is_space2 b1 b2) (λ b3 b2 b1, is_space3 b1 b2 b3) (rev bs)).

Definition trim_space (bs : bytes) : bytes := trim_right (trim_left bs).
Definition TrimSpace (s : string) : string := string_of_bytes (trim_space (bytes_of_string s)).

(** [strings.ToLower] and [strings.EqualFold], on ASCII strings. *)
Definition lower (b : byte) : byte :=
  if in_range 65 90 b then byte_of_Z (Z_of_byte b + 32) else b.
Definition to_lower (s : string) : string := string_of_bytes (lower <$> bytes_of_string s).
Definition equal_fold (s t : string) : bool := bool_decide (to_lower s = to_lower t).

Fixpoint parse_digits (acc : Z) (bs : bytes) : option Z :=
  match bs with
  | [] => Some acc
  | b :: rest => if in_range 48 57 b then parse_digits (10 * acc + (Z_of_byte b - 48)) rest else None
  end.

(** [strconv.ParseUint(s, 10, 64)]. *)
Definition parse_uint64 (bs : bytes) : option Z :=
  match bs with
  | [] => None
  | _ => v ← parse_digits 0 bs; if v <=? max_u64 then Some v else None
  end.

(** [strconv.ParseInt(s, 10, 64)]: an optional sign, then digits. *)
Definition parse_int64 (bs : bytes) : option Z :=
  match bs with
  | [] => None
  | b :: rest =>
    let neg := in_range 45 45 b in
    let ds := if neg || in_range 43 43 b then rest else bs in
    match ds with
    | [] => None
    | _ =>
      v ← parse_digits 0 ds;
      let v := if neg then - v else v in
      if (- 2 ^ 63 <=? v) && (v <=? max_i64) then Some v else None
    end
  end.

(** ** Test vectors *)

Definition hex_of_sum (msg : string) : string := hex_encode (sha256_sum (bytes_of_string msg)).

Example sha256_empty :
  hex_of_sum "" = "e3b0c44298fc1c149afbf4c8996fb92427ae41e4649b934ca495991b7852b855"%string.
Proof. vm_compute. reflexivity. Qed.

Example sha256_abc :
  hex_of_sum "abc" = "ba7816bf8f01cfea414140de5dae2223b00361a396177a9cb410ff61f20015ad"%string.
Proof. vm_compute. reflexivity. Qed.

Example sha256_two_blocks :
  hex_of_sum "abcdbcdecdefdefgefghfghighijhijkijkljklmklmnlmnomnopnopq" =
  "248d6a61d20638b8e5c026930c3e6039a33ce45964ff2167f6ecedd419db06c1"%string.
Proof. vm_compute. reflexivity. Qed.

Example utf8_examples :
  utf8_valid (bytes_of_string "abc") = true ∧
  utf8_valid [Byte.xc3; Byte.xa9] = true ∧
  utf8_valid [Byte.xed; Byte.xa0; Byte.x80] = false ∧
  utf8_valid [Byte.xc0; Byte.x80] = false ∧
  utf8_valid [Byte.xf4; Byte.x90; Byte.x80; Byte.x80] = false.
Proof. vm_compute. tauto. Qed.

(** No-break and ideographic spaces are white space, a stray continuation byte is not. *)
Example trim_examples :
  trim_space [Byte.xc2; Byte.xa0; Byte.x61; Byte.xe3; Byte.x80; Byte.x80; Byte.x20] = [Byte.x61] ∧
  trim_space [Byte.x61; Byte.xa0] = [Byte.x61; Byte.xa0] ∧
  TrimSpace " a b " = "a b"%string ∧ equal_fold "02aB" "02Ab" = true.
Proof. vm_compute. tauto. Qed.

(** ** Big-endian lemmas *)

Lemma length_be_bytes n v : length (be_bytes n v) = n.
Proof. induction n; simpl; congruence. Qed.

Lemma blen_be_bytes n v : blen (be_bytes n v) = Z.of_nat n.
Proof. unfold blen. by rewrite length_be_bytes. Qed.

Lemma be_Z_acc bs acc :
  fold_left (λ acc b, 256 * acc + Z_of_byte b) bs acc = acc * 256 ^ blen bs + be_Z bs.
Proof.
  unfold be_Z, blen. revert acc. induction bs as [|b bs IH]; intros acc.
  { simpl. lia. }
  cbn [fold_left length]. rewrite IH, (IH (256 * 0 + Z_of_byte b)).
  rewrite Nat2Z.inj_succ, Z.pow_succ_r by lia. ring.
Qed.

Lemma be_Z_cons b bs : be_Z (b :: bs) = Z_of_byte b * 256 ^ blen bs + be_Z bs.
Proof. unfold be_Z at 1. cbn [fold_left]. rewrite be_Z_acc. lia. Qed.

Lemma be_Z_range bs : 0 ≤ be_Z bs < 256 ^ blen bs.
Proof.
  unfold blen. induction bs as [|b bs IH]; [done|]. rewrite be_Z_cons. unfold blen.
  pose proof (Z_of_byte_range b). simpl length.
  rewrite Nat2Z.inj_succ, Z.pow_succ_r by lia. nia.
Qed.

Lemma be_Z_be_bytes n v : be_Z (be_bytes n v) = v mod 256 ^ Z.of_nat n.
Proof.
  induction n as [|n IH]; [by rewrite Z.mod_1_r|].
  simpl be_bytes. rewrite be_Z_cons, IH, Z_of_byte_of_Z, blen_be_bytes.
  rewrite Z.shiftr_div_pow2 by lia.
  replace (2 ^ (8 * Z.of_nat n)) with (256 ^ Z.of_nat n) by (rewrite Z.pow_mul_r by lia; done).
  rewrite Nat2Z.inj_succ, Z.pow_succ_r by lia.
  rewrite (Z.mul_comm 256 (256 ^ Z.of_nat n)), (Z.rem_mul_r v) by lia. lia.
Qed.

Lemma be_Z_be_bytes_small n v :
  0 ≤ v < 256 ^ Z.of_nat n → be_Z (be_bytes n v) = v.
Proof. intros. rewrite be_Z_be_bytes. by apply Z.mod_small. Qed.

Lemma be_bytes_be_Z bs : be_bytes (length bs) (be_Z bs) = bs.
Proof.
  induction bs as [|b bs IH]; [done|].
  assert (Hlow : ∀ n (v w : Z), v mod 256 ^ Z.of_nat n = w mod 256 ^ Z.of_nat n →
                           be_bytes n v = be_bytes n w).
  { clear. induction n as [|n IH]; intros v w H; [done|]. simpl.
    assert (Hn : 0 < 256 ^ Z.of_nat n) by lia.
    rewrite Nat2Z.inj_succ, Z.pow_succ_r in H by lia.
    rewrite (Z.mul_comm 256) in H. rewrite !Z.rem_mul_r in H by lia.
    pose proof (Z.mod_pos_bound v _ Hn). pose proof (Z.mod_pos_bound w _ Hn).
    destruct (Z.div_mod_unique (256 ^ Z.of_nat n)
      ((v / 256 ^ Z.of_nat n) mod 256) ((w / 256 ^ Z.of_nat n) mod 256)
      (v mod 256 ^ Z.of_nat n) (w mod 256 ^ Z.of_nat n)) as [Hd Hm]; [by left..|lia|].
    f_equal; [|by apply IH].
    rewrite !Z.shiftr_div_pow2 by lia.
    replace (2 ^ (8 * Z.of_nat n)) with (256 ^ Z.of_nat n) by (rewrite Z.pow_mul_r by lia; done).
    apply (inj Z_of_byte). by rewrite !Z_of_byte_of_Z. }
  rewrite be_Z_cons. simpl. f_equal.
  - rewrite Z.shiftr_div_pow2 by lia.
    replace (2 ^ (8 * Z.of_nat (length bs))) with (256 ^ blen bs)
      by (unfold blen; rewrite Z.pow_mul_r by lia; done).
    pose proof (be_Z_range bs) as Hr. pose proof (Z_of_byte_range b).
    rewrite Z.div_add_l, (Z.div_small (be_Z bs)), Z.add_0_r by lia.
    apply byte_of_Z_of_byte.
  - etransitivity; [|exact IH]. apply Hlow. rewrite Z.add_comm.
    by rewrite Z.mod_add by (unfold blen; lia).
Qed.

Lemma be_bytes_inj n v w :
  0 ≤ v < 256 ^ Z.of_nat n → 0 ≤ w < 256 ^ Z.of_nat n → be_bytes n v = be_bytes n w → v = w.
Proof.
  intros Hv Hw H. rewrite <-(be_Z_be_bytes_small n v), <-(be_Z_be_bytes_small n w) by done.
  by rewrite H.
Qed.

Lemma length_sha256_sum msg : length (sha256_sum msg) = 32%nat.
Proof. unfold sha256_sum, Sha256.digest. by rewrite !length_app, !length_be_bytes. Qed.

#[export] Hint Rewrite length_be_bytes blen_be_bytes length_sha256_sum : lcp.
#[export] Hint Resolve length_sha256_sum : lcp.

(** ** Lemmas: hexadecimal *)

Lemma hex_value_digit v : 0 ≤ v < 16 → hex_value (hex_digit v) = Some v.
Proof.
  intros Hv. assert (Hc : v ∈ seqZ 0 16) by (apply elem_of_seqZ; lia).
  revert v Hv Hc. assert (Hall : Forall (λ v, hex_value (hex_digit v) = Some v) (seqZ 0 16)).
  { repeat constructor. }
  intros v _ Hc. rewrite Forall_forall in Hall. by apply Hall.
Qed.

Lemma hex_decode_encode_bytes b : hex_decode_bytes (hex_encode_bytes b) = Some b.
Proof.
  induction b as [|x b IH]; [done|]. unfold hex_encode_bytes. rewrite bind_cons. cbn [app hex_decode_bytes].
  pose proof (Z_of_byte_range x) as Hx.
  rewrite !hex_value_digit by (pose proof (Z.mod_pos_bound (Z_of_byte x) 16); 
    split; try apply Z.div_pos; try apply Z.div_lt_upper_bound; lia).
  cbn [mbind option_bind]. fold (hex_encode_bytes b). rewrite IH. 
  rewrite <-Z.div_mod by lia. by rewrite byte_of_Z_of_byte.
Qed.

Lemma length_hex_encode_bytes b : length (hex_encode_bytes b) = (2 * length b)%nat.
Proof.
  induction b as [|x b IH]; [done|]. unfold hex_encode_bytes in *. rewrite bind_cons.
  simpl. rewrite IH. lia.
Qed.

Lemma hex_decode_encode b : hex_decode (hex_encode b) = Some b.
Proof. unfold hex_decode, hex_encode. by rewrite bytes_of_string_of_bytes, hex_decode_encode_bytes. Qed.

Lemma hex_encode_nonempty b : b ≠ [] → hex_encode b ≠ ""%string.
Proof.
  intros Hb H. apply Hb. apply (f_equal bytes_of_string) in H.
  unfold hex_encode in H. rewrite bytes_of_string_of_bytes in H.
  apply (f_equal length) in H. rewrite length_hex_encode_bytes in H.
  destruct b; [done|]. simpl in H. lia.
Qed.

(** ** Trimming *)

Lemma strip_length sp2 sp3 bs : (length (strip sp2 sp3 bs) ≤ length bs)%nat.
Proof.
  remember (length bs) as n eqn:Hn. revert bs Hn. induction n as [n IH] using lt_wf_ind. intros bs ->.
  assert (Hrec : ∀ l, (length l < length bs)%nat → (length (strip sp2 sp3 l) ≤ length bs)%nat)
    by (intros l Hl; etrans; [by eapply IH|lia]).
  destruct bs as [|b1 r1]; [done|]. cbn [strip]. destruct (is_space b1); [apply Hrec; simpl; lia|].
  destruct r1 as [|b2 r2]; [done|]. destruct (sp2 b1 b2); [apply Hrec; simpl; lia|].
  destruct r2 as [|b3 r3]; [done|]. destruct (sp3 b1 b2 b3); [apply Hrec; simpl; lia|done].
Qed.

Lemma strip_suffix sp2 sp3 bs : strip sp2 sp3 bs `suffix_of` bs.
Proof.
  remember (length bs) as n eqn:Hn. revert bs Hn. induction n as [n IH] using lt_wf_ind. intros bs ->.
  assert (Hrec : ∀ l k, bs = k ++ l → (length l < length bs)%nat → strip sp2 sp3 l `suffix_of` bs)
    by (intros l k -> Hl; apply suffix_app_r; by eapply IH).
  destruct bs as [|b1 r1]; [done|]. cbn [strip].
  destruct (is_space b1); [apply (Hrec _ [b1]); [done|simpl; lia]|].
  destruct r1 as [|b2 r2]; [done|]. destruct (sp2 b1 b2); [apply (Hrec _ [b1; b2]); [done|simpl; lia]|].
  destruct r2 as [|b3 r3]; [done|].
  destruct (sp3 b1 b2 b3); [apply (Hrec _ [b1; b2; b3]); [done|simpl; lia]|done].
Qed.

(** What does not start with white space, and what [strip] returns. *)
Definition bare (sp2 : byte → byte → bool) (sp3 : byte → byte → byte → bool) (bs : bytes) : bool :=
  match bs with
  | [] => true
  | b1 :: r1 => negb (is_space b1) &&
    match r1 with
    | [] => true
    | b2 :: r2 => negb (sp2 b1 b2) && match r2 with [] => true | b3 :: _ => negb (sp3 b1 b2 b3) end
    end
  end.

Lemma strip_bare sp2 sp3 bs : bare sp2 sp3 bs = true → strip sp2 sp3 bs = bs.
Proof.
  destruct bs as [|b1 r1]; [done|]. cbn [strip bare]. destruct (is_space b1); [done|].
  destruct r1 as [|b2 r2]; [done|]. destruct (sp2 b1 b2); [done|].
  destruct r2 as [|b3 r3]; [done|]. by destruct (sp3 b1 b2 b3).
Qed.

Lemma bare_strip sp2 sp3 bs : bare sp2 sp3 (strip sp2 sp3 bs) = true.
Proof.
  remember (length bs) as n eqn:Hn. revert bs Hn. induction n as [n IH] using lt_wf_ind. intros bs ->.
  destruct bs as [|b1 r1]; [done|]. cbn [strip].
  destruct (is_space b1) eqn:H1; [eapply IH; [|done]; simpl; lia|].
  destruct r1 as [|b2 r2]; [by cbn; rewrite H1|].
  destruct (sp2 b1 b2) eqn:H2; [eapply IH; [|done]; simpl; lia|].
  destruct r2 as [|b3 r3]; [by cbn; rewrite H1, H2|].
  destruct (sp3 b1 b2 b3) eqn:H3; [eapply IH; [|done]; simpl; lia|]. by cbn; rewrite H1, H2, H3.
Qed.

Lemma bare_prefix sp2 sp3 l bs : l `prefix_of` bs → bare sp2 sp3 bs = true → bare sp2 sp3 l = true.
Proof.
  intros [k ->]. destruct l as [|b1 [|b2 [|b3 l]]]; cbn; [done|..]; destruct (is_space b1); try done.
  by destruct (sp2 b1 b2).
Qed.

(** Trimming again changes nothing. *)
Lemma TrimSpace_idemp s : TrimSpace (TrimSpace s) = TrimSpace s.
Proof.
  unfold TrimSpace at 1. unfold TrimSpace at 1. rewrite bytes_of_string_of_bytes. f_equal.
  unfold trim_space. set (l := trim_left (bytes_of_string s)). unfold trim_right at 2.
  set (sp2 := λ b2 b1, is_space2 b1 b2). set (sp3 := λ b3 b2 b1, is_space3 b1 b2 b3).
  assert (Hl : trim_left (rev (strip sp2 sp3 (rev l))) = rev (strip sp2 sp3 (rev l))).
  { apply strip_bare. eapply bare_prefix; [|apply bare_strip]. fold (trim_left (bytes_of_string s)). fold l.
    destruct (strip_suffix sp2 sp3 (rev l)) as [k Hk]. exists (rev k).
    rewrite <-rev_app_distr, <-Hk. by rewrite rev_involutive. }
  rewrite Hl. unfold trim_right. fold sp2 sp3. rewrite rev_involutive.
  by rewrite (strip_bare _ _ _ (bare_strip sp2 sp3 (rev l))).
Qed.
