(* ===== verification/TlvLib.v ===== *)
(** * The interface to [github.com/lightningnetwork/lnd/tlv]

    The TLV library is third-party code: the wire format of [lcpwire] and the
    canonicalisation of [protocolcompat] are parameterised by it.  [TlvLib] lists
    the functions the sources call, [TlvLaws] states what its documentation and
    BOLT #1 promise of them.  [bolt_tlv] is a concrete codec that satisfies the
    laws; it exists to show that they can hold and to evaluate witnesses. *)

From S2P Require Import Prelude GoStd.

(** A [tlv.Record]: its type and the bytes its encoder writes. *)
Abbreviation tlv_record := (Z * bytes)%type.

Class TlvLib := {
  (** [tlv.NewStream(records...)]: are the records accepted? *)
  tlv_new_stream : list tlv_record → bool;
  (** [Stream.Encode] into a [bytes.Buffer]. *)
  tlv_stream_encode : list tlv_record → option bytes;
  (** [Stream.DecodeWithParsedTypesP2P] on the stream without records: the
      [TypeMap] of every record found, none of which is known to the stream. *)
  tlv_decode_p2p : bytes → option (gmap Z bytes);
  (** [tlv.WriteVarInt] into a [bytes.Buffer], and [tlv.ReadVarInt] from a
      [bytes.Reader]: the value and what is left of the reader. *)
  tlv_write_varint : Z → bytes;
  tlv_read_varint : bytes → option (Z * bytes);
  (** The encoders [MakePrimitiveRecord] selects for [*uint16], [*[32]byte] and
      [*[]byte]. *)
  tlv_e_uint16 : Z → bytes;
  tlv_e_bytes32 : bytes → bytes;
  tlv_e_varbytes : bytes → bytes;
  (** [ETUint32], [DTUint32], [ETUint64], [DTUint64] on a whole value. *)
  tlv_e_tuint32 : Z → bytes;
  tlv_d_tuint32 : bytes → option Z;
  tlv_e_tuint64 : Z → bytes;
  tlv_d_tuint64 : bytes → option Z;
}.

(** ** The BOLT #1 encodings the laws refer to *)

(** [bigsize]. *)
Definition bigsize (v : Z) : bytes :=
  if v <? 0xfd then be_bytes 1 v
  else if v <? 0x10000 then Byte.xfd :: be_bytes 2 v
  else if v <? 0x100000000 then Byte.xfe :: be_bytes 4 v
  else Byte.xff :: be_bytes 8 v.

(** A record and a stream of records. *)
Definition record_bytes (r : tlv_record) : bytes :=
  bigsize r.1 ++ bigsize (blen r.2) ++ r.2.
Definition stream_bytes (rs : list tlv_record) : bytes := rs ≫= record_bytes.

(** The largest value [DecodeWithParsedTypesP2P] accepts. *)
Definition max_record_size : Z := 65535.

(** Records the P2P decoder reads back: ascending types that fit 64 bits, and
    values within the record limit. *)
Definition stream_ok (rs : list tlv_record) : Prop :=
  ascending rs.*1 = true ∧ Forall (λ r, is_u64 r.1 ∧ blen r.2 ≤ max_record_size) rs.

Class TlvLaws (T : TlvLib) : Prop := {
  (** [NewStream] accepts exactly the canonical order. *)
  tlv_new_stream_spec rs : tlv_new_stream rs = ascending rs.*1;
  tlv_stream_encode_spec rs :
    ascending rs.*1 = true → Forall (λ r, is_u64 r.1 ∧ is_u64 (blen r.2)) rs →
    tlv_stream_encode rs = Some (stream_bytes rs);
  tlv_decode_complete rs :
    stream_ok rs → tlv_decode_p2p (stream_bytes rs) = Some (list_to_map rs);
  tlv_decode_sound p m :
    tlv_decode_p2p p = Some m →
    ∃ rs, stream_ok rs ∧ p = stream_bytes rs ∧ m = list_to_map rs;
  tlv_write_varint_spec v : is_u64 v → tlv_write_varint v = bigsize v;
  tlv_read_varint_complete v rest :
    is_u64 v → tlv_read_varint (bigsize v ++ rest) = Some (v, rest);
  tlv_read_varint_sound b v rest :
    tlv_read_varint b = Some (v, rest) → is_u64 v ∧ b = bigsize v ++ rest;
  tlv_e_uint16_spec v : is_u16 v → tlv_e_uint16 v = be_bytes 2 v;
  tlv_e_bytes32_spec b : length b = 32%nat → tlv_e_bytes32 b = b;
  tlv_e_varbytes_spec b : tlv_e_varbytes b = b;
  tlv_tuint32_complete v : is_u32 v → tlv_d_tuint32 (tlv_e_tuint32 v) = Some v;
  tlv_tuint32_sound b v :
    tlv_d_tuint32 b = Some v → is_u32 v ∧ tlv_e_tuint32 v = b;
  tlv_tuint32_short v : is_u32 v → blen (tlv_e_tuint32 v) ≤ 4;
  tlv_tuint64_complete v : is_u64 v → tlv_d_tuint64 (tlv_e_tuint64 v) = Some v;
  tlv_tuint64_sound b v :
    tlv_d_tuint64 b = Some v → is_u64 v ∧ tlv_e_tuint64 v = b;
  tlv_tuint64_short v : is_u64 v → blen (tlv_e_tuint64 v) ≤ 8;
}.

(** ** A codec that satisfies the laws *)

Definition read_bigsize (b : bytes) : option (Z * bytes) :=
  match b with
  | [] => None
  | d :: r =>
    let z := Z_of_byte d in
    if z <? 0xfd then Some (z, r) else
    let '(n, lo) :=
      if z =? 0xfd then (2%nat, 0xfd)
      else if z =? 0xfe then (4%nat, 0x10000)
      else (8%nat, 0x100000000) in
    if blen r <? Z.of_nat n then None else
    let v := be_Z (take n r) in
    if v <? lo then None else Some (v, drop n r)
  end.

(** Records with types from [lo] up; every record takes two bytes at least, so
    the payload's length is enough fuel. *)
Fixpoint parse_records (fuel : nat) (lo : Z) (p : bytes) : option (list tlv_record) :=
  match p, fuel with
  | [], _ => Some []
  | _, O => None
  | _, S fuel' =>
    '(t, r1) ← read_bigsize p;
    if t <? lo then None else
    '(len, r2) ← read_bigsize r1;
    if (max_record_size <? len) || (blen r2 <? len) then None else
    rest ← parse_records fuel' (t + 1) (drop (Z.to_nat len) r2);
    Some ((t, take (Z.to_nat len) r2) :: rest)
  end.

Fixpoint strip_zeros (bs : bytes) : bytes :=
  match bs with
  | b :: rest => if Z_of_byte b =? 0 then strip_zeros rest else bs
  | [] => []
  end.

Definition d_tuint (n : nat) (b : bytes) : option Z :=
  if Z.of_nat n <? blen b then None else
  match b with
  | b0 :: _ => if Z_of_byte b0 =? 0 then None else Some (be_Z b)
  | [] => Some 0
  end.

Definition bolt_tlv : TlvLib := {|
  tlv_new_stream rs := ascending rs.*1;
  tlv_stream_encode rs := Some (stream_bytes rs);
  tlv_decode_p2p p := list_to_map <$> parse_records (length p) 0 p;
  tlv_write_varint := bigsize;
  tlv_read_varint := read_bigsize;
  tlv_e_uint16 := be_bytes 2;
  tlv_e_bytes32 b := b;
  tlv_e_varbytes b := b;
  tlv_e_tuint32 v := strip_zeros (be_bytes 4 v);
  tlv_d_tuint32 := d_tuint 4;
  tlv_e_tuint64 v := strip_zeros (be_bytes 8 v);
  tlv_d_tuint64 := d_tuint 8;
|}.

(** ** Lemmas: bigsize *)

Lemma byte_1 v : 0 ≤ v < 256 → be_bytes 1 v = [byte_of_Z v].
Proof. intros. simpl. by rewrite Z.shiftr_0_r. Qed.

Lemma bigsize_read v rest : is_u64 v → read_bigsize (bigsize v ++ rest) = Some (v, rest).
Proof.
  intros Hv. unfold is_uint in Hv. unfold bigsize.
  assert (Hwide : ∀ n lo, lo ≤ v < 256 ^ Z.of_nat n →
    (if blen (be_bytes n v ++ rest) <? Z.of_nat n then None else
     let w := be_Z (take n (be_bytes n v ++ rest)) in
     if w <? lo then None else Some (w, drop n (be_bytes n v ++ rest))) = Some (v, rest)
    ∨ v < 0).
  { intros n lo Hlo. destruct (Z.ltb_spec v 0); [by right|left].
    rewrite blen_app, blen_be_bytes. pose proof (blen_nonneg rest).
    destruct (Z.ltb_spec (Z.of_nat n + blen rest) (Z.of_nat n)); [lia|].
    rewrite take_app_length', drop_app_length' by (by rewrite length_be_bytes).
    cbv zeta. rewrite be_Z_be_bytes_small by lia.
    by destruct (Z.ltb_spec v lo); [lia|]. }
  destruct (Z.ltb_spec v 0xfd).
  { rewrite byte_1 by lia. simpl. rewrite Z_of_byte_of_Z, Z.mod_small by lia.
    by destruct (Z.ltb_spec v 253); [|lia]. }
  destruct (Z.ltb_spec v 0x10000).
  { destruct (Hwide 2%nat 0xfd); [simpl; lia|done|lia]. }
  destruct (Z.ltb_spec v 0x100000000).
  { destruct (Hwide 4%nat 0x10000); [simpl; lia|done|lia]. }
  destruct (Hwide 8%nat 0x100000000); [simpl; lia|done|lia].
Qed.

(** [v] from [n] bytes, at least [lo]: the body of a multi-byte bigsize. *)
Lemma bigsize_wide_inv n lo r v rest :
  (if blen r <? Z.of_nat n then None else
   let w := be_Z (take n r) in if w <? lo then None else Some (w, drop n r)) = Some (v, rest) →
  lo ≤ v < 256 ^ Z.of_nat n ∧ r = be_bytes n v ++ rest.
Proof.
  destruct (Z.ltb_spec (blen r) (Z.of_nat n)) as [|Hn]; [done|]. cbv zeta.
  destruct (Z.ltb_spec (be_Z (take n r)) lo) as [|Hlo]; [done|]. intros [= <- <-].
  assert (Hlen : length (take n r) = n) by (rewrite length_take; unfold blen in Hn; lia).
  pose proof (be_Z_range (take n r)) as Hr. unfold blen in Hr. rewrite Hlen in Hr.
  split; [lia|]. rewrite <-Hlen at 1. rewrite be_bytes_be_Z. by rewrite take_drop.
Qed.

Lemma read_bigsize_inv b v rest :
  read_bigsize b = Some (v, rest) → is_u64 v ∧ b = bigsize v ++ rest.
Proof.
  unfold read_bigsize, is_uint, bigsize. destruct b as [|d r]; [done|].
  pose proof (Z_of_byte_range d) as Hd.
  destruct (Z.ltb_spec (Z_of_byte d) 0xfd) as [Hs|Hs].
  { intros [= <- <-]. destruct (Z.ltb_spec (Z_of_byte d) 253); [|lia].
    split; [lia|]. rewrite byte_1 by lia. by rewrite byte_of_Z_of_byte. }
  assert (Hpre : ∀ x : byte, Z_of_byte d = Z_of_byte x → d = x) by (intros; by apply (inj _)).
  destruct (Z.eqb_spec (Z_of_byte d) 0xfd) as [E|]; [|destruct (Z.eqb_spec (Z_of_byte d) 0xfe) as [E|]];
    intros [Hv ->]%bigsize_wide_inv; simpl in Hv.
  - rewrite (Hpre Byte.xfd E). split; [lia|].
    destruct (Z.ltb_spec v 253); [lia|]. by destruct (Z.ltb_spec v 65536); [|lia].
  - rewrite (Hpre Byte.xfe E). split; [lia|].
    destruct (Z.ltb_spec v 253); [lia|]. destruct (Z.ltb_spec v 65536); [lia|].
    by destruct (Z.ltb_spec v 4294967296); [|lia].
  - rewrite (Hpre Byte.xff) by (change (Z_of_byte Byte.xff) with 255; lia). split; [lia|].
    destruct (Z.ltb_spec v 253); [lia|]. destruct (Z.ltb_spec v 65536); [lia|].
    by destruct (Z.ltb_spec v 4294967296); [lia|].
Qed.

Lemma bigsize_nonempty v : bigsize v ≠ [].
Proof. unfold bigsize. by repeat case_match. Qed.

(** Bigsize is a prefix code: what follows it can be told apart. *)
Lemma bigsize_app_inj v w r1 r2 :
  is_u64 v → is_u64 w → bigsize v ++ r1 = bigsize w ++ r2 → v = w ∧ r1 = r2.
Proof.
  intros Hv Hw H. apply (f_equal read_bigsize) in H.
  rewrite !bigsize_read in H by done. naive_solver.
Qed.

(** ** Lemmas: streams *)

Lemma stream_bytes_cons r rs : stream_bytes (r :: rs) = record_bytes r ++ stream_bytes rs.
Proof. done. Qed.

Lemma stream_bytes_app rs1 rs2 :
  stream_bytes (rs1 ++ rs2) = stream_bytes rs1 ++ stream_bytes rs2.
Proof. unfold stream_bytes. by rewrite bind_app. Qed.

(** A record is a prefix code too. *)
Lemma record_bytes_app_inj r1 r2 s1 s2 :
  is_u64 r1.1 → is_u64 r2.1 → is_u64 (blen r1.2) → is_u64 (blen r2.2) →
  record_bytes r1 ++ s1 = record_bytes r2 ++ s2 → r1 = r2 ∧ s1 = s2.
Proof.
  destruct r1 as [t1 v1], r2 as [t2 v2]. unfold record_bytes. simpl.
  intros Ht1 Ht2 Hl1 Hl2. rewrite <-!app_assoc.
  intros H. apply bigsize_app_inj in H as [<- H]; [|done..].
  apply bigsize_app_inj in H as [Hlen H]; [|done..].
  unfold blen in Hlen. destruct (app_inj_1 v1 v2 s1 s2) as [-> ->]; [lia|done..].
Qed.

Lemma parse_records_complete rs fuel lo :
  stream_ok rs → Forall (λ r, lo ≤ r.1) rs → (length (stream_bytes rs) ≤ fuel)%nat →
  parse_records fuel lo (stream_bytes rs) = Some rs.
Proof.
  revert fuel lo; induction rs as [|[t v] rs IH]; intros fuel lo [Hasc Hall] Hlo Hfuel.
  { by destruct fuel. }
  rewrite stream_bytes_cons in Hfuel |- *. simpl in Hasc.
  apply ascending_cons_inv in Hasc as [Hasc Hgt].
  apply Forall_cons in Hall as [[Ht Hv] Hall]. apply Forall_cons in Hlo as [Hlo _].
  unfold record_bytes in *. simpl fst in *. simpl snd in *.
  rewrite !length_app in Hfuel.
  assert (Hbt : (0 < length (bigsize t))%nat)
    by (pose proof (bigsize_nonempty t); destruct (bigsize t); [done|simpl; lia]).
  destruct fuel as [|fuel]; [lia|].
  assert (Hblv : is_u64 (blen v)) by (unfold is_uint, max_record_size in *; pose proof (blen_nonneg v); lia).
  rewrite <-!app_assoc. cbn [parse_records].
  destruct (bigsize t ++ _) as [|b0 p0] eqn:Ep.
  { apply app_nil in Ep as [Ep _]. by apply bigsize_nonempty in Ep. }
  rewrite <-Ep, bigsize_read by done. simpl.
  destruct (Z.ltb_spec t lo); [lia|]. rewrite bigsize_read by done. simpl.
  destruct (Z.ltb_spec max_record_size (blen v)); [lia|].
  rewrite blen_app. pose proof (blen_nonneg (stream_bytes rs)).
  destruct (Z.ltb_spec (blen v + blen (stream_bytes rs)) (blen v)); [lia|]. simpl.
  replace (Z.to_nat (blen v)) with (length v) by (unfold blen; lia).
  rewrite drop_app_length, take_app_length.
  rewrite IH; [done|done| |lia].
  rewrite Forall_fmap in Hgt. eapply Forall_impl; [exact Hgt|]. simpl. lia.
Qed.

Lemma parse_records_sound fuel lo p rs :
  parse_records fuel lo p = Some rs →
  0 ≤ lo → stream_ok rs ∧ Forall (λ r, lo ≤ r.1) rs ∧ p = stream_bytes rs.
Proof.
  revert lo p rs; induction fuel as [|fuel IH]; intros lo p rs H Hlo.
  { destruct p; [|done]. simplify_eq/=. split; [by split|done]. }
  destruct p as [|b0 p0]; [simplify_eq/=; split; [by split|done]|].
  cbn [parse_records] in H. remember (b0 :: p0) as p eqn:Hp. clear b0 p0 Hp.
  destruct (read_bigsize p) as [[t r1]|] eqn:E1; [|done]. simpl in H.
  destruct (Z.ltb_spec t lo) as [|Ht]; [done|].
  destruct (read_bigsize r1) as [[len r2]|] eqn:E2; [|done]. simpl in H.
  destruct ((max_record_size <? len) || (blen r2 <? len)) eqn:E3; [done|].
  apply orb_false_iff in E3 as [E3 E4]. apply Z.ltb_ge in E3, E4.
  destruct (parse_records _ _ _) as [rest|] eqn:E5; simplify_eq/=.
  apply read_bigsize_inv in E1 as [Ht64 ->]. apply read_bigsize_inv in E2 as [Hl64 ->].
  apply IH in E5 as (Hok & Hge & Hrest); [|lia]. destruct Hok as [Hasc Hall].
  assert (Hlen : blen (take (Z.to_nat len) r2) = len).
  { unfold blen, is_uint in *. rewrite length_take. lia. }
  split; [split|split].
  - simpl. apply ascending_cons; [done|]. rewrite Forall_fmap.
    eapply Forall_impl; [exact Hge|]. simpl. lia.
  - constructor; [|done]. simpl. rewrite Hlen. done.
  - constructor; [done|]. eapply Forall_impl; [exact Hge|]. simpl. lia.
  - etransitivity; [|symmetry; apply stream_bytes_cons].
    unfold record_bytes. simpl. rewrite Hlen, <-Hrest.
    by rewrite <-!app_assoc, take_drop.
Qed.

(** ** Lemmas: truncated integers *)

Lemma strip_zeros_be_Z bs : be_Z (strip_zeros bs) = be_Z bs.
Proof.
  induction bs as [|b bs IH]; [done|]. simpl.
  destruct (Z.eqb_spec (Z_of_byte b) 0) as [E|]; [|done].
  rewrite IH, be_Z_cons, E. lia.
Qed.

Lemma strip_zeros_length bs : (length (strip_zeros bs) ≤ length bs)%nat.
Proof. induction bs as [|b bs IH]; [done|]. simpl. case_match; simpl; lia. Qed.

Lemma strip_zeros_head b bs rest : strip_zeros bs = b :: rest → Z_of_byte b ≠ 0.
Proof.
  induction bs as [|b' bs IH]; [done|]. simpl.
  destruct (Z.eqb_spec (Z_of_byte b') 0); [done|]. naive_solver.
Qed.

Lemma d_tuint_strip n v :
  0 ≤ v < 256 ^ Z.of_nat n → d_tuint n (strip_zeros (be_bytes n v)) = Some v.
Proof.
  intros Hv. unfold d_tuint. pose proof (strip_zeros_length (be_bytes n v)) as Hl.
  rewrite length_be_bytes in Hl. unfold blen.
  destruct (Z.ltb_spec (Z.of_nat n) (Z.of_nat (length (strip_zeros (be_bytes n v))))); [lia|].
  pose proof (strip_zeros_be_Z (be_bytes n v)) as Hz. rewrite be_Z_be_bytes_small in Hz by done.
  destruct (strip_zeros (be_bytes n v)) as [|b rest] eqn:E; [by rewrite <-Hz|].
  apply strip_zeros_head in E. destruct (Z.eqb_spec (Z_of_byte b) 0); [done|by rewrite Hz].
Qed.

(** Leading zero bytes in front of a minimal encoding are stripped again. *)
Lemma strip_zeros_pad k b rest :
  Z_of_byte b ≠ 0 → strip_zeros (repeat Byte.x00 k ++ b :: rest) = b :: rest.
Proof.
  intros Hb. induction k as [|k IH]; simpl; [|done].
  by destruct (Z.eqb_spec (Z_of_byte b) 0).
Qed.

Lemma be_bytes_pad n bs :
  (length bs ≤ n)%nat → be_bytes n (be_Z bs) = repeat Byte.x00 (n - length bs) ++ bs.
Proof.
  intros Hn. set (q := repeat Byte.x00 (n - length bs) ++ bs).
  assert (Hq : length q = n) by (unfold q; rewrite length_app, repeat_length; lia).
  assert (Hz : be_Z q = be_Z bs).
  { unfold q. generalize (n - length bs)%nat. induction n0 as [|k IH]; [done|].
    simpl. rewrite be_Z_cons. change (Z_of_byte Byte.x00) with 0. lia. }
  rewrite <-Hz, <-Hq. apply be_bytes_be_Z.
Qed.

Lemma strip_d_tuint n b v :
  d_tuint n b = Some v → 0 ≤ v < 256 ^ Z.of_nat n ∧ strip_zeros (be_bytes n v) = b.
Proof.
  unfold d_tuint. destruct (Z.ltb_spec (Z.of_nat n) (blen b)) as [|Hn]; [done|].
  unfold blen in Hn. assert (Hle : (length b ≤ n)%nat) by lia.
  destruct b as [|b0 rest].
  - intros [= <-]. split; [lia|].
    pose proof (be_bytes_pad n [] Hle) as E. change (be_Z []) with 0 in E.
    rewrite E, app_nil_r. generalize (n - length (@nil byte))%nat.
    induction n0 as [|k IH]; simpl; [done|]. apply IH.
  - destruct (Z.eqb_spec (Z_of_byte b0) 0) as [|Hb]; [done|]. intros [= <-].
    split.
    + pose proof (be_Z_range (b0 :: rest)) as Hr. unfold blen in Hr.
      pose proof (Z.pow_le_mono_r 256 (Z.of_nat (length (b0 :: rest))) (Z.of_nat n)). lia.
    + rewrite be_bytes_pad by done. by apply strip_zeros_pad.
Qed.

#[export] Instance bolt_tlv_laws : TlvLaws bolt_tlv.
Proof.
  split; cbn [bolt_tlv tlv_new_stream tlv_stream_encode tlv_decode_p2p tlv_write_varint
    tlv_read_varint tlv_e_uint16 tlv_e_bytes32 tlv_e_varbytes tlv_e_tuint32 tlv_d_tuint32
    tlv_e_tuint64 tlv_d_tuint64].
  - done.
  - done.
  - intros rs Hok. rewrite parse_records_complete; [done|done| |done].
    destruct Hok as [_ Hall]. eapply Forall_impl; [exact Hall|]. intros r [Hr _].
    unfold is_uint in Hr. lia.
  - intros p m H. apply fmap_Some in H as (rs & H & ->).
    apply parse_records_sound in H as (Hok & _ & ->); [|done]. eauto.
  - done.
  - apply bigsize_read.
  - apply read_bigsize_inv.
  - done.
  - done.
  - done.
  - intros v Hv. by apply d_tuint_strip.
  - intros b v Hv. by apply strip_d_tuint in Hv.
  - intros v _. pose proof (strip_zeros_length (be_bytes 4 v)). rewrite length_be_bytes in *.
    unfold blen. lia.
  - intros v Hv. by apply d_tuint_strip.
  - intros b v Hv. by apply strip_d_tuint in Hv.
  - intros v _. pose proof (strip_zeros_length (be_bytes 8 v)). rewrite length_be_bytes in *.
    unfold blen. lia.
Qed.
