(* ===== verification/Wire.v ===== *)
(** * Package [lcpwire]: the LCP v0.2 messages and their TLV encoding

    The data types of [types.go] and every encoder and decoder of the package,
    over the TLV library of [TlvLib].  Fixed-size arrays ([lcp.JobID],
    [lcp.Hash32], [MsgID]) are byte lists whose length the [wf] predicates fix;
    unsigned integers are [Z] with their width in the same predicates; a Go
    pointer to an optional field is an [option]; a Go [string] is a
    [String.string]. *)

From S2P Require Import Prelude GoStd TlvLib.

(** ** types.go *)

Definition ProtocolVersionV02 : Z := 2.

Definition MessageTypeManifest : Z := 42081.
Definition MessageTypeQuoteRequest : Z := 42083.
Definition MessageTypeQuoteResponse : Z := 42085.
Definition MessageTypeResult : Z := 42087.
Definition MessageTypeStreamBegin : Z := 42089.
Definition MessageTypeStreamChunk : Z := 42091.
Definition MessageTypeStreamEnd : Z := 42093.
Definition MessageTypeCancel : Z := 42095.
Definition MessageTypeError : Z := 42097.

Record JobEnvelope := {
  env_ProtocolVersion : Z;
  env_JobID : bytes;
  env_MsgID : bytes;
  env_Expiry : Z;
}.

Record TaskTemplate := {
  tt_TaskKind : string;
  tt_ParamsBytes : option bytes;
}.

Record Manifest := {
  mf_ProtocolVersion : Z;
  mf_MaxPayloadBytes : Z;
  mf_MaxStreamBytes : Z;
  mf_MaxJobBytes : Z;
  mf_MaxInflightJobs : option Z;
  mf_SupportedTasks : list TaskTemplate;
}.

Record QuoteRequest := {
  qr_Envelope : JobEnvelope;
  qr_TaskKind : string;
  qr_ParamsBytes : option bytes;
}.

Record QuoteResponse := {
  qs_Envelope : JobEnvelope;
  qs_PriceMsat : Z;
  qs_QuoteExpiry : Z;
  qs_TermsHash : bytes;
  qs_PaymentRequest : string;
}.

(** [StreamKind] *)
Definition StreamKindInput : Z := 1.
Definition StreamKindResult : Z := 2.

Record StreamBegin := {
  sb_Envelope : JobEnvelope;
  sb_StreamID : bytes;
  sb_Kind : Z;
  sb_TotalLen : option Z;
  sb_SHA256 : option bytes;
  sb_ContentType : string;
  sb_ContentEncoding : string;
}.

(** [sc_Data] is [None] for a nil slice, which the encoder refuses. *)
Record StreamChunk := {
  sc_Envelope : JobEnvelope;
  sc_StreamID : bytes;
  sc_Seq : Z;
  sc_Data : option bytes;
}.

Record StreamEnd := {
  se_Envelope : JobEnvelope;
  se_StreamID : bytes;
  se_TotalLen : Z;
  se_SHA256 : bytes;
}.

(** [ResultStatus] *)
Definition ResultStatusOK : Z := 0.
Definition ResultStatusFailed : Z := 1.
Definition ResultStatusCancelled : Z := 2.

Record ResultOK := {
  ro_ResultStreamID : bytes;
  ro_ResultHash : bytes;
  ro_ResultLen : Z;
  ro_ResultContentType : string;
  ro_ResultContentEncoding : string;
}.

Record Result := {
  rs_Envelope : JobEnvelope;
  rs_Status : Z;
  rs_OK : option ResultOK;
  rs_Message : option string;
}.

Record Cancel := {
  cn_Envelope : JobEnvelope;
  cn_Reason : option string;
}.

(** [ErrorCode] *)
Definition ErrorCodeUnsupportedVersion : Z := 1.
Definition ErrorCodeUnsupportedTask : Z := 2.
Definition ErrorCodeQuoteExpired : Z := 3.
Definition ErrorCodePaymentRequired : Z := 4.
Definition ErrorCodePaymentInvalid : Z := 5.
Definition ErrorCodePayloadTooLarge : Z := 6.
Definition ErrorCodeRateLimited : Z := 7.
Definition ErrorCodeUnsupportedParams : Z := 8.
Definition ErrorCodeUnsupportedEncoding : Z := 9.
Definition ErrorCodeInvalidState : Z := 10.
Definition ErrorCodeChunkOutOfOrder : Z := 11.
Definition ErrorCodeChecksumMismatch : Z := 12.

(** [lcpwire.Error] *)
Record LcpError := {
  er_Envelope : JobEnvelope;
  er_Code : Z;
  er_Message : option string;
}.

(** [OpenAIChatCompletionsV1Params] and [OpenAIResponsesV1Params] have the same
    fields; a nil [Unknown] map is the empty map. *)
Record OpenAIParams := {
  oa_Model : string;
  oa_Unknown : gmap Z bytes;
}.

#[export] Instance JobEnvelope_eq_dec : EqDecision JobEnvelope.
Proof. solve_decision. Defined.
#[export] Instance TaskTemplate_eq_dec : EqDecision TaskTemplate.
Proof. solve_decision. Defined.
#[export] Instance Manifest_eq_dec : EqDecision Manifest.
Proof. solve_decision. Defined.
#[export] Instance QuoteRequest_eq_dec : EqDecision QuoteRequest.
Proof. solve_decision. Defined.
#[export] Instance QuoteResponse_eq_dec : EqDecision QuoteResponse.
Proof. solve_decision. Defined.
#[export] Instance ResultOK_eq_dec : EqDecision ResultOK.
Proof. solve_decision. Defined.
#[export] Instance Result_eq_dec : EqDecision Result.
Proof. solve_decision. Defined.
#[export] Instance LcpError_eq_dec : EqDecision LcpError.
Proof. solve_decision. Defined.

(** The errors of the package. *)
Inductive wire_err :=
| ErrNewStream
| ErrEncodeStream
| ErrDecodeStream
| ErrMissingTLV (typ : Z)
| ErrU16Len (n : Z)
| ErrBytes32Len (n : Z)
| ErrTUint
| ErrNotUTF8 (field : string)
| ErrRequired (field : string)
| ErrIntTooLarge (v : Z)
| ErrJobScopePresent
| ErrInvalidStreamKind (k : Z)
| ErrInvalidStatus (s : Z)
| ErrOKOmitted
| ErrOKRequired
| ErrMessageOmitted
| ErrMsgIDMismatch
| ErrVarInt
| ErrListCount (n : Z)
| ErrListItemLen (n rest : Z)
| ErrListTotal (n : Z)
| ErrListTrailing (n : Z)
| ErrField (ctx : string) (e : wire_err)
| ErrItem (ctx : string) (i : Z) (e : wire_err).

#[export] Instance wire_err_eq_dec : EqDecision wire_err.
Proof. solve_decision. Defined.

(** ** tlv_types.go and tlv_helpers.go *)

Definition tlvTypeTaskKind : Z := 20.
Definition tlvTypeParams : Z := 22.

Definition tlvTypeProtocolVersion : Z := 1.
Definition tlvTypeJobID : Z := 2.
Definition tlvTypeMsgID : Z := 3.
Definition tlvTypeExpiry : Z := 4.

Abbreviation wres := (result wire_err).

Section wire.
Context `{T : TlvLib}.

Definition encodeTLVStream (records : list tlv_record) : wres bytes :=
  if tlv_new_stream records then
    or_err (tlv_stream_encode records) ErrEncodeStream
  else Err ErrNewStream.

Definition decodeTLVMap (payload : bytes) : wres (gmap Z bytes) :=
  if tlv_new_stream [] then
    or_err (tlv_decode_p2p payload) ErrDecodeStream
  else Err ErrNewStream.

Definition requireTLV (m : gmap Z bytes) (typ : Z) : wres bytes :=
  or_err (m !! typ) (ErrMissingTLV typ).

Definition readU16 (b : bytes) : wres Z :=
  if blen b =? 2 then Ok (be_Z b) else Err (ErrU16Len (blen b)).

Definition readBytes32 (b : bytes) : wres bytes :=
  if blen b =? 32 then Ok b else Err (ErrBytes32Len (blen b)).

Definition readTU32 (b : bytes) : wres Z := or_err (tlv_d_tuint32 b) ErrTUint.

Definition readTU64 (b : bytes) : wres Z := or_err (tlv_d_tuint64 b) ErrTUint.

Definition readUTF8String (b : bytes) (field : string) : wres string :=
  if utf8_valid b then Ok (string_of_bytes b) else Err (ErrNotUTF8 field).

Definition makeTU32Record (typ v : Z) : tlv_record := (typ, tlv_e_tuint32 v).

Definition makeTU64Record (typ v : Z) : tlv_record := (typ, tlv_e_tuint64 v).

(** [tlv.MakePrimitiveRecord] on a [*uint16], a [*[32]byte] and a [*[]byte]. *)
Definition primU16 (typ v : Z) : tlv_record := (typ, tlv_e_uint16 v).
Definition primBytes32 (typ : Z) (v : bytes) : tlv_record := (typ, tlv_e_bytes32 v).
Definition primVarBytes (typ : Z) (v : bytes) : tlv_record := (typ, tlv_e_varbytes v).

Definition uint64ToInt (v : Z) : wres Z :=
  if max_i64 <? v then Err (ErrIntTooLarge v) else Ok v.

Definition validateUTF8String (s field : string) : wres unit :=
  ensure (utf8_valid (bytes_of_string s)) (ErrNotUTF8 field).

Definition validateJobScopeNotPresent (m : gmap Z bytes) : wres unit :=
  ensure (forallb (λ t, bool_decide (m !! t = None)) [tlvTypeJobID; tlvTypeMsgID; tlvTypeExpiry])
         ErrJobScopePresent.

(** ** envelope.go *)

Definition decodeJobEnvelope (m : gmap Z bytes) : wres JobEnvelope :=
  pvBytes ← requireTLV m tlvTypeProtocolVersion;
  pv ← wrap_err (ErrField "protocol_version") (readU16 pvBytes);
  jobIDBytes ← requireTLV m tlvTypeJobID;
  jobID ← wrap_err (ErrField "job_id") (readBytes32 jobIDBytes);
  msgIDBytes ← requireTLV m tlvTypeMsgID;
  msgID ← wrap_err (ErrField "msg_id") (readBytes32 msgIDBytes);
  expiryBytes ← requireTLV m tlvTypeExpiry;
  expiry ← wrap_err (ErrField "expiry") (readTU64 expiryBytes);
  Ok {| env_ProtocolVersion := pv; env_JobID := jobID; env_MsgID := msgID; env_Expiry := expiry |}.

Definition encodeJobEnvelope (env : JobEnvelope) : wres (list tlv_record) :=
  _ ← ensure (negb (env_ProtocolVersion env =? 0)) (ErrRequired "protocol_version");
  Ok [ primU16 tlvTypeProtocolVersion (env_ProtocolVersion env);
       primBytes32 tlvTypeJobID (env_JobID env);
       primBytes32 tlvTypeMsgID (env_MsgID env);
       makeTU64Record tlvTypeExpiry (env_Expiry env) ].

Definition decodeProtocolVersionOnly (m : gmap Z bytes) : wres Z :=
  pvBytes ← requireTLV m tlvTypeProtocolVersion;
  wrap_err (ErrField "protocol_version") (readU16 pvBytes).

(** ** list.go *)

Definition maxBytesListCount : Z := 1024.
Definition maxBytesListTotalBytes : Z := 1048576.

Definition EncodeBytesList (items : list bytes) : wres bytes :=
  Ok (tlv_write_varint (blen items) ++
      (items ≫= λ item, tlv_write_varint (blen item) ++ item)).

(** The loop of [DecodeBytesList]: [n] items are still to be read, [i] is the
    index of the next one, [total] the bytes read so far, [r] the reader. *)
Fixpoint decodeBytesListItems (n : nat) (i total : Z) (r : bytes) : wres (list bytes * bytes) :=
  match n with
  | O => Ok ([], r)
  | S n' =>
    '(nU64, r1) ← or_err (tlv_read_varint r) (ErrItem "bytes_list length" i ErrVarInt);
    len ← wrap_err (ErrItem "bytes_list length" i) (uint64ToInt nU64);
    if blen r1 <? len then Err (ErrItem "bytes_list" i (ErrListItemLen len (blen r1))) else
    let total' := wrap_u64 (total + nU64) in
    if maxBytesListTotalBytes <? total' then Err (ErrListTotal total') else
    '(items, r2) ← decodeBytesListItems n' (i + 1) total' (drop (Z.to_nat len) r1);
    Ok (take (Z.to_nat len) r1 :: items, r2)
  end.

Definition DecodeBytesList (b : bytes) : wres (list bytes) :=
  '(countU64, r) ← or_err (tlv_read_varint b) (ErrField "bytes_list count" ErrVarInt);
  if maxBytesListCount <? countU64 then Err (ErrListCount countU64) else
  '(items, r') ← decodeBytesListItems (Z.to_nat countU64) 0 0 r;
  if blen r' =? 0 then Ok items else Err (ErrListTrailing (blen r')).

(** ** quote_request.go *)

Definition EncodeQuoteRequest (q : QuoteRequest) : wres bytes :=
  envelopeRecords ← encodeJobEnvelope (qr_Envelope q);
  _ ← ensure (negb (bool_decide (qr_TaskKind q = ""%string))) (ErrRequired "task_kind");
  _ ← validateUTF8String (qr_TaskKind q) "task_kind";
  encodeTLVStream
    (envelopeRecords
     ++ [primVarBytes tlvTypeTaskKind (bytes_of_string (qr_TaskKind q))]
     ++ match qr_ParamsBytes q with
        | Some params => [primVarBytes tlvTypeParams params]
        | None => []
        end).

Definition DecodeQuoteRequest (payload : bytes) : wres QuoteRequest :=
  m ← decodeTLVMap payload;
  env ← decodeJobEnvelope m;
  taskKindBytes ← requireTLV m tlvTypeTaskKind;
  taskKind ← readUTF8String taskKindBytes "task_kind";
  _ ← ensure (negb (bool_decide (taskKind = ""%string))) (ErrRequired "task_kind");
  Ok {| qr_Envelope := env; qr_TaskKind := taskKind; qr_ParamsBytes := m !! tlvTypeParams |}.

(** ** quote_response.go *)

Definition quoteResponseTLVTypePriceMsat : Z := 30.
Definition quoteResponseTLVTypeQuoteExpiry : Z := 31.
Definition quoteResponseTLVTypeTermsHash : Z := 32.
Definition quoteResponseTLVTypePaymentRequest : Z := 33.

Definition EncodeQuoteResponse (q : QuoteResponse) : wres bytes :=
  envelopeRecords ← encodeJobEnvelope (qs_Envelope q);
  _ ← ensure (negb (bool_decide (qs_PaymentRequest q = ""%string))) (ErrRequired "payment_request");
  _ ← validateUTF8String (qs_PaymentRequest q) "payment_request";
  encodeTLVStream
    (envelopeRecords
     ++ [ makeTU64Record quoteResponseTLVTypePriceMsat (qs_PriceMsat q);
          makeTU64Record quoteResponseTLVTypeQuoteExpiry (qs_QuoteExpiry q);
          primBytes32 quoteResponseTLVTypeTermsHash (qs_TermsHash q);
          primVarBytes quoteResponseTLVTypePaymentRequest (bytes_of_string (qs_PaymentRequest q)) ]).

Definition DecodeQuoteResponse (payload : bytes) : wres QuoteResponse :=
  m ← decodeTLVMap payload;
  env ← decodeJobEnvelope m;
  priceBytes ← requireTLV m quoteResponseTLVTypePriceMsat;
  priceMsat ← wrap_err (ErrField "price_msat") (readTU64 priceBytes);
  expiryBytes ← requireTLV m quoteResponseTLVTypeQuoteExpiry;
  quoteExpiry ← wrap_err (ErrField "quote_expiry") (readTU64 expiryBytes);
  termsHashBytes ← requireTLV m quoteResponseTLVTypeTermsHash;
  termsHash ← wrap_err (ErrField "terms_hash") (readBytes32 termsHashBytes);
  paymentRequestBytes ← requireTLV m quoteResponseTLVTypePaymentRequest;
  paymentRequest ← readUTF8String paymentRequestBytes "payment_request";
  _ ← ensure (negb (bool_decide (paymentRequest = ""%string))) (ErrRequired "payment_request");
  Ok {| qs_Envelope := env; qs_PriceMsat := priceMsat; qs_QuoteExpiry := quoteExpiry;
        qs_TermsHash := termsHash; qs_PaymentRequest := paymentRequest |}.

(** ** stream_begin.go *)

Definition streamTLVTypeStreamID : Z := 90.
Definition streamTLVTypeStreamKind : Z := 91.
Definition streamTLVTypeTotalLen : Z := 92.
Definition streamTLVTypeSHA256 : Z := 93.
Definition streamTLVTypeContentType : Z := 94.
Definition streamTLVTypeContentEncoding : Z := 95.
Definition streamTLVTypeSeq : Z := 96.
Definition streamTLVTypeData : Z := 97.

Definition EncodeStreamBegin (b : StreamBegin) : wres bytes :=
  envelopeRecords ← encodeJobEnvelope (sb_Envelope b);
  _ ← ensure ((sb_Kind b =? StreamKindInput) || (sb_Kind b =? StreamKindResult))
             (ErrInvalidStreamKind (sb_Kind b));
  _ ← ensure (negb (bool_decide (sb_ContentType b = ""%string))) (ErrRequired "content_type");
  _ ← validateUTF8String (sb_ContentType b) "content_type";
  _ ← ensure (negb (bool_decide (sb_ContentEncoding b = ""%string))) (ErrRequired "content_encoding");
  _ ← validateUTF8String (sb_ContentEncoding b) "content_encoding";
  encodeTLVStream
    (envelopeRecords
     ++ [ primBytes32 streamTLVTypeStreamID (sb_StreamID b);
          primU16 streamTLVTypeStreamKind (sb_Kind b) ]
     ++ match sb_TotalLen b with
        | Some totalLen => [makeTU64Record streamTLVTypeTotalLen totalLen]
        | None => []
        end
     ++ match sb_SHA256 b with
        | Some sum => [primBytes32 streamTLVTypeSHA256 sum]
        | None => []
        end
     ++ [ primVarBytes streamTLVTypeContentType (bytes_of_string (sb_ContentType b));
          primVarBytes streamTLVTypeContentEncoding (bytes_of_string (sb_ContentEncoding b)) ]).

(** [decodeStreamBeginBody] leaves the envelope for its caller to set. *)
Definition decodeStreamBeginBody (m : gmap Z bytes) (env : JobEnvelope) : wres StreamBegin :=
  streamIDBytes ← requireTLV m streamTLVTypeStreamID;
  streamID ← wrap_err (ErrField "stream_id") (readBytes32 streamIDBytes);
  streamKindBytes ← requireTLV m streamTLVTypeStreamKind;
  kind ← wrap_err (ErrField "stream_kind") (readU16 streamKindBytes);
  _ ← ensure ((kind =? StreamKindInput) || (kind =? StreamKindResult)) (ErrInvalidStreamKind kind);
  totalLen ← match m !! streamTLVTypeTotalLen with
             | Some b => Some <$> wrap_err (ErrField "total_len") (readTU64 b)
             | None => Ok None
             end;
  sha256Sum ← match m !! streamTLVTypeSHA256 with
              | Some b => Some <$> wrap_err (ErrField "sha256") (readBytes32 b)
              | None => Ok None
              end;
  contentTypeBytes ← requireTLV m streamTLVTypeContentType;
  contentType ← readUTF8String contentTypeBytes "content_type";
  _ ← ensure (negb (bool_decide (contentType = ""%string))) (ErrRequired "content_type");
  contentEncodingBytes ← requireTLV m streamTLVTypeContentEncoding;
  contentEncoding ← readUTF8String contentEncodingBytes "content_encoding";
  _ ← ensure (negb (bool_decide (contentEncoding = ""%string))) (ErrRequired "content_encoding");
  Ok {| sb_Envelope := env; sb_StreamID := streamID; sb_Kind := kind; sb_TotalLen := totalLen;
        sb_SHA256 := sha256Sum; sb_ContentType := contentType;
        sb_ContentEncoding := contentEncoding |}.

Definition DecodeStreamBegin (payload : bytes) : wres StreamBegin :=
  m ← decodeTLVMap payload;
  env ← decodeJobEnvelope m;
  decodeStreamBeginBody m env.

(** ** stream_chunk.go *)

Definition ComputeDeterministicStreamChunkMsgID (streamID : bytes) (seq : Z) : bytes :=
  sha256_sum (streamID ++ be_bytes 4 seq).

Definition EncodeStreamChunk (c : StreamChunk) : wres (bytes * bytes) :=
  data ← or_err (sc_Data c) (ErrRequired "data");
  let msgID := ComputeDeterministicStreamChunkMsgID (sc_StreamID c) (sc_Seq c) in
  let env := {| env_ProtocolVersion := env_ProtocolVersion (sc_Envelope c);
                env_JobID := env_JobID (sc_Envelope c);
                env_MsgID := msgID;
                env_Expiry := env_Expiry (sc_Envelope c) |} in
  envelopeRecords ← encodeJobEnvelope env;
  payload ← encodeTLVStream
    (envelopeRecords
     ++ [ primBytes32 streamTLVTypeStreamID (sc_StreamID c);
          makeTU32Record streamTLVTypeSeq (sc_Seq c);
          primVarBytes streamTLVTypeData data ]);
  Ok (payload, msgID).

Definition DecodeStreamChunk (payload : bytes) : wres StreamChunk :=
  m ← decodeTLVMap payload;
  env ← decodeJobEnvelope m;
  streamIDBytes ← requireTLV m streamTLVTypeStreamID;
  streamID ← wrap_err (ErrField "stream_id") (readBytes32 streamIDBytes);
  seqBytes ← requireTLV m streamTLVTypeSeq;
  seq ← wrap_err (ErrField "seq") (readTU32 seqBytes);
  data ← requireTLV m streamTLVTypeData;
  _ ← ensure (bool_decide (env_MsgID env = ComputeDeterministicStreamChunkMsgID streamID seq))
             ErrMsgIDMismatch;
  Ok {| sc_Envelope := env; sc_StreamID := streamID; sc_Seq := seq; sc_Data := Some data |}.

(** ** stream_end.go *)

Definition EncodeStreamEnd (e : StreamEnd) : wres bytes :=
  envelopeRecords ← encodeJobEnvelope (se_Envelope e);
  encodeTLVStream
    (envelopeRecords
     ++ [ primBytes32 streamTLVTypeStreamID (se_StreamID e);
          makeTU64Record streamTLVTypeTotalLen (se_TotalLen e);
          primBytes32 streamTLVTypeSHA256 (se_SHA256 e) ]).

Definition DecodeStreamEnd (payload : bytes) : wres StreamEnd :=
  m ← decodeTLVMap payload;
  env ← decodeJobEnvelope m;
  streamIDBytes ← requireTLV m streamTLVTypeStreamID;
  streamID ← wrap_err (ErrField "stream_id") (readBytes32 streamIDBytes);
  totalLenBytes ← requireTLV m streamTLVTypeTotalLen;
  totalLen ← wrap_err (ErrField "total_len") (readTU64 totalLenBytes);
  sha256Bytes ← requireTLV m streamTLVTypeSHA256;
  sha256Sum ← wrap_err (ErrField "sha256") (readBytes32 sha256Bytes);
  Ok {| se_Envelope := env; se_StreamID := streamID; se_TotalLen := totalLen;
        se_SHA256 := sha256Sum |}.

(** ** result.go *)

Definition resultTLVTypeStatus : Z := 100.
Definition resultTLVTypeResultStreamID : Z := 101.
Definition resultTLVTypeResultHash : Z := 102.
Definition resultTLVTypeResultLen : Z := 103.
Definition resultTLVTypeResultContentType : Z := 104.
Definition resultTLVTypeResultContentEncode : Z := 105.
Definition resultTLVTypeMessage : Z := 81.

Definition valid_status (s : Z) : bool :=
  (s =? ResultStatusOK) || (s =? ResultStatusFailed) || (s =? ResultStatusCancelled).

Definition EncodeResult (r : Result) : wres bytes :=
  envelopeRecords ← encodeJobEnvelope (rs_Envelope r);
  _ ← ensure (valid_status (rs_Status r)) (ErrInvalidStatus (rs_Status r));
  messageRecords ←
    match rs_Message r with
    | Some msg =>
      if rs_Status r =? ResultStatusOK then Ok [] else
      _ ← validateUTF8String msg "message";
      Ok [primVarBytes resultTLVTypeMessage (bytes_of_string msg)]
    | None => Ok []
    end;
  let records := envelopeRecords ++ messageRecords ++ [primU16 resultTLVTypeStatus (rs_Status r)] in
  if negb (rs_Status r =? ResultStatusOK) then
    match rs_OK r with
    | Some _ => Err ErrOKOmitted
    | None => encodeTLVStream records
    end
  else
  ok ← or_err (rs_OK r) ErrOKRequired;
  _ ← ensure (bool_decide (rs_Message r = None)) ErrMessageOmitted;
  _ ← ensure (negb (bool_decide (ro_ResultContentType ok = ""%string))) (ErrRequired "result_content_type");
  _ ← validateUTF8String (ro_ResultContentType ok) "result_content_type";
  _ ← ensure (negb (bool_decide (ro_ResultContentEncoding ok = ""%string))) (ErrRequired "result_content_encoding");
  _ ← validateUTF8String (ro_ResultContentEncoding ok) "result_content_encoding";
  encodeTLVStream
    (records
     ++ [ primBytes32 resultTLVTypeResultStreamID (ro_ResultStreamID ok);
          primBytes32 resultTLVTypeResultHash (ro_ResultHash ok);
          makeTU64Record resultTLVTypeResultLen (ro_ResultLen ok);
          primVarBytes resultTLVTypeResultContentType (bytes_of_string (ro_ResultContentType ok));
          primVarBytes resultTLVTypeResultContentEncode (bytes_of_string (ro_ResultContentEncoding ok)) ]).

Definition decodeResultStatus (m : gmap Z bytes) : wres Z :=
  statusBytes ← requireTLV m resultTLVTypeStatus;
  status ← wrap_err (ErrField "status") (readU16 statusBytes);
  _ ← ensure (valid_status status) (ErrInvalidStatus status);
  Ok status.

Definition decodeOptionalResultMessage (m : gmap Z bytes) : wres (option string) :=
  match m !! resultTLVTypeMessage with
  | Some b => Some <$> readUTF8String b "message"
  | None => Ok None
  end.

Definition ensureNoResultOKMetadata (m : gmap Z bytes) : wres unit :=
  ensure (forallb (λ t, bool_decide (m !! t = None))
            [ resultTLVTypeResultStreamID; resultTLVTypeResultHash; resultTLVTypeResultLen;
              resultTLVTypeResultContentType; resultTLVTypeResultContentEncode ])
         ErrOKOmitted.

Definition decodeResultOKMetadata (m : gmap Z bytes) : wres ResultOK :=
  streamIDBytes ← requireTLV m resultTLVTypeResultStreamID;
  streamID ← wrap_err (ErrField "result_stream_id") (readBytes32 streamIDBytes);
  hashBytes ← requireTLV m resultTLVTypeResultHash;
  hash ← wrap_err (ErrField "result_hash") (readBytes32 hashBytes);
  lenBytes ← requireTLV m resultTLVTypeResultLen;
  resultLen ← wrap_err (ErrField "result_len") (readTU64 lenBytes);
  ctBytes ← requireTLV m resultTLVTypeResultContentType;
  ct ← readUTF8String ctBytes "result_content_type";
  _ ← ensure (negb (bool_decide (ct = ""%string))) (ErrRequired "result_content_type");
  ceBytes ← requireTLV m resultTLVTypeResultContentEncode;
  ce ← readUTF8String ceBytes "result_content_encoding";
  _ ← ensure (negb (bool_decide (ce = ""%string))) (ErrRequired "result_content_encoding");
  Ok {| ro_ResultStreamID := streamID; ro_ResultHash := hash; ro_ResultLen := resultLen;
        ro_ResultContentType := ct; ro_ResultContentEncoding := ce |}.

Definition DecodeResult (payload : bytes) : wres Result :=
  m ← decodeTLVMap payload;
  env ← decodeJobEnvelope m;
  status ← decodeResultStatus m;
  msg ← decodeOptionalResultMessage m;
  if negb (status =? ResultStatusOK) then
    _ ← ensureNoResultOKMetadata m;
    Ok {| rs_Envelope := env; rs_Status := status; rs_OK := None; rs_Message := msg |}
  else
  okMeta ← decodeResultOKMetadata m;
  Ok {| rs_Envelope := env; rs_Status := status; rs_OK := Some okMeta; rs_Message := None |}.

(** ** cancel.go *)

Definition cancelTLVTypeReason : Z := 70.

Definition EncodeCancel (c : Cancel) : wres bytes :=
  envelopeRecords ← encodeJobEnvelope (cn_Envelope c);
  reasonRecords ←
    match cn_Reason c with
    | Some reason =>
      _ ← validateUTF8String reason "reason";
      Ok [primVarBytes cancelTLVTypeReason (bytes_of_string reason)]
    | None => Ok []
    end;
  encodeTLVStream (envelopeRecords ++ reasonRecords).

Definition DecodeCancel (payload : bytes) : wres Cancel :=
  m ← decodeTLVMap payload;
  env ← decodeJobEnvelope m;
  reason ← match m !! cancelTLVTypeReason with
           | Some b => Some <$> readUTF8String b "reason"
           | None => Ok None
           end;
  Ok {| cn_Envelope := env; cn_Reason := reason |}.

(** ** error.go *)

Definition errorTLVTypeCode : Z := 80.
Definition errorTLVTypeMessage : Z := 81.

Definition EncodeError (e : LcpError) : wres bytes :=
  envelopeRecords ← encodeJobEnvelope (er_Envelope e);
  _ ← ensure (negb (er_Code e =? 0)) (ErrRequired "code");
  messageRecords ←
    match er_Message e with
    | Some msg =>
      _ ← validateUTF8String msg "message";
      Ok [primVarBytes errorTLVTypeMessage (bytes_of_string msg)]
    | None => Ok []
    end;
  encodeTLVStream (envelopeRecords ++ [primU16 errorTLVTypeCode (er_Code e)] ++ messageRecords).

Definition DecodeError (payload : bytes) : wres LcpError :=
  m ← decodeTLVMap payload;
  env ← decodeJobEnvelope m;
  codeBytes ← requireTLV m errorTLVTypeCode;
  code ← wrap_err (ErrField "code") (readU16 codeBytes);
  _ ← ensure (negb (code =? 0)) (ErrRequired "code");
  msg ← match m !! errorTLVTypeMessage with
        | Some b => Some <$> readUTF8String b "message"
        | None => Ok None
        end;
  Ok {| er_Envelope := env; er_Code := code; er_Message := msg |}.

(** ** manifest.go *)

Definition manifestTLVTypeMaxPayloadBytes : Z := 11.
Definition manifestTLVTypeMaxStreamBytes : Z := 14.
Definition manifestTLVTypeMaxJobBytes : Z := 15.
Definition manifestTLVTypeMaxInflightJobs : Z := 16.
Definition manifestTLVTypeSupportedTasks : Z := 12.

Definition EncodeTaskTemplate (t : TaskTemplate) : wres bytes :=
  _ ← ensure (negb (bool_decide (tt_TaskKind t = ""%string))) (ErrRequired "task_kind");
  _ ← validateUTF8String (tt_TaskKind t) "task_kind";
  encodeTLVStream
    ([primVarBytes tlvTypeTaskKind (bytes_of_string (tt_TaskKind t))]
     ++ match tt_ParamsBytes t with
        | Some params => [primVarBytes tlvTypeParams params]
        | None => []
        end).

Definition DecodeTaskTemplate (payload : bytes) : wres TaskTemplate :=
  m ← decodeTLVMap payload;
  taskKindBytes ← requireTLV m tlvTypeTaskKind;
  taskKind ← readUTF8String taskKindBytes "task_kind";
  _ ← ensure (negb (bool_decide (taskKind = ""%string))) (ErrRequired "task_kind");
  Ok {| tt_TaskKind := taskKind; tt_ParamsBytes := m !! tlvTypeParams |}.

Definition EncodeManifest (m : Manifest) : wres bytes :=
  _ ← ensure (negb (mf_ProtocolVersion m =? 0)) (ErrRequired "protocol_version");
  _ ← ensure (negb (mf_MaxPayloadBytes m =? 0)) (ErrRequired "max_payload_bytes");
  _ ← ensure (negb (mf_MaxStreamBytes m =? 0)) (ErrRequired "max_stream_bytes");
  _ ← ensure (negb (mf_MaxJobBytes m =? 0)) (ErrRequired "max_job_bytes");
  taskRecords ←
    match mf_SupportedTasks m with
    | [] => Ok []
    | tasks =>
      encodedTasks ← wrap_err (ErrField "encode supported_tasks") (mapM_result EncodeTaskTemplate tasks);
      listBytes ← EncodeBytesList encodedTasks;
      Ok [primVarBytes manifestTLVTypeSupportedTasks listBytes]
    end;
  encodeTLVStream
    ([ primU16 tlvTypeProtocolVersion (mf_ProtocolVersion m);
       makeTU32Record manifestTLVTypeMaxPayloadBytes (mf_MaxPayloadBytes m) ]
     ++ taskRecords
     ++ [ makeTU64Record manifestTLVTypeMaxStreamBytes (mf_MaxStreamBytes m);
          makeTU64Record manifestTLVTypeMaxJobBytes (mf_MaxJobBytes m) ]
     ++ match mf_MaxInflightJobs m with
        | Some maxInflight => [primU16 manifestTLVTypeMaxInflightJobs maxInflight]
        | None => []
        end).

Definition decodeManifestMaxPayloadBytes (m : gmap Z bytes) : wres Z :=
  raw ← requireTLV m manifestTLVTypeMaxPayloadBytes;
  v ← wrap_err (ErrField "max_payload_bytes") (readTU32 raw);
  _ ← ensure (negb (v =? 0)) (ErrRequired "max_payload_bytes");
  Ok v.

Definition decodeManifestMaxStreamBytes (m : gmap Z bytes) : wres Z :=
  raw ← requireTLV m manifestTLVTypeMaxStreamBytes;
  v ← wrap_err (ErrField "max_stream_bytes") (readTU64 raw);
  _ ← ensure (negb (v =? 0)) (ErrRequired "max_stream_bytes");
  Ok v.

Definition decodeManifestMaxJobBytes (m : gmap Z bytes) : wres Z :=
  raw ← requireTLV m manifestTLVTypeMaxJobBytes;
  v ← wrap_err (ErrField "max_job_bytes") (readTU64 raw);
  _ ← ensure (negb (v =? 0)) (ErrRequired "max_job_bytes");
  Ok v.

Definition decodeManifestMaxInflightJobs (m : gmap Z bytes) : wres (option Z) :=
  match m !! manifestTLVTypeMaxInflightJobs with
  | Some b => Some <$> wrap_err (ErrField "max_inflight_jobs") (readU16 b)
  | None => Ok None
  end.

Definition decodeManifestSupportedTasks (m : gmap Z bytes) : wres (list TaskTemplate) :=
  match m !! manifestTLVTypeSupportedTasks with
  | Some b =>
    items ← wrap_err (ErrField "supported_tasks") (DecodeBytesList b);
    wrap_err (ErrField "supported_tasks") (mapM_result DecodeTaskTemplate items)
  | None => Ok []
  end.

Definition DecodeManifest (payload : bytes) : wres Manifest :=
  m ← decodeTLVMap payload;
  _ ← validateJobScopeNotPresent m;
  pv ← decodeProtocolVersionOnly m;
  maxPayloadBytes ← decodeManifestMaxPayloadBytes m;
  maxStreamBytes ← decodeManifestMaxStreamBytes m;
  maxJobBytes ← decodeManifestMaxJobBytes m;
  maxInflightJobs ← decodeManifestMaxInflightJobs m;
  supportedTasks ← decodeManifestSupportedTasks m;
  Ok {| mf_ProtocolVersion := pv; mf_MaxPayloadBytes := maxPayloadBytes;
        mf_MaxStreamBytes := maxStreamBytes; mf_MaxJobBytes := maxJobBytes;
        mf_MaxInflightJobs := maxInflightJobs; mf_SupportedTasks := supportedTasks |}.

(** ** openai_chat_completions_v1_params.go and openai_responses_v1_params.go

    The two files are the same code for two task kinds, with one TLV type. *)

Definition openAIParamsTLVTypeModel : Z := 1.

Definition EncodeOpenAIParams (p : OpenAIParams) : wres bytes :=
  _ ← ensure (negb (bool_decide (oa_Model p = ""%string))) (ErrRequired "model");
  _ ← validateUTF8String (oa_Model p) "model";
  encodeTLVStream [primVarBytes openAIParamsTLVTypeModel (bytes_of_string (oa_Model p))].

Definition DecodeOpenAIParams (payload : bytes) : wres OpenAIParams :=
  m ← decodeTLVMap payload;
  modelBytes ← requireTLV m openAIParamsTLVTypeModel;
  model ← readUTF8String modelBytes "model";
  _ ← ensure (negb (bool_decide (model = ""%string))) (ErrRequired "model");
  Ok {| oa_Model := model;
        oa_Unknown := filter (λ kv, kv.1 ≠ openAIParamsTLVTypeModel) m |}.

Definition EncodeOpenAIChatCompletionsV1Params := EncodeOpenAIParams.
Definition DecodeOpenAIChatCompletionsV1Params := DecodeOpenAIParams.
Definition EncodeOpenAIResponsesV1Params := EncodeOpenAIParams.
Definition DecodeOpenAIResponsesV1Params := DecodeOpenAIParams.

End wire.
