(* ===== verification/WireProofs.v ===== *)
(** * Round trips and decoder guarantees of package [lcpwire]

    [wf_X x]: the field widths and lengths that Go's types fix, together with the
    conditions under which a value of type [X] can travel in one TLV stream (a
    record holds at most [max_record_size] bytes).  For every message, encoding a
    well-formed value succeeds and decoding the payload returns that value; what
    a decoder accepts is well formed. *)

From S2P Require Import Prelude GoStd TlvLib Wire.

(** ** Well-formed values *)

Definition wf_text (s : string) : Prop :=
  utf8_valid (bytes_of_string s) = true ∧ blen (bytes_of_string s) ≤ max_record_size.
Definition wf_name (s : string) : Prop := s ≠ ""%string ∧ wf_text s.
Definition wf_blob (b : bytes) : Prop := blen b ≤ max_record_size.
Definition wf_hash (b : bytes) : Prop := length b = 32%nat.
Definition wf_opt {A} (P : A → Prop) (o : option A) : Prop :=
  match o with Some a => P a | None => True end.

Definition wf_env (e : JobEnvelope) : Prop :=
  is_u16 (env_ProtocolVersion e) ∧ wf_hash (env_JobID e) ∧ wf_hash (env_MsgID e) ∧
  is_u64 (env_Expiry e).
(** A job-scoped message that can be sent. *)
Definition sendable (e : JobEnvelope) : Prop := env_ProtocolVersion e ≠ 0 ∧ wf_env e.

Definition wf_quote_request (q : QuoteRequest) : Prop :=
  wf_env (qr_Envelope q) ∧ wf_name (qr_TaskKind q) ∧ wf_opt wf_blob (qr_ParamsBytes q).

Definition wf_quote_response (q : QuoteResponse) : Prop :=
  wf_env (qs_Envelope q) ∧ is_u64 (qs_PriceMsat q) ∧ is_u64 (qs_QuoteExpiry q) ∧
  wf_hash (qs_TermsHash q) ∧ wf_name (qs_PaymentRequest q).

Definition valid_kind (k : Z) : Prop := k = StreamKindInput ∨ k = StreamKindResult.

Definition wf_stream_begin (b : StreamBegin) : Prop :=
  wf_env (sb_Envelope b) ∧ wf_hash (sb_StreamID b) ∧ valid_kind (sb_Kind b) ∧
  wf_opt is_u64 (sb_TotalLen b) ∧ wf_opt wf_hash (sb_SHA256 b) ∧
  wf_name (sb_ContentType b) ∧ wf_name (sb_ContentEncoding b).

(** The message id of a chunk is a function of its stream and sequence number. *)
Definition wf_stream_chunk (c : StreamChunk) : Prop :=
  wf_env (sc_Envelope c) ∧ wf_hash (sc_StreamID c) ∧ is_u32 (sc_Seq c) ∧
  (∃ d, sc_Data c = Some d ∧ wf_blob d) ∧
  env_MsgID (sc_Envelope c) = ComputeDeterministicStreamChunkMsgID (sc_StreamID c) (sc_Seq c).

Definition wf_stream_end (e : StreamEnd) : Prop :=
  wf_env (se_Envelope e) ∧ wf_hash (se_StreamID e) ∧ is_u64 (se_TotalLen e) ∧ wf_hash (se_SHA256 e).

Definition wf_result_ok (o : ResultOK) : Prop :=
  wf_hash (ro_ResultStreamID o) ∧ wf_hash (ro_ResultHash o) ∧ is_u64 (ro_ResultLen o) ∧
  wf_name (ro_ResultContentType o) ∧ wf_name (ro_ResultContentEncoding o).

(** Metadata exactly when the status is ok, a message only when it is not. *)
Definition wf_result (r : Result) : Prop :=
  wf_env (rs_Envelope r) ∧
  ((rs_Status r = ResultStatusOK ∧ rs_Message r = None ∧ ∃ o, rs_OK r = Some o ∧ wf_result_ok o) ∨
   ((rs_Status r = ResultStatusFailed ∨ rs_Status r = ResultStatusCancelled) ∧
    rs_OK r = None ∧ wf_opt wf_text (rs_Message r))).

Definition wf_cancel (c : Cancel) : Prop :=
  wf_env (cn_Envelope c) ∧ wf_opt wf_text (cn_Reason c).

Definition wf_error (e : LcpError) : Prop :=
  wf_env (er_Envelope e) ∧ is_u16 (er_Code e) ∧ er_Code e ≠ 0 ∧ wf_opt wf_text (er_Message e).

Definition wf_task_template (t : TaskTemplate) : Prop :=
  wf_name (tt_TaskKind t) ∧ wf_opt wf_blob (tt_ParamsBytes t).

(** The size of an encoded list of byte strings. *)
Definition list_size (items : list bytes) : Z :=
  blen (bigsize (blen items)) + blen (items ≫= λ i, bigsize (blen i) ++ i).

(** An upper bound on the size of an encoded task template. *)
Definition task_records (t : TaskTemplate) : list tlv_record :=
  (tlvTypeTaskKind, bytes_of_string (tt_TaskKind t)) ::
  match tt_ParamsBytes t with Some p => [(tlvTypeParams, p)] | None => [] end.

Definition wf_manifest (m : Manifest) : Prop :=
  is_u16 (mf_ProtocolVersion m) ∧ mf_ProtocolVersion m ≠ 0 ∧
  is_u32 (mf_MaxPayloadBytes m) ∧ mf_MaxPayloadBytes m ≠ 0 ∧
  is_u64 (mf_MaxStreamBytes m) ∧ mf_MaxStreamBytes m ≠ 0 ∧
  is_u64 (mf_MaxJobBytes m) ∧ mf_MaxJobBytes m ≠ 0 ∧
  wf_opt is_u16 (mf_MaxInflightJobs m) ∧
  Forall wf_task_template (mf_SupportedTasks m) ∧
  blen (mf_SupportedTasks m) ≤ maxBytesListCount ∧
  list_size ((λ t, stream_bytes (task_records t)) <$> mf_SupportedTasks m) ≤ max_record_size.

(** ** Records *)

Section proofs.
Context {T : TlvLib} {L : TlvLaws T}.

Lemma readU16_enc v : is_u16 v → readU16 (tlv_e_uint16 v) = Ok v.
Proof.
  intros Hv. rewrite tlv_e_uint16_spec by done. unfold readU16.
  rewrite blen_be_bytes. change (Z.of_nat 2 =? 2) with true. cbn iota.
  rewrite be_Z_be_bytes_small; [done|]. unfold is_uint in Hv. lia.
Qed.

Lemma readBytes32_enc b : wf_hash b → readBytes32 (tlv_e_bytes32 b) = Ok b.
Proof. intros Hb. rewrite tlv_e_bytes32_spec by done. unfold readBytes32, blen. by rewrite Hb. Qed.

Lemma readTU32_enc v : is_u32 v → readTU32 (tlv_e_tuint32 v) = Ok v.
Proof. intros Hv. unfold readTU32. by rewrite tlv_tuint32_complete. Qed.

Lemma readTU64_enc v : is_u64 v → readTU64 (tlv_e_tuint64 v) = Ok v.
Proof. intros Hv. unfold readTU64. by rewrite tlv_tuint64_complete. Qed.

Lemma readUTF8String_enc s f :
  wf_text s → readUTF8String (tlv_e_varbytes (bytes_of_string s)) f = Ok s.
Proof.
  intros [Hs _]. rewrite tlv_e_varbytes_spec. unfold readUTF8String. rewrite Hs.
  by rewrite string_of_bytes_of_string.
Qed.

Lemma readU16_inv b v : readU16 b = Ok v → is_u16 v.
Proof.
  unfold readU16. destruct (Z.eqb_spec (blen b) 2) as [Hb|]; [|done]. intros [= <-].
  pose proof (be_Z_range b) as H. rewrite Hb in H. exact H.
Qed.

Lemma readBytes32_inv b h : readBytes32 b = Ok h → wf_hash h.
Proof.
  unfold readBytes32, wf_hash, blen.
  destruct (Z.eqb_spec (Z.of_nat (length b)) 32); [|done]. intros [= <-]. lia.
Qed.

Lemma readTU32_inv b v : readTU32 b = Ok v → is_u32 v.
Proof. intros H. apply or_err_ok_inv in H. by apply tlv_tuint32_sound in H as [? _]. Qed.

Lemma readTU64_inv b v : readTU64 b = Ok v → is_u64 v.
Proof. intros H. apply or_err_ok_inv in H. by apply tlv_tuint64_sound in H as [? _]. Qed.

Lemma readUTF8String_inv b f s : blen b ≤ max_record_size → readUTF8String b f = Ok s → wf_text s.
Proof.
  unfold readUTF8String, wf_text. destruct (utf8_valid b) eqn:Hb; [|done]. intros ? [= <-].
  by rewrite bytes_of_string_of_bytes.
Qed.

Lemma ensure_nonempty_inv s (f : string) u :
  ensure (negb (bool_decide (s = ""%string))) (ErrRequired f) = Ok u → s ≠ ""%string.
Proof. intros H. apply ensure_ok_inv in H. by bool_to_prop. Qed.

(** Sizes of record values. *)
Lemma size_u16 v : is_u16 v → blen (tlv_e_uint16 v) ≤ max_record_size.
Proof. intros. rewrite tlv_e_uint16_spec, blen_be_bytes by done. unfold max_record_size. lia. Qed.
Lemma size_bytes32 b : wf_hash b → blen (tlv_e_bytes32 b) ≤ max_record_size.
Proof.
  intros Hb. rewrite tlv_e_bytes32_spec by done. unfold blen. rewrite Hb.
  unfold max_record_size. lia.
Qed.
Lemma size_tu32 v : is_u32 v → blen (tlv_e_tuint32 v) ≤ max_record_size.
Proof. intros H. pose proof (tlv_tuint32_short v H). unfold max_record_size. lia. Qed.
Lemma size_tu64 v : is_u64 v → blen (tlv_e_tuint64 v) ≤ max_record_size.
Proof. intros H. pose proof (tlv_tuint64_short v H). unfold max_record_size. lia. Qed.
Lemma size_text s : wf_text s → blen (tlv_e_varbytes (bytes_of_string s)) ≤ max_record_size.
Proof. intros [_ H]. by rewrite tlv_e_varbytes_spec. Qed.
Lemma size_blob b : wf_blob b → blen (tlv_e_varbytes b) ≤ max_record_size.
Proof. intros H. by rewrite tlv_e_varbytes_spec. Qed.

Lemma is_u64_size z : 0 ≤ z → z ≤ max_record_size → is_u64 z.
Proof. unfold is_uint, max_record_size. lia. Qed.

(** The two directions of the codec on records the P2P decoder accepts. *)
Lemma encode_stream_ok rs : stream_ok rs → encodeTLVStream rs = Ok (stream_bytes rs).
Proof.
  intros [Hasc Hall]. unfold encodeTLVStream. rewrite tlv_new_stream_spec, Hasc.
  rewrite tlv_stream_encode_spec; [done..|].
  eapply Forall_impl; [exact Hall|]. intros r [Ht Hl]. split; [done|].
  apply is_u64_size; [apply blen_nonneg|done].
Qed.

Lemma decode_stream_ok rs : stream_ok rs → decodeTLVMap (stream_bytes rs) = Ok (list_to_map rs).
Proof.
  intros Hrs. unfold decodeTLVMap. rewrite tlv_new_stream_spec. simpl.
  by rewrite tlv_decode_complete.
Qed.

Lemma decodeTLVMap_inv p m t v :
  decodeTLVMap p = Ok m → m !! t = Some v → blen v ≤ max_record_size.
Proof.
  unfold decodeTLVMap. rewrite tlv_new_stream_spec. simpl. intros H Hv.
  apply or_err_ok_inv, tlv_decode_sound in H as (rs & [Hasc Hall] & -> & ->).
  apply elem_of_list_to_map_2 in Hv. rewrite Forall_forall in Hall.
  by destruct (Hall _ Hv).
Qed.

Lemma requireTLV_assoc rs t v :
  assoc t rs = Some v → requireTLV (list_to_map rs) t = Ok v.
Proof. intros H. unfold requireTLV. by rewrite lookup_list_to_map_assoc, H. Qed.

Lemma lookup_assoc_Some (rs : list tlv_record) t v :
  assoc t rs = Some v → (list_to_map rs : gmap Z bytes) !! t = Some v.
Proof. by rewrite lookup_list_to_map_assoc. Qed.
Lemma lookup_assoc_None (rs : list tlv_record) t :
  assoc t rs = None → (list_to_map rs : gmap Z bytes) !! t = None.
Proof. by rewrite lookup_list_to_map_assoc. Qed.

Lemma requireTLV_inv m t v : requireTLV m t = Ok v → m !! t = Some v.
Proof. apply or_err_ok_inv. Qed.

Lemma nonempty_name s : wf_name s → negb (bool_decide (s = ""%string)) = true.
Proof. intros [H _]. by rewrite bool_decide_eq_false_2. Qed.

Lemma validateUTF8String_text s f : wf_text s → validateUTF8String s f = Ok tt.
Proof. intros [H _]. unfold validateUTF8String. by rewrite H. Qed.

Lemma wf_name_text s : wf_name s → wf_text s.
Proof. by intros [_ ?]. Qed.
Definition envelope_records (e : JobEnvelope) : list tlv_record :=
  [ primU16 tlvTypeProtocolVersion (env_ProtocolVersion e);
    primBytes32 tlvTypeJobID (env_JobID e);
    primBytes32 tlvTypeMsgID (env_MsgID e);
    makeTU64Record tlvTypeExpiry (env_Expiry e) ].

End proofs.

#[export] Hint Resolve size_u16 size_bytes32 size_tu32 size_tu64 size_text size_blob wf_name_text : lcp.

(** Proves [stream_ok] of a concrete list of record types. *)
Ltac solve_stream_ok :=
  cbn [wf_opt] in *; split; [reflexivity|];
  repeat (apply List.Forall_cons;
    [split; [vm_compute; split; [discriminate|reflexivity]|
      cbv [snd primU16 primBytes32 primVarBytes makeTU32Record makeTU64Record];
      eauto with lcp]|]);
  try apply List.Forall_nil.

(** Runs an encoder or decoder on well-formed fields. *)
Ltac wire_step :=
  first
  [ rewrite validateUTF8String_text by eauto with lcp
  | rewrite nonempty_name by done
  | erewrite requireTLV_assoc by reflexivity
  | rewrite readU16_enc by done
  | rewrite readBytes32_enc by done
  | rewrite readTU32_enc by done
  | rewrite readTU64_enc by done
  | rewrite readUTF8String_enc by eauto with lcp
  | erewrite lookup_assoc_Some by reflexivity
  | rewrite lookup_assoc_None by reflexivity
  | rewrite bool_decide_eq_true_2 by reflexivity
  | rewrite tlv_e_varbytes_spec ];
  cbn [forallb andb negb mbind result_bind wrap_err ensure fmap result_fmap mret result_ret or_err].
Ltac wire_run :=
  cbn [forallb andb negb mbind result_bind wrap_err ensure fmap result_fmap mret result_ret or_err];
  repeat wire_step.

Section roundtrips.
Context {T : TlvLib} {L : TlvLaws T}.

Lemma encodeJobEnvelope_ok e : sendable e → encodeJobEnvelope e = Ok (envelope_records e).
Proof.
  intros [Hpv _]. unfold encodeJobEnvelope.
  by destruct (Z.eqb_spec (env_ProtocolVersion e) 0).
Qed.

Lemma decodeJobEnvelope_ok e rs :
  wf_env e → decodeJobEnvelope (list_to_map (envelope_records e ++ rs)) = Ok e.
Proof.
  intros (Hpv & Hj & Hm & Hx). unfold decodeJobEnvelope. wire_run. by destruct e.
Qed.

Lemma decodeJobEnvelope_inv m e : decodeJobEnvelope m = Ok e → wf_env e.
Proof.
  unfold decodeJobEnvelope. intros H. invert_ok. subst e.
  repeat split; cbn; eauto using readBytes32_inv.
  all: try (eapply readU16_inv; eassumption); eapply readTU64_inv; eassumption.
Qed.

(** Encoding a list of records and decoding the payload again. *)
Lemma codec_roundtrip {A} (enc : wres bytes) (dec : bytes → wres A) rs x :
  stream_ok rs → enc = encodeTLVStream rs →
  (∀ p, decodeTLVMap p = Ok (list_to_map rs) → dec p = Ok x) →
  ∃ p, enc = Ok p ∧ dec p = Ok x.
Proof.
  intros Hrs -> Hdec. exists (stream_bytes rs). split; [by apply encode_stream_ok|].
  by apply Hdec, decode_stream_ok.
Qed.

Ltac proj_simpl :=
  cbn [qr_Envelope qr_TaskKind qr_ParamsBytes
       qs_Envelope qs_PriceMsat qs_QuoteExpiry qs_TermsHash qs_PaymentRequest
       sb_Envelope sb_StreamID sb_Kind sb_TotalLen sb_SHA256 sb_ContentType sb_ContentEncoding
       sc_Envelope sc_StreamID sc_Seq sc_Data se_Envelope se_StreamID se_TotalLen se_SHA256
       rs_Envelope rs_Status rs_OK rs_Message ro_ResultStreamID ro_ResultHash ro_ResultLen
       ro_ResultContentType ro_ResultContentEncoding cn_Envelope cn_Reason
       er_Envelope er_Code er_Message tt_TaskKind tt_ParamsBytes
       env_ProtocolVersion env_JobID env_MsgID env_Expiry wf_opt] in *.
Ltac rt_encode Hs :=
  rewrite (encodeJobEnvelope_ok _ Hs); wire_run; reflexivity.
Ltac rt_decode He Hd :=
  rewrite Hd; cbn [mbind result_bind]; rewrite decodeJobEnvelope_ok by exact He;
  cbn [wf_opt] in *; wire_run.

Lemma quote_request_rt q :
  sendable (qr_Envelope q) → wf_quote_request q →
  ∃ p, EncodeQuoteRequest q = Ok p ∧ DecodeQuoteRequest p = Ok q.
Proof.
  destruct q as [e k ps]. intros Hs (He & Hk & Hp). pose proof He as (? & ? & ? & ?).
  destruct ps as [b|]; proj_simpl; (eapply codec_roundtrip;
    [|unfold EncodeQuoteRequest; proj_simpl; rt_encode Hs|]; [solve_stream_ok|]);
    intros p Hd; unfold DecodeQuoteRequest; rt_decode He Hd; cbn;
    by rewrite ?tlv_e_varbytes_spec.
Qed.

Lemma quote_response_rt q :
  sendable (qs_Envelope q) → wf_quote_response q →
  ∃ p, EncodeQuoteResponse q = Ok p ∧ DecodeQuoteResponse p = Ok q.
Proof.
  destruct q as [e pr ex th pay]. intros Hs (He & Hp & Hx & Ht & Hr).
  pose proof He as (? & ? & ? & ?). proj_simpl.
  eapply codec_roundtrip; [|unfold EncodeQuoteResponse; proj_simpl; rt_encode Hs|]; [solve_stream_ok|].
  intros p Hd. unfold DecodeQuoteResponse. by rt_decode He Hd.
Qed.

Lemma valid_kind_test k :
  valid_kind k → ((k =? StreamKindInput) || (k =? StreamKindResult)) = true ∧ is_u16 k.
Proof. by intros [-> | ->]. Qed.

Lemma stream_begin_rt b :
  sendable (sb_Envelope b) → wf_stream_begin b →
  ∃ p, EncodeStreamBegin b = Ok p ∧ DecodeStreamBegin p = Ok b.
Proof.
  destruct b as [e sid k tl sum ct ce]. intros Hs (He & Hid & Hk & Htl & Hsum & Hct & Hce).
  pose proof He as (? & ? & ? & ?). proj_simpl. apply valid_kind_test in Hk as [Hk Hk16].
  destruct tl as [tl|], sum as [sum|]; proj_simpl; (eapply codec_roundtrip;
    [|unfold EncodeStreamBegin; proj_simpl; rewrite Hk; rt_encode Hs|]; [solve_stream_ok|]);
    intros p Hd; unfold DecodeStreamBegin, decodeStreamBeginBody; rt_decode He Hd;
    rewrite Hk; cbn; by wire_run.
Qed.

Lemma stream_end_rt x :
  sendable (se_Envelope x) → wf_stream_end x →
  ∃ p, EncodeStreamEnd x = Ok p ∧ DecodeStreamEnd p = Ok x.
Proof.
  destruct x as [e sid tl sum]. intros Hs (He & Hid & Htl & Hsum).
  pose proof He as (? & ? & ? & ?). proj_simpl.
  eapply codec_roundtrip; [|unfold EncodeStreamEnd; proj_simpl; rt_encode Hs|]; [solve_stream_ok|].
  intros p Hd. unfold DecodeStreamEnd. by rt_decode He Hd.
Qed.

Lemma cancel_rt c :
  sendable (cn_Envelope c) → wf_cancel c →
  ∃ p, EncodeCancel c = Ok p ∧ DecodeCancel p = Ok c.
Proof.
  destruct c as [e r]. intros Hs (He & Hr). pose proof He as (? & ? & ? & ?).
  destruct r as [r|]; proj_simpl; (eapply codec_roundtrip;
    [|unfold EncodeCancel; proj_simpl; rt_encode Hs|]; [solve_stream_ok|]);
    intros p Hd; unfold DecodeCancel; rt_decode He Hd; cbn; by wire_run.
Qed.

Lemma error_rt x :
  sendable (er_Envelope x) → wf_error x →
  ∃ p, EncodeError x = Ok p ∧ DecodeError p = Ok x.
Proof.
  destruct x as [e c msg]. intros Hs (He & Hc & Hc0 & Hm). pose proof He as (? & ? & ? & ?).
  proj_simpl. assert (Hnz : (c =? 0) = false) by (by apply Z.eqb_neq).
  destruct msg as [msg|]; proj_simpl; (eapply codec_roundtrip;
    [|unfold EncodeError; proj_simpl; rewrite Hnz; rt_encode Hs|]; [solve_stream_ok|]);
    intros p Hd; unfold DecodeError; rt_decode He Hd; rewrite Hnz; cbn; by wire_run.
Qed.

(** A chunk is sent with the message id computed from its stream and sequence
    number, whatever id the envelope holds. *)
Lemma stream_chunk_rt c :
  sendable (sc_Envelope c) → wf_stream_chunk c →
  ∃ p, EncodeStreamChunk c = Ok (p, env_MsgID (sc_Envelope c)) ∧ DecodeStreamChunk p = Ok c.
Proof.
  destruct c as [e sid sq dt]. intros Hs (He & Hid & Hsq & (d & Hd & Hdl) & Hmsg).
  pose proof He as (? & ? & ? & ?). proj_simpl. subst dt.
  pose (rs := envelope_records e ++
    [ primBytes32 streamTLVTypeStreamID sid; makeTU32Record streamTLVTypeSeq sq;
      primVarBytes streamTLVTypeData d ]).
  destruct (codec_roundtrip (encodeTLVStream rs) DecodeStreamChunk rs
    {| sc_Envelope := e; sc_StreamID := sid; sc_Seq := sq; sc_Data := Some d |})
    as (p & Hp & Hdec); [solve_stream_ok|reflexivity| |].
  - intros p Hdec. unfold DecodeStreamChunk. subst rs. rt_decode He Hdec.
    by rewrite (bool_decide_eq_true_2 _ Hmsg).
  - exists p. split; [|done]. unfold EncodeStreamChunk. proj_simpl. rewrite <-Hmsg.
    cbn [or_err mbind result_bind]. destruct e as [pv j m x]. proj_simpl.
    rewrite (encodeJobEnvelope_ok _ Hs). cbn [mbind result_bind].
    change (encodeTLVStream _) with (encodeTLVStream rs). by rewrite Hp.
Qed.

Lemma valid_status_bad s :
  s = ResultStatusFailed ∨ s = ResultStatusCancelled →
  valid_status s = true ∧ (s =? ResultStatusOK) = false ∧ is_u16 s.
Proof. by intros [-> | ->]. Qed.

Lemma result_rt_bad e s msg (r := {| rs_Envelope := e; rs_Status := s; rs_OK := None; rs_Message := msg |}) :
  sendable e → s = ResultStatusFailed ∨ s = ResultStatusCancelled → wf_opt wf_text msg →
  ∃ p, EncodeResult r = Ok p ∧ DecodeResult p = Ok r.
Proof.
  intros Hs Hst Hm. pose proof (proj2 Hs) as He. pose proof He as (? & ? & ? & ?).
  apply valid_status_bad in Hst as (Hv & Hnok & H16).
  destruct msg as [msg|]; subst r; proj_simpl; (eapply codec_roundtrip;
    [|unfold EncodeResult; proj_simpl; rewrite Hv, Hnok; rt_encode Hs|]; [solve_stream_ok|]);
    intros p Hd; unfold DecodeResult, decodeResultStatus, decodeOptionalResultMessage,
      ensureNoResultOKMetadata; rt_decode He Hd; rewrite Hv; wire_run; rewrite Hnok; by wire_run.
Qed.

Lemma result_rt_ok e o
    (r := {| rs_Envelope := e; rs_Status := ResultStatusOK; rs_OK := Some o; rs_Message := None |}) :
  sendable e → wf_result_ok o →
  ∃ p, EncodeResult r = Ok p ∧ DecodeResult p = Ok r.
Proof.
  intros Hs (Hid & Hh & Hl & Hct & Hce). pose proof (proj2 Hs) as He. pose proof He as (? & ? & ? & ?).
  assert (is_u16 ResultStatusOK) by done.
  subst r. destruct o as [sid h len ct ce]. proj_simpl. eapply codec_roundtrip;
    [|unfold EncodeResult; proj_simpl; cbn [valid_status ResultStatusOK Z.eqb orb negb bool_decide];
      rt_encode Hs|]; [solve_stream_ok|].
  intros p Hd. rewrite <-!app_assoc in Hd.
  unfold DecodeResult, decodeResultStatus, decodeOptionalResultMessage, decodeResultOKMetadata. rt_decode He Hd.
  cbn [valid_status ResultStatusOK Z.eqb orb negb ensure mbind result_bind].
  by wire_run.
Qed.

Lemma result_rt r :
  sendable (rs_Envelope r) → wf_result r →
  ∃ p, EncodeResult r = Ok p ∧ DecodeResult p = Ok r.
Proof.
  destruct r as [e s ok msg]. intros Hs (He & Hr). proj_simpl.
  destruct Hr as [(-> & -> & o & -> & Ho)|(Hst & -> & Hm)].
  - by apply result_rt_ok.
  - by apply result_rt_bad.
Qed.

(** *** bytes_list *)

Definition total_bytes (items : list bytes) : Z := foldr (λ i n, blen i + n) 0 items.

Lemma total_bytes_nonneg items : 0 ≤ total_bytes items.
Proof. induction items as [|i items IH]; simpl; [lia|]. pose proof (blen_nonneg i). lia. Qed.

Lemma decode_items_ok items : ∀ i total rest,
  0 ≤ total → total + total_bytes items ≤ maxBytesListTotalBytes →
  decodeBytesListItems (length items) i total
    ((items ≫= λ item, bigsize (blen item) ++ item) ++ rest) = Ok (items, rest).
Proof.
  induction items as [|b items IH]; intros i total rest Ht Hmax; [done|].
  simpl length. cbn [total_bytes foldr] in Hmax. fold (total_bytes items) in Hmax.
  pose proof (total_bytes_nonneg items). pose proof (blen_nonneg b).
  unfold maxBytesListTotalBytes in *.
  rewrite bind_cons, <-!app_assoc. cbn [decodeBytesListItems].
  rewrite tlv_read_varint_complete by (unfold is_uint; lia). cbn [or_err mbind result_bind].
  unfold uint64ToInt, max_i64. destruct (Z.ltb_spec (2 ^ 63 - 1) (blen b)); [lia|].
  cbn [wrap_err mbind result_bind]. rewrite blen_app.
  match goal with |- context [blen b + ?x <? blen b] =>
    destruct (Z.ltb_spec (blen b + x) (blen b)) as [Hlt|_] end.
  { rewrite blen_app in Hlt. pose proof (blen_nonneg rest).
    pose proof (blen_nonneg (items ≫= λ item : bytes, bigsize (blen item) ++ item)). lia. }
  unfold wrap_u64. rewrite Z.mod_small by lia. unfold maxBytesListTotalBytes.
  destruct (Z.ltb_spec 1048576 (total + blen b)); [lia|].
  assert (Hlen : Z.to_nat (blen b) = length b) by (unfold blen; lia).
  rewrite Hlen, take_app_length, drop_app_length.
  rewrite IH by lia. done.
Qed.

Lemma encode_list_eq items :
  Forall (λ i, is_u64 (blen i)) items → is_u64 (blen items) →
  EncodeBytesList items = Ok (bigsize (blen items) ++ (items ≫= λ i, bigsize (blen i) ++ i)).
Proof.
  intros Hi Hn. unfold EncodeBytesList. rewrite tlv_write_varint_spec by done. do 2 f_equal.
  clear Hn. induction Hi as [|i items Hi Hall IH]; [done|].
  by rewrite !bind_cons, IH, tlv_write_varint_spec.
Qed.

Lemma total_bytes_Forall items n :
  total_bytes items ≤ n → Forall (λ i, blen i ≤ n) items.
Proof.
  induction items as [|b items IH]; intros H; constructor; simpl in H.
  - pose proof (total_bytes_nonneg items). fold (total_bytes items) in H. lia.
  - apply IH. fold (total_bytes items) in H. pose proof (blen_nonneg b). lia.
Qed.

Lemma bytes_list_rt items :
  blen items ≤ maxBytesListCount → total_bytes items ≤ maxBytesListTotalBytes →
  ∃ p, EncodeBytesList items = Ok p ∧ DecodeBytesList p = Ok items.
Proof.
  intros Hn Ht. eexists. split.
  { apply encode_list_eq; [|unfold is_uint, maxBytesListCount in *; pose proof (blen_nonneg items); lia].
    eapply Forall_impl; [by apply total_bytes_Forall|]. intros i Hi. simpl in Hi.
    pose proof (blen_nonneg i). unfold is_uint, maxBytesListTotalBytes in *. lia. }
  unfold DecodeBytesList. pose proof (blen_nonneg items). unfold maxBytesListCount in *.
  rewrite tlv_read_varint_complete by (unfold is_uint; lia). cbn [or_err mbind result_bind].
  unfold maxBytesListCount. destruct (Z.ltb_spec 1024 (blen items)); [lia|].
  replace (Z.to_nat (blen items)) with (length items) by (unfold blen; lia).
  rewrite <-(app_nil_r (items ≫= _)), decode_items_ok by lia. done.
Qed.

(** What the list decoder accepts respects its limits. *)
Lemma decode_items_inv n : ∀ i total r items rest,
  0 ≤ total ≤ maxBytesListTotalBytes → decodeBytesListItems n i total r = Ok (items, rest) →
  length items = n ∧ total + total_bytes items ≤ maxBytesListTotalBytes ∧
  r = (items ≫= λ item, bigsize (blen item) ++ item) ++ rest.
Proof.
  induction n as [|n IH]; intros i total r items rest Ht H; simpl in H.
  { injection H as <- <-. simpl. split_and!; [done|lia|done]. }
  apply bind_ok_inv in H as ([v r1] & Hv & H). apply or_err_ok_inv in Hv.
  apply tlv_read_varint_sound in Hv as [Hv ->].
  apply bind_ok_inv in H as (len & Hlen & H). apply wrap_err_ok_inv in Hlen.
  unfold uint64ToInt, max_i64 in Hlen.
  destruct (Z.ltb_spec (2 ^ 63 - 1) v); [done|]. injection Hlen as <-.
  destruct (Z.ltb_spec (blen r1) v); [done|].
  unfold wrap_u64, maxBytesListTotalBytes, is_uint in *. rewrite Z.mod_small in H by lia.
  destruct (Z.ltb_spec 1048576 (total + v)); [done|].
  apply bind_ok_inv in H as ([items' r2] & Hitems & H). injection H as <- <-.
  apply IH in Hitems as (Hn & Htot & Hr); [|lia].
  assert (Hb : blen (take (Z.to_nat v) r1) = v)
    by (unfold blen in *; rewrite length_take; lia).
  rewrite bind_cons. simpl. fold (total_bytes items'). rewrite Hn, Hb.
  split_and!; [done|lia|]. by rewrite <-!app_assoc, <-Hr, take_drop.
Qed.

(** The decoder accepts exactly the canonical encodings within the limits. *)
Lemma bytes_list_inv p items :
  DecodeBytesList p = Ok items →
  EncodeBytesList items = Ok p ∧ blen items ≤ maxBytesListCount ∧
  total_bytes items ≤ maxBytesListTotalBytes.
Proof.
  unfold DecodeBytesList. intros H.
  apply bind_ok_inv in H as ([n r] & Hn & H). apply or_err_ok_inv in Hn.
  apply tlv_read_varint_sound in Hn as [Hn ->].
  unfold maxBytesListCount in *. destruct (Z.ltb_spec 1024 n); [done|].
  apply bind_ok_inv in H as ([items' r'] & Hi & H).
  apply decode_items_inv in Hi as (Hlen & Htot & ->); [|unfold maxBytesListTotalBytes; lia].
  destruct (Z.eqb_spec (blen r') 0) as [Hr|]; [|done]. injection H as ->.
  apply blen_zero in Hr as ->. rewrite app_nil_r.
  assert (Hbl : blen items = n) by (unfold blen, is_uint in *; lia).
  split_and!; [|lia|lia]. rewrite <-Hbl. apply encode_list_eq; [|by rewrite Hbl].
  eapply Forall_impl; [apply total_bytes_Forall, Htot|]. intros i Hi. simpl in Hi.
  pose proof (blen_nonneg i). unfold is_uint, maxBytesListTotalBytes in *. lia.
Qed.

(** *** manifest and task templates *)

Lemma task_template_rt t :
  wf_task_template t →
  EncodeTaskTemplate t = Ok (stream_bytes (task_records t)) ∧
  DecodeTaskTemplate (stream_bytes (task_records t)) = Ok t.
Proof.
  intros (Hk & Hp). assert (Hok : stream_ok (task_records t)).
  { destruct Hk as [_ [_ Hk]]. unfold task_records. destruct (tt_ParamsBytes t); solve_stream_ok. }
  split.
  - unfold EncodeTaskTemplate. wire_run. rewrite <-encode_stream_ok by done.
    unfold task_records, primVarBytes. rewrite tlv_e_varbytes_spec.
    destruct (tt_ParamsBytes t); by rewrite ?tlv_e_varbytes_spec.
  - unfold DecodeTaskTemplate. rewrite decode_stream_ok by done. cbn [mbind result_bind].
    unfold task_records. wire_run. rewrite <-(tlv_e_varbytes_spec (bytes_of_string _)).
    wire_run. destruct t as [k [ps|]]; reflexivity.
Qed.

Lemma task_templates_rt ts :
  Forall wf_task_template ts →
  let ps := (λ t, stream_bytes (task_records t)) <$> ts in
  mapM_result EncodeTaskTemplate ts = Ok ps ∧ mapM_result DecodeTaskTemplate ps = Ok ts.
Proof.
  induction 1 as [|t ts Ht _ [IHe IHd]]; [done|].
  apply task_template_rt in Ht as [He Hd].
  cbn [fmap list_fmap mapM_result] in *. rewrite He, Hd. cbn [mbind result_bind].
  by rewrite IHe, IHd.
Qed.

Lemma total_bytes_list_size items : total_bytes items ≤ list_size items.
Proof.
  unfold list_size. pose proof (blen_nonneg (bigsize (blen items))) as Hz.
  enough (total_bytes items ≤ blen (items ≫= λ i, bigsize (blen i) ++ i)) by lia. clear Hz.
  induction items as [|b items IH]; [simpl; unfold blen; simpl; lia|].
  rewrite bind_cons, !blen_app. simpl. fold (total_bytes items).
  pose proof (blen_nonneg (bigsize (blen b))). lia.
Qed.

Lemma manifest_tasks_rt m (tasks := mf_SupportedTasks m) :
  wf_manifest m → tasks ≠ [] →
  ∃ b, (encodedTasks ← wrap_err (ErrField "encode supported_tasks") (mapM_result EncodeTaskTemplate tasks);
        EncodeBytesList encodedTasks) = Ok b ∧ wf_blob b ∧
       (items ← wrap_err (ErrField "supported_tasks") (DecodeBytesList b);
        wrap_err (ErrField "supported_tasks") (mapM_result DecodeTaskTemplate items)) = Ok tasks.
Proof.
  intros (_ & _ & _ & _ & _ & _ & _ & _ & _ & Hts & Hn & Hsz) _.
  destruct (task_templates_rt tasks Hts) as [He Hd]. cbv zeta in He, Hd.
  set (ps := (λ t, stream_bytes (task_records t)) <$> tasks) in *.
  assert (Hps : blen ps = blen tasks) by (subst ps; unfold blen; by rewrite length_fmap).
  pose proof (total_bytes_list_size ps) as Htot.
  assert (Htot' : total_bytes ps ≤ max_record_size) by (subst ps tasks; lia).
  destruct (bytes_list_rt ps) as (b & Hb & Hdec);
    [subst tasks; lia|unfold max_record_size, maxBytesListTotalBytes in *; lia|].
  exists b. rewrite He. cbn [wrap_err mbind result_bind]. rewrite Hdec. cbn [wrap_err mbind result_bind].
  rewrite Hd. split_and!; [done| |done].
  rewrite encode_list_eq in Hb.
  - injection Hb as <-. unfold wf_blob. rewrite blen_app. exact Hsz.
  - eapply Forall_impl; [by apply total_bytes_Forall|]. intros i Hi. simpl in Hi.
    apply is_u64_size; [apply blen_nonneg|done].
  - rewrite Hps. subst tasks. pose proof (blen_nonneg (mf_SupportedTasks m)).
    unfold is_uint, maxBytesListCount in *. lia.
Qed.

(** The optional [supported_tasks] record. *)
Lemma manifest_task_records_rt m :
  wf_manifest m → ∃ recs, wf_opt wf_blob recs ∧
    match mf_SupportedTasks m with
    | [] => Ok []
    | tasks =>
      encodedTasks ← wrap_err (ErrField "encode supported_tasks") (mapM_result EncodeTaskTemplate tasks);
      listBytes ← EncodeBytesList encodedTasks;
      Ok [primVarBytes manifestTLVTypeSupportedTasks listBytes]
    end = Ok (match recs with Some b => [primVarBytes manifestTLVTypeSupportedTasks b] | None => [] end) ∧
    match recs with
    | Some b => items ← wrap_err (ErrField "supported_tasks") (DecodeBytesList b);
                wrap_err (ErrField "supported_tasks") (mapM_result DecodeTaskTemplate items)
    | None => Ok []
    end = Ok (mf_SupportedTasks m).
Proof.
  intros Hwf. pose proof (manifest_tasks_rt m Hwf) as Htasks.
  destruct (mf_SupportedTasks m) as [|t ts]; [by exists None|].
  destruct Htasks as (b & He & Hb & Hd); [done|]. exists (Some b). split_and!; [done| |done].
  apply bind_ok_inv in He as (ps & Hps & He). rewrite Hps. cbn [mbind result_bind]. by rewrite He.
Qed.

(** A well-formed manifest encodes, and the payload decodes to it. *)
Theorem manifest_roundtrip m :
  wf_manifest m → ∃ p, EncodeManifest m = Ok p ∧ DecodeManifest p = Ok m.
Proof.
  intros Hwf. pose proof (manifest_task_records_rt m Hwf) as Htasks.
  destruct m as [pv mp ms mj mi tasks].
  destruct Hwf as (Hpv & Hpv0 & Hmp & Hmp0 & Hms & Hms0 & Hmj & Hmj0 & Hmi & _).
  cbn [mf_ProtocolVersion mf_MaxPayloadBytes mf_MaxStreamBytes mf_MaxJobBytes mf_MaxInflightJobs
       mf_SupportedTasks] in *.
  apply Z.eqb_neq in Hpv0, Hmp0, Hms0, Hmj0.
  destruct Htasks as (recs & Hb & He & Hd).
  destruct recs as [b|], mi as [mi|]; (eapply codec_roundtrip;
    [|unfold EncodeManifest; cbn [mf_ProtocolVersion mf_MaxPayloadBytes mf_MaxStreamBytes
        mf_MaxJobBytes mf_MaxInflightJobs mf_SupportedTasks];
      rewrite Hpv0, Hmp0, Hms0, Hmj0; cbn [negb ensure mbind result_bind]; rewrite He; reflexivity|];
    [solve_stream_ok|]); intros p Hp;
    unfold DecodeManifest, decodeProtocolVersionOnly, decodeManifestMaxPayloadBytes,
      decodeManifestMaxStreamBytes, decodeManifestMaxJobBytes, decodeManifestMaxInflightJobs,
      decodeManifestSupportedTasks, validateJobScopeNotPresent;
    rewrite Hp; wire_run; rewrite Hmp0; wire_run; rewrite Hms0; wire_run; rewrite Hmj0; wire_run;
    first [injection Hd as <-; done | cbn [mbind result_bind] in Hd; by rewrite Hd].
Qed.

(** *** OpenAI params *)

Lemma openai_params_rt model :
  wf_name model →
  ∃ p, EncodeOpenAIParams {| oa_Model := model; oa_Unknown := ∅ |} = Ok p ∧
       DecodeOpenAIParams p = Ok {| oa_Model := model; oa_Unknown := ∅ |}.
Proof.
  intros Hm. eapply codec_roundtrip;
    [|unfold EncodeOpenAIParams; cbn [oa_Model]; wire_run; reflexivity|]; [solve_stream_ok|].
  intros p Hd. unfold DecodeOpenAIParams. rewrite Hd. wire_run. reflexivity.
Qed.

(** *** Decoded messages are well formed *)

Lemma readText_inv p m t b f s :
  decodeTLVMap p = Ok m → m !! t = Some b → readUTF8String b f = Ok s → wf_text s.
Proof. intros Hp Hb. apply readUTF8String_inv. by eapply decodeTLVMap_inv. Qed.

Lemma readName_inv p m t b f s :
  decodeTLVMap p = Ok m → m !! t = Some b → readUTF8String b f = Ok s →
  negb (bool_decide (s = ""%string)) = true → wf_name s.
Proof. intros Hp Hb Hs Hne. split; [by bool_to_prop|]. by eapply readText_inv. Qed.

Lemma blob_inv p m t : decodeTLVMap p = Ok m → wf_opt wf_blob (m !! t).
Proof. intros Hp. destruct (m !! t) eqn:E; [|done]. by eapply decodeTLVMap_inv. Qed.

Lemma opt_text_inv p m t f o :
  decodeTLVMap p = Ok m →
  match m !! t with Some b => Some <$> readUTF8String b f | None => Ok None end = Ok o →
  wf_opt wf_text o.
Proof.
  intros Hp. destruct (m !! t) as [b|] eqn:E; [|by intros [= <-]].
  destruct (readUTF8String b f) as [s|] eqn:Hs; [|done]. intros [= <-].
  by eapply readText_inv.
Qed.

Lemma opt_inv {A} (P : A → Prop) (o : option bytes) (rd : bytes → wres A) c r :
  (∀ b a, rd b = Ok a → P a) →
  match o with Some b => Some <$> wrap_err c (rd b) | None => Ok None end = Ok r → wf_opt P r.
Proof.
  intros HP. destruct o as [b|]; [|by intros [= <-]].
  destruct (rd b) eqn:E; [|done]. intros [= <-]. by eapply HP.
Qed.

Lemma valid_kind_inv k :
  ((k =? StreamKindInput) || (k =? StreamKindResult)) = true → valid_kind k.
Proof. intros H. apply orb_true_iff in H as [H|H]; apply Z.eqb_eq in H; [by left|by right]. Qed.
End roundtrips.

#[export] Hint Resolve decodeJobEnvelope_inv readU16_inv readBytes32_inv readTU32_inv readTU64_inv
  readName_inv readText_inv blob_inv opt_text_inv opt_inv valid_kind_inv : lcp.

Section decoded.
Context {T : TlvLib} {L : TlvLaws T}.

Ltac decoded := intros H; unfold requireTLV in *; invert_ok; subst; split_and!; eauto with lcp.

Lemma quote_request_wf p q : DecodeQuoteRequest p = Ok q → wf_quote_request q.
Proof. unfold DecodeQuoteRequest, wf_quote_request. decoded. Qed.

Lemma quote_response_wf p q : DecodeQuoteResponse p = Ok q → wf_quote_response q.
Proof. unfold DecodeQuoteResponse, wf_quote_response. decoded. Qed.

Lemma stream_begin_wf p b : DecodeStreamBegin p = Ok b → wf_stream_begin b.
Proof.
  unfold DecodeStreamBegin, decodeStreamBeginBody, wf_stream_begin. decoded.
Qed.

Lemma stream_chunk_wf p c : DecodeStreamChunk p = Ok c → wf_stream_chunk c.
Proof.
  unfold DecodeStreamChunk, wf_stream_chunk. decoded.
  - eexists. split; [done|]. by eapply decodeTLVMap_inv.
  - by bool_to_prop.
Qed.

Lemma stream_end_wf p e : DecodeStreamEnd p = Ok e → wf_stream_end e.
Proof. unfold DecodeStreamEnd, wf_stream_end. decoded. Qed.

Lemma cancel_wf p c : DecodeCancel p = Ok c → wf_cancel c.
Proof. unfold DecodeCancel, wf_cancel. decoded. Qed.

Lemma error_wf p e : DecodeError p = Ok e → wf_error e.
Proof. unfold DecodeError, wf_error. decoded. by bool_to_prop. Qed.

Lemma valid_status_inv s :
  valid_status s = true → s ≠ ResultStatusOK → s = ResultStatusFailed ∨ s = ResultStatusCancelled.
Proof.
  unfold valid_status. rewrite !orb_true_iff, !Z.eqb_eq. tauto.
Qed.

Lemma result_wf p r : DecodeResult p = Ok r → wf_result r.
Proof.
  unfold DecodeResult, decodeResultStatus, decodeOptionalResultMessage, decodeResultOKMetadata,
    wf_result. intros H. unfold requireTLV in *. invert_ok.
  split_matches_in H; invert_ok; subst; split; cbn; eauto with lcp; bool_to_prop.
  - right. split_and!; [by apply valid_status_inv|done|by eauto with lcp].
  - left. split_and!; [done..|]. eexists. split; [done|]. unfold wf_result_ok.
    split_and!; eauto with lcp; split; eauto with lcp.
Qed.
End decoded.

(** ** All job-scoped messages *)

Inductive JobMessage :=
| MQuoteRequest (q : QuoteRequest)
| MQuoteResponse (q : QuoteResponse)
| MStreamBegin (b : StreamBegin)
| MStreamChunk (c : StreamChunk)
| MStreamEnd (e : StreamEnd)
| MResult (r : Result)
| MCancel (c : Cancel)
| MError (e : LcpError).

Definition msg_type (m : JobMessage) : Z :=
  match m with
  | MQuoteRequest _ => MessageTypeQuoteRequest
  | MQuoteResponse _ => MessageTypeQuoteResponse
  | MStreamBegin _ => MessageTypeStreamBegin
  | MStreamChunk _ => MessageTypeStreamChunk
  | MStreamEnd _ => MessageTypeStreamEnd
  | MResult _ => MessageTypeResult
  | MCancel _ => MessageTypeCancel
  | MError _ => MessageTypeError
  end.

Definition msg_envelope (m : JobMessage) : JobEnvelope :=
  match m with
  | MQuoteRequest q => qr_Envelope q
  | MQuoteResponse q => qs_Envelope q
  | MStreamBegin b => sb_Envelope b
  | MStreamChunk c => sc_Envelope c
  | MStreamEnd e => se_Envelope e
  | MResult r => rs_Envelope r
  | MCancel c => cn_Envelope c
  | MError e => er_Envelope e
  end.

Definition wf_message (m : JobMessage) : Prop :=
  match m with
  | MQuoteRequest q => wf_quote_request q
  | MQuoteResponse q => wf_quote_response q
  | MStreamBegin b => wf_stream_begin b
  | MStreamChunk c => wf_stream_chunk c
  | MStreamEnd e => wf_stream_end e
  | MResult r => wf_result r
  | MCancel c => wf_cancel c
  | MError e => wf_error e
  end.

Section messages.
Context {T : TlvLib}.

Definition encode_message (m : JobMessage) : wres bytes :=
  match m with
  | MQuoteRequest q => EncodeQuoteRequest q
  | MQuoteResponse q => EncodeQuoteResponse q
  | MStreamBegin b => EncodeStreamBegin b
  | MStreamChunk c => fst <$> EncodeStreamChunk c
  | MStreamEnd e => EncodeStreamEnd e
  | MResult r => EncodeResult r
  | MCancel c => EncodeCancel c
  | MError e => EncodeError e
  end.

(** The decoder a handler runs for a message type; [None] for the types that
    are not job-scoped LCP messages. *)
Definition decode_message (typ : Z) (p : bytes) : option (wres JobMessage) :=
  if typ =? MessageTypeQuoteRequest then Some (MQuoteRequest <$> DecodeQuoteRequest p)
  else if typ =? MessageTypeQuoteResponse then Some (MQuoteResponse <$> DecodeQuoteResponse p)
  else if typ =? MessageTypeResult then Some (MResult <$> DecodeResult p)
  else if typ =? MessageTypeStreamBegin then Some (MStreamBegin <$> DecodeStreamBegin p)
  else if typ =? MessageTypeStreamChunk then Some (MStreamChunk <$> DecodeStreamChunk p)
  else if typ =? MessageTypeStreamEnd then Some (MStreamEnd <$> DecodeStreamEnd p)
  else if typ =? MessageTypeCancel then Some (MCancel <$> DecodeCancel p)
  else if typ =? MessageTypeError then Some (MError <$> DecodeError p)
  else None.

Context {L : TlvLaws T}.

(** C13: every job-scoped message that is well formed and carries a version
    encodes, and decoding the payload under the message's type number returns
    exactly that message. *)
Theorem message_roundtrip m :
  env_ProtocolVersion (msg_envelope m) ≠ 0 → wf_message m →
  ∃ p, encode_message m = Ok p ∧ decode_message (msg_type m) p = Some (Ok m).
Proof.
  intros Hv Hwf. assert (Hs : sendable (msg_envelope m)).
  { split; [done|]. destruct m; apply Hwf. }
  destruct m as [q|q|b|c|e|r|c|e]; cbn in Hs, Hwf |- *.
  - destruct (quote_request_rt q Hs Hwf) as (p & ? & Hd). exists p. by rewrite Hd.
  - destruct (quote_response_rt q Hs Hwf) as (p & ? & Hd). exists p. by rewrite Hd.
  - destruct (stream_begin_rt b Hs Hwf) as (p & ? & Hd). exists p. by rewrite Hd.
  - destruct (stream_chunk_rt c Hs Hwf) as (p & He & Hd). exists p. by rewrite He, Hd.
  - destruct (stream_end_rt e Hs Hwf) as (p & ? & Hd). exists p. by rewrite Hd.
  - destruct (result_rt r Hs Hwf) as (p & ? & Hd). exists p. by rewrite Hd.
  - destruct (cancel_rt c Hs Hwf) as (p & ? & Hd). exists p. by rewrite Hd.
  - destruct (error_rt e Hs Hwf) as (p & ? & Hd). exists p. by rewrite Hd.
Qed.

Lemma fmap_ok_inv {E A B} (f : A → B) (r : result E A) b :
  f <$> r = Ok b → ∃ a, r = Ok a ∧ b = f a.
Proof. destruct r; naive_solver. Qed.

(** C20: whatever payload a peer sends, a message the decoder accepts satisfies
    every width, length, text and consistency condition (a chunk's message id
    is the hash of its stream and sequence number; a result carries metadata
    exactly when its status is ok), and the type number it was received under
    is its own. *)
Theorem decoded_message_wf typ p m :
  decode_message typ p = Some (Ok m) → wf_message m ∧ typ = msg_type m.
Proof.
  unfold decode_message. intros H.
  repeat match type of H with
  | context [if ?b then _ else _] => destruct b eqn:?; bool_to_prop
  end; [..|done]; injection H as H; apply fmap_ok_inv in H as (x & Hx & ->); split; try done; cbn;
  eauto using quote_request_wf, quote_response_wf, result_wf, stream_begin_wf, stream_chunk_wf,
    stream_end_wf, cancel_wf, error_wf.
Qed.

(** [DecodeBytesList] accepts exactly the canonical encodings of lists of at
    most 1024 items and 1 MiB in total, and returns the list that was encoded. *)
Theorem bytes_list_exact p items :
  DecodeBytesList p = Ok items ↔
  EncodeBytesList items = Ok p ∧ blen items ≤ maxBytesListCount ∧
  total_bytes items ≤ maxBytesListTotalBytes.
Proof.
  split; [apply bytes_list_inv|]. intros (He & Hn & Ht).
  destruct (bytes_list_rt items Hn Ht) as (p' & He' & Hd). congruence.
Qed.
End messages.

(** ** Witnesses, over the concrete codec *)

Module WireExamples.
Definition job : bytes := sha256_sum (bytes_of_string "job").
Definition sid : bytes := sha256_sum (bytes_of_string "stream").
Definition env : JobEnvelope :=
  {| env_ProtocolVersion := 2; env_JobID := job; env_MsgID := job; env_Expiry := 1700000000 |}.
Definition chunk : StreamChunk :=
  {| sc_Envelope := {| env_ProtocolVersion := 2; env_JobID := job;
       env_MsgID := ComputeDeterministicStreamChunkMsgID sid 7; env_Expiry := 1700000000 |};
     sc_StreamID := sid; sc_Seq := 7; sc_Data := Some (bytes_of_string "payload") |}.
Definition manifest : Manifest :=
  {| mf_ProtocolVersion := 2; mf_MaxPayloadBytes := 16384; mf_MaxStreamBytes := 4194304;
     mf_MaxJobBytes := 8388608; mf_MaxInflightJobs := Some 4;
     mf_SupportedTasks :=
       [ {| tt_TaskKind := "openai.chat_completions.v1"; tt_ParamsBytes := Some [Byte.x01] |};
         {| tt_TaskKind := "openai.responses.v1"; tt_ParamsBytes := None |} ] |}.
End WireExamples.

Ltac decide_wf :=
  repeat first
    [ split | exact I | reflexivity | discriminate
    | apply List.Forall_cons | apply List.Forall_nil
    | vm_compute; reflexivity | vm_compute; discriminate ].

Lemma manifest_roundtrip_witness :
  ∃ p, EncodeManifest (T := bolt_tlv) WireExamples.manifest = Ok p ∧
       DecodeManifest (T := bolt_tlv) p = Ok WireExamples.manifest.
Proof. apply (manifest_roundtrip (T := bolt_tlv) WireExamples.manifest). decide_wf. Defined.

Lemma message_roundtrip_witness :
  ∃ p, encode_message (T := bolt_tlv) (MStreamChunk WireExamples.chunk) = Ok p ∧
       decode_message (T := bolt_tlv) MessageTypeStreamChunk p =
         Some (Ok (MStreamChunk WireExamples.chunk)).
Proof.
  apply (message_roundtrip (T := bolt_tlv) (MStreamChunk WireExamples.chunk)); [discriminate|].
  split_and!; [by decide_wf..| |reflexivity].
  eexists. split; [reflexivity|]. vm_compute. discriminate.
Defined.

Lemma decoded_message_wf_witness :
  let p := match EncodeCancel (T := bolt_tlv)
             {| cn_Envelope := WireExamples.env; cn_Reason := Some "bye"%string |} with
           | Ok p => p | Err _ => [] end in
  let m := MCancel {| cn_Envelope := WireExamples.env; cn_Reason := Some "bye"%string |} in
  wf_message m ∧ MessageTypeCancel = msg_type m.
Proof.
  intros p m. apply (decoded_message_wf (T := bolt_tlv) MessageTypeCancel p m).
  vm_compute. reflexivity.
Defined.

Lemma bytes_list_exact_witness :
  let items := [[Byte.x61; Byte.x62]; []; [Byte.x63]] in
  let p := [Byte.x03; Byte.x02; Byte.x61; Byte.x62; Byte.x00; Byte.x01; Byte.x63] in
  DecodeBytesList (T := bolt_tlv) p = Ok items ↔
  EncodeBytesList (T := bolt_tlv) items = Ok p ∧ blen items ≤ maxBytesListCount ∧
  total_bytes items ≤ maxBytesListTotalBytes.
Proof. intros items p. apply (bytes_list_exact (T := bolt_tlv) p items). Defined.
