(* ===== verification/Terms.v ===== *)
(** * Packages [domain/lcp] and [protocolcompat]: quote terms and their hash

    [ComputeTermsHash] is what binds a quote, an invoice and the input a
    requester uploads: the provider puts it into the invoice's description hash,
    the requester recomputes it before paying.  The theorems show that its
    encoding is the BOLT #1 TLV encoding, that canonicalising the params changes
    nothing, and that two parties who computed the same hash agree on every
    committed field unless they hold an explicit SHA-256 collision. *)

From S2P Require Import Prelude GoStd TlvLib.

(** ** domain/lcp/types.go *)

Definition Hash32Len : Z := 32.
Definition hexCharsPerByte : Z := 2.

Record Terms := {
  tm_ProtocolVersion : Z;
  tm_JobID : bytes;
  tm_PriceMsat : Z;
  tm_QuoteExpiry : Z;
}.

#[export] Instance Terms_eq_dec : EqDecision Terms.
Proof. solve_decision. Defined.

Inductive hex_err := ErrHexLen (n : Z) | ErrHexDecode | ErrHexBytes (n : Z).

(** [JobID.String] and [Hash32.String] on a non-nil receiver. *)
Definition Hash32_String (h : bytes) : string := hex_encode h.

(** [JobID.UnmarshalJSON] and [Hash32.UnmarshalJSON] on the JSON string they
    have decoded. *)
Definition Hash32_Unmarshal (s : string) : result hex_err bytes :=
  let n := blen (bytes_of_string s) in
  _ ← ensure (n =? Hash32Len * hexCharsPerByte) (ErrHexLen n);
  decoded ← or_err (hex_decode s) ErrHexDecode;
  _ ← ensure (blen decoded =? Hash32Len) (ErrHexBytes (blen decoded));
  Ok decoded.

(** ** protocolcompat/terms.go *)

Definition termsTLVTypeProtocolVersion : Z := 1.
Definition termsTLVTypeJobID : Z := 2.
Definition termsTLVTypePriceMsat : Z := 3.
Definition termsTLVTypeQuoteExpiry : Z := 4.
Definition termsTLVTypeTaskKind : Z := 20.
Definition termsTLVTypeInputHash : Z := 50.
Definition termsTLVTypeParamsHash : Z := 51.
Definition termsTLVTypeInputLen : Z := 52.
Definition termsTLVTypeInputContentType : Z := 53.
Definition termsTLVTypeInputContentEncoding : Z := 54.

(** [Params] is [None] when the Go slice is nil. *)
Record TermsCommit := {
  cm_TaskKind : string;
  cm_Input : bytes;
  cm_InputContentType : string;
  cm_InputContentEncoding : string;
  cm_Params : option bytes;
}.

#[export] Instance TermsCommit_eq_dec : EqDecision TermsCommit.
Proof. solve_decision. Defined.

Inductive terms_err :=
| ErrTermsRequired (field : string)
| ErrTermsUTF8 (field : string)
| ErrTermsNewStream
| ErrTermsDecodeParams.

Definition encodeBigSize (v : Z) : bytes :=
  if v <=? 0xfc then [byte_of_Z v]
  else if v <=? 0xffff then Byte.xfd :: be_bytes 2 v
  else if v <=? 0xffffffff then Byte.xfe :: be_bytes 4 v
  else Byte.xff :: be_bytes 8 v.

Definition encodeTLV (t : Z) (v : bytes) : bytes :=
  encodeBigSize t ++ encodeBigSize (blen v) ++ v.

(** The loop of [encodeTU64] over [buf]: the index of the first non-zero byte. *)
Fixpoint leading_zeros (buf : bytes) : nat :=
  match buf with
  | b :: buf' => if bool_decide (b = Byte.x00) then S (leading_zeros buf') else O
  | [] => O
  end.

Definition encodeTU64 (v : Z) : bytes :=
  if v =? 0 then [] else
  let buf := be_bytes 8 v in
  drop (leading_zeros buf) buf.

Definition encodeTermsTLVStream (terms : Terms) (taskKind : string)
    (inputHash paramsHash : bytes) (inputLen : Z)
    (inputContentType inputContentEncoding : string) : bytes :=
  encodeTLV termsTLVTypeProtocolVersion (be_bytes 2 (tm_ProtocolVersion terms)) ++
  encodeTLV termsTLVTypeJobID (tm_JobID terms) ++
  encodeTLV termsTLVTypePriceMsat (encodeTU64 (tm_PriceMsat terms)) ++
  encodeTLV termsTLVTypeQuoteExpiry (encodeTU64 (tm_QuoteExpiry terms)) ++
  encodeTLV termsTLVTypeTaskKind (bytes_of_string taskKind) ++
  encodeTLV termsTLVTypeInputHash inputHash ++
  encodeTLV termsTLVTypeParamsHash paramsHash ++
  encodeTLV termsTLVTypeInputLen (encodeTU64 inputLen) ++
  encodeTLV termsTLVTypeInputContentType (bytes_of_string inputContentType) ++
  encodeTLV termsTLVTypeInputContentEncoding (bytes_of_string inputContentEncoding).

Section terms.
Context {T : TlvLib} {R : MapRange Z bytes}.

(** The types are collected in the map's iteration order and sorted. *)
Definition canonicalizeTLVStream (payload : bytes) : result terms_err bytes :=
  if tlv_new_stream [] then
    parsed ← or_err (tlv_decode_p2p payload) ErrTermsDecodeParams;
    let types := merge_sort Z.le (map_range parsed).*1 in
    Ok (types ≫= λ typ, encodeTLV typ (default [] (parsed !! typ)))
  else Err ErrTermsNewStream.

Definition ComputeTermsHash (terms : Terms) (commit : TermsCommit) : result terms_err bytes :=
  _ ← ensure (negb (bool_decide (cm_TaskKind commit = ""%string))) (ErrTermsRequired "task_kind");
  _ ← ensure (utf8_valid (bytes_of_string (cm_TaskKind commit))) (ErrTermsUTF8 "task_kind");
  _ ← ensure (negb (bool_decide (cm_InputContentType commit = ""%string)))
             (ErrTermsRequired "input_content_type");
  _ ← ensure (utf8_valid (bytes_of_string (cm_InputContentType commit)))
             (ErrTermsUTF8 "input_content_type");
  _ ← ensure (negb (bool_decide (cm_InputContentEncoding commit = ""%string)))
             (ErrTermsRequired "input_content_encoding");
  _ ← ensure (utf8_valid (bytes_of_string (cm_InputContentEncoding commit)))
             (ErrTermsUTF8 "input_content_encoding");
  let inputHash := sha256_sum (cm_Input commit) in
  let inputLen := blen (cm_Input commit) in
  paramsCanonical ← match cm_Params commit with
                    | Some params => canonicalizeTLVStream params
                    | None => Ok []
                    end;
  let paramsHash := sha256_sum paramsCanonical in
  Ok (sha256_sum (encodeTermsTLVStream terms (cm_TaskKind commit) inputHash paramsHash inputLen
                    (cm_InputContentType commit) (cm_InputContentEncoding commit))).
End terms.

(** ** Lemmas: the encodings are BOLT #1's *)

Lemma encodeBigSize_bolt v : is_u64 v → encodeBigSize v = bigsize v.
Proof.
  intros Hv. unfold is_uint in Hv. unfold encodeBigSize, bigsize.
  destruct (Z.leb_spec v 0xfc), (Z.ltb_spec v 0xfd); try lia; [by rewrite byte_1 by lia|].
  destruct (Z.leb_spec v 0xffff), (Z.ltb_spec v 0x10000); try lia; [done|].
  destruct (Z.leb_spec v 0xffffffff), (Z.ltb_spec v 0x100000000); try lia; done.
Qed.

Lemma encodeTLV_bolt t v : is_u64 t → is_u64 (blen v) → encodeTLV t v = record_bytes (t, v).
Proof. intros Ht Hv. unfold encodeTLV, record_bytes. simpl. by rewrite !encodeBigSize_bolt. Qed.

Lemma drop_leading_zeros bs : drop (leading_zeros bs) bs = strip_zeros bs.
Proof.
  induction bs as [|b bs IH]; [done|]. simpl.
  case_bool_decide as Hb; destruct (Z.eqb_spec (Z_of_byte b) 0) as [Hz|Hz]; simpl; try done.
  - by subst b.
  - destruct Hb. by apply (inj Z_of_byte).
Qed.

Lemma encodeTU64_bolt v : is_u64 v → encodeTU64 v = strip_zeros (be_bytes 8 v).
Proof.
  intros Hv. unfold encodeTU64. destruct (Z.eqb_spec v 0) as [->|]; [done|].
  by rewrite drop_leading_zeros.
Qed.

Lemma encodeTU64_inj v w : is_u64 v → is_u64 w → encodeTU64 v = encodeTU64 w → v = w.
Proof.
  intros Hv Hw. rewrite !encodeTU64_bolt by done. intros H.
  apply (f_equal (d_tuint 8)) in H. rewrite !d_tuint_strip in H by done. congruence.
Qed.

Lemma blen_encodeTU64 v : is_u64 v → is_u64 (blen (encodeTU64 v)).
Proof.
  intros Hv. rewrite encodeTU64_bolt by done. pose proof (strip_zeros_length (be_bytes 8 v)) as H.
  rewrite length_be_bytes in H. unfold is_uint, blen. lia.
Qed.

(** ** Canonicalisation *)

Lemma ascending_StronglySorted ks : ascending ks = true → StronglySorted Z.le ks.
Proof.
  induction ks as [|k ks IH]; intros H; [constructor|].
  apply ascending_cons_inv in H as [H Hall]. constructor; [by apply IH|].
  eapply Forall_impl; [exact Hall|]. simpl. lia.
Qed.

(** Sorting the keys of a decoded stream gives back the stream's order. *)
Lemma sorted_keys {R : MapRange Z bytes} (rs : list tlv_record) :
  ascending rs.*1 = true → merge_sort Z.le (map_range (list_to_map rs)).*1 = rs.*1.
Proof.
  intros Hasc. apply (StronglySorted_unique Z.le).
  - apply StronglySorted_merge_sort; apply _.
  - by apply ascending_StronglySorted.
  - rewrite merge_sort_Permutation, map_range_perm.
    by rewrite map_to_list_to_map by (by apply ascending_NoDup).
Qed.

Lemma assoc_NoDup {V} (l : list (Z * V)) k v :
  NoDup l.*1 → (k, v) ∈ l → assoc k l = Some v.
Proof.
  intros Hnd Hin. rewrite <-lookup_list_to_map_assoc. by apply elem_of_list_to_map.
Qed.

Lemma reencode_records (m : gmap Z bytes) (rs : list tlv_record) :
  (∀ t v, (t, v) ∈ rs → m !! t = Some v ∧ is_u64 t ∧ is_u64 (blen v)) →
  (rs.*1 ≫= λ typ, encodeTLV typ (default [] (m !! typ))) = stream_bytes rs.
Proof.
  induction rs as [|[t v] rs IH]; intros Hm; [done|].
  rewrite fmap_cons, bind_cons, stream_bytes_cons. simpl.
  destruct (Hm t v) as (-> & Ht & Hv); [left|]. simpl. rewrite encodeTLV_bolt by done.
  f_equal. apply IH. intros t' v' Hin. apply Hm. by right.
Qed.

Section proofs.
Context {T : TlvLib} {L : TlvLaws T} {R : MapRange Z bytes}.

Lemma canonicalize_stream rs :
  stream_ok rs → canonicalizeTLVStream (stream_bytes rs) = Ok (stream_bytes rs).
Proof.
  intros Hok. pose proof Hok as [Hasc Hall]. unfold canonicalizeTLVStream.
  rewrite tlv_new_stream_spec. simpl. rewrite tlv_decode_complete by done.
  simpl. rewrite sorted_keys by done. f_equal. apply reencode_records.
  intros t v Hin. rewrite Forall_forall in Hall. destruct (Hall _ Hin) as [Ht Hv]. simpl in *.
  split_and!; [|done|].
  - apply elem_of_list_to_map; [by apply ascending_NoDup|done].
  - unfold is_uint, max_record_size in *. pose proof (blen_nonneg v). lia.
Qed.

Lemma canonicalize_inv p c : canonicalizeTLVStream p = Ok c → c = p ∧ is_Some (tlv_decode_p2p p).
Proof.
  intros H. pose proof H as H'. unfold canonicalizeTLVStream in H'.
  rewrite tlv_new_stream_spec in H'. simpl in H'.
  destruct (tlv_decode_p2p p) as [m|] eqn:E; [|done].
  apply tlv_decode_sound in E as (rs & Hok & -> & ->).
  rewrite canonicalize_stream in H by done. split; [congruence|done].
Qed.

(** On the payloads that decode as a TLV stream, which BOLT #1 requires to be
    canonical already, [canonicalizeTLVStream] is the identity, for every
    iteration order of the parsed map; on all others it is an error. *)
Theorem canonicalize_identity p :
  match tlv_decode_p2p p with
  | Some _ => canonicalizeTLVStream p = Ok p
  | None => canonicalizeTLVStream p = Err ErrTermsDecodeParams
  end.
Proof.
  destruct (tlv_decode_p2p p) as [m|] eqn:E.
  - apply tlv_decode_sound in E as (rs & Hok & -> & ->). by apply canonicalize_stream.
  - unfold canonicalizeTLVStream. rewrite tlv_new_stream_spec, E. done.
Qed.

(** ** Binding *)

Definition wf_terms (t : Terms) : Prop :=
  is_u16 (tm_ProtocolVersion t) ∧ length (tm_JobID t) = 32%nat ∧
  is_u64 (tm_PriceMsat t) ∧ is_u64 (tm_QuoteExpiry t).

(** Go slices and strings have fewer than 2^63 bytes. *)
Definition wf_commit (c : TermsCommit) : Prop :=
  is_u64 (blen (cm_Input c)) ∧ is_u64 (blen (bytes_of_string (cm_TaskKind c))) ∧
  is_u64 (blen (bytes_of_string (cm_InputContentType c))) ∧
  is_u64 (blen (bytes_of_string (cm_InputContentEncoding c))).

Definition collision (x y : bytes) : Prop := x ≠ y ∧ sha256_sum x = sha256_sum y.

(** The preimage of the terms hash. *)
Definition terms_preimage (t : Terms) (c : TermsCommit) : bytes :=
  encodeTermsTLVStream t (cm_TaskKind c) (sha256_sum (cm_Input c))
    (sha256_sum (default [] (cm_Params c))) (blen (cm_Input c))
    (cm_InputContentType c) (cm_InputContentEncoding c).

Lemma sha_or_collision x y : sha256_sum x = sha256_sum y → x = y ∨ collision x y.
Proof. destruct (decide (x = y)); [by left|right; by split]. Qed.

Lemma ComputeTermsHash_inv t c h :
  ComputeTermsHash t c = Ok h → h = sha256_sum (terms_preimage t c).
Proof.
  unfold ComputeTermsHash, terms_preimage. intros H. invert_ok. subst h.
  destruct (cm_Params c) as [ps|]; simpl in *; invert_ok; subst; [|done].
  match goal with H : canonicalizeTLVStream _ = Ok _ |- _ => apply canonicalize_inv in H as [-> _] end.
  done.
Qed.

Lemma encodeTLV_app_inj t v w r1 r2 :
  is_u64 t → is_u64 (blen v) → is_u64 (blen w) →
  encodeTLV t v ++ r1 = encodeTLV t w ++ r2 → v = w ∧ r1 = r2.
Proof.
  intros Ht Hv Hw. rewrite !encodeTLV_bolt by done. intros H.
  apply record_bytes_app_inj in H as [[= ->] ->]; done.
Qed.

Lemma encodeTLV_inj t v w :
  is_u64 t → is_u64 (blen v) → is_u64 (blen w) → encodeTLV t v = encodeTLV t w → v = w.
Proof.
  intros Ht Hv Hw H. eapply (encodeTLV_app_inj t v w [] []); [done..|]. by rewrite !app_nil_r.
Qed.

Lemma is_u64_blen_fixed (b : bytes) n : length b = n → (n ≤ 64)%nat → is_u64 (blen b).
Proof. unfold is_uint, blen. lia. Qed.

Lemma preimage_inj t1 t2 c1 c2 :
  wf_terms t1 → wf_terms t2 → wf_commit c1 → wf_commit c2 →
  terms_preimage t1 c1 = terms_preimage t2 c2 →
  t1 = t2 ∧ cm_TaskKind c1 = cm_TaskKind c2 ∧
  cm_InputContentType c1 = cm_InputContentType c2 ∧
  cm_InputContentEncoding c1 = cm_InputContentEncoding c2 ∧
  blen (cm_Input c1) = blen (cm_Input c2) ∧
  sha256_sum (cm_Input c1) = sha256_sum (cm_Input c2) ∧
  sha256_sum (default [] (cm_Params c1)) = sha256_sum (default [] (cm_Params c2)).
Proof.
  intros (Hv1 & Hj1 & Hp1 & Hx1) (Hv2 & Hj2 & Hp2 & Hx2) (Hi1 & Hk1 & Ht1 & He1) (Hi2 & Hk2 & Ht2 & He2).
  unfold terms_preimage, encodeTermsTLVStream. intros H.
  assert (H32 : ∀ x, is_u64 (blen (sha256_sum x)))
    by (intros x; eapply is_u64_blen_fixed; [apply length_sha256_sum|lia]).
  assert (H16 : ∀ x, is_u64 (blen (be_bytes 2 x)))
    by (intros x; eapply is_u64_blen_fixed; [apply length_be_bytes|lia]).
  pose proof (is_u64_blen_fixed _ _ Hj1 ltac:(lia)). pose proof (is_u64_blen_fixed _ _ Hj2 ltac:(lia)).
  do 9 (apply encodeTLV_app_inj in H as [? H];
    [|by vm_compute|by auto using blen_encodeTU64|by auto using blen_encodeTU64]).
  apply encodeTLV_inj in H; [|done..].
  destruct t1, t2. simpl in *. split_and!; try done; try (by apply (inj bytes_of_string)).
  - f_equal; [|done|by apply encodeTU64_inj..]. by apply (be_bytes_inj 2).
  - by apply encodeTU64_inj.
Qed.

(** The same terms hash means the same terms, or a collision. *)
Lemma terms_agree t1 t2 c1 c2 h :
  wf_terms t1 → wf_terms t2 → wf_commit c1 → wf_commit c2 →
  ComputeTermsHash t1 c1 = Ok h → ComputeTermsHash t2 c2 = Ok h →
  (t1 = t2 ∧ cm_TaskKind c1 = cm_TaskKind c2 ∧ cm_Input c1 = cm_Input c2 ∧
   cm_InputContentType c1 = cm_InputContentType c2 ∧
   cm_InputContentEncoding c1 = cm_InputContentEncoding c2 ∧
   default [] (cm_Params c1) = default [] (cm_Params c2)) ∨
  collision (terms_preimage t1 c1) (terms_preimage t2 c2) ∨
  collision (cm_Input c1) (cm_Input c2) ∨
  collision (default [] (cm_Params c1)) (default [] (cm_Params c2)).
Proof.
  intros Ht1 Ht2 Hc1 Hc2 H1 H2. apply ComputeTermsHash_inv in H1, H2. subst h.
  apply sha_or_collision in H2 as [H2|H2]; [|by auto].
  apply preimage_inj in H2 as (-> & -> & -> & -> & _ & Hi & Hp); [|done..].
  apply sha_or_collision in Hi as [->|]; [|by auto].
  apply sha_or_collision in Hp as [->|]; [|by auto]. by left.
Qed.

(** C16: two parties that computed the same terms hash agree on the version, the
    job, the price, the expiry, the task kind, the content type and encoding,
    the input and the params (absent params hash like empty ones), or one of
    three explicit pairs of byte strings is a SHA-256 collision. *)
Theorem terms_hash_binding t1 t2 c1 c2 h :
  wf_terms t1 → wf_terms t2 → wf_commit c1 → wf_commit c2 →
  ComputeTermsHash t1 c1 = Ok h → ComputeTermsHash t2 c2 = Ok h →
  (t1 = t2 ∧ cm_TaskKind c1 = cm_TaskKind c2 ∧ cm_Input c1 = cm_Input c2 ∧
   cm_InputContentType c1 = cm_InputContentType c2 ∧
   cm_InputContentEncoding c1 = cm_InputContentEncoding c2 ∧
   default [] (cm_Params c1) = default [] (cm_Params c2)) ∨
  collision (terms_preimage t1 c1) (terms_preimage t2 c2) ∨
  collision (cm_Input c1) (cm_Input c2) ∨
  collision (default [] (cm_Params c1)) (default [] (cm_Params c2)).
Proof. apply terms_agree. Qed.

Definition valid_name (s : string) : bool :=
  negb (bool_decide (s = ""%string)) && utf8_valid (bytes_of_string s).

(** The hash exists exactly when the three texts are non-empty UTF-8 and the
    params, when present, are a TLV stream; it then is the SHA-256 of the terms
    preimage, with 32 bytes. *)
Theorem terms_hash_defined t c :
  (∃ h, ComputeTermsHash t c = Ok h ∧ h = sha256_sum (terms_preimage t c) ∧ length h = 32%nat) ↔
  valid_name (cm_TaskKind c) = true ∧ valid_name (cm_InputContentType c) = true ∧
  valid_name (cm_InputContentEncoding c) = true ∧
  match cm_Params c with Some ps => is_Some (tlv_decode_p2p ps) | None => True end.
Proof.
  split.
  - intros (h & H & _). unfold ComputeTermsHash in H. invert_ok. unfold valid_name.
    repeat match goal with H : _ = true |- _ => rewrite H; clear H end.
    destruct (cm_Params c); split_and!; try done; [].
    match goal with H : canonicalizeTLVStream _ = Ok _ |- _ => by apply canonicalize_inv in H as [_ ?] end.
  - unfold valid_name. intros (Hk & Ht & He & Hp). bool_to_prop.
    assert (Hh : ∃ h, ComputeTermsHash t c = Ok h).
    { unfold ComputeTermsHash. rewrite !bool_decide_eq_false_2 by done. simpl.
      repeat match goal with H : utf8_valid _ = true |- _ => rewrite H; clear H end. simpl.
      destruct (cm_Params c) as [ps|]; simpl; [|by eexists].
      destruct Hp as [m Hm]. apply tlv_decode_sound in Hm as (rs & Hok & -> & _).
      rewrite canonicalize_stream by done. by eexists. }
    destruct Hh as [h Hh]. exists h. pose proof (ComputeTermsHash_inv _ _ _ Hh) as ->.
    split_and!; [done..|]. apply length_sha256_sum.
Qed.
End proofs.

(** ** domain/lcp: the hexadecimal form of ids and hashes *)

(** The text of a 32-byte id or hash parses back to it. *)
Theorem hash32_roundtrip h :
  length h = 32%nat → Hash32_Unmarshal (Hash32_String h) = Ok h.
Proof.
  intros Hh. unfold Hash32_Unmarshal, Hash32_String, hex_encode, hex_decode.
  rewrite bytes_of_string_of_bytes, hex_decode_encode_bytes. unfold blen.
  rewrite length_hex_encode_bytes, Hh. simpl. by rewrite Hh.
Qed.

(** ** Witnesses *)

Module TermsExamples.
Definition terms : Terms :=
  {| tm_ProtocolVersion := 2; tm_JobID := repeat Byte.x11 32; tm_PriceMsat := 1500;
     tm_QuoteExpiry := 1700000300 |}.
Definition commit : TermsCommit :=
  {| cm_TaskKind := "openai.chat_completions.v1"; cm_Input := bytes_of_string "{}";
     cm_InputContentType := "application/json; charset=utf-8"; cm_InputContentEncoding := "identity";
     cm_Params := Some [Byte.x01; Byte.x01; Byte.x61] |}.
Definition hash : bytes :=
  Eval vm_compute in
    match ComputeTermsHash (T := bolt_tlv) (R := canonical_range) terms commit with
    | Ok h => h | Err _ => [] end.
End TermsExamples.

Lemma canonicalize_identity_witness :
  let p := [Byte.x01; Byte.x01; Byte.x61; Byte.x03; Byte.x00] in
  canonicalizeTLVStream (T := bolt_tlv) (R := canonical_range) p = Ok p.
Proof. exact (canonicalize_identity (T := bolt_tlv) (R := canonical_range)
  [Byte.x01; Byte.x01; Byte.x61; Byte.x03; Byte.x00]). Defined.

Lemma terms_hash_binding_witness :
  let t := TermsExamples.terms in let c := TermsExamples.commit in
  (t = t ∧ cm_TaskKind c = cm_TaskKind c ∧ cm_Input c = cm_Input c ∧
   cm_InputContentType c = cm_InputContentType c ∧
   cm_InputContentEncoding c = cm_InputContentEncoding c ∧
   default [] (cm_Params c) = default [] (cm_Params c)) ∨
  collision (terms_preimage t c) (terms_preimage t c) ∨
  collision (cm_Input c) (cm_Input c) ∨
  collision (default [] (cm_Params c)) (default [] (cm_Params c)).
Proof.
  intros t c. apply (terms_hash_binding (T := bolt_tlv) (R := canonical_range) t t c c TermsExamples.hash);
    by vm_compute.
Defined.

Lemma terms_hash_defined_witness :
  ∃ h, ComputeTermsHash (T := bolt_tlv) (R := canonical_range) TermsExamples.terms TermsExamples.commit = Ok h ∧
       h = sha256_sum (terms_preimage TermsExamples.terms TermsExamples.commit) ∧ length h = 32%nat.
Proof.
  apply (terms_hash_defined (T := bolt_tlv) (R := canonical_range) TermsExamples.terms TermsExamples.commit).
  split_and!; vm_compute; try reflexivity. by eexists.
Defined.

Lemma hash32_roundtrip_witness :
  Hash32_Unmarshal (Hash32_String TermsExamples.hash) = Ok TermsExamples.hash.
Proof. apply (hash32_roundtrip TermsExamples.hash). reflexivity. Defined.
