(* ===== verification/Stores.v ===== *)
(** * What the in-memory stores share

    Package [envconfig], and the scan-and-evict loops that [replaystore],
    [jobstore] and [requesterjobstore] each contain: a range over the map that
    remembers the entry of least rank, and the loop that evicts until the store
    fits its capacity, one preferred class of entries first. *)

From S2P Require Import Prelude GoStd.

(** ** envconfig/envconfig.go *)

(** [os.Getenv]: the process environment. *)
Class Environ := getenv : string → string.

Section envconfig.
Context `{Environ}.

Definition env_raw (name : string) : bytes := trim_space (bytes_of_string (getenv name)).

Definition envconfig_Uint64 (name : string) (def : Z) : Z :=
  match env_raw name with
  | [] => def
  | raw => default def (parse_uint64 raw)
  end.

Definition envconfig_Int64 (name : string) (def : Z) : Z :=
  match env_raw name with
  | [] => def
  | raw => default def (parse_int64 raw)
  end.

(** [int] is 64 bits wide. *)
Definition envconfig_Int (name : string) (def : Z) : Z :=
  match env_raw name with
  | [] => def
  | raw => default def (parse_int64 raw)
  end.

Definition defaultMaxEntries : Z := 1024.

(** The capacity a store falls back to when it has none. *)
Definition default_capacity : Z :=
  let maxEntries := envconfig_Int "LCP_DEFAULT_MAX_STORE_ENTRIES" defaultMaxEntries in
  if maxEntries <=? 0 then defaultMaxEntries else maxEntries.
End envconfig.

Lemma default_capacity_pos `{Environ} : 0 < default_capacity.
Proof. unfold default_capacity, defaultMaxEntries. case_match; bool_to_prop; lia. Qed.

(** ** Scanning for the oldest entry *)

Section scan.
Context {K V : Type} `{Countable K} `{!MapRange K V}.
Implicit Types (m : gmap K V) (l : list (K * V)).

(** [for k, v := range m { if !eligible(v) { continue }; if first || rank(v) <
    rank(oldest) { oldest = k, v } }]. *)
Definition scan_oldest (eligible : V → bool) (rank : V → Z) l : option (K * V) :=
  fold_left (λ acc '(k, v),
    if eligible v then
      match acc with
      | None => Some (k, v)
      | Some (_, v0) => if rank v <? rank v0 then Some (k, v) else acc
      end
    else acc) l None.

(** Evict the oldest eligible entry; [false] when there is none. *)
Definition evict_oldest (eligible : V → bool) (rank : V → Z) m : gmap K V * bool :=
  match scan_oldest eligible rank (map_range m) with
  | Some (k, _) => (delete k m, true)
  | None => (m, false)
  end.

(** [for len(m) > max { if evict(true) { continue }; _ = evict(false) }].  Every
    round removes an entry, so [size m] rounds are enough. *)
Fixpoint evict_loop (evict : bool → gmap K V → gmap K V * bool) (max : Z) (fuel : nat) m : gmap K V :=
  match fuel with
  | O => m
  | S fuel' =>
    if max <? Z.of_nat (size m) then
      let '(m1, evicted) := evict true m in
      if evicted then evict_loop evict max fuel' m1
      else evict_loop evict max fuel' (evict false m).1
    else m
  end.

Definition evict_over_capacity (evict : bool → gmap K V → gmap K V * bool) (max : Z) m : gmap K V :=
  evict_loop evict max (size m) m.

(** [for k, v := range m { if cond(v) { m[k] = f(v) } }]. *)
Definition range_update (f : V → option V) m : gmap K V :=
  fold_left (λ acc '(k, v), match f v with Some v' => <[k := v']> acc | None => acc end)
    (map_range m) m.

(** ** Lemmas *)

Lemma scan_oldest_spec eligible rank l :
  match scan_oldest eligible rank l with
  | Some (k, v) => (k, v) ∈ l ∧ eligible v = true ∧
      ∀ k' v', (k', v') ∈ l → eligible v' = true → rank v ≤ rank v'
  | None => ∀ k' v', (k', v') ∈ l → eligible v' = false
  end.
Proof.
  unfold scan_oldest. rewrite <-(rev_involutive l). induction (rev l) as [|[k v] r IH]; simpl.
  { intros k' v' Hin. by apply elem_of_nil in Hin. }
  rewrite fold_left_app. simpl.
  destruct (fold_left _ (rev r) None) as [[k0 v0]|].
  - destruct IH as (Hin & Hel & Hmin). destruct (eligible v) eqn:Hv; [destruct (Z.ltb_spec (rank v) (rank v0))|].
    all: split_and!; try (by rewrite elem_of_app, ?list_elem_of_singleton; auto); try done;
      intros k' v' Hin' Hel';
      apply elem_of_app in Hin' as [Hin'|Hin']; try (apply list_elem_of_singleton in Hin'; simplify_eq);
      try lia; try congruence; specialize (Hmin _ _ Hin' Hel'); lia.
  - destruct (eligible v) eqn:Hv.
    + split_and!; [by rewrite elem_of_app, list_elem_of_singleton; auto|done|]. intros k' v' Hin' Hel'.
      apply elem_of_app in Hin' as [Hin'|Hin']; [by rewrite (IH _ _ Hin') in Hel'|].
      apply list_elem_of_singleton in Hin'. by simplify_eq.
    + intros k' v' Hin'. apply elem_of_app in Hin' as [Hin'|Hin']; [by eapply IH|].
      apply list_elem_of_singleton in Hin'. by simplify_eq.
Qed.

Lemma scan_oldest_None eligible rank l k v :
  scan_oldest eligible rank l = None → (k, v) ∈ l → eligible v = false.
Proof. intros Hs. pose proof (scan_oldest_spec eligible rank l) as H'. rewrite Hs in H'. apply H'. Qed.

(** What an eviction does: nothing when no entry is eligible, otherwise the
    removal of one eligible entry of least rank. *)
Lemma evict_oldest_spec eligible rank m :
  (evict_oldest eligible rank m = (m, false) ∧ map_Forall (λ _ v, eligible v = false) m) ∨
  (∃ k v, m !! k = Some v ∧ eligible v = true ∧
     map_Forall (λ _ v', eligible v' = true → rank v ≤ rank v') m ∧
     evict_oldest eligible rank m = (delete k m, true)).
Proof.
  unfold evict_oldest. pose proof (scan_oldest_spec eligible rank (map_range m)) as Hs.
  destruct (scan_oldest _ _ _) as [[k v]|].
  - right. destruct Hs as (Hin & Hel & Hmin). exists k, v. apply elem_of_map_range in Hin.
    split_and!; [done..| |done]. intros k' v' Hk' Hel'. eapply Hmin; [|done].
    by apply elem_of_map_range.
  - left. split; [done|]. intros k v Hk. eapply Hs. by apply elem_of_map_range.
Qed.

Lemma evict_any_spec rank m :
  m ≠ ∅ → ∃ k v, m !! k = Some v ∧ map_Forall (λ _ v', rank v ≤ rank v') m ∧
    evict_oldest (λ _, true) rank m = (delete k m, true).
Proof.
  intros Hne. destruct (evict_oldest_spec (λ _, true) rank m) as [[_ Hf]|(k & v & Hk & _ & Hmin & He)].
  - destruct (map_choose m Hne) as (k & v & Hk). by specialize (Hf k v Hk).
  - exists k, v. split_and!; [done| |done]. intros k' v' Hk'. by apply (Hmin k' v').
Qed.

Lemma size_delete_lookup m k v : m !! k = Some v → size m = S (size (delete k m)).
Proof.
  intros Hk. rewrite map_size_delete_Some by (by exists v).
  assert (size m ≠ 0%nat) by (apply map_size_ne_0_lookup_2 with k; by exists v). lia.
Qed.

Lemma map_size_insert_le m k v : (size (<[k := v]> m) ≤ S (size m))%nat.
Proof. rewrite map_size_insert. case_match; unfold id; lia. Qed.

(** [evict b] evicts the oldest entry, among the preferred ones if [b]. *)
Definition evicts (evict : bool → gmap K V → gmap K V * bool) (prefer : V → bool) (rank : V → Z) : Prop :=
  ∀ b m, m ≠ ∅ → evict b m = evict_oldest (λ v, if b then prefer v else true) rank m.

(** The loop ends within the capacity; it only removes entries, and it removes
    one that is not preferred only when no preferred one is left. *)
Lemma evict_loop_spec evict prefer rank max fuel m (m' := evict_loop evict max fuel m) :
  evicts evict prefer rank → 0 ≤ max → (size m ≤ fuel)%nat →
  Z.of_nat (size m') ≤ max ∧ m' ⊆ m ∧
  (Z.of_nat (size m) ≤ max → m' = m) ∧
  (∀ k v, m !! k = Some v → prefer v = false → m' !! k = None →
     map_Forall (λ _ v', prefer v' = false) m').
Proof.
  intros Hev Hmax. subst m'. revert m. induction fuel as [|fuel IH]; intros m Hfuel; simpl.
  { split_and!; [lia|done|done|]. intros k v Hk _ Hn. congruence. }
  destruct (Z.ltb_spec max (Z.of_nat (size m))) as [Hover|].
  2: { split_and!; [lia|done|done|]. intros k v Hk _ Hn. congruence. }
  assert (Hstep : ∀ k0 v0, m !! k0 = Some v0 →
    (prefer v0 = false → map_Forall (λ _ v', prefer v' = false) m) →
    Z.of_nat (size (evict_loop evict max fuel (delete k0 m))) ≤ max ∧
    evict_loop evict max fuel (delete k0 m) ⊆ m ∧
    (Z.of_nat (size m) ≤ max → evict_loop evict max fuel (delete k0 m) = m) ∧
    (∀ k v, m !! k = Some v → prefer v = false →
       evict_loop evict max fuel (delete k0 m) !! k = None →
       map_Forall (λ _ v', prefer v' = false) (evict_loop evict max fuel (delete k0 m)))).
  { intros k0 v0 Hk0 Hp. pose proof (size_delete_lookup m k0 v0 Hk0) as Hsz.
    destruct (IH (delete k0 m)) as (H1 & H2 & _ & H4); [lia|].
    assert (Hsub : evict_loop evict max fuel (delete k0 m) ⊆ m)
      by (etrans; [exact H2|apply delete_subseteq]).
    split_and!; [done|done|lia|]. intros k v Hk Hv Hn.
    destruct (decide (k = k0)) as [->|Hne].
    - assert (v = v0) as -> by congruence. intros k v1 Hk1. eapply (Hp Hv k). by eapply lookup_weaken.
    - eapply H4; [|exact Hv|exact Hn]. by rewrite lookup_delete_ne. }
  assert (Hne : m ≠ ∅) by (intros ->; rewrite map_size_empty in Hover; lia).
  assert (Ht : evict true m = evict_oldest prefer rank m) by apply (Hev true m Hne).
  assert (Hf : evict false m = evict_oldest (λ _, true) rank m) by apply (Hev false m Hne).
  rewrite Ht, Hf.
  destruct (evict_oldest_spec prefer rank m) as [[-> Hnone]|(k0 & v0 & Hk0 & Hel & _ & ->)].
  - destruct (evict_any_spec rank m) as (k0 & v0 & Hk0 & _ & ->); [done|].
    simpl. by apply (Hstep k0 v0).
  - apply (Hstep k0 v0); [done|congruence].
Qed.

Lemma evict_over_capacity_spec evict prefer rank max m (m' := evict_over_capacity evict max m) :
  evicts evict prefer rank → 0 ≤ max →
  Z.of_nat (size m') ≤ max ∧ m' ⊆ m ∧ (Z.of_nat (size m) ≤ max → m' = m) ∧
  (∀ k v, m !! k = Some v → prefer v = false → m' !! k = None →
     map_Forall (λ _ v', prefer v' = false) m').
Proof. intros Hev Hmax. by apply (evict_loop_spec _ _ rank). Qed.

Lemma fold_update_ne (f : V → option V) l m k :
  (∀ v, (k, v) ∉ l) →
  fold_left (λ acc '(k, v), match f v with Some v' => <[k := v']> acc | None => acc end) l m !! k = m !! k.
Proof.
  revert m; induction l as [|[k0 v0] l IH]; intros m Hl; [done|]. simpl.
  rewrite IH by (intros v Hin; apply (Hl v); by right).
  destruct (f v0); [|done]. rewrite lookup_insert_ne; [done|]. intros ->. apply (Hl v0). by left.
Qed.

Lemma lookup_range_update f m k :
  range_update f m !! k = (λ v, default v (f v)) <$> m !! k.
Proof.
  unfold range_update.
  assert (Hnd : NoDup (map_range m).*1).
  { rewrite map_range_perm. apply NoDup_fst_map_to_list. }
  assert (Hl : ∀ l m0, NoDup l.*1 → (∀ v, (k, v) ∈ l → m0 !! k = Some v) →
    fold_left (λ acc '(k, v), match f v with Some v' => <[k := v']> acc | None => acc end) l m0 !! k =
    if decide (k ∈ l.*1) then (λ v, default v (f v)) <$> m0 !! k else m0 !! k).
  { induction l as [|[k0 v0] l IH]; intros m0 Hnd' Hin; [done|]. simpl.
    apply NoDup_cons in Hnd' as [Hk0 Hnd']. destruct (decide (k0 = k)) as [->|Hne].
    - rewrite fold_update_ne by (intros v Hv; apply Hk0; by apply (list_elem_of_fmap_2 fst) in Hv).
      rewrite decide_True by left. rewrite (Hin v0) by left. simpl.
      destruct (f v0) eqn:E; simpl; [by rewrite lookup_insert_eq|]. apply Hin. left.
    - assert (Hm0 : (match f v0 with Some v' => <[k0:=v']> m0 | None => m0 end) !! k = m0 !! k)
        by (destruct (f v0); [by rewrite lookup_insert_ne|done]).
      rewrite IH; [|done|intros v Hv; rewrite Hm0; apply Hin; by right]. rewrite Hm0.
      destruct (decide (k ∈ l.*1)); [rewrite decide_True by (by right); done|].
      rewrite decide_False; [done|]. intros [?|?]%elem_of_cons; [by subst|done]. }
  rewrite Hl; [|done|intros v Hv; by apply elem_of_map_range in Hv].
  case_decide as Hk; [done|]. destruct (m !! k) as [v|] eqn:E; [|done].
  destruct Hk. apply elem_of_map_range in E. by apply (list_elem_of_fmap_2 fst) in E.
Qed.

Lemma range_update_fmap f m : range_update f m = (λ v, default v (f v)) <$> m.
Proof. apply map_eq. intros k. by rewrite lookup_range_update, lookup_fmap. Qed.
End scan.
