(* ===== verification/Replay.v ===== *)
(** * Package [replaystore]: de-duplication of inbound messages

    The store remembers [(peer, job_id, msg_id)] with the message's effective
    expiry.  The theorems give the exact behaviour of [CheckAndRemember], the
    bound on the number of entries, the window in which a replayed message is
    refused, and what happens to that window when the store is full. *)

From S2P Require Import Prelude GoStd Stores.

Module ReplayStore.

(** ** Data *)

Inductive CheckResult := CheckResultOK | CheckResultDuplicate | CheckResultExpired.

Record Key := MkKey { k_PeerPubKey : string; k_JobID : bytes; k_MsgID : bytes }.

#[global] Instance Key_eq_dec : EqDecision Key.
Proof. solve_decision. Defined.
#[global] Instance Key_countable : Countable Key.
Proof.
  refine (inj_countable' (λ k, (k_PeerPubKey k, k_JobID k, k_MsgID k))
            (λ '(p, j, m), MkKey p j m) _). by intros [].
Defined.
#[global] Instance CheckResult_eq_dec : EqDecision CheckResult.
Proof. solve_decision. Defined.

Record Store := { entries : gmap Key Z; maxEntries : Z }.

Definition New `{Environ} (maxEntries : Z) : Store :=
  {| entries := ∅;
     maxEntries := if maxEntries <=? 0 then default_capacity else maxEntries |}.

(** ** Operations, each run under the store's lock *)

Section ops.
Context {R : MapRange Key Z}.

Definition pruneLocked (now : Z) (es : gmap Key Z) : gmap Key Z :=
  range_delete (λ _ expiry, expiry <? now) es.

Definition evictOldestLocked (es : gmap Key Z) : gmap Key Z :=
  if Z.of_nat (size es) =? 0 then es
  else (evict_oldest (λ _, true) (λ expiry, expiry) es).1.

Definition CheckAndRemember (s : Store) (key : Key) (expiry now : Z) : Store * CheckResult :=
  let es := pruneLocked now (entries s) in
  let s1 := {| entries := es; maxEntries := maxEntries s |} in
  if expiry <? now then (s1, CheckResultExpired) else
  let remember es :=
    let es := if maxEntries s <=? Z.of_nat (size es) then evictOldestLocked es else es in
    ({| entries := <[key := expiry]> es; maxEntries := maxEntries s |}, CheckResultOK) in
  match es !! key with
  | Some currentExpiry =>
    if now <=? currentExpiry then (s1, CheckResultDuplicate) else remember (delete key es)
  | None => remember es
  end.

Definition Prune (s : Store) (now : Z) : Store :=
  {| entries := pruneLocked now (entries s); maxEntries := maxEntries s |}.

Definition Len (s : Store) : Z := Z.of_nat (size (entries s)).

Definition Contains (s : Store) (key : Key) : bool := bool_decide (is_Some (entries s !! key)).

(** The store's mutators, in the order in which they acquire the lock. *)
Inductive op := OCheck (key : Key) (expiry now : Z) | OPrune (now : Z).

Definition op_now (o : op) : Z := match o with OCheck _ _ now => now | OPrune now => now end.

Definition step (s : Store) (o : op) : Store :=
  match o with
  | OCheck key expiry now => (CheckAndRemember s key expiry now).1
  | OPrune now => Prune s now
  end.

Definition run (s : Store) (ops : list op) : Store := fold_left step ops s.

(** ** Lemmas *)

Lemma lookup_prune now es k e : pruneLocked now es !! k = Some e ↔ es !! k = Some e ∧ now ≤ e.
Proof. unfold pruneLocked. rewrite lookup_range_delete, Z.ltb_ge. done. Qed.

Lemma size_prune now es : (size (pruneLocked now es) ≤ size es)%nat.
Proof. unfold pruneLocked. rewrite range_delete_filter. apply map_size_filter. Qed.

(** The entry [CheckAndRemember] deletes because it has expired was pruned
    already: the branch is never taken. *)
Lemma check_unfold s key expiry now (es := pruneLocked now (entries s)) :
  CheckAndRemember s key expiry now =
  if expiry <? now then ({| entries := es; maxEntries := maxEntries s |}, CheckResultExpired) else
  match es !! key with
  | Some _ => ({| entries := es; maxEntries := maxEntries s |}, CheckResultDuplicate)
  | None =>
    ({| entries := <[key := expiry]>
          (if maxEntries s <=? Z.of_nat (size es) then evictOldestLocked es else es);
        maxEntries := maxEntries s |}, CheckResultOK)
  end.
Proof.
  unfold CheckAndRemember. fold es. case_match; [done|].
  destruct (es !! key) as [e|] eqn:He; [|done].
  apply lookup_prune in He as [_ He]. by destruct (Z.leb_spec now e); [|lia].
Qed.

Lemma replay_evict_spec (es : gmap Key Z) :
  es ≠ ∅ → ∃ k e, es !! k = Some e ∧ map_Forall (λ _ e', e ≤ e') es ∧ evictOldestLocked es = delete k es.
Proof.
  intros Hne. unfold evictOldestLocked.
  destruct (Z.eqb_spec (Z.of_nat (size es)) 0) as [Hz|].
  { destruct Hne. apply map_size_empty_iff. lia. }
  destruct (evict_any_spec (λ e : Z, e) es Hne) as (k & e & Hk & Hmin & ->). eauto.
Qed.

Lemma size_evict es : 0 < Z.of_nat (size es) → Z.of_nat (size (evictOldestLocked es)) = Z.of_nat (size es) - 1.
Proof.
  intros Hs. destruct (replay_evict_spec es) as (k & e & Hk & _ & ->).
  { intros ->. rewrite map_size_empty in Hs. lia. }
  pose proof (size_delete_lookup es k e Hk). lia.
Qed.

Lemma maxEntries_step s o : maxEntries (step s o) = maxEntries s.
Proof. destruct o as [key expiry now|now]; [|done]. simpl. rewrite check_unfold. by repeat case_match. Qed.

Definition bounded (s : Store) : Prop := 0 < maxEntries s ∧ Len s ≤ maxEntries s.

Lemma replay_bounded_step s o : bounded s → bounded (step s o).
Proof.
  unfold bounded, Len. intros [Hm Hl]. rewrite maxEntries_step. split; [done|].
  destruct o as [key expiry now|now]; simpl; [|pose proof (size_prune now (entries s)); simpl; lia].
  rewrite check_unfold. pose proof (size_prune now (entries s)) as Hp.
  set (es := pruneLocked now (entries s)) in *. repeat case_match; simpl; try lia; bool_to_prop.
  - pose proof (map_size_insert_le (evictOldestLocked es) key expiry).
    pose proof (size_evict es ltac:(lia)). lia.
  - pose proof (map_size_insert_le es key expiry). lia.
Qed.

Lemma bounded_run ops : ∀ s, bounded s → bounded (run s ops).
Proof. induction ops as [|o ops IH]; intros s Hs; [done|]. simpl. by apply IH, replay_bounded_step. Qed.

(** Steps below the capacity keep every live entry. *)
Lemma step_keeps s o k e :
  Len s < maxEntries s → op_now o ≤ e → entries s !! k = Some e →
  entries (step s o) !! k = Some e.
Proof.
  intros Hl Hnow Hk. assert (Hp : pruneLocked (op_now o) (entries s) !! k = Some e) by (by apply lookup_prune).
  destruct o as [key expiry now|now]; simpl in *; [|done].
  rewrite check_unfold. pose proof (size_prune now (entries s)) as Hsz. unfold Len in Hl.
  repeat case_match; simpl; try done; bool_to_prop; [lia|].
  rewrite lookup_insert_ne; [done|]. intros ->. congruence.
Qed.

Lemma step_len s o : Len (step s o) ≤ Len s + 1.
Proof.
  unfold Len. destruct o as [key expiry now|now]; simpl; [|pose proof (size_prune now (entries s)); lia].
  rewrite check_unfold. pose proof (size_prune now (entries s)).
  set (es := pruneLocked now (entries s)) in *. repeat case_match; simpl; try lia.
  - pose proof (map_size_insert_le (evictOldestLocked es) key expiry).
    destruct (decide (size es = 0%nat)) as [Hz|].
    + unfold evictOldestLocked in *. rewrite Hz in *. simpl in *. lia.
    + pose proof (size_evict es ltac:(lia)). lia.
  - pose proof (map_size_insert_le es key expiry). lia.
Qed.

Lemma run_keeps ops : ∀ s k e,
  Len s + Z.of_nat (length ops) ≤ maxEntries s → Forall (λ o, op_now o ≤ e) ops →
  entries s !! k = Some e → entries (run s ops) !! k = Some e.
Proof.
  induction ops as [|o ops IH]; intros s k e Hl Hall Hk; [done|]. simpl in *.
  apply Forall_cons in Hall as [Ho Hall]. pose proof (step_len s o).
  apply IH; [rewrite maxEntries_step; lia|done|]. apply step_keeps; [lia|done|done].
Qed.

Lemma check_ok_remembers s key expiry now s' :
  CheckAndRemember s key expiry now = (s', CheckResultOK) → entries s' !! key = Some expiry.
Proof.
  rewrite check_unfold. intros H.
  repeat case_match; simplify_eq; apply lookup_insert_eq.
Qed.

Lemma check_live_refused s key e expiry now :
  entries s !! key = Some e → now ≤ e → (CheckAndRemember s key expiry now).2 ≠ CheckResultOK.
Proof.
  intros Hk Hle. rewrite check_unfold. assert (Hp : pruneLocked now (entries s) !! key = Some e) by (by apply lookup_prune).
  rewrite Hp. by case_match.
Qed.

(** ** Theorems *)

(** The result of [CheckAndRemember] on every branch: expired exactly when the
    message's expiry lies before now, duplicate exactly when the key is
    remembered with an expiry that has not passed, accepted otherwise; an
    accepted key is remembered with its expiry, and only an accepted one
    changes the live entries. *)
Theorem check_and_remember_spec s key expiry now :
  let '(s', r) := CheckAndRemember s key expiry now in
  (r = CheckResultExpired ↔ expiry < now) ∧
  (r = CheckResultDuplicate ↔ now ≤ expiry ∧ ∃ e, entries s !! key = Some e ∧ now ≤ e) ∧
  (r = CheckResultOK → entries s' !! key = Some expiry) ∧
  (r ≠ CheckResultOK → entries s' = pruneLocked now (entries s)).
Proof.
  rewrite check_unfold. destruct (Z.ltb_spec expiry now) as [Hx|Hx].
  { split_and!; try done. split; [done|]. intros [? _]. lia. }
  destruct (pruneLocked now (entries s) !! key) as [e|] eqn:He.
  - apply lookup_prune in He. split_and!; try done; first [split; [done|lia]|split; eauto].
  - split_and!; try done; [split; [done|lia]| |intros _; apply lookup_insert_eq].
    split; [done|]. intros (_ & e & Hk & Hle).
    assert (pruneLocked now (entries s) !! key = Some e) by (by apply lookup_prune). congruence.
Qed.

(** No sequence of operations takes the store above its capacity. *)
Theorem replay_store_bounded `{Environ} n ops :
  Len (run (New n) ops) ≤ maxEntries (New n).
Proof.
  enough (bounded (run (New n) ops)) as [_ Hb].
  { etrans; [exact Hb|]. clear Hb. generalize (New n). induction ops as [|o ops IH]; intros s; [done|].
    simpl. etrans; [apply IH|]. by rewrite maxEntries_step. }
  apply bounded_run. unfold bounded, New, Len. simpl. rewrite map_size_empty.
  pose proof default_capacity_pos. case_match; bool_to_prop; lia.
Qed.

(** A message accepted once is refused for as long as its effective expiry
    has not passed, whatever is checked in between, provided the store does not
    run out of room. *)
Theorem replay_refused s key expiry now s1 ops expiry2 now2 :
  CheckAndRemember s key expiry now = (s1, CheckResultOK) →
  Len s1 + Z.of_nat (length ops) ≤ maxEntries s1 →
  Forall (λ o, op_now o ≤ expiry) ops → now2 ≤ expiry →
  (CheckAndRemember (run s1 ops) key expiry2 now2).2 ≠ CheckResultOK.
Proof.
  intros Hc Hl Hall Hnow. apply check_ok_remembers in Hc.
  eapply check_live_refused; [by apply run_keeps|done].
Qed.
End ops.

(** At capacity the store forgets the message that expires first although it
    has not expired: with room for one entry, a message valid until 100 is
    accepted at 10, another one at 11, and the first one again at 12. *)
Theorem replay_accepted_at_capacity {R : MapRange Key Z} p j1 j2 m (k1 := MkKey p j1 m) (k2 := MkKey p j2 m) :
  j1 ≠ j2 →
  let s0 := {| entries := ∅; maxEntries := 1 |} in
  let '(s1, r1) := CheckAndRemember s0 k1 100 10 in
  let '(s2, r2) := CheckAndRemember s1 k2 200 11 in
  let '(s3, r3) := CheckAndRemember s2 k1 100 12 in
  r1 = CheckResultOK ∧ r2 = CheckResultOK ∧ r3 = CheckResultOK.
Proof.
  intros Hj. assert (Hk : k1 ≠ k2) by (subst k1 k2; naive_solver).
  assert (Hp0 : ∀ now, pruneLocked now (∅ : gmap Key Z) = ∅).
  { intros now. unfold pruneLocked. by rewrite range_delete_filter, map_filter_empty. }
  assert (Hp1 : ∀ k e now, now ≤ e → pruneLocked now ({[k := e]} : gmap Key Z) = {[k := e]}).
  { intros k e now He. unfold pruneLocked. rewrite range_delete_filter.
    apply map_filter_singleton_True. simpl. lia. }
  assert (He : ∀ k e, evictOldestLocked ({[k := e]} : gmap Key Z) = ∅).
  { intros k e. apply map_size_empty_iff.
    pose proof (size_evict ({[k := e]} : gmap Key Z)) as Hs. rewrite map_size_singleton in Hs. lia. }
  simpl. rewrite (check_unfold _ k1 100 10). simpl. rewrite Hp0, lookup_empty, map_size_empty. simpl.
  rewrite insert_empty, (check_unfold _ k2 200 11). simpl. rewrite Hp1 by lia.
  rewrite lookup_singleton_ne, map_size_singleton by done. simpl.
  rewrite He, insert_empty, (check_unfold _ k1 100 12). simpl. rewrite Hp1 by lia.
  by rewrite lookup_singleton_ne by done.
Qed.

(** ** Witnesses *)

Definition key0 : Key := MkKey "02aa" (repeat Byte.x01 32) (repeat Byte.x02 32).
Definition key1 : Key := MkKey "02aa" (repeat Byte.x01 32) (repeat Byte.x03 32).

Lemma replay_refused_witness :
  (CheckAndRemember (R := canonical_range)
     (run (R := canonical_range)
        {| entries := {[key0 := 100]}; maxEntries := 8 |} [OCheck key1 90 20; OPrune 95])
     key0 120 100).2 ≠ CheckResultOK.
Proof.
  apply (replay_refused (R := canonical_range) {| entries := ∅; maxEntries := 8 |} key0 100 10).
  - vm_compute. reflexivity.
  - vm_compute. discriminate.
  - repeat constructor; vm_compute; discriminate.
  - lia.
Defined.

Lemma replay_accepted_at_capacity_witness :
  let s0 := {| entries := ∅; maxEntries := 1 |} in
  let k1 := MkKey "02aa" [Byte.x01] [] in let k2 := MkKey "02aa" [Byte.x02] [] in
  let '(s1, r1) := CheckAndRemember (R := canonical_range) s0 k1 100 10 in
  let '(s2, r2) := CheckAndRemember (R := canonical_range) s1 k2 200 11 in
  let '(s3, r3) := CheckAndRemember (R := canonical_range) s2 k1 100 12 in
  r1 = CheckResultOK ∧ r2 = CheckResultOK ∧ r3 = CheckResultOK.
Proof.
  apply (replay_accepted_at_capacity (R := canonical_range) "02aa" [Byte.x01] [Byte.x02] []).
  discriminate.
Defined.
End ReplayStore.
