(* ===== verification/JobStore.v ===== *)
(** * Package [jobstore]: the provider's jobs

    Every operation runs under the store's lock, so an operation is a function
    on [Store].  Jobs are values: [cloneJob], which [Upsert] and [Get] apply, is
    what makes the Go store behave like that. *)

From S2P Require Import Prelude GoStd Wire Stores.

Module JobStore.

(** ** Data *)

Inductive State :=
| StateAwaitingInput | StateQuoted | StateWaitingPayment | StatePaid | StateExecuting
| StateStreamingResult | StateDone | StateCanceled | StateFailed.

#[global] Instance State_eq_dec : EqDecision State.
Proof. solve_decision. Defined.

Record Key := MkKey { k_PeerPubKey : string; k_JobID : bytes }.

#[global] Instance Key_eq_dec : EqDecision Key.
Proof. solve_decision. Defined.
#[global] Instance Key_countable : Countable Key.
Proof.
  refine (inj_countable' (λ k, (k_PeerPubKey k, k_JobID k)) (λ '(p, j), MkKey p j) _). by intros [].
Defined.

Record InputStreamState := {
  is_StreamID : bytes;
  is_ContentType : string;
  is_ContentEncoding : string;
  is_ExpectedSeq : Z;
  is_Buf : bytes;
  is_TotalLen : Z;
  is_SHA256 : bytes;
  is_Validated : bool;
}.

Record Job := {
  j_PeerPubKey : string;
  j_JobID : bytes;
  j_State : State;
  j_QuoteRequest : option QuoteRequest;
  j_InputStream : option InputStreamState;
  j_QuoteExpiry : Z;
  j_TermsHash : option bytes;
  j_PaymentHash : option bytes;
  j_InvoiceAddIndex : option Z;
  j_QuoteResponse : option QuoteResponse;
  j_CreatedAt : Z;
}.

#[global] Instance InputStreamState_eq_dec : EqDecision InputStreamState.
Proof. solve_decision. Defined.
#[global] Instance Job_eq_dec : EqDecision Job.
Proof. solve_decision. Defined.

Record Store := { jobs : gmap Key Job; maxEntries : Z }.

(** Field updates of a job. *)
Definition set_State (st : State) (j : Job) : Job :=
  {| j_PeerPubKey := j_PeerPubKey j; j_JobID := j_JobID j; j_State := st;
     j_QuoteRequest := j_QuoteRequest j; j_InputStream := j_InputStream j;
     j_QuoteExpiry := j_QuoteExpiry j; j_TermsHash := j_TermsHash j;
     j_PaymentHash := j_PaymentHash j; j_InvoiceAddIndex := j_InvoiceAddIndex j;
     j_QuoteResponse := j_QuoteResponse j; j_CreatedAt := j_CreatedAt j |}.

Definition set_InputStream (st : option InputStreamState) (j : Job) : Job :=
  {| j_PeerPubKey := j_PeerPubKey j; j_JobID := j_JobID j; j_State := j_State j;
     j_QuoteRequest := j_QuoteRequest j; j_InputStream := st;
     j_QuoteExpiry := j_QuoteExpiry j; j_TermsHash := j_TermsHash j;
     j_PaymentHash := j_PaymentHash j; j_InvoiceAddIndex := j_InvoiceAddIndex j;
     j_QuoteResponse := j_QuoteResponse j; j_CreatedAt := j_CreatedAt j |}.

Definition set_CreatedAt (t : Z) (j : Job) : Job :=
  {| j_PeerPubKey := j_PeerPubKey j; j_JobID := j_JobID j; j_State := j_State j;
     j_QuoteRequest := j_QuoteRequest j; j_InputStream := j_InputStream j;
     j_QuoteExpiry := j_QuoteExpiry j; j_TermsHash := j_TermsHash j;
     j_PaymentHash := j_PaymentHash j; j_InvoiceAddIndex := j_InvoiceAddIndex j;
     j_QuoteResponse := j_QuoteResponse j; j_CreatedAt := t |}.

Definition set_PaymentHash (h : bytes) (j : Job) : Job :=
  {| j_PeerPubKey := j_PeerPubKey j; j_JobID := j_JobID j; j_State := j_State j;
     j_QuoteRequest := j_QuoteRequest j; j_InputStream := j_InputStream j;
     j_QuoteExpiry := j_QuoteExpiry j; j_TermsHash := j_TermsHash j;
     j_PaymentHash := Some h; j_InvoiceAddIndex := j_InvoiceAddIndex j;
     j_QuoteResponse := j_QuoteResponse j; j_CreatedAt := j_CreatedAt j |}.

Definition set_QuoteResponse (r : QuoteResponse) (j : Job) : Job :=
  {| j_PeerPubKey := j_PeerPubKey j; j_JobID := j_JobID j; j_State := j_State j;
     j_QuoteRequest := j_QuoteRequest j; j_InputStream := j_InputStream j;
     j_QuoteExpiry := qs_QuoteExpiry r; j_TermsHash := Some (qs_TermsHash r);
     j_PaymentHash := j_PaymentHash j; j_InvoiceAddIndex := j_InvoiceAddIndex j;
     j_QuoteResponse := Some r; j_CreatedAt := j_CreatedAt j |}.

(** ** Operations *)

Section ops.
Context {R : MapRange Key Job} `{Environ}.

Definition NewWithClock : Store := {| jobs := ∅; maxEntries := default_capacity |}.

(** The states before payment, which may be dropped. *)
Definition pending (st : State) : bool :=
  match st with
  | StateAwaitingInput | StateQuoted | StateWaitingPayment => true
  | StatePaid | StateExecuting | StateStreamingResult | StateDone | StateCanceled | StateFailed => false
  end.

Definition prunable (nowUnix : Z) (j : Job) : bool :=
  if j_QuoteExpiry j =? 0 then false
  else if nowUnix <=? j_QuoteExpiry j then false
  else pending (j_State j).

Definition pruneExpiredLocked (nowUnix : Z) (m : gmap Key Job) : gmap Key Job :=
  range_delete (λ _ j, prunable nowUnix j) m.

Definition evictOldestLocked (preferPending : bool) (m : gmap Key Job) : gmap Key Job * bool :=
  if Z.of_nat (size m) =? 0 then (m, false)
  else evict_oldest (λ j, if preferPending then pending (j_State j) else true) j_CreatedAt m.

Definition evictIfOverCapacityLocked (s : Store) : Store :=
  let max := if maxEntries s <=? 0 then default_capacity else maxEntries s in
  {| jobs := evict_over_capacity evictOldestLocked max (jobs s);
     maxEntries := max |}.

(** [now] is the time the store's clock returns. *)
Definition Upsert (now : Z) (job : Job) (s : Store) : Store :=
  let key := MkKey (j_PeerPubKey job) (j_JobID job) in
  let job := if time_is_zero (j_CreatedAt job) then set_CreatedAt now job else job in
  let nowUnix := time_unix now in
  let m := if 0 <=? nowUnix then pruneExpiredLocked nowUnix (jobs s) else jobs s in
  evictIfOverCapacityLocked {| jobs := <[key := job]> m; maxEntries := maxEntries s |}.

Definition Get (key : Key) (s : Store) : option Job := jobs s !! key.

(** The shape of the three setters: a read-modify-write that reports whether the
    job exists. *)
Definition modify (key : Key) (f : Job → Job) (s : Store) : Store * bool :=
  match jobs s !! key with
  | None => (s, false)
  | Some job => ({| jobs := <[key := f job]> (jobs s); maxEntries := maxEntries s |}, true)
  end.

Definition UpdateState (key : Key) (st : State) : Store → Store * bool := modify key (set_State st).

Definition SetQuoteResponse (key : Key) (resp : QuoteResponse) : Store → Store * bool :=
  modify key (set_QuoteResponse resp).

Definition SetPaymentHash (key : Key) (paymentHash : bytes) : Store → Store * bool :=
  modify key (set_PaymentHash paymentHash).

Definition Len (s : Store) : Z := Z.of_nat (size (jobs s)).

(** The mutators, as they acquire the lock. *)
Inductive op :=
| OUpsert (now : Z) (job : Job)
| OUpdateState (key : Key) (st : State)
| OSetQuoteResponse (key : Key) (resp : QuoteResponse)
| OSetPaymentHash (key : Key) (h : bytes).

Definition step (s : Store) (o : op) : Store :=
  match o with
  | OUpsert now job => Upsert now job s
  | OUpdateState key st => (UpdateState key st s).1
  | OSetQuoteResponse key resp => (SetQuoteResponse key resp s).1
  | OSetPaymentHash key h => (SetPaymentHash key h s).1
  end.

(** The states a fresh store can reach. *)
Inductive reachable : Store → Prop :=
| reach_new : reachable NewWithClock
| reach_step s o : reachable s → reachable (step s o).

(** ** Lemmas *)

Lemma lookup_pruneExpired nowUnix m k j :
  pruneExpiredLocked nowUnix m !! k = Some j ↔ m !! k = Some j ∧ prunable nowUnix j = false.
Proof. apply (lookup_range_delete (λ _ j, prunable nowUnix j)). Qed.

(** The loop body's [evictOldestLocked] is the generic eviction. *)
Lemma evictOldestLocked_evicts :
  evicts evictOldestLocked (λ j, pending (j_State j)) j_CreatedAt.
Proof.
  intros b m Hm. unfold evictOldestLocked. destruct (Z.eqb_spec (Z.of_nat (size m)) 0) as [Hz|]; [|done].
  destruct Hm. apply map_size_empty_iff. lia.
Qed.

Definition capacity (s : Store) : Z := if maxEntries s <=? 0 then default_capacity else maxEntries s.

Lemma capacity_pos s : 0 < capacity s.
Proof. unfold capacity. pose proof default_capacity_pos. case_match; bool_to_prop; lia. Qed.

Lemma size_modify key f s : size (jobs (modify key f s).1) = size (jobs s).
Proof.
  unfold modify. destruct (jobs s !! key) eqn:E; [|done]. simpl.
  by rewrite map_size_insert, E.
Qed.

Lemma maxEntries_modify key f s : maxEntries (modify key f s).1 = maxEntries s.
Proof. unfold modify. by case_match. Qed.

Lemma evict_spec s (s' := evictIfOverCapacityLocked s) :
  Len s' ≤ capacity s ∧ maxEntries s' = capacity s ∧ jobs s' ⊆ jobs s ∧
  (Len s ≤ capacity s → jobs s' = jobs s) ∧
  (∀ k j, jobs s !! k = Some j → pending (j_State j) = false → jobs s' !! k = None →
     map_Forall (λ _ j', pending (j_State j') = false) (jobs s')).
Proof.
  pose proof (capacity_pos s) as Hc. unfold s', Len, evictIfOverCapacityLocked, capacity in *. simpl.
  destruct (evict_over_capacity_spec _ _ _ (if maxEntries s <=? 0 then default_capacity else maxEntries s)
    (jobs s) evictOldestLocked_evicts) as (H1 & H2 & H3 & H4); [lia|]. done.
Qed.

(** Jobs are stored under their own peer and job id. *)
Definition keyed (s : Store) : Prop :=
  map_Forall (λ k j, k = MkKey (j_PeerPubKey j) (j_JobID j)) (jobs s).

Definition stamped (now : Z) (job : Job) : Job :=
  if time_is_zero (j_CreatedAt job) then set_CreatedAt now job else job.
Definition job_key (job : Job) : Key := MkKey (j_PeerPubKey job) (j_JobID job).

(** What [Upsert] inserts into, before the capacity check. *)
Definition pruned (now : Z) (s : Store) : gmap Key Job :=
  if 0 <=? time_unix now then pruneExpiredLocked (time_unix now) (jobs s) else jobs s.

Lemma Upsert_unfold now job s :
  Upsert now job s = evictIfOverCapacityLocked
    {| jobs := <[job_key job := stamped now job]> (pruned now s); maxEntries := maxEntries s |}.
Proof. done. Qed.

Lemma lookup_pruned now s k j :
  pruned now s !! k = Some j ↔
  jobs s !! k = Some j ∧ (0 ≤ time_unix now → prunable (time_unix now) j = false).
Proof.
  unfold pruned. destruct (Z.leb_spec 0 (time_unix now)).
  - rewrite lookup_pruneExpired. naive_solver.
  - split; [intros; split; [done|lia]|]. by intros [? _].
Qed.

Lemma size_pruned now s : (size (pruned now s) ≤ size (jobs s))%nat.
Proof.
  unfold pruned, pruneExpiredLocked. case_match; [|done].
  rewrite range_delete_filter. apply map_size_filter.
Qed.

Lemma key_stamped now job : job_key (stamped now job) = job_key job.
Proof. unfold stamped. by case_match. Qed.

Lemma keyed_modify key f s :
  (∀ j, job_key (f j) = job_key j) → keyed s → keyed (modify key f s).1.
Proof.
  intros Hf Hk. unfold modify. destruct (jobs s !! key) as [j|] eqn:E; [|done]. simpl.
  apply map_Forall_insert_2; [|done]. rewrite (Hk _ _ E). symmetry. apply Hf.
Qed.

Lemma keyed_step s o : keyed s → keyed (step s o).
Proof.
  intros Hk. destruct o as [now job|key st|key resp|key h]; simpl; [|by apply keyed_modify..].
  rewrite Upsert_unfold. intros k j Hj.
  destruct (evict_spec {| jobs := <[job_key job := stamped now job]> (pruned now s);
    maxEntries := maxEntries s |}) as (_ & _ & Hsub & _).
  eapply lookup_weaken in Hj; [|exact Hsub]. simpl in Hj.
  apply lookup_insert_Some in Hj as [[<- <-]|[_ Hj]]; [symmetry; apply (key_stamped now job)|].
  apply lookup_pruned in Hj as [Hj _]. by apply Hk.
Qed.

Lemma step_bounded s o :
  maxEntries s = default_capacity → Len s ≤ default_capacity →
  maxEntries (step s o) = default_capacity ∧ Len (step s o) ≤ default_capacity.
Proof.
  intros Hm Hl. pose proof default_capacity_pos as Hpos.
  assert (Hmod : ∀ key f, maxEntries (modify key f s).1 = default_capacity ∧
    Len (modify key f s).1 ≤ default_capacity).
  { intros key f. unfold Len. by rewrite size_modify, maxEntries_modify. }
  destruct o as [now job|key st|key resp|key h]; simpl; [|apply Hmod..].
  rewrite Upsert_unfold.
  set (s1 := {| jobs := <[job_key job := stamped now job]> (pruned now s); maxEntries := maxEntries s |}).
  assert (Hc : capacity s1 = default_capacity).
  { unfold capacity. simpl. rewrite Hm. by destruct (Z.leb_spec default_capacity 0); [lia|]. }
  destruct (evict_spec s1) as (Hlen & Hmax & _). by rewrite Hc in Hlen, Hmax.
Qed.

(** ** Theorems *)

(** No sequence of operations takes the store above its capacity, and every
    job is found under its own peer and job id. *)
Theorem job_store_invariant s :
  reachable s → Len s ≤ default_capacity ∧ keyed s.
Proof.
  intros Hr. enough (maxEntries s = default_capacity ∧ Len s ≤ default_capacity ∧ keyed s) by tauto.
  induction Hr as [|s o _ (Hm & Hl & Hk)].
  - pose proof default_capacity_pos. unfold Len. simpl. rewrite map_size_empty.
    split_and!; [done|lia|]. apply map_Forall_empty.
  - destruct (step_bounded s o Hm Hl). split_and!; [done..|]. by apply keyed_step.
Qed.

(** With room left, [Upsert] stores the job, stamped with the time when it
    had none, and keeps every other job except the ones before payment whose
    quote has expired. *)
Theorem upsert_get now job s k :
  Len s < capacity s →
  Get k (Upsert now job s) =
    if decide (k = job_key job) then Some (stamped now job)
    else match Get k s with
         | Some j => if (0 <=? time_unix now) && prunable (time_unix now) j then None else Some j
         | None => None
         end.
Proof.
  intros Hroom. rewrite Upsert_unfold. unfold Get.
  set (s1 := {| jobs := <[job_key job := stamped now job]> (pruned now s); maxEntries := maxEntries s |}).
  destruct (evict_spec s1) as (_ & _ & _ & Heq & _). rewrite Heq; clear Heq.
  2: { unfold Len in *. pose proof (size_pruned now s).
       pose proof (map_size_insert_le (pruned now s) (job_key job) (stamped now job)).
       change (capacity s1) with (capacity s). simpl. lia. }
  simpl. case_decide as Hk; [subst k; apply lookup_insert_eq|]. rewrite lookup_insert_ne by done.
  unfold pruned. destruct (0 <=? time_unix now); simpl; [|by case_match].
  destruct (jobs s !! k) as [j|] eqn:E.
  - destruct (prunable (time_unix now) j) eqn:P; [|by apply lookup_pruneExpired].
    destruct (pruneExpiredLocked _ _ !! k) as [j'|] eqn:E'; [|done].
    apply lookup_pruneExpired in E' as [? ?]. congruence.
  - destruct (pruneExpiredLocked _ _ !! k) as [j'|] eqn:E'; [|done].
    apply lookup_pruneExpired in E' as [? _]. congruence.
Qed.

(** [Upsert] drops a job that has been paid for (or is finished) only when the
    store is over capacity and holds no job that is still before payment. *)
Theorem upsert_keeps_paid now job s k j :
  Get k s = Some j → pending (j_State j) = false → k ≠ job_key job →
  Get k (Upsert now job s) = Some j ∨
  (capacity s ≤ Len s ∧ map_Forall (λ _ j', pending (j_State j') = false) (jobs (Upsert now job s))).
Proof.
  unfold Get. intros Hk Hp Hne. rewrite Upsert_unfold.
  set (s1 := {| jobs := <[job_key job := stamped now job]> (pruned now s); maxEntries := maxEntries s |}).
  assert (H1 : jobs s1 !! k = Some j).
  { simpl. rewrite lookup_insert_ne by done. apply lookup_pruned. split; [done|]. intros _.
    unfold prunable. by repeat case_match. }
  destruct (evict_spec s1) as (_ & _ & Hsub & Heq & Hpref).
  destruct (jobs (evictIfOverCapacityLocked s1) !! k) as [j'|] eqn:E.
  - left. eapply lookup_weaken in E; [|exact Hsub]. congruence.
  - right. split; [|by eapply Hpref].
    destruct (Z.leb_spec (capacity s) (Len s)) as [|Hlt]; [done|]. rewrite Heq in E; [congruence|].
    unfold Len in *. pose proof (size_pruned now s).
    pose proof (map_size_insert_le (pruned now s) (job_key job) (stamped now job)).
    change (capacity s1) with (capacity s). simpl. lia.
Qed.

(** The setters report whether the job exists, change the fields they name of
    that job alone, and leave a store without the job as it was. *)
Theorem setters_spec key s st resp h :
  (UpdateState key st s).2 = bool_decide (is_Some (Get key s)) ∧
  (SetQuoteResponse key resp s).2 = bool_decide (is_Some (Get key s)) ∧
  (SetPaymentHash key h s).2 = bool_decide (is_Some (Get key s)) ∧
  ∀ k,
    Get k (UpdateState key st s).1 = (if decide (k = key) then set_State st <$> Get k s else Get k s) ∧
    Get k (SetQuoteResponse key resp s).1 =
      (if decide (k = key) then set_QuoteResponse resp <$> Get k s else Get k s) ∧
    Get k (SetPaymentHash key h s).1 =
      (if decide (k = key) then set_PaymentHash h <$> Get k s else Get k s).
Proof.
  unfold UpdateState, SetQuoteResponse, SetPaymentHash, modify, Get.
  destruct (jobs s !! key) as [j|] eqn:E; simpl.
  - split_and!; try done. intros k. rewrite !lookup_insert.
    repeat case_decide; simplify_eq; by rewrite ?E.
  - split_and!; try done. intros k. case_decide; subst; by rewrite ?E.
Qed.
End ops.

(** ** Witnesses *)

Module Examples.
#[local] Instance no_env : Environ := λ _, ""%string.
#[local] Instance order : MapRange Key Job := canonical_range.

Definition job (id : byte) (st : State) (expiry created : Z) : Job :=
  {| j_PeerPubKey := "02aa"; j_JobID := repeat id 32; j_State := st; j_QuoteRequest := None;
     j_InputStream := None; j_QuoteExpiry := expiry; j_TermsHash := None; j_PaymentHash := None;
     j_InvoiceAddIndex := None; j_QuoteResponse := None; j_CreatedAt := created |}.

Definition at_sec (n : Z) : Z := n * ns_per_sec.
Definition paid := job Byte.x01 StatePaid 50 (at_sec 10).
Definition quoted := job Byte.x02 StateQuoted 50 (at_sec 20).
Definition fresh := job Byte.x03 StateAwaitingInput 0 time_zero.
Definition store : Store :=
  {| jobs := <[job_key paid := paid]> (<[job_key quoted := quoted]> ∅); maxEntries := 4 |}.
Definition full : Store := {| jobs := jobs store; maxEntries := 1 |}.

Lemma job_store_invariant_witness :
  Len (step NewWithClock (OUpsert (at_sec 100) fresh)) ≤ default_capacity ∧
  keyed (step NewWithClock (OUpsert (at_sec 100) fresh)).
Proof. apply job_store_invariant. apply reach_step, reach_new. Defined.

Lemma upsert_get_witness :
  Get (job_key quoted) (Upsert (at_sec 100) fresh store) = None.
Proof. rewrite (upsert_get (at_sec 100) fresh store (job_key quoted)); vm_compute; reflexivity. Defined.

Lemma upsert_keeps_paid_witness :
  Get (job_key paid) (Upsert (at_sec 40) fresh full) = Some paid ∨
  (capacity full ≤ Len full ∧
   map_Forall (λ _ j', pending (j_State j') = false) (jobs (Upsert (at_sec 40) fresh full))).
Proof. apply (upsert_keeps_paid (at_sec 40) fresh full (job_key paid) paid); by vm_compute. Defined.
End Examples.
End JobStore.
