(* ===== verification/ReqJobStore.v ===== *)
(** * Package [requesterjobstore]: the requester's quotes and jobs

    Tasks and terms are protobuf messages; the store looks at the terms' job id
    and expiry only and returns copies of both ([proto.Clone]).  A timestamp is
    the instant it denotes ([AsTime]), in nanoseconds. *)

From S2P Require Import Prelude GoStd Stores Terms.

Module ReqJobStore.

(** ** Data *)

(** Go's [State] is a string: the seven constants and anything else. *)
Inductive State :=
| StateQuoted | StatePaying | StateAwaitingResult | StateDone | StateCancelled
| StateFailed | StateExpired | StateOther (s : string).

#[global] Instance State_eq_dec : EqDecision State.
Proof. solve_decision. Defined.

Inductive store_err :=
| ErrPeerIDRequired | ErrTaskRequired | ErrTermsRequired | ErrInvalidJobID
| ErrQuoteExpiryRequired | ErrInvalidState | ErrNotFound | ErrExpired.

#[export] Instance store_err_eq_dec : EqDecision store_err.
Proof. solve_decision. Defined.

(** [lcpdv1.Terms]. *)
Record PbTerms := {
  pt_ProtocolVersion : Z;
  pt_JobId : bytes;
  pt_PriceMsat : Z;
  pt_QuoteExpiry : option Z;
  pt_TermsHash : bytes;
  pt_PaymentRequest : string;
}.

Record key := MkKey { k_peerID : string; k_jobID : bytes }.

#[global] Instance key_eq_dec : EqDecision key.
Proof. solve_decision. Defined.
#[global] Instance key_countable : Countable key.
Proof.
  refine (inj_countable' (λ k, (k_peerID k, k_jobID k)) (λ '(p, j), MkKey p j) _). by intros [].
Defined.

Section store.
(** [lcpdv1.Task]. *)
Context {Task : Type}.

Record jobEntry := MkEntry {
  e_peerID : string;
  e_jobID : bytes;
  e_task : Task;
  e_terms : PbTerms;
  e_state : State;
  e_quoteExpiry : Z;
  e_createdAt : Z;
  e_updatedAt : Z;
}.

Record Job := {
  r_PeerID : string;
  r_JobID : bytes;
  r_Task : Task;
  r_Terms : PbTerms;
  r_State : State;
  r_CreatedAt : Z;
  r_UpdatedAt : Z;
}.

Record Store := { jobs : gmap key jobEntry; maxEntries : Z }.

(** ** Operations *)

Context {R : MapRange key jobEntry}.

Definition NewWithClockAndMaxEntries (maxEntries : Z) : Store :=
  {| jobs := ∅; maxEntries := if maxEntries <=? 0 then defaultMaxEntries else maxEntries |}.

Definition NewWithClock `{Environ} : Store :=
  NewWithClockAndMaxEntries (envconfig_Int "LCP_DEFAULT_MAX_STORE_ENTRIES" defaultMaxEntries).

Definition with_state (st : State) (now : Z) (e : jobEntry) : jobEntry :=
  MkEntry (e_peerID e) (e_jobID e) (e_task e) (e_terms e) st (e_quoteExpiry e) (e_createdAt e) now.

Definition expiredAt (now : Z) (e : jobEntry) : bool :=
  bool_decide (e_state e = StateQuoted) && negb (time_is_zero (e_quoteExpiry e)) &&
  negb (time_before now (e_quoteExpiry e)).

Definition gcLocked (now : Z) (m : gmap key jobEntry) : gmap key jobEntry :=
  range_update (λ e,
    if negb (bool_decide (e_state e = StateQuoted)) then None
    else if time_is_zero (e_quoteExpiry e) then None
    else if time_before now (e_quoteExpiry e) then None
    else Some (with_state StateExpired now e)) m.

Definition evictOldestLocked (preferExpired : bool) (m : gmap key jobEntry) : gmap key jobEntry * bool :=
  if Z.of_nat (size m) =? 0 then (m, false)
  else evict_oldest (λ e, if preferExpired then bool_decide (e_state e = StateExpired) else true)
         e_createdAt m.

Definition evictIfOverCapacityLocked (s : Store) : Store :=
  let max := if maxEntries s <=? 0 then defaultMaxEntries else maxEntries s in
  {| jobs := evict_over_capacity evictOldestLocked max (jobs s); maxEntries := max |}.

Definition toJobID (b : bytes) : result store_err bytes :=
  if blen b =? Hash32Len then Ok b else Err ErrInvalidJobID.

(** [now] and [now'] are the two readings of the clock; [task] and [terms] are
    [None] for nil pointers. *)
Definition PutQuote (now now' : Z) (peerID : string) (task : option Task) (terms : option PbTerms)
    (s : Store) : Store * result store_err unit :=
  let checked :=
    _ ← ensure (negb (bool_decide (peerID = ""%string))) ErrPeerIDRequired;
    task ← or_err task ErrTaskRequired;
    terms ← or_err terms ErrTermsRequired;
    jobID ← toJobID (pt_JobId terms);
    quoteExpiry ← or_err (pt_QuoteExpiry terms) ErrQuoteExpiryRequired;
    Ok (task, terms, jobID, quoteExpiry) in
  match checked with
  | Err e => (s, Err e)
  | Ok (task, terms, jobID, quoteExpiry) =>
    let k := MkKey peerID jobID in
    let s1 := evictIfOverCapacityLocked {| jobs := gcLocked now' (jobs s); maxEntries := maxEntries s |} in
    let createdAt :=
      match jobs s1 !! k with
      | Some existing => if time_is_zero (e_createdAt existing) then now else e_createdAt existing
      | None => now
      end in
    let entry := MkEntry peerID jobID task terms StateQuoted quoteExpiry createdAt now in
    (evictIfOverCapacityLocked {| jobs := <[k := entry]> (jobs s1); maxEntries := maxEntries s1 |}, Ok tt)
  end.

Definition GetTerms (now : Z) (peerID : string) (jobID : bytes) (s : Store) :
    Store * result store_err PbTerms :=
  let k := MkKey peerID jobID in
  match jobs s !! k with
  | None => (s, Err ErrNotFound)
  | Some entry =>
    if expiredAt now entry then
      ({| jobs := <[k := with_state StateExpired now entry]> (jobs s); maxEntries := maxEntries s |},
       Err ErrExpired)
    else if bool_decide (e_state entry = StateExpired) then (s, Err ErrExpired)
    else (s, Ok (e_terms entry))
  end.

Definition isValidState (st : State) : bool :=
  match st with
  | StateQuoted | StatePaying | StateAwaitingResult | StateDone | StateCancelled | StateFailed
  | StateExpired => true
  | StateOther _ => false
  end.

Definition MarkState (now : Z) (peerID : string) (jobID : bytes) (st : State) (s : Store) :
    Store * result store_err unit :=
  if isValidState st then
    let k := MkKey peerID jobID in
    match jobs s !! k with
    | None => (s, Err ErrNotFound)
    | Some entry => ({| jobs := <[k := with_state st now entry]> (jobs s); maxEntries := maxEntries s |}, Ok tt)
    end
  else (s, Err ErrInvalidState).

Definition GC (now : Z) (s : Store) : Store :=
  evictIfOverCapacityLocked {| jobs := gcLocked now (jobs s); maxEntries := maxEntries s |}.

Definition cloneJob (e : jobEntry) : Job :=
  {| r_PeerID := e_peerID e; r_JobID := e_jobID e; r_Task := e_task e; r_Terms := e_terms e;
     r_State := e_state e; r_CreatedAt := e_createdAt e; r_UpdatedAt := e_updatedAt e |}.

Definition Get (peerID : string) (jobID : bytes) (s : Store) : option Job :=
  cloneJob <$> jobs s !! MkKey peerID jobID.

Definition Len (s : Store) : Z := Z.of_nat (size (jobs s)).

(** The mutators, as they acquire the lock. *)
Inductive op :=
| OPutQuote (now now' : Z) (peerID : string) (task : option Task) (terms : option PbTerms)
| OGetTerms (now : Z) (peerID : string) (jobID : bytes)
| OMarkState (now : Z) (peerID : string) (jobID : bytes) (st : State)
| OGC (now : Z).

Definition step (s : Store) (o : op) : Store :=
  match o with
  | OPutQuote now now' p task terms => (PutQuote now now' p task terms s).1
  | OGetTerms now p j => (GetTerms now p j s).1
  | OMarkState now p j st => (MarkState now p j st s).1
  | OGC now => GC now s
  end.

Definition run (s : Store) (ops : list op) : Store := fold_left step ops s.

(** ** Lemmas *)

Lemma req_evicts :
  evicts evictOldestLocked (λ e, bool_decide (e_state e = StateExpired)) e_createdAt.
Proof.
  intros b m Hm. unfold evictOldestLocked. destruct (Z.eqb_spec (Z.of_nat (size m)) 0) as [Hz|]; [|done].
  destruct Hm. apply map_size_empty_iff. lia.
Qed.

Definition capacity (s : Store) : Z := if maxEntries s <=? 0 then defaultMaxEntries else maxEntries s.

Lemma req_capacity_pos s : 0 < capacity s.
Proof. unfold capacity, defaultMaxEntries. case_match; bool_to_prop; lia. Qed.

Lemma req_evict_spec s (s' := evictIfOverCapacityLocked s) :
  Len s' ≤ capacity s ∧ maxEntries s' = capacity s ∧ jobs s' ⊆ jobs s ∧
  (Len s ≤ capacity s → jobs s' = jobs s) ∧
  (∀ k e, jobs s !! k = Some e → e_state e ≠ StateExpired → jobs s' !! k = None →
     map_Forall (λ _ e', e_state e' ≠ StateExpired) (jobs s')).
Proof.
  pose proof (req_capacity_pos s) as Hc. unfold s', Len, evictIfOverCapacityLocked, capacity in *. simpl.
  destruct (evict_over_capacity_spec _ _ _ (if maxEntries s <=? 0 then defaultMaxEntries else maxEntries s)
    (jobs s) req_evicts) as (H1 & H2 & H3 & H4); [lia|].
  split_and!; [done..|]. intros k e Hk He Hn k' e' Hk'.
  assert (Hf : bool_decide (e_state e = StateExpired) = false) by (by apply bool_decide_eq_false).
  specialize (H4 k e Hk Hf Hn k' e' Hk'). by apply bool_decide_eq_false in H4.
Qed.

Lemma lookup_gc now m k :
  gcLocked now m !! k = (λ e, if expiredAt now e then with_state StateExpired now e else e) <$> m !! k.
Proof.
  unfold gcLocked. rewrite lookup_range_update. destruct (m !! k) as [e|]; [|done]. simpl. f_equal.
  unfold expiredAt. destruct (bool_decide _), (time_is_zero _), (time_before _ _); done.
Qed.

Lemma size_gc now m : size (gcLocked now m) = size m.
Proof. unfold gcLocked. rewrite range_update_fmap. apply map_size_fmap. Qed.

Lemma size_insert_present (m : gmap key jobEntry) k e e' : m !! k = Some e → size (<[k := e']> m) = size m.
Proof. intros Hk. by rewrite map_size_insert, Hk. Qed.

Lemma toJobID_ok b : length b = 32%nat → toJobID b = Ok b.
Proof. intros Hb. unfold toJobID, blen. by rewrite Hb. Qed.

Definition bounded (n : Z) (s : Store) : Prop := 0 < n ∧ maxEntries s = n ∧ Len s ≤ n.

Lemma capacity_bounded n m : 0 < n → capacity {| jobs := m; maxEntries := n |} = n.
Proof. unfold capacity. simpl. intros Hn. by destruct (Z.leb_spec n 0); [lia|]. Qed.

Lemma evict_bounded n m : 0 < n → bounded n (evictIfOverCapacityLocked {| jobs := m; maxEntries := n |}).
Proof.
  intros Hn. destruct (req_evict_spec {| jobs := m; maxEntries := n |}) as (Hl & Hm & _).
  rewrite capacity_bounded in Hl, Hm by done. by split_and!.
Qed.

Lemma req_bounded_step n s o : bounded n s → bounded n (step s o).
Proof.
  intros (Hn & Hm & Hl). destruct s as [m mx]. simpl in *. subst mx.
  destruct o as [now now' p task terms|now p j|now p j st|now]; simpl.
  - unfold PutQuote. case_match; [|by split_and!]. destruct a as [[[t tm] id] qe]. cbn [fst jobs maxEntries].
    destruct (evict_bounded n (gcLocked now' m) Hn) as (_ & Hm & _).
    cbv zeta. rewrite Hm. by apply evict_bounded.
  - unfold GetTerms. unfold Len in *. simpl in *. repeat case_match; simpl; try by split_and!.
    split_and!; [done..|]. unfold Len. simpl. by erewrite size_insert_present.
  - unfold MarkState, Len in *. simpl in *. repeat case_match; simpl; try by split_and!.
    split_and!; [done..|]. unfold Len. simpl. by erewrite size_insert_present.
  - by apply evict_bounded.
Qed.

(** The task and the terms of a job that the store has. *)
Definition remembered (s : Store) (k : key) (task : Task) (terms : PbTerms) : Prop :=
  ∃ e, jobs s !! k = Some e ∧ e_task e = task ∧ e_terms e = terms.

Lemma insert_remembered m n k0 e k task terms :
  remembered {| jobs := <[k0 := e]> m; maxEntries := n |} k task terms →
  (k = k0 ∧ e_task e = task ∧ e_terms e = terms) ∨ remembered {| jobs := m; maxEntries := n |} k task terms.
Proof.
  intros (e' & Hk & H1 & H2). simpl in Hk.
  destruct (decide (k = k0)) as [->|]; [rewrite lookup_insert_eq in Hk; injection Hk as ->; by left|].
  rewrite lookup_insert_ne in Hk by done. right. by exists e'.
Qed.

Lemma evict_remembered s k task terms :
  remembered (evictIfOverCapacityLocked s) k task terms → remembered s k task terms.
Proof.
  destruct (req_evict_spec s) as (_ & _ & Hs & _). intros (e & Hk & H). exists e.
  split; [by eapply lookup_weaken|done].
Qed.

Lemma gc_remembered now s k task terms :
  remembered {| jobs := gcLocked now (jobs s); maxEntries := maxEntries s |} k task terms →
  remembered s k task terms.
Proof.
  intros (e & Hk & H). simpl in Hk. rewrite lookup_gc in Hk. destruct (jobs s !! k) as [e'|] eqn:Hk'; [|done].
  injection Hk as <-. exists e'. split; [done|]. by destruct (expiredAt now e').
Qed.

(** A mark keeps the task and the terms. *)
Lemma with_state_remembered s k0 e st now k task terms :
  jobs s !! k0 = Some e →
  remembered {| jobs := <[k0 := with_state st now e]> (jobs s); maxEntries := maxEntries s |} k task terms →
  remembered s k task terms.
Proof.
  intros He [(-> & H1 & H2)|(e' & H)]%insert_remembered; [by exists e|by exists e'].
Qed.

Lemma mark_remembered now p j st s k task terms :
  remembered (MarkState now p j st s).1 k task terms → remembered s k task terms.
Proof. unfold MarkState. repeat case_match; try done. by eapply with_state_remembered. Qed.

Lemma get_remembered now p j s k task terms :
  remembered (GetTerms now p j s).1 k task terms → remembered s k task terms.
Proof. unfold GetTerms. repeat case_match; try done. by eapply with_state_remembered. Qed.

Lemma get_terms_remembered now p j s terms :
  (GetTerms now p j s).2 = Ok terms → ∃ task, remembered s (MkKey p j) task terms.
Proof.
  unfold GetTerms. destruct (jobs s !! _) as [e|] eqn:He; [|done]. repeat case_match; try done.
  intros [= <-]. by exists (e_task e), e.
Qed.

Lemma put_remembered now now' p task terms s k t tm :
  remembered (PutQuote now now' p task terms s).1 k t tm →
  remembered s k t tm ∨ (task = Some t ∧ terms = Some tm ∧ k = MkKey p (pt_JobId tm)).
Proof.
  unfold PutQuote. case_match eqn:Hchk; [|by left]. destruct a as [[[t' tm'] id] qe]. cbn [fst].
  intros H%evict_remembered.
  apply insert_remembered in H as [(-> & H1 & H2)|H].
  - right. simpl in H1, H2. subst t' tm'.
    destruct task as [t0|], terms as [tm0|]; simpl in Hchk; invert_ok; try done.
    unfold toJobID in *. repeat case_match; by simplify_eq.
  - left. by eapply gc_remembered, evict_remembered.
Qed.

(** ** Theorems *)

(** No sequence of operations takes the requester's store above its capacity. *)
Theorem requester_store_bounded n ops :
  Len (run (NewWithClockAndMaxEntries n) ops) ≤ maxEntries (NewWithClockAndMaxEntries n).
Proof.
  set (c := maxEntries (NewWithClockAndMaxEntries n)).
  enough (bounded c (run (NewWithClockAndMaxEntries n) ops)) as (_ & _ & Hl) by done.
  assert (H0 : bounded c (NewWithClockAndMaxEntries n)).
  { unfold bounded, Len, c. simpl. rewrite map_size_empty. unfold defaultMaxEntries.
    case_match; bool_to_prop; lia. }
  revert H0. generalize (NewWithClockAndMaxEntries n). clearbody c.
  induction ops as [|o ops IH]; intros s Hs; [done|]. simpl. by apply IH, req_bounded_step.
Qed.

(** The terms of a quote are handed out only while it is alive: as long as the
    job is in state quoted, [GetTerms] succeeds exactly before the quote's
    expiry and returns the stored terms; at the expiry it marks the job, and
    from then on every [GetTerms] fails. *)
Theorem get_terms_quoted now now2 p j s e (s' := (GetTerms now p j s).1) :
  jobs s !! MkKey p j = Some e → e_state e = StateQuoted → e_quoteExpiry e ≠ time_zero →
  (GetTerms now p j s).2 = (if now <? e_quoteExpiry e then Ok (e_terms e) else Err ErrExpired) ∧
  (e_quoteExpiry e ≤ now → (GetTerms now2 p j s').2 = Err ErrExpired).
Proof.
  intros Hk Hst Hz. subst s'. unfold GetTerms at 1 3. rewrite Hk.
  unfold expiredAt, time_is_zero, time_before. rewrite Hst. simpl.
  destruct (Z.eqb_spec (e_quoteExpiry e) time_zero) as [|_]; [done|]. simpl.
  destruct (Z.ltb_spec now (e_quoteExpiry e)); simpl; [split; [done|lia]|].
  split; [done|]. intros _. unfold GetTerms. simpl. rewrite lookup_insert_eq. by vm_compute.
Qed.

(** Once a job has left the quoted state for one other than expired,
    [GetTerms] returns its terms at any time, the quote's expiry included. *)
Theorem get_terms_after_quoted now p j s e :
  jobs s !! MkKey p j = Some e → e_state e ≠ StateQuoted → e_state e ≠ StateExpired →
  GetTerms now p j s = (s, Ok (e_terms e)).
Proof.
  intros Hk Hq Hx. unfold GetTerms. rewrite Hk. unfold expiredAt.
  by rewrite (bool_decide_eq_false_2 _ Hq), (bool_decide_eq_false_2 _ Hx).
Qed.

(** With room left, a quote that passes the checks is stored as quoted with its
    expiry, and its terms can be read back before that expiry; an existing
    entry keeps its creation time. *)
Theorem put_quote_get now now' p task terms x s (s' := (PutQuote now now' p (Some task) (Some terms) s).1) :
  p ≠ ""%string → length (pt_JobId terms) = 32%nat → pt_QuoteExpiry terms = Some x → x ≠ time_zero →
  Len s < capacity s →
  (PutQuote now now' p (Some task) (Some terms) s).2 = Ok tt ∧
  (∀ t, t < x → (GetTerms t p (pt_JobId terms) s').2 = Ok terms) ∧
  Get p (pt_JobId terms) s' = Some
    {| r_PeerID := p; r_JobID := pt_JobId terms; r_Task := task; r_Terms := terms;
       r_State := StateQuoted;
       r_CreatedAt := match jobs s !! MkKey p (pt_JobId terms) with
                      | Some e => if time_is_zero (e_createdAt e) then now else e_createdAt e
                      | None => now end;
       r_UpdatedAt := now |}.
Proof.
  intros Hp Hid Hx Hz Hroom. subst s'.
  assert (Hsz : Len {| jobs := gcLocked now' (jobs s); maxEntries := maxEntries s |} ≤ capacity s)
    by (unfold Len in *; simpl; rewrite size_gc; lia).
  destruct (req_evict_spec {| jobs := gcLocked now' (jobs s); maxEntries := maxEntries s |})
    as (_ & Hm & _ & Heq & _).
  change (capacity {| jobs := gcLocked now' (jobs s); maxEntries := maxEntries s |}) with (capacity s) in *.
  specialize (Heq Hsz). cbn [jobs] in Heq.
  set (s1 := evictIfOverCapacityLocked {| jobs := gcLocked now' (jobs s); maxEntries := maxEntries s |}) in *.
  set (k := MkKey p (pt_JobId terms)).
  set (created := match jobs s !! k with
    | Some e => if time_is_zero (e_createdAt e) then now else e_createdAt e | None => now end).
  set (entry := MkEntry p (pt_JobId terms) task terms StateQuoted x created now).
  assert (Hput : PutQuote now now' p (Some task) (Some terms) s =
    (evictIfOverCapacityLocked {| jobs := <[k := entry]> (jobs s1); maxEntries := maxEntries s1 |}, Ok tt)).
  { unfold PutQuote. rewrite bool_decide_eq_false_2 by done.
    cbn [negb ensure mbind result_bind or_err]. rewrite toJobID_ok, Hx by done.
    cbn [negb ensure mbind result_bind or_err]. fold s1. fold k. cbv zeta.
    do 3 f_equal. unfold entry, created. f_equal. rewrite Heq, lookup_gc.
    destruct (jobs s !! k) as [e|]; [|done]. simpl. by destruct (expiredAt now' e). }
  rewrite Hput. cbn [fst snd].
  assert (Hget : jobs (evictIfOverCapacityLocked {| jobs := <[k := entry]> (jobs s1); maxEntries := maxEntries s1 |})
    = <[k := entry]> (jobs s1)).
  { apply req_evict_spec. unfold Len in *. cbn [jobs] in *. rewrite Heq, Hm. 
    pose proof (map_size_insert_le (gcLocked now' (jobs s)) k entry) as Hi. rewrite size_gc in Hi.
    pose proof (req_capacity_pos s). rewrite capacity_bounded by done. lia. }
  split_and!; [done| |].
  - intros t Ht. unfold GetTerms. fold k. rewrite Hget, lookup_insert_eq.
    unfold expiredAt, time_is_zero, time_before. cbn.
    destruct (Z.eqb_spec x time_zero), (Z.ltb_spec t x); done || lia.
  - unfold Get. fold k. by rewrite Hget, lookup_insert_eq.
Qed.
End store.

(** ** Witnesses *)

Module Examples.
#[local] Instance order : MapRange key (@jobEntry unit) := canonical_range.

Definition terms : PbTerms :=
  {| pt_ProtocolVersion := 2; pt_JobId := repeat Byte.x07 32; pt_PriceMsat := 1500;
     pt_QuoteExpiry := Some (300 * ns_per_sec); pt_TermsHash := repeat Byte.x08 32;
     pt_PaymentRequest := "lnbc1" |}.
Definition k : key := MkKey "02aa" (pt_JobId terms).
Definition entry (st : State) : jobEntry :=
  MkEntry "02aa" (pt_JobId terms) tt terms st (300 * ns_per_sec) (100 * ns_per_sec) (100 * ns_per_sec).
Definition store (st : State) : @Store unit := {| jobs := {[k := entry st]}; maxEntries := 4 |}.

Lemma get_terms_quoted_witness :
  (GetTerms (200 * ns_per_sec) "02aa" (pt_JobId terms) (store StateQuoted)).2 = Ok terms.
Proof.
  apply (get_terms_quoted (200 * ns_per_sec) 0 "02aa" (pt_JobId terms) (store StateQuoted) (entry StateQuoted));
    [reflexivity|reflexivity|vm_compute; discriminate].
Defined.

Lemma get_terms_after_quoted_witness :
  GetTerms (900 * ns_per_sec) "02aa" (pt_JobId terms) (store StatePaying) = (store StatePaying, Ok terms).
Proof.
  apply (get_terms_after_quoted (900 * ns_per_sec) "02aa" (pt_JobId terms) (store StatePaying)
    (entry StatePaying)); [reflexivity|discriminate|discriminate].
Defined.

Lemma put_quote_get_witness :
  (PutQuote 0 0 "02aa" (Some tt) (Some terms) (NewWithClockAndMaxEntries 4)).2 = Ok tt.
Proof.
  apply (put_quote_get 0 0 "02aa" tt terms (300 * ns_per_sec) (NewWithClockAndMaxEntries 4));
    [discriminate|reflexivity|reflexivity|vm_compute; discriminate|vm_compute; reflexivity].
Defined.
End Examples.
End ReqJobStore.
