(* ===== verification/PeerDir.v ===== *)
(** * Package [peerdirectory]: what is known about each Lightning peer

    A peer is usable for LCP ([LCPReady]) when it is connected, custom messages
    are enabled, our manifest has been sent and its manifest has been received.
    Every method runs under the directory's lock. *)

From S2P Require Import Prelude GoStd Wire.

Module PeerDir.

(** ** Data *)

Record Peer := {
  p_PeerID : string;
  p_RemoteAddr : string;
  p_Connected : bool;
  p_CustomMsgEnabled : bool;
  p_ManifestSent : bool;
  p_LCPReady : bool;
  p_RemoteManifest : option Manifest;
}.

Record LCPPeer := MkLCPPeer {
  l_PeerID : string;
  l_RemoteAddr : string;
  l_RemoteManifest : Manifest;
}.

#[global] Instance Peer_eq_dec : EqDecision Peer.
Proof. solve_decision. Defined.

Abbreviation Directory := (gmap string Peer).

Definition New : Directory := ∅.

(** ** Operations *)

Definition updateLCPReadyLocked (p : Peer) : Peer :=
  {| p_PeerID := p_PeerID p; p_RemoteAddr := p_RemoteAddr p; p_Connected := p_Connected p;
     p_CustomMsgEnabled := p_CustomMsgEnabled p; p_ManifestSent := p_ManifestSent p;
     p_LCPReady := p_Connected p && p_CustomMsgEnabled p && p_ManifestSent p &&
                   bool_decide (is_Some (p_RemoteManifest p));
     p_RemoteManifest := p_RemoteManifest p |}.

(** [&Peer{PeerID: peerID}]. *)
Definition newPeer (peerID : string) : Peer :=
  {| p_PeerID := peerID; p_RemoteAddr := ""; p_Connected := false; p_CustomMsgEnabled := false;
     p_ManifestSent := false; p_LCPReady := false; p_RemoteManifest := None |}.

(** [p, ok := d.peers[peerID]; if !ok { p = &Peer{...}; d.peers[peerID] = p }],
    then an update through the pointer. *)
Definition update (peerID : string) (f : Peer → Peer) (d : Directory) : Directory :=
  <[peerID := f (default (newPeer peerID) (d !! peerID))]> d.

Definition UpsertPeer (peerID remoteAddr : string) : Directory → Directory :=
  update peerID (λ p,
    {| p_PeerID := p_PeerID p; p_RemoteAddr := remoteAddr; p_Connected := p_Connected p;
       p_CustomMsgEnabled := p_CustomMsgEnabled p; p_ManifestSent := p_ManifestSent p;
       p_LCPReady := p_LCPReady p; p_RemoteManifest := p_RemoteManifest p |}).

Definition MarkConnected (peerID : string) : Directory → Directory :=
  update peerID (λ p, updateLCPReadyLocked
    {| p_PeerID := p_PeerID p; p_RemoteAddr := p_RemoteAddr p; p_Connected := true;
       p_CustomMsgEnabled := p_CustomMsgEnabled p; p_ManifestSent := p_ManifestSent p;
       p_LCPReady := p_LCPReady p; p_RemoteManifest := p_RemoteManifest p |}).

Definition MarkDisconnected (peerID : string) : Directory → Directory :=
  update peerID (λ p,
    {| p_PeerID := p_PeerID p; p_RemoteAddr := p_RemoteAddr p; p_Connected := false;
       p_CustomMsgEnabled := false; p_ManifestSent := false; p_LCPReady := false;
       p_RemoteManifest := None |}).

Definition MarkCustomMsgEnabled (peerID : string) (enabled : bool) : Directory → Directory :=
  update peerID (λ p, updateLCPReadyLocked
    {| p_PeerID := p_PeerID p; p_RemoteAddr := p_RemoteAddr p; p_Connected := p_Connected p;
       p_CustomMsgEnabled := enabled; p_ManifestSent := p_ManifestSent p;
       p_LCPReady := p_LCPReady p; p_RemoteManifest := p_RemoteManifest p |}).

Definition MarkManifestSent (peerID : string) : Directory → Directory :=
  update peerID (λ p, updateLCPReadyLocked
    {| p_PeerID := p_PeerID p; p_RemoteAddr := p_RemoteAddr p; p_Connected := p_Connected p;
       p_CustomMsgEnabled := p_CustomMsgEnabled p; p_ManifestSent := true;
       p_LCPReady := p_LCPReady p; p_RemoteManifest := p_RemoteManifest p |}).

Definition MarkLCPReady (peerID : string) (remoteManifest : Manifest) : Directory → Directory :=
  update peerID (λ p, updateLCPReadyLocked
    {| p_PeerID := p_PeerID p; p_RemoteAddr := p_RemoteAddr p; p_Connected := p_Connected p;
       p_CustomMsgEnabled := p_CustomMsgEnabled p; p_ManifestSent := p_ManifestSent p;
       p_LCPReady := p_LCPReady p; p_RemoteManifest := Some remoteManifest |}).

Definition RemoteManifestFor (peerID : string) (d : Directory) : option Manifest :=
  p ← d !! peerID; p_RemoteManifest p.

Definition GetPeer (peerID : string) (d : Directory) : option Peer := d !! peerID.

(** The [less] function of [sort.Slice]; strings compare by their bytes. *)
Definition lcp_peer_less (a b : LCPPeer) : bool :=
  if bool_decide (l_PeerID a = l_PeerID b) then String.ltb (l_RemoteAddr a) (l_RemoteAddr b)
  else String.ltb (l_PeerID a) (l_PeerID b).

Definition lcp_peer_le (a b : LCPPeer) : Prop := lcp_peer_less b a = false.
#[global] Instance lcp_peer_le_dec : RelDecision lcp_peer_le.
Proof. intros a b. unfold lcp_peer_le. apply _. Defined.

Definition string_le (a b : string) : Prop := String.leb a b = true.
#[global] Instance string_le_dec : RelDecision string_le.
Proof. intros a b. unfold string_le. apply _. Defined.

Section list.
Context {R : MapRange string Peer}.

Definition listed (p : Peer) : option LCPPeer :=
  if negb (p_Connected p) || negb (p_CustomMsgEnabled p) || negb (p_LCPReady p) then None else
  m ← p_RemoteManifest p;
  Some (MkLCPPeer (p_PeerID p) (p_RemoteAddr p) m).

Definition ListLCPPeers (d : Directory) : list LCPPeer :=
  merge_sort lcp_peer_le (omap listed (map_range d).*2).

Definition ListConnectedPeerIDs (d : Directory) : list string :=
  merge_sort string_le
    (omap (λ p, if negb (p_Connected p) || bool_decide (p_PeerID p = ""%string) then None
                else Some (p_PeerID p)) (map_range d).*2).
End list.

(** The mutators, as they acquire the lock. *)
Inductive op :=
| OUpsertPeer (peerID remoteAddr : string)
| OMarkConnected (peerID : string)
| OMarkDisconnected (peerID : string)
| OMarkCustomMsgEnabled (peerID : string) (enabled : bool)
| OMarkManifestSent (peerID : string)
| OMarkLCPReady (peerID : string) (m : Manifest).

Definition step (d : Directory) (o : op) : Directory :=
  match o with
  | OUpsertPeer p a => UpsertPeer p a d
  | OMarkConnected p => MarkConnected p d
  | OMarkDisconnected p => MarkDisconnected p d
  | OMarkCustomMsgEnabled p e => MarkCustomMsgEnabled p e d
  | OMarkManifestSent p => MarkManifestSent p d
  | OMarkLCPReady p m => MarkLCPReady p m d
  end.

(** ** The directory invariant *)

Definition ready (p : Peer) : bool :=
  p_Connected p && p_CustomMsgEnabled p && p_ManifestSent p && bool_decide (is_Some (p_RemoteManifest p)).

Definition peer_ok (id : string) (p : Peer) : Prop := p_PeerID p = id ∧ p_LCPReady p = ready p.

Definition dir_inv (d : Directory) : Prop := map_Forall peer_ok d.

Lemma update_inv id f d :
  (∀ p, peer_ok id p → peer_ok id (f p)) → dir_inv d → dir_inv (update id f d).
Proof.
  intros Hf Hd. unfold update. apply map_Forall_insert_2; [|done]. apply Hf.
  destruct (d !! id) as [p|] eqn:E; simpl; [by apply Hd|]. by split.
Qed.

Lemma step_inv d o : dir_inv d → dir_inv (step d o).
Proof.
  intros Hd. destruct o; simpl; apply update_inv; try done; intros p [? Hr]; by split.
Qed.

Lemma fold_inv ops : ∀ d, dir_inv d → dir_inv (fold_left step ops d).
Proof. induction ops as [|o ops IH]; intros d Hd; [done|]. simpl. by apply IH, step_inv. Qed.

(** ** Sorting strings *)

Lemma string_compare_refl s : String.compare s s = Eq.
Proof.
  induction s as [|a s IH]; [done|]. simpl. unfold Ascii.compare. by rewrite N.compare_refl.
Qed.

Lemma string_ltb_leb a b : String.ltb a b = negb (String.leb b a).
Proof.
  unfold String.ltb, String.leb. rewrite String.compare_antisym.
  by destruct (String.compare b a).
Qed.

Lemma string_le_trans a b c : string_le a b → string_le b c → string_le a c.
Proof.
  unfold string_le, String.leb. revert b c.
  induction a as [|x a IH]; intros [|y b] [|z c]; try done. simpl. unfold Ascii.compare.
  destruct (N.compare_spec (Ascii.N_of_ascii x) (Ascii.N_of_ascii y)) as [E1|E1|E1]; try done;
  destruct (N.compare_spec (Ascii.N_of_ascii y) (Ascii.N_of_ascii z)) as [E2|E2|E2]; try done;
  destruct (N.compare_spec (Ascii.N_of_ascii x) (Ascii.N_of_ascii z)) as [E3|E3|E3]; try done; try lia.
  intros H1 H2. by eapply IH.
Qed.

#[global] Instance string_le_preorder : Transitive string_le := string_le_trans.
#[global] Instance string_le_total : Total string_le.
Proof. intros a b. apply String.leb_total. Qed.
#[global] Instance string_le_antisymm : AntiSymm (=) string_le.
Proof. intros a b. apply String.leb_antisym. Qed.

Lemma lcp_peer_le_spec a b :
  lcp_peer_le a b ↔
  (l_PeerID a = l_PeerID b ∧ string_le (l_RemoteAddr a) (l_RemoteAddr b)) ∨
  (l_PeerID a ≠ l_PeerID b ∧ string_le (l_PeerID a) (l_PeerID b)).
Proof.
  unfold lcp_peer_le, lcp_peer_less, string_le. case_bool_decide as E.
  - symmetry in E. rewrite string_ltb_leb, negb_false_iff. tauto.
  - assert (l_PeerID a ≠ l_PeerID b) by congruence. rewrite string_ltb_leb, negb_false_iff. tauto.
Qed.

Lemma lcp_peer_le_id a b : lcp_peer_le a b → string_le (l_PeerID a) (l_PeerID b).
Proof.
  rewrite lcp_peer_le_spec. intros [[-> _]|[_ ?]]; [|done].
  unfold string_le, String.leb. by rewrite string_compare_refl.
Qed.

#[global] Instance lcp_peer_le_total : Total lcp_peer_le.
Proof.
  intros a b. rewrite !lcp_peer_le_spec. destruct (decide (l_PeerID a = l_PeerID b)) as [E|E].
  - destruct (total string_le (l_RemoteAddr a) (l_RemoteAddr b)); auto.
  - destruct (total string_le (l_PeerID a) (l_PeerID b)); auto.
Qed.

#[global] Instance lcp_peer_le_trans : Transitive lcp_peer_le.
Proof.
  intros a b c. rewrite !lcp_peer_le_spec. intros [[E1 H1]|[E1 H1]] [[E2 H2]|[E2 H2]].
  - left. split; [congruence|by etrans].
  - right. split; congruence.
  - right. split; congruence.
  - right. split; [|by etrans]. intros E. apply E1. apply (anti_symm string_le); congruence.
Qed.

Section lists.
Context {R : MapRange string Peer}.

Lemma listed_inv p lp : listed p = Some lp →
  p_PeerID p = l_PeerID lp ∧ p_RemoteAddr p = l_RemoteAddr lp ∧ p_LCPReady p = true ∧
  p_RemoteManifest p = Some (l_RemoteManifest lp).
Proof.
  unfold listed. destruct (p_Connected p), (p_CustomMsgEnabled p), (p_LCPReady p); try done. simpl.
  destruct (p_RemoteManifest p) as [m|]; [|done]. simpl. by intros [= <-].
Qed.

Lemma elem_of_listed d lp :
  dir_inv d →
  lp ∈ omap listed (map_range d).*2 ↔
  ∃ p, d !! l_PeerID lp = Some p ∧ ready p = true ∧ p_RemoteAddr p = l_RemoteAddr lp ∧
       p_RemoteManifest p = Some (l_RemoteManifest lp).
Proof.
  intros Hd. rewrite list_elem_of_omap. split.
  - intros (p & Hin & Hl). apply list_elem_of_fmap in Hin as ([id p'] & -> & Hin).
    apply elem_of_map_range in Hin. destruct (Hd _ _ Hin) as [Hid Hr].
    apply listed_inv in Hl as (<- & ? & ? & ?). simpl in *. exists p'.
    rewrite Hid, <-Hr. done.
  - intros (p & Hk & Hr & Ha & Hm). destruct (Hd _ _ Hk) as [Hid Hrd]. exists p. split.
    + apply list_elem_of_fmap. exists (l_PeerID lp, p). split; [done|]. by apply elem_of_map_range.
    + unfold listed. rewrite Hrd, Hr, Hm, Hid, Ha. unfold ready in Hr. bool_to_prop.
      repeat match goal with H : _ = true |- _ => rewrite H; clear H end. by destruct lp.
Qed.

Lemma NoDup_listed_ids d :
  dir_inv d → NoDup (l_PeerID <$> omap listed (map_range d).*2).
Proof.
  intros Hd. assert (Hnd : NoDup (map_range d).*1) by (rewrite map_range_perm; apply NoDup_fst_map_to_list).
  assert (Hok : Forall (λ kp, p_PeerID kp.2 = kp.1) (map_range d)).
  { apply Forall_forall. intros [k p] Hin. apply elem_of_map_range in Hin. by apply Hd in Hin as [? _]. }
  induction (map_range d) as [|[k p] l IH]; [constructor|].
  apply NoDup_cons in Hnd as [Hk Hnd]. apply Forall_cons in Hok as [Hp Hok]. simpl in *.
  specialize (IH Hnd Hok). destruct (listed p) as [lp|] eqn:E; [|done]. simpl.
  apply NoDup_cons. split; [|done]. intros Hin. apply Hk.
  apply list_elem_of_fmap in Hin as (lp' & Heq & Hin). apply list_elem_of_omap in Hin as (p' & Hin & Hl).
  apply listed_inv in E as (E & _). apply listed_inv in Hl as (Hl & _).
  apply list_elem_of_fmap in Hin as ([k' p''] & -> & Hin). rewrite Forall_forall in Hok.
  specialize (Hok _ Hin). simpl in *. apply list_elem_of_fmap. exists (k', p''). split; [simpl|done].
  congruence.
Qed.

(** Two listed peers with the same id are the same. *)
Lemma listed_ids_inj d a b :
  dir_inv d → a ∈ omap listed (map_range d).*2 → b ∈ omap listed (map_range d).*2 →
  l_PeerID a = l_PeerID b → a = b.
Proof.
  intros Hd Ha Hb E. apply elem_of_listed in Ha as (p & Hp & _ & Ha & Hm); [|done].
  apply elem_of_listed in Hb as (p' & Hp' & _ & Hb & Hm'); [|done].
  destruct a, b. simpl in *. subst. rewrite Hp in Hp'. injection Hp' as <-. congruence.
Qed.
End lists.

Lemma merge_sort_listed_unique (R1 R2 : MapRange string Peer) d :
  dir_inv d → ListLCPPeers (R := R1) d = ListLCPPeers (R := R2) d.
Proof.
  intros Hd. unfold ListLCPPeers.
  assert (Hperm : omap listed (map_range (MapRange := R1) d).*2 ≡ₚ omap listed (map_range (MapRange := R2) d).*2)
    by (by rewrite !map_range_perm).
  apply (StronglySorted_unique_strong lcp_peer_le); [|apply StronglySorted_merge_sort; apply _..|].
  - intros a b Ha Hb Hab Hba. rewrite merge_sort_Permutation in Ha, Hb. rewrite <-Hperm in Hb.
    apply (listed_ids_inj (R := R1) d); [done..|]. apply (anti_symm string_le); by apply lcp_peer_le_id.
  - by rewrite !merge_sort_Permutation.
Qed.

(** A flag that a step raises only through one kind of operation, and that a
    disconnect clears, is up only after such an operation. *)
Lemma flag_needs_op id (fl : Peer → bool) (sets : op → Prop) ops : ∀ d p,
  (∀ d o p', step d o !! id = Some p' → fl p' = true →
     sets o ∨ ∃ p0, d !! id = Some p0 ∧ fl p0 = true) →
  (∀ p0, d !! id = Some p0 → fl p0 = false) →
  fold_left step ops d !! id = Some p → fl p = true → ∃ o, o ∈ ops ∧ sets o.
Proof.
  induction ops as [|o ops IH] using rev_ind; intros d p Hstep H0 Hp Hfl.
  { simpl in Hp. apply H0 in Hp. congruence. }
  rewrite fold_left_app in Hp. simpl in Hp. destruct (Hstep _ _ _ Hp Hfl) as [Ho|(p0 & Hp0 & Hfl0)].
  - exists o. split; [apply elem_of_app; right; by left|done].
  - destruct (IH _ _ Hstep H0 Hp0 Hfl0) as (o' & Hin & Ho'). exists o'.
    split; [apply elem_of_app; by left|done].
Qed.

Lemma lookup_update id id' f d p' :
  update id' f d !! id = Some p' →
  (id = id' ∧ p' = f (default (newPeer id) (d !! id))) ∨ d !! id = Some p'.
Proof.
  unfold update. intros H. apply lookup_insert_Some in H as [[<- <-]|[_ H]]; auto.
Qed.

(** [step] raises the flag at hand only through the operation at hand. *)
Ltac flag_step :=
  intros ? o ? Hs Hfl; destruct o; simpl in Hs;
  (apply lookup_update in Hs as [[<- ->]|Hs]; [|by eauto]); simpl in Hfl;
  match goal with H : context [?d !! ?id] |- _ => destruct (d !! id) as [?|] eqn:? end;
  simpl in *; subst; eauto; try discriminate.

(** ** Theorems *)

(** Through every sequence of updates, each peer is stored under its own id and
    is marked ready exactly when it is connected with custom messages enabled,
    our manifest was sent and its manifest is known. *)
Theorem directory_invariant ops : dir_inv (fold_left step ops New).
Proof.
  apply fold_inv, map_Forall_empty.
Qed.

(** [ListLCPPeers] returns exactly the ready peers with their manifests, in
    strictly ascending order of peer id, whatever order the map is ranged in. *)
Theorem list_lcp_peers_spec (R1 R2 : MapRange string Peer) d :
  dir_inv d →
  ListLCPPeers (R := R1) d = ListLCPPeers (R := R2) d ∧
  StronglySorted string_le (l_PeerID <$> ListLCPPeers (R := R1) d) ∧
  NoDup (l_PeerID <$> ListLCPPeers (R := R1) d) ∧
  ∀ lp, lp ∈ ListLCPPeers (R := R1) d ↔
    ∃ p, d !! l_PeerID lp = Some p ∧ ready p = true ∧ p_RemoteAddr p = l_RemoteAddr lp ∧
         p_RemoteManifest p = Some (l_RemoteManifest lp).
Proof.
  intros Hd. split; [by apply merge_sort_listed_unique|]. unfold ListLCPPeers. split_and!.
  - apply (StronglySorted_fmap l_PeerID lcp_peer_le string_le).
    + apply lcp_peer_le_id.
    + apply StronglySorted_merge_sort; apply _.
  - rewrite merge_sort_Permutation. by apply NoDup_listed_ids.
  - intros lp. rewrite merge_sort_Permutation. by apply elem_of_listed.
Qed.

(** A disconnect forgets the session: the manifest is gone, the peer is not
    listed, and it becomes ready again only after custom messages were enabled,
    our manifest was sent and its manifest was received anew. *)
Theorem disconnect_forgets id d ops (d1 := MarkDisconnected id d) (d2 := fold_left step ops d1) p :
  RemoteManifestFor id d1 = None ∧
  (d2 !! id = Some p → dir_inv d → p_LCPReady p = true →
     OMarkConnected id ∈ ops ∧ OMarkCustomMsgEnabled id true ∈ ops ∧
     OMarkManifestSent id ∈ ops ∧ ∃ m, OMarkLCPReady id m ∈ ops).
Proof.
  split; [unfold RemoteManifestFor, d1, MarkDisconnected, update; by rewrite lookup_insert_eq|].
  intros Hp Hd Hr. assert (Hd2 : dir_inv d2).
  { subst d2. assert (H1 : dir_inv d1) by (by apply (step_inv d (OMarkDisconnected id))). by apply fold_inv. }
  destruct (Hd2 _ _ Hp) as [_ Hready]. rewrite Hr in Hready. symmetry in Hready.
  unfold ready in Hready. bool_to_prop.
  assert (Hclr : ∀ fl : Peer → bool, fl (newPeer id) = false →
    (∀ q, fl q = fl {| p_PeerID := ""; p_RemoteAddr := ""; p_Connected := p_Connected q;
       p_CustomMsgEnabled := p_CustomMsgEnabled q; p_ManifestSent := p_ManifestSent q;
       p_LCPReady := false; p_RemoteManifest := p_RemoteManifest q |}) →
    ∀ p0, d1 !! id = Some p0 → fl p0 = false).
  { intros fl Hn Hfl p0 Hp0. unfold d1, MarkDisconnected, update in Hp0. rewrite lookup_insert_eq in Hp0.
    injection Hp0 as <-. rewrite Hfl. rewrite Hfl in Hn. exact Hn. }
  split_and!.
  - destruct (flag_needs_op id p_Connected (λ o, o = OMarkConnected id) ops d1 p) as (o & ? & ->);
      [flag_step|by apply Hclr|done..].
  - destruct (flag_needs_op id p_CustomMsgEnabled (λ o, o = OMarkCustomMsgEnabled id true) ops d1 p)
      as (o & ? & ->); [flag_step|by apply Hclr|done..].
  - destruct (flag_needs_op id p_ManifestSent (λ o, o = OMarkManifestSent id) ops d1 p) as (o & ? & ->);
      [flag_step|by apply Hclr|done..].
  - destruct (flag_needs_op id (λ p, bool_decide (is_Some (p_RemoteManifest p)))
      (λ o, ∃ m, o = OMarkLCPReady id m) ops d1 p) as (o & ? & m & ->);
      [flag_step|by apply (Hclr (λ p, bool_decide (is_Some (p_RemoteManifest p))))|done|by apply bool_decide_eq_true_2|by eauto].
Qed.

(** ** Witnesses *)

Module Examples.
Definition manifest : Manifest :=
  {| mf_ProtocolVersion := 2; mf_MaxPayloadBytes := 16384; mf_MaxStreamBytes := 4194304;
     mf_MaxJobBytes := 8388608; mf_MaxInflightJobs := None; mf_SupportedTasks := [] |}.
Definition session (id : string) : list op :=
  [OUpsertPeer id "127.0.0.1:9735"; OMarkConnected id; OMarkCustomMsgEnabled id true;
   OMarkManifestSent id; OMarkLCPReady id manifest].
Definition dir : Directory := Eval vm_compute in fold_left step (session "03bb" ++ session "02aa") New.
Definition listing : list LCPPeer :=
  [MkLCPPeer "02aa" "127.0.0.1:9735" manifest; MkLCPPeer "03bb" "127.0.0.1:9735" manifest].

Lemma dir_is_inv : dir_inv dir.
Proof. apply (fold_inv (session "03bb" ++ session "02aa") New), map_Forall_empty. Qed.

Lemma list_lcp_peers_spec_witness :
  ListLCPPeers (R := canonical_range) dir = listing ∧
  StronglySorted string_le (l_PeerID <$> ListLCPPeers (R := canonical_range) dir).
Proof.
  split; [vm_compute; reflexivity|].
  apply (list_lcp_peers_spec canonical_range canonical_range dir). apply dir_is_inv.
Defined.

Lemma disconnect_forgets_witness :
  OMarkConnected "02aa" ∈ session "02aa" ∧ OMarkCustomMsgEnabled "02aa" true ∈ session "02aa" ∧
  OMarkManifestSent "02aa" ∈ session "02aa" ∧ ∃ m, OMarkLCPReady "02aa" m ∈ session "02aa".
Proof.
  eapply (disconnect_forgets "02aa" dir (session "02aa"));
    [vm_compute; reflexivity|apply dir_is_inv|reflexivity].
Defined.
End Examples.
End PeerDir.
