(* ===== verification/PeerMsg.v ===== *)
(** * Packages [lcpmsgrouter], [inbounddispatch] and [lndpeermsg]

    How custom messages reach the daemon: the router classifies a message type,
    [PeerMessaging] keeps the peer directory and exchanges manifests, and the
    dispatcher hands job-scoped messages to the provider, to the requester or to
    both.  lnd is outside: the answers of its RPCs are arguments of every event
    ([Lnd]); what is sent to it is the list of [action]s an event produces. *)

From S2P Require Import Prelude GoStd TlvLib Wire PeerDir.

(** ** lcpmsgrouter/router.go *)

Inductive RouteAction :=
| RouteActionDispatchManifest
| RouteActionDispatchQuoteRequest
| RouteActionDispatchQuoteResponse
| RouteActionDispatchStreamBegin
| RouteActionDispatchStreamChunk
| RouteActionDispatchStreamEnd
| RouteActionDispatchResult
| RouteActionDispatchCancel
| RouteActionDispatchError
| RouteActionIgnore
| RouteActionDisconnect.

#[export] Instance RouteAction_eq_dec : EqDecision RouteAction.
Proof. solve_decision. Defined.

Record RouteDecision := MkDecision { rd_Action : RouteAction; rd_Reason : string }.

Record CustomMessage := MkMessage {
  cmsg_PeerPubKey : string;
  cmsg_MsgType : Z;
  cmsg_Payload : bytes;
}.

Definition Route (msg : CustomMessage) : RouteDecision :=
  let t := cmsg_MsgType msg in
  if t =? MessageTypeManifest then MkDecision RouteActionDispatchManifest "lcp_manifest"
  else if t =? MessageTypeQuoteRequest then MkDecision RouteActionDispatchQuoteRequest "lcp_quote_request"
  else if t =? MessageTypeQuoteResponse then MkDecision RouteActionDispatchQuoteResponse "lcp_quote_response"
  else if t =? MessageTypeStreamBegin then MkDecision RouteActionDispatchStreamBegin "lcp_stream_begin"
  else if t =? MessageTypeStreamChunk then MkDecision RouteActionDispatchStreamChunk "lcp_stream_chunk"
  else if t =? MessageTypeStreamEnd then MkDecision RouteActionDispatchStreamEnd "lcp_stream_end"
  else if t =? MessageTypeResult then MkDecision RouteActionDispatchResult "lcp_result"
  else if t =? MessageTypeCancel then MkDecision RouteActionDispatchCancel "lcp_cancel"
  else if t =? MessageTypeError then MkDecision RouteActionDispatchError "lcp_error"
  else if t mod 2 =? 0 then MkDecision RouteActionDisconnect "unknown_even_msg_type"
  else MkDecision RouteActionIgnore "unknown_odd_msg_type".

(** ** inbounddispatch/handler.go *)

Section dispatch.
(** The two subsystems act on a common state; each may be absent. *)
Context {S : Type} (provider requester : option (CustomMessage → S → S)).

Definition call (h : option (CustomMessage → S → S)) (msg : CustomMessage) (s : S) : S :=
  match h with Some f => f msg s | None => s end.

Definition HandleInboundCustomMessage (msg : CustomMessage) (s : S) : S :=
  let t := cmsg_MsgType msg in
  if (t =? MessageTypeQuoteRequest) || (t =? MessageTypeCancel) then call provider msg s
  else if (t =? MessageTypeQuoteResponse) || (t =? MessageTypeResult) || (t =? MessageTypeError)
  then call requester msg s
  else if (t =? MessageTypeStreamBegin) || (t =? MessageTypeStreamChunk) || (t =? MessageTypeStreamEnd)
  then call requester msg (call provider msg s)
  else s.
End dispatch.

(** ** lndpeermsg/peermsg.go *)

Definition stringsTrim (s : string) : string := TrimSpace s.

(** What lnd answers while an event is handled: [ListPeers] (with nil entries),
    whether sending to a peer succeeds, and whether the context is cancelled
    when a loop reaches that peer. *)
Record Lnd := {
  lnd_ListPeers : option (list (option (string * string)));
  lnd_SendOK : string → bool;
  lnd_ctxDone : string → bool;
}.

Inductive action :=
| ASend (peerPubKey : string) (peer : bytes) (typ : Z) (data : bytes) (ok : bool)
| ADisconnect (peerPubKey : string)
| ADispatch (msg : CustomMessage).

Record PeerMessaging := {
  pm_peerDirectory : PeerDir.Directory;
  pm_peerAddr : gmap string string;
  pm_localManifestPayload : bytes;
}.

Definition with_dir (d : PeerDir.Directory) (pm : PeerMessaging) : PeerMessaging :=
  {| pm_peerDirectory := d; pm_peerAddr := pm_peerAddr pm;
     pm_localManifestPayload := pm_localManifestPayload pm |}.

Inductive PeerEventType := PEER_ONLINE | PEER_OFFLINE.

(** [lnrpc.PeerEvent] and [lnrpc.CustomMessage]; the message type is a uint32. *)
Record PeerEvent := { ev_PubKey : string; ev_Type : PeerEventType }.
Record LndMessage := { lm_Peer : bytes; lm_Type : Z; lm_Data : bytes }.

Definition defaultManifest : Manifest :=
  {| mf_ProtocolVersion := ProtocolVersionV02; mf_MaxPayloadBytes := 16384;
     mf_MaxStreamBytes := 4194304; mf_MaxJobBytes := 8388608; mf_MaxInflightJobs := None;
     mf_SupportedTasks := [] |}.

Section peermsg.
Context {T : TlvLib} {RA : MapRange string string} {RP : MapRange string PeerDir.Peer}.

Definition New (d : PeerDir.Directory) (local : option Manifest) : wres PeerMessaging :=
  let localManifest := default defaultManifest local in
  payload ← EncodeManifest localManifest;
  Ok {| pm_peerDirectory := d; pm_peerAddr := ∅; pm_localManifestPayload := payload |}.

Definition peerAddrFor (pm : PeerMessaging) (peerPubKey : string) : string :=
  default ""%string (pm_peerAddr pm !! peerPubKey).

Definition markPeerConnected (peerPubKey : string) (pm : PeerMessaging) : PeerMessaging :=
  let addr := peerAddrFor pm peerPubKey in
  let d := if bool_decide (addr = ""%string) then pm_peerDirectory pm
           else PeerDir.UpsertPeer peerPubKey addr (pm_peerDirectory pm) in
  with_dir (PeerDir.MarkCustomMsgEnabled peerPubKey true (PeerDir.MarkConnected peerPubKey d)) pm.

(** [sendManifest]: the RPC, when there is one, and whether it succeeded. *)
Definition sendManifest (lnd : Lnd) (peerPubKey : string) (pm : PeerMessaging) : list action * bool :=
  match hex_decode peerPubKey with
  | None => ([], false)
  | Some peerBytes =>
    let ok := lnd_SendOK lnd peerPubKey in
    ([ASend peerPubKey peerBytes MessageTypeManifest (pm_localManifestPayload pm) ok], ok)
  end.

Definition sendManifestAndMarkSent (lnd : Lnd) (peerPubKey : string) (pm : PeerMessaging) :
    PeerMessaging * list action :=
  if bool_decide (peerPubKey = ""%string) then (pm, []) else
  let '(acts, ok) := sendManifest lnd peerPubKey pm in
  if ok then (with_dir (PeerDir.MarkManifestSent peerPubKey (pm_peerDirectory pm)) pm, acts)
  else (pm, acts).

Definition sendManifestIfNotSent (lnd : Lnd) (peerPubKey : string) (pm : PeerMessaging) :
    PeerMessaging * list action :=
  if bool_decide (peerPubKey = ""%string) then (pm, []) else
  let sent := match PeerDir.GetPeer peerPubKey (pm_peerDirectory pm) with
              | Some peer => PeerDir.p_ManifestSent peer
              | None => false
              end in
  if sent then (pm, []) else
  let '(acts, ok) := sendManifest lnd peerPubKey pm in
  if ok then (with_dir (PeerDir.MarkManifestSent peerPubKey (pm_peerDirectory pm)) pm, acts)
  else (pm, acts).

(** The loop over [ListConnectedPeerIDs], which stops when the context is done. *)
Fixpoint sendToAll (send : string → PeerMessaging → PeerMessaging * list action) (lnd : Lnd)
    (peerIDs : list string) (pm : PeerMessaging) : PeerMessaging * list action :=
  match peerIDs with
  | [] => (pm, [])
  | peerID :: rest =>
    if lnd_ctxDone lnd peerID then (pm, []) else
    let '(pm1, acts) := send peerID pm in
    let '(pm2, acts') := sendToAll send lnd rest pm1 in
    (pm2, acts ++ acts')
  end.

Definition sendManifestToConnectedPeersOnce (lnd : Lnd) (pm : PeerMessaging) :=
  sendToAll (sendManifestIfNotSent lnd) lnd (PeerDir.ListConnectedPeerIDs (pm_peerDirectory pm)) pm.

Definition sendManifestToConnectedPeers (lnd : Lnd) (pm : PeerMessaging) :=
  sendToAll (sendManifestAndMarkSent lnd) lnd (PeerDir.ListConnectedPeerIDs (pm_peerDirectory pm)) pm.

(** The addresses [ListPeers] reports; a later entry replaces an earlier one. *)
Definition addrMapOf (peers : list (option (string * string))) : gmap string string :=
  fold_left (λ m entry,
    match entry with
    | None => m
    | Some (pub, addr) =>
      let pubKey := stringsTrim pub in
      if bool_decide (pubKey = ""%string) then m else <[pubKey := stringsTrim addr]> m
    end) peers ∅.

(** [refreshPeers]: [false] when [ListPeers] fails. *)
Definition refreshPeers (lnd : Lnd) (pm : PeerMessaging) : PeerMessaging * bool :=
  match lnd_ListPeers lnd with
  | None => (pm, false)
  | Some peers =>
    let addrMap := addrMapOf peers in
    let peerAddr := fold_left (λ m '(k, v), if bool_decide (v = ""%string) then m else <[k := v]> m)
                      (map_range addrMap) (pm_peerAddr pm) in
    let d := fold_left (λ d '(peerPubKey, addr),
               let d := if bool_decide (addr = ""%string) then d else PeerDir.UpsertPeer peerPubKey addr d in
               PeerDir.MarkCustomMsgEnabled peerPubKey true (PeerDir.MarkConnected peerPubKey d))
               (map_range addrMap) (pm_peerDirectory pm) in
    ({| pm_peerDirectory := d; pm_peerAddr := peerAddr;
        pm_localManifestPayload := pm_localManifestPayload pm |}, true)
  end.

Definition HandlePeerEvent (lnd : Lnd) (ev : option PeerEvent) (pm : PeerMessaging) :
    PeerMessaging * list action :=
  match ev with
  | None => (pm, [])
  | Some ev =>
    let peerPubKey := stringsTrim (ev_PubKey ev) in
    if bool_decide (peerPubKey = ""%string) then (pm, []) else
    match ev_Type ev with
    | PEER_ONLINE =>
      let '(pm, _) := refreshPeers lnd pm in
      sendManifestIfNotSent lnd peerPubKey (markPeerConnected peerPubKey pm)
    | PEER_OFFLINE => (with_dir (PeerDir.MarkDisconnected peerPubKey (pm_peerDirectory pm)) pm, [])
    end
  end.

Definition HandleCustomMessage (lnd : Lnd) (msg : option LndMessage) (pm : PeerMessaging) :
    PeerMessaging * list action :=
  match msg with
  | None => (pm, [])
  | Some msg =>
    if blen (lm_Peer msg) =? 0 then (pm, []) else
    let peerPubKey := hex_encode (lm_Peer msg) in
    if 65535 <? lm_Type msg then (pm, [ADisconnect peerPubKey]) else
    let payload := lm_Data msg in
    let pm := markPeerConnected peerPubKey pm in
    let customMsg := MkMessage peerPubKey (lm_Type msg) payload in
    match rd_Action (Route customMsg) with
    | RouteActionDispatchManifest =>
      let hadRemoteManifest :=
        match PeerDir.GetPeer peerPubKey (pm_peerDirectory pm) with
        | Some peer => bool_decide (is_Some (PeerDir.p_RemoteManifest peer))
        | None => false
        end in
      match DecodeManifest payload with
      | Err _ => (pm, [])
      | Ok manifest =>
        let pm := with_dir (PeerDir.MarkLCPReady peerPubKey manifest (pm_peerDirectory pm)) pm in
        if negb hadRemoteManifest then sendManifestAndMarkSent lnd peerPubKey pm
        else sendManifestIfNotSent lnd peerPubKey pm
      end
    | RouteActionDispatchQuoteRequest | RouteActionDispatchQuoteResponse
    | RouteActionDispatchStreamBegin | RouteActionDispatchStreamChunk | RouteActionDispatchStreamEnd
    | RouteActionDispatchResult | RouteActionDispatchCancel | RouteActionDispatchError =>
      (pm, [ADispatch customMsg])
    | RouteActionDisconnect => (pm, [ADisconnect peerPubKey])
    | RouteActionIgnore => (pm, [])
    end
  end.

(** The start hook once the connection is up: [None] when the first refresh fails. *)
Definition start (lnd : Lnd) (pm : PeerMessaging) : option (PeerMessaging * list action) :=
  let '(pm, ok) := refreshPeers lnd pm in
  if ok then Some (sendManifestToConnectedPeersOnce lnd pm) else None.

(** The three loops of a started [PeerMessaging]: peer events, custom messages,
    and the ticks of the periodic resend. *)
Inductive event := EPeer (ev : option PeerEvent) | EMessage (msg : option LndMessage) | ETick.

Definition handle (lnd : Lnd) (e : event) (pm : PeerMessaging) : PeerMessaging * list action :=
  match e with
  | EPeer ev => HandlePeerEvent lnd ev pm
  | EMessage msg => HandleCustomMessage lnd msg pm
  | ETick => sendManifestToConnectedPeers lnd pm
  end.
End peermsg.

(** ** Sessions

    What the trace says about a peer since it was last seen going offline: was
    our manifest sent to it, and which manifest did it send. *)

Definition sent_in (id : string) (acts : list action) : bool :=
  existsb (λ a, match a with
                | ASend id' _ typ _ ok => bool_decide (id' = id) && (typ =? MessageTypeManifest) && ok
                | _ => false
                end) acts.

Section session.
Context {T : TlvLib} {RA : MapRange string string} {RP : MapRange string PeerDir.Peer}.

(** The manifest an event brings from a peer. *)
Definition received_in (id : string) (e : event) : option Manifest :=
  match e with
  | EMessage (Some msg) =>
    if (blen (lm_Peer msg) =? 0) || negb (bool_decide (hex_encode (lm_Peer msg) = id)) ||
       negb (lm_Type msg =? MessageTypeManifest) then None
    else match DecodeManifest (lm_Data msg) with Ok m => Some m | Err _ => None end
  | _ => None
  end.

Definition goes_offline (id : string) (e : event) : bool :=
  match e with
  | EPeer (Some ev) =>
    match ev_Type ev with
    | PEER_OFFLINE => negb (bool_decide (id = ""%string)) && bool_decide (stringsTrim (ev_PubKey ev) = id)
    | PEER_ONLINE => false
    end
  | _ => false
  end.

Definition session : Type := bool * option Manifest.

Definition session_step (id : string) (s : session) (e : event) (acts : list action) : session :=
  if goes_offline id e then (false, None)
  else (s.1 || sent_in id acts,
        match received_in id e with Some m => Some m | None => s.2 end).

(** Running the loops on a sequence of events, each with lnd's answers; the
    session of [id] is computed from the events and actions alone. *)
Fixpoint run (id : string) (evs : list (Lnd * event)) (pm : PeerMessaging) (s : session) :
    PeerMessaging * session :=
  match evs with
  | [] => (pm, s)
  | (lnd, e) :: rest =>
    let '(pm', acts) := handle lnd e pm in
    run id rest pm' (session_step id s e acts)
  end.

(** What the directory says. *)
Definition view_dir (d : PeerDir.Directory) (id : string) : session :=
  match d !! id with
  | Some p => (PeerDir.p_ManifestSent p, PeerDir.p_RemoteManifest p)
  | None => (false, None)
  end.
Definition view (pm : PeerMessaging) (id : string) : session := view_dir (pm_peerDirectory pm) id.

Lemma view_update d id k f :
  view_dir (PeerDir.update k f d) id =
  if decide (k = id) then
    (PeerDir.p_ManifestSent (f (default (PeerDir.newPeer id) (d !! id))),
     PeerDir.p_RemoteManifest (f (default (PeerDir.newPeer id) (d !! id))))
  else view_dir d id.
Proof.
  unfold view_dir, PeerDir.update. rewrite lookup_insert. case_decide; by subst.
Qed.

Lemma view_default d id :
  (PeerDir.p_ManifestSent (default (PeerDir.newPeer id) (d !! id)),
   PeerDir.p_RemoteManifest (default (PeerDir.newPeer id) (d !! id))) = view_dir d id.
Proof. unfold view_dir. by destruct (d !! id). Qed.

Lemma view_upsert d id k a : view_dir (PeerDir.UpsertPeer k a d) id = view_dir d id.
Proof. unfold PeerDir.UpsertPeer. rewrite view_update. case_decide; [subst; apply view_default|done]. Qed.
Lemma view_connected d id k : view_dir (PeerDir.MarkConnected k d) id = view_dir d id.
Proof. unfold PeerDir.MarkConnected. rewrite view_update. case_decide; [subst; apply view_default|done]. Qed.
Lemma view_custom d id k b : view_dir (PeerDir.MarkCustomMsgEnabled k b d) id = view_dir d id.
Proof. unfold PeerDir.MarkCustomMsgEnabled. rewrite view_update. case_decide; [subst; apply view_default|done]. Qed.

Lemma view_sent d id k :
  view_dir (PeerDir.MarkManifestSent k d) id =
  ((view_dir d id).1 || bool_decide (k = id), (view_dir d id).2).
Proof.
  unfold PeerDir.MarkManifestSent. rewrite view_update, <-view_default. case_decide.
  - rewrite bool_decide_eq_true_2 by done. by rewrite orb_true_r.
  - rewrite bool_decide_eq_false_2 by done. rewrite orb_false_r. simpl. by rewrite view_default.
Qed.

Lemma view_manifest d id k m :
  view_dir (PeerDir.MarkLCPReady k m d) id =
  ((view_dir d id).1, if decide (k = id) then Some m else (view_dir d id).2).
Proof.
  unfold PeerDir.MarkLCPReady. rewrite view_update, <-view_default. case_decide; [done|].
  simpl. by rewrite view_default.
Qed.

Lemma view_disconnected d id k :
  view_dir (PeerDir.MarkDisconnected k d) id = if decide (k = id) then (false, None) else view_dir d id.
Proof. unfold PeerDir.MarkDisconnected. rewrite view_update. by case_decide. Qed.

Lemma view_markPeerConnected pm id k : view (markPeerConnected k pm) id = view pm id.
Proof.
  unfold view, markPeerConnected. simpl. rewrite view_custom, view_connected.
  case_match; [done|apply view_upsert].
Qed.

Lemma view_refreshPeers lnd pm id : view (refreshPeers lnd pm).1 id = view pm id.
Proof.
  unfold view, refreshPeers. destruct (lnd_ListPeers lnd) as [peers|]; [|done]. simpl.
  generalize (pm_peerDirectory pm). induction (map_range (addrMapOf peers)) as [|[k a] l IH]; intros d; [done|].
  simpl. rewrite IH, view_custom, view_connected. case_match; [done|apply view_upsert].
Qed.

Lemma sent_in_app id a b : sent_in id (a ++ b) = sent_in id a || sent_in id b.
Proof. apply existsb_app. Qed.

(** A send marks the directory exactly when the trace shows it succeeded. *)
Definition view_tracks (send : string → PeerMessaging → PeerMessaging * list action) : Prop :=
  ∀ k pm id, let '(pm', acts) := send k pm in
    view pm' id = ((view pm id).1 || sent_in id acts, (view pm id).2).

Lemma view_same pm id : view pm id = ((view pm id).1 || false, (view pm id).2).
Proof. rewrite orb_false_r. by destruct (view pm id). Qed.

Lemma sendManifestAndMarkSent_tracks lnd : view_tracks (sendManifestAndMarkSent lnd).
Proof.
  intros k pm id. unfold sendManifestAndMarkSent, sendManifest.
  destruct (bool_decide (k = ""%string)); [apply view_same|]. destruct (hex_decode k) as [pb|]; simpl; [|apply view_same].
  destruct (lnd_SendOK lnd k); simpl.
  - unfold view. simpl. rewrite view_sent. by rewrite !andb_true_r, orb_false_r.
  - rewrite andb_false_r. apply view_same.
Qed.

Lemma sendManifestIfNotSent_tracks lnd : view_tracks (sendManifestIfNotSent lnd).
Proof.
  intros k pm id. pose proof (sendManifestAndMarkSent_tracks lnd k pm id) as H.
  unfold sendManifestIfNotSent, sendManifestAndMarkSent in *.
  destruct (bool_decide (k = ""%string)); [done|].
  destruct (match PeerDir.GetPeer k (pm_peerDirectory pm) with
            | Some peer => PeerDir.p_ManifestSent peer | None => false end); [apply view_same|done].
Qed.

Lemma sendToAll_tracks send lnd ids :
  view_tracks send → ∀ pm id, let '(pm', acts) := sendToAll send lnd ids pm in
    view pm' id = ((view pm id).1 || sent_in id acts, (view pm id).2).
Proof.
  intros Hs. induction ids as [|k ids IH]; intros pm id; simpl; [apply view_same|].
  destruct (lnd_ctxDone lnd k); [apply view_same|].
  pose proof (Hs k pm id) as H1. destruct (send k pm) as [pm1 acts1].
  pose proof (IH pm1 id) as H2. destruct (sendToAll send lnd ids pm1) as [pm2 acts2].
  rewrite H2, H1, sent_in_app. simpl. by rewrite orb_assoc.
Qed.

Lemma Route_manifest msg :
  rd_Action (Route msg) = RouteActionDispatchManifest ↔ cmsg_MsgType msg = MessageTypeManifest.
Proof.
  unfold Route. split; [|by intros ->].
  repeat match goal with |- context [if ?b then _ else _] => destruct b eqn:?; try done end.
  bool_to_prop. done.
Qed.

Lemma HandlePeerEvent_session lnd ev pm id :
  let '(pm', acts) := HandlePeerEvent lnd ev pm in
  view pm' id = session_step id (view pm id) (EPeer ev) acts.
Proof.
  unfold session_step, goes_offline. cbn [received_in].
  destruct ev as [ev|]; simpl; [|apply view_same].
  case_bool_decide as Hk.
  { rewrite Hk. destruct (ev_Type ev); simpl; [apply view_same|].
    destruct (decide (id = ""%string)) as [->|Hid]; [apply view_same|].
    rewrite (bool_decide_eq_false_2 _ Hid), bool_decide_eq_false_2 by congruence. apply view_same. }
  destruct (ev_Type ev); simpl.
  - destruct (refreshPeers lnd pm) as [pm1 ok] eqn:Hr.
    pose proof (sendManifestIfNotSent_tracks lnd (stringsTrim (ev_PubKey ev))
      (markPeerConnected (stringsTrim (ev_PubKey ev)) pm1) id) as H.
    destruct (sendManifestIfNotSent _ _ _) as [pm2 acts]. rewrite H, view_markPeerConnected.
    by rewrite <-(view_refreshPeers lnd pm id), Hr.
  - unfold view. simpl. rewrite view_disconnected. case_decide as E.
    + subst id. by rewrite bool_decide_eq_false_2, bool_decide_eq_true_2.
    + rewrite (bool_decide_eq_false_2 (_ = id)) by done. rewrite andb_false_r. apply (view_same pm).
Qed.

Lemma HandleCustomMessage_session lnd msg pm id :
  let '(pm', acts) := HandleCustomMessage lnd msg pm in
  view pm' id = session_step id (view pm id) (EMessage msg) acts.
Proof.
  unfold session_step. cbn [goes_offline]. destruct msg as [msg|]; [|apply view_same].
  unfold HandleCustomMessage, received_in. destruct (blen (lm_Peer msg) =? 0) eqn:Hlen; [apply view_same|].
  destruct (Z.ltb_spec 65535 (lm_Type msg)) as [Hbig|Hbig].
  { destruct (Z.eqb_spec (lm_Type msg) MessageTypeManifest) as [E|]; [by rewrite E in Hbig|].
    rewrite !orb_true_r. apply view_same. }
  set (k := hex_encode (lm_Peer msg)). set (pm1 := markPeerConnected k pm).
  assert (Hv : view pm1 id = view pm id) by apply view_markPeerConnected.
  destruct (Z.eqb_spec (lm_Type msg) MessageTypeManifest) as [E|E].
  2: { assert (Hr : rd_Action (Route (MkMessage k (lm_Type msg) (lm_Data msg))) ≠ RouteActionDispatchManifest)
         by (by rewrite Route_manifest).
       rewrite orb_true_r. destruct (rd_Action _); try done; simpl; rewrite Hv; apply view_same. }
  rewrite (proj2 (Route_manifest (MkMessage k (lm_Type msg) (lm_Data msg))) E).
  rewrite orb_false_r. simpl. destruct (DecodeManifest (lm_Data msg)) as [m|].
  2: { rewrite Hv. destruct (negb _); apply view_same. }
  set (pm2 := with_dir (PeerDir.MarkLCPReady k m (pm_peerDirectory pm1)) pm1).
  assert (Hv2 : view pm2 id = ((view pm id).1, if decide (k = id) then Some m else (view pm id).2)).
  { change (view pm2 id) with (view_dir (PeerDir.MarkLCPReady k m (pm_peerDirectory pm1)) id).
    rewrite view_manifest. unfold view in *. by rewrite Hv. }
  assert (Hsend : ∀ send : string → PeerMessaging → PeerMessaging * list action, view_tracks send →
    let '(pm', acts) := send k pm2 in
    view pm' id = ((view pm id).1 || sent_in id acts,
      match (if negb (bool_decide (k = id)) then None else Some m) with Some m0 => Some m0 | None => (view pm id).2 end)).
  { intros send Hs. pose proof (Hs k pm2 id) as H. destruct (send k pm2) as [pm' acts].
    rewrite H, Hv2. simpl. case_decide as Hk; [rewrite bool_decide_eq_true_2 by done|rewrite bool_decide_eq_false_2 by done]; done. }
  match goal with |- context [if negb ?b then sendManifestAndMarkSent _ _ _ else _] => destruct b end;
    [apply (Hsend (sendManifestIfNotSent lnd)), sendManifestIfNotSent_tracks
    |apply (Hsend (sendManifestAndMarkSent lnd)), sendManifestAndMarkSent_tracks].
Qed.

Lemma handle_session lnd e pm id :
  let '(pm', acts) := handle lnd e pm in view pm' id = session_step id (view pm id) e acts.
Proof.
  destruct e as [ev|msg|]; simpl; [apply HandlePeerEvent_session|apply HandleCustomMessage_session|].
  unfold session_step. cbn [goes_offline received_in].
  pose proof (sendToAll_tracks (sendManifestAndMarkSent lnd) lnd
    (PeerDir.ListConnectedPeerIDs (pm_peerDirectory pm)) (sendManifestAndMarkSent_tracks lnd) pm id).
  unfold sendManifestToConnectedPeers. by destruct (sendToAll _ _ _ _).
Qed.

(** *** The directory invariant is kept by every event *)

Abbreviation pm_inv pm := (PeerDir.dir_inv (pm_peerDirectory pm)).

Lemma inv_connect k d a :
  PeerDir.dir_inv d →
  PeerDir.dir_inv (PeerDir.MarkCustomMsgEnabled k true (PeerDir.MarkConnected k
    (if bool_decide (a = ""%string) then d else PeerDir.UpsertPeer k a d))).
Proof.
  intros Hd. apply (PeerDir.step_inv _ (PeerDir.OMarkCustomMsgEnabled k true)),
    (PeerDir.step_inv _ (PeerDir.OMarkConnected k)).
  case_match; [done|]. by apply (PeerDir.step_inv _ (PeerDir.OUpsertPeer k a)).
Qed.

Lemma inv_refresh lnd pm : pm_inv pm → pm_inv (refreshPeers lnd pm).1.
Proof.
  unfold refreshPeers. destruct (lnd_ListPeers lnd) as [peers|]; [|done]. simpl.
  generalize (pm_peerDirectory pm). induction (map_range (addrMapOf peers)) as [|[k a] l IH]; intros d Hd; [done|].
  simpl. by apply IH, inv_connect.
Qed.

Lemma inv_sendAndMark lnd k pm : pm_inv pm → pm_inv (sendManifestAndMarkSent lnd k pm).1.
Proof.
  intros Hd. unfold sendManifestAndMarkSent. case_match; [done|].
  destruct (sendManifest lnd k pm) as [acts [|]]; simpl; [|done].
  by apply (PeerDir.step_inv _ (PeerDir.OMarkManifestSent k)).
Qed.

Lemma inv_sendIfNot lnd k pm : pm_inv pm → pm_inv (sendManifestIfNotSent lnd k pm).1.
Proof.
  intros Hd. pose proof (inv_sendAndMark lnd k pm Hd) as H.
  unfold sendManifestIfNotSent, sendManifestAndMarkSent in *.
  destruct (bool_decide (k = ""%string)); [done|]. cbv zeta.
  by destruct (match PeerDir.GetPeer k (pm_peerDirectory pm) with
               | Some peer => PeerDir.p_ManifestSent peer | None => false end).
Qed.

Lemma inv_sendToAll send lnd ids :
  (∀ k pm, pm_inv pm → pm_inv (send k pm).1) → ∀ pm, pm_inv pm → pm_inv (sendToAll send lnd ids pm).1.
Proof.
  intros Hs. induction ids as [|k ids IH]; intros pm Hpm; simpl; [done|].
  destruct (lnd_ctxDone lnd k); [done|]. pose proof (Hs k pm Hpm) as H1. destruct (send k pm) as [pm1 a1].
  pose proof (IH pm1 H1) as H2. by destruct (sendToAll send lnd ids pm1).
Qed.

Lemma inv_handle lnd e pm : pm_inv pm → pm_inv (handle lnd e pm).1.
Proof.
  intros Hd. destruct e as [[ev|]|[msg|]|]; simpl; try done.
  - case_match; [done|]. destruct (ev_Type ev); simpl.
    + pose proof (inv_refresh lnd pm Hd) as H1. destruct (refreshPeers lnd pm) as [pm1 ok].
      apply inv_sendIfNot. by apply inv_connect.
    + by apply (PeerDir.step_inv _ (PeerDir.OMarkDisconnected _)).
  - case_match; [done|]. case_match; [done|]. set (k := hex_encode (lm_Peer msg)).
    assert (H1 : pm_inv (markPeerConnected k pm)) by (by apply inv_connect).
    destruct (rd_Action _); try done. destruct (DecodeManifest _) as [m|]; [|done].
    assert (H2 : pm_inv (with_dir (PeerDir.MarkLCPReady k m (pm_peerDirectory (markPeerConnected k pm)))
      (markPeerConnected k pm))) by (by apply (PeerDir.step_inv _ (PeerDir.OMarkLCPReady k m))).
    destruct (negb _); [by apply inv_sendAndMark|by apply inv_sendIfNot].
  - apply inv_sendToAll; [intros; by apply inv_sendAndMark|done].
Qed.

Lemma run_tracks id evs : ∀ pm, pm_inv pm →
  let '(pm', s') := run id evs pm (view pm id) in view pm' id = s' ∧ pm_inv pm'.
Proof.
  induction evs as [|[lnd e] evs IH]; intros pm Hpm; simpl; [done|].
  pose proof (handle_session lnd e pm id) as Hs. pose proof (inv_handle lnd e pm Hpm) as Hi.
  destruct (handle lnd e pm) as [pm' acts]. simpl in Hi. rewrite <-Hs. by apply IH.
Qed.

Definition job_scoped (t : Z) : bool :=
  (t =? MessageTypeQuoteRequest) || (t =? MessageTypeQuoteResponse) || (t =? MessageTypeStreamBegin) ||
  (t =? MessageTypeStreamChunk) || (t =? MessageTypeStreamEnd) || (t =? MessageTypeResult) ||
  (t =? MessageTypeCancel) || (t =? MessageTypeError).

(** What becomes of an inbound custom message. *)
Lemma message_actions lnd msg pm (t := lm_Type msg) (peer := hex_encode (lm_Peer msg))
    (acts := (HandleCustomMessage lnd (Some msg) pm).2) :
  lm_Peer msg ≠ [] → 0 ≤ t →
  (65535 < t → acts = [ADisconnect peer]) ∧
  (t ≤ 65535 → job_scoped t = true → acts = [ADispatch (MkMessage peer t (lm_Data msg))]) ∧
  (t ≤ 65535 → job_scoped t = false → t ≠ MessageTypeManifest →
     acts = if Z.even t then [ADisconnect peer] else []) ∧
  (t = MessageTypeManifest → Forall (λ a, ∃ p b d ok, a = ASend p b MessageTypeManifest d ok) acts).
Proof.
  intros Hp Ht. subst acts. unfold HandleCustomMessage. fold t peer.
  destruct (Z.eqb_spec (blen (lm_Peer msg)) 0) as [Hz|_]; [by apply blen_zero in Hz|].
  destruct (Z.ltb_spec 65535 t) as [Hb|Hb].
  { split_and!; [done|lia|lia|]. intros E. by rewrite E in Hb. }
  split_and!; [lia|..].
  - intros _ Hj. unfold job_scoped in Hj. rewrite !orb_true_iff, !Z.eqb_eq in Hj.
    destruct_or! Hj; by rewrite Hj.
  - intros _ Hj Hm. unfold job_scoped in Hj. bool_to_prop. unfold Route. cbn [cmsg_MsgType].
    repeat match goal with H : t ≠ ?x |- _ => rewrite (proj2 (Z.eqb_neq t x) H); clear H end.
    rewrite Zeven_mod. by destruct (t mod 2 =? 0).
  - intros E. rewrite (proj2 (Route_manifest (MkMessage peer t (lm_Data msg))) E).
    destruct (DecodeManifest _) as [m|]; [|by apply Forall_nil].
    assert (Hs : ∀ pm, Forall (λ a, ∃ p b d ok, a = ASend p b MessageTypeManifest d ok)
      (sendManifestAndMarkSent lnd peer pm).2).
    { intros pm'. unfold sendManifestAndMarkSent, sendManifest. case_match; [by apply Forall_nil|].
      destruct (hex_decode peer); [|by apply Forall_nil]. destruct (lnd_SendOK lnd peer);
      apply Forall_singleton; by eauto. }
    match goal with |- context [if negb ?b then _ else _] => destruct b end; simpl; [|apply Hs].
    unfold sendManifestIfNotSent. match goal with |- context [sendManifest lnd peer ?pm'] => specialize (Hs pm') end.
    unfold sendManifestAndMarkSent in Hs. case_match; [done|]. cbv zeta.
    match goal with |- context [if ?b then (_, []) else _] => destruct b end; [by apply Forall_nil|done].
Qed.

(** ** Theorems *)


(** The first manifest of a session is answered: when nothing was received from
    the peer yet, a manifest that decodes makes us send ours, even if it was
    sent before, and if that send succeeds the peer is ready with the manifest
    it sent. *)
Theorem first_manifest_answered lnd msg pm m (peer := hex_encode (lm_Peer msg)) :
  pm_inv pm → lm_Peer msg ≠ [] → lm_Type msg = MessageTypeManifest → DecodeManifest (lm_Data msg) = Ok m →
  (view pm peer).2 = None →
  let '(pm', acts) := HandleCustomMessage lnd (Some msg) pm in
  acts = [ASend peer (lm_Peer msg) MessageTypeManifest (pm_localManifestPayload pm) (lnd_SendOK lnd peer)] ∧
  (lnd_SendOK lnd peer = true →
   ∃ p, pm_peerDirectory pm' !! peer = Some p ∧ PeerDir.p_LCPReady p = true ∧
        PeerDir.p_RemoteManifest p = Some m).
Proof.
  intros Hi Hp Ht Hm Hnone. unfold HandleCustomMessage. fold peer.
  destruct (Z.eqb_spec (blen (lm_Peer msg)) 0) as [Hz|_]; [by apply blen_zero in Hz|].
  rewrite Ht. change (65535 <? MessageTypeManifest) with false. cbn iota.
  change (rd_Action (Route (MkMessage peer MessageTypeManifest (lm_Data msg)))) with RouteActionDispatchManifest.
  cbn iota. rewrite Hm. set (pm1 := markPeerConnected peer pm).
  assert (Hv : (view pm1 peer).2 = None) by (unfold pm1; by rewrite view_markPeerConnected).
  assert (Hgot : ∃ p, pm_peerDirectory pm1 !! peer = Some p ∧ PeerDir.p_Connected p = true ∧
    PeerDir.p_CustomMsgEnabled p = true).
  { unfold pm1, markPeerConnected. simpl. unfold PeerDir.MarkCustomMsgEnabled, PeerDir.MarkConnected.
    unfold PeerDir.update at 1. rewrite lookup_insert_eq. eexists. split; [done|].
    unfold PeerDir.update. by rewrite lookup_insert_eq. }
  destruct Hgot as (p & Hpd & Hc & He).
  assert (Hrm : PeerDir.p_RemoteManifest p = None) by (unfold view, view_dir in Hv; by rewrite Hpd in Hv).
  assert (Hpl : pm_localManifestPayload pm1 = pm_localManifestPayload pm) by done. clearbody pm1.
  unfold PeerDir.GetPeer. rewrite Hpd, Hrm. simpl.
  unfold sendManifestAndMarkSent, sendManifest. rewrite bool_decide_eq_false_2 by (by apply hex_encode_nonempty).
  unfold peer at 1. rewrite hex_decode_encode.
  destruct (lnd_SendOK lnd peer) eqn:Hok; simpl; rewrite Hpl; (split; [done|]); [|done]. intros _.
  unfold PeerDir.MarkManifestSent, PeerDir.MarkLCPReady, PeerDir.update. rewrite !lookup_insert_eq. simpl.
  rewrite Hpd. simpl. eexists. split; [done|]. simpl. by rewrite Hc, He.
Qed.
End session.

(** The subsystems a job-scoped message is meant for, in calling order. *)
Inductive target := ToProvider | ToRequester.

Definition targets (t : Z) : list target :=
  if (t =? MessageTypeQuoteRequest) || (t =? MessageTypeCancel) then [ToProvider]
  else if (t =? MessageTypeQuoteResponse) || (t =? MessageTypeResult) || (t =? MessageTypeError)
  then [ToRequester]
  else if (t =? MessageTypeStreamBegin) || (t =? MessageTypeStreamChunk) || (t =? MessageTypeStreamEnd)
  then [ToProvider; ToRequester]
  else [].

Lemma targets_job_scoped t : targets t = [] ↔ job_scoped t = false.
Proof.
  unfold targets, job_scoped.
  destruct (t =? MessageTypeQuoteRequest), (t =? MessageTypeCancel), (t =? MessageTypeQuoteResponse),
    (t =? MessageTypeResult), (t =? MessageTypeError), (t =? MessageTypeStreamBegin),
    (t =? MessageTypeStreamChunk), (t =? MessageTypeStreamEnd); done.
Qed.

(** On its way from lnd to the subsystems, a message reaches each of them at
    most once, with its sender, type and payload as received, the provider
    before the requester: quote requests and cancels go to the provider, quote
    responses, results and errors to the requester, streams to both, everything
    else to neither.  The peer is disconnected exactly when the type does not
    fit 16 bits or is unknown and even. *)
Theorem inbound_path {T : TlvLib} {RA : MapRange string string} {RP : MapRange string PeerDir.Peer}
    lnd msg pm (t := lm_Type msg) (log := λ tgt m l, l ++ [(tgt, m)])
    (deliver := λ l a, match a with
       | ADispatch m => HandleInboundCustomMessage (Some (log ToProvider)) (Some (log ToRequester)) m l
       | _ => l end)
    (acts := (HandleCustomMessage lnd (Some msg) pm).2) :
  lm_Peer msg ≠ [] → 0 ≤ t →
  fold_left deliver acts [] =
    ((λ tgt, (tgt, MkMessage (hex_encode (lm_Peer msg)) t (lm_Data msg))) <$>
       (if t <=? 65535 then targets t else [])) ∧
  (ADisconnect (hex_encode (lm_Peer msg)) ∈ acts ↔
     65535 < t ∨ (job_scoped t = false ∧ t ≠ MessageTypeManifest ∧ Z.even t = true)).
Proof.
  intros Hp Ht. destruct (message_actions lnd msg pm Hp Ht) as (Hbig & Hjob & Hunk & Hman).
  fold t acts in Hbig, Hjob, Hunk, Hman.
  destruct (Z.leb_spec t 65535) as [Hle|Hgt].
  2: { rewrite (Hbig Hgt). split; [done|]. split; [by left|]. intros _. apply list_elem_of_singleton. done. }
  destruct (job_scoped t) eqn:Hj.
  - rewrite (Hjob Hle eq_refl). simpl. split.
    + unfold targets, HandleInboundCustomMessage. cbn [cmsg_MsgType]. by repeat case_match.
    + rewrite list_elem_of_singleton. split; [done|]. intros [?|[? _]]; [lia|done].
  - rewrite (proj2 (targets_job_scoped t) Hj). destruct (decide (t = MessageTypeManifest)) as [Hm|Hm].
    + specialize (Hman Hm). split.
      * clear -Hman. induction Hman as [|a l (p & b & d & ok & ->) _ IH]; [done|exact IH].
      * split; [|intros [?|(_ & ? & _)]; [lia|done]]. intros Hin. rewrite Forall_forall in Hman.
        destruct (Hman _ Hin) as (? & ? & ? & ? & [=]).
    + rewrite (Hunk Hle eq_refl Hm). destruct (Z.even t).
      * split; [done|]. rewrite list_elem_of_singleton. split; [by right|done].
      * split; [done|]. split; [by intros ?%elem_of_nil|]. intros [?|(_ & _ & [=])]. lia.
Qed.

(** ** Witnesses *)

Module PeerMsgExamples.
#[local] Instance ra : MapRange string string := canonical_range.
#[local] Instance rp : MapRange string PeerDir.Peer := canonical_range.
#[local] Instance tlv : TlvLib := bolt_tlv.

Definition lnd : Lnd := {| lnd_ListPeers := Some []; lnd_SendOK := λ _, true; lnd_ctxDone := λ _, false |}.
Definition peer : bytes := [Byte.x02; Byte.xaa].
Definition id : string := "02aa".
Definition hello : bytes :=
  Eval vm_compute in match EncodeManifest defaultManifest with Ok p => p | Err _ => [] end.
Definition pm0 : PeerMessaging :=
  {| pm_peerDirectory := PeerDir.New; pm_peerAddr := ∅; pm_localManifestPayload := hello |}.
Definition greet : LndMessage := {| lm_Peer := peer; lm_Type := MessageTypeManifest; lm_Data := hello |}.
Definition chunk : LndMessage := {| lm_Peer := peer; lm_Type := MessageTypeStreamChunk; lm_Data := [] |}.
Definition events : list (Lnd * event) := [(lnd, EMessage (Some chunk)); (lnd, EMessage (Some greet))].
Definition final : PeerMessaging := Eval vm_compute in (run id events pm0 (false, None)).1.
Definition ready_peer : PeerDir.Peer :=
  Eval vm_compute in default (PeerDir.newPeer id) (pm_peerDirectory final !! id).


Lemma first_manifest_answered_witness :
  let '(pm', acts) := HandleCustomMessage lnd (Some greet) pm0 in
  acts = [ASend id peer MessageTypeManifest hello true] ∧
  (true = true → ∃ p, pm_peerDirectory pm' !! id = Some p ∧ PeerDir.p_LCPReady p = true ∧
     PeerDir.p_RemoteManifest p = Some defaultManifest).
Proof.
  apply (first_manifest_answered lnd greet pm0 defaultManifest);
    [apply map_Forall_empty|discriminate|reflexivity|vm_compute; reflexivity|reflexivity].
Defined.

Lemma inbound_path_witness :
  ADisconnect id ∈ (HandleCustomMessage lnd (Some {| lm_Peer := peer; lm_Type := 42100; lm_Data := [] |}) pm0).2.
Proof.
  apply (inbound_path lnd {| lm_Peer := peer; lm_Type := 42100; lm_Data := [] |} pm0);
    [discriminate|vm_compute; discriminate|].
  right. split_and!; [reflexivity|discriminate|reflexivity].
Defined.
End PeerMsgExamples.
