(* ===== verification/Pricing.v ===== *)
(** * Prices: package [llm], surge pricing and invoices

    The price of a job is estimated from the size of its input, computed with
    arbitrary-precision integers, multiplied by a load factor and put into an
    invoice.  [big.Int] is [Z]; [uint64] arithmetic wraps. *)

From S2P Require Import Prelude GoStd.

(** ** computebackend/backend.go *)

(** The errors of planning, pricing and executing a task, by the sentinel error
    they wrap, with the text that follows it. *)
Inductive task_err :=
| ErrUnsupportedTaskKind (msg : string)
| ErrInvalidTask (msg : string)
| ErrUnauthenticated (msg : string)
| ErrBackendUnavailable (msg : string)
| ErrUnknownModel (model : string)
| ErrPriceOverflow
| ErrOther (msg : string).

(** [Error()]: [fmt.Errorf("%w: ...")] puts the sentinel's text first. *)
Definition err_text (e : task_err) : string :=
  match e with
  | ErrUnsupportedTaskKind m => "unsupported task_kind: " +:+ m
  | ErrInvalidTask m => "invalid task: " +:+ m
  | ErrUnauthenticated m => "unauthenticated: " +:+ m
  | ErrBackendUnavailable m => "backend unavailable: " +:+ m
  | ErrUnknownModel m => "unknown model: " +:+ m
  | ErrPriceOverflow => "price overflow"
  | ErrOther m => m
  end.

Record Task := {
  t_TaskKind : string;
  t_Model : string;
  t_InputBytes : bytes;
  t_ParamsBytes : option bytes;
}.

(** [fmt]'s %q verb and the text of errors of other packages. *)
Class Fmt := {
  fmt_q : string → string;
}.

(** ** llm/policy.go *)

Definition DefaultMaxOutputTokens : Z := 4096.

Record ExecutionPolicy := { ep_MaxOutputTokens : Z }.

Definition NewFixedExecutionPolicy (maxOutputTokens : Z) : result task_err ExecutionPolicy :=
  _ ← ensure (negb (maxOutputTokens =? 0)) (ErrOther "max_output_tokens must be > 0");
  Ok {| ep_MaxOutputTokens := maxOutputTokens |}.

(** ** llm/estimator.go *)

Record UsageEstimate := { u_InputTokens : Z; u_MaxOutputTokens : Z; u_TotalTokens : Z }.
Record ResourceEstimate := { re_Name : string; re_Amount : Z }.
Record Estimation := {
  es_Usage : UsageEstimate;
  es_Resources : list ResourceEstimate;
  es_EstimatorID : string;
}.

Definition approxTokenCountBytes (b : bytes) : Z :=
  let n := blen b in
  if n =? 0 then 0 else wrap_u64 (n + 3) / 4.

(** [ApproxUsageEstimator.Estimate]. *)
Definition Estimate `{Fmt} (estimatorID : string) (task : Task) (policy : ExecutionPolicy) :
    result task_err Estimation :=
  _ ← ensure (bool_decide (t_TaskKind task = "openai.chat_completions.v1"%string) ||
              bool_decide (t_TaskKind task = "openai.responses.v1"%string))
             (ErrUnsupportedTaskKind (fmt_q (t_TaskKind task)));
  _ ← ensure (negb (blen (t_InputBytes task) =? 0)) (ErrInvalidTask "input_bytes is required");
  _ ← ensure (negb (ep_MaxOutputTokens policy =? 0)) (ErrOther "policy.max_output_tokens must be > 0");
  let inputTokens := approxTokenCountBytes (t_InputBytes task) in
  let maxOutputTokens := ep_MaxOutputTokens policy in
  let totalTokens := wrap_u64 (inputTokens + maxOutputTokens) in
  Ok {| es_Usage := {| u_InputTokens := inputTokens; u_MaxOutputTokens := maxOutputTokens;
                       u_TotalTokens := totalTokens |};
        es_Resources := [ {| re_Name := "tokens.input_estimate"; re_Amount := inputTokens |};
                          {| re_Name := "tokens.output_max"; re_Amount := maxOutputTokens |};
                          {| re_Name := "tokens.total_estimate"; re_Amount := totalTokens |} ];
        es_EstimatorID := estimatorID |}.

(** ** llm/pricing.go *)

Definition tokensPerMillion : Z := 1000000.

Record PriceTableEntry := {
  pe_Model : string;
  pe_InputMsatPerMTok : Z;
  pe_CachedInputMsatPerMTok : option Z;
  pe_OutputMsatPerMTok : Z;
}.

Abbreviation PriceTable := (gmap string PriceTableEntry).

Definition DefaultPriceTable : PriceTable :=
  {[ "gpt-5.2"%string :=
     {| pe_Model := "gpt-5.2"; pe_InputMsatPerMTok := 1750000;
        pe_CachedInputMsatPerMTok := Some 175000; pe_OutputMsatPerMTok := 14000000 |} ]}.

Record PriceTokens := { pt_InputTokens : Z; pt_CachedInputTokens : Z; pt_OutputTokens : Z }.
Record PriceBreakdown := {
  pb_InputTokens : Z;
  pb_CachedInputTokens : Z;
  pb_OutputTokens : Z;
  pb_PriceMsat : Z;
}.

Definition addMul (sum tokens pricePerMTokMsat : Z) : Z :=
  if (tokens =? 0) || (pricePerMTokMsat =? 0) then sum else sum + tokens * pricePerMTokMsat.

(** [QuoRem] truncates towards zero. *)
Definition divCeilBig (n d : Z) : Z :=
  let q := Z.quot n d in
  let r := Z.rem n d in
  if negb (Z.sgn r =? 0) then q + 1 else q.

Definition IsUint64 (v : Z) : bool := (0 <=? v) && (v <=? max_u64).

Definition totalMsat (e : PriceTableEntry) (tokens : PriceTokens) : result task_err Z :=
  let cachedPrice := default (pe_InputMsatPerMTok e) (pe_CachedInputMsatPerMTok e) in
  let total := 0 in
  let total := addMul total (pt_InputTokens tokens) (pe_InputMsatPerMTok e) in
  let total := addMul total (pt_CachedInputTokens tokens) cachedPrice in
  let total := addMul total (pt_OutputTokens tokens) (pe_OutputMsatPerMTok e) in
  let msat := divCeilBig total tokensPerMillion in
  if IsUint64 msat then Ok msat else Err ErrPriceOverflow.

Definition priceFromTokens (model : string) (tokens : PriceTokens) (table : PriceTable) :
    result task_err PriceBreakdown :=
  entry ← or_err (table !! model) (ErrUnknownModel model);
  priceMsat ← totalMsat entry tokens;
  Ok {| pb_InputTokens := pt_InputTokens tokens; pb_CachedInputTokens := pt_CachedInputTokens tokens;
        pb_OutputTokens := pt_OutputTokens tokens; pb_PriceMsat := priceMsat |}.

Definition QuotePrice (model : string) (estimate : UsageEstimate) (cachedInputTokens : Z)
    (table : PriceTable) : result task_err PriceBreakdown :=
  priceFromTokens model
    {| pt_InputTokens := u_InputTokens estimate; pt_CachedInputTokens := cachedInputTokens;
       pt_OutputTokens := u_MaxOutputTokens estimate |} table.

(** ** provider/config.go and provider/dynamic_pricing.go *)

Record ModelConfig := { mc_MaxOutputTokens : option Z; mc_Price : PriceTableEntry }.

Record InFlightSurgeConfig := { sg_Threshold : Z; sg_PerJobBps : Z; sg_MaxMultiplierBps : Z }.

Definition multiplierBpsOne : Z := 10000.
Definition defaultMaxInFlightSurgeMultiplierBps : Z := 30000.

Definition inFlightMultiplierBps (cfg : InFlightSurgeConfig) (inFlightJobs : Z) : Z :=
  if sg_PerJobBps cfg =? 0 then multiplierBpsOne else
  let threshold := sg_Threshold cfg in
  let over := if threshold <? inFlightJobs then inFlightJobs - threshold else 0 in
  let bps := wrap_u64 (multiplierBpsOne + wrap_u64 (sg_PerJobBps cfg * over)) in
  let maxBps := if sg_MaxMultiplierBps cfg =? 0 then defaultMaxInFlightSurgeMultiplierBps
                else sg_MaxMultiplierBps cfg in
  let bps := if negb (maxBps =? 0) && (maxBps <? bps) then maxBps else bps in
  if bps <? multiplierBpsOne then multiplierBpsOne else bps.

Definition applyMultiplierCeil (priceMsat multiplierBps : Z) : result task_err Z :=
  if multiplierBps =? 0 then Err (ErrOther "multiplier_bps must be > 0") else
  if multiplierBps =? multiplierBpsOne then Ok priceMsat else
  let total := priceMsat * multiplierBps in
  let q := divCeilBig total multiplierBpsOne in
  if IsUint64 q then Ok q else Err ErrPriceOverflow.

(** ** provider/lnd_adapter.go: the invoice *)

Inductive invoice_err :=
| ErrNotConfigured | ErrExpiryOverflow | ErrPriceZero | ErrSatsOverflow | ErrMsatOverflow
| ErrAddInvoice | ErrRHashLen (n : Z).

(** The fields of [lnrpc.Invoice] that are set; [Value] is in satoshi. *)
Record LnInvoice := {
  in_DescriptionHash : bytes;
  in_Expiry : Z;
  in_Value : Z;
  in_ValueMsat : Z;
}.

Record InvoiceRequest := { ir_DescriptionHash : bytes; ir_PriceMsat : Z; ir_ExpirySeconds : Z }.
Record InvoiceResult := { iv_PaymentRequest : string; iv_PaymentHash : bytes; iv_AddIndex : Z }.

(** [lnrpc.AddInvoiceResponse]. *)
Record AddInvoiceResponse := { ai_RHash : bytes; ai_PaymentRequest : string; ai_AddIndex : Z }.

Definition setInvoicePriceMsat (invoice : LnInvoice) (priceMsat : Z) : result invoice_err LnInvoice :=
  if priceMsat =? 0 then Err ErrPriceZero else
  if priceMsat mod 1000 =? 0 then
    let sats := priceMsat / 1000 in
    if max_i64 <? sats then Err ErrSatsOverflow else
    Ok {| in_DescriptionHash := in_DescriptionHash invoice; in_Expiry := in_Expiry invoice;
          in_Value := sats; in_ValueMsat := in_ValueMsat invoice |}
  else
  if max_i64 <? priceMsat then Err ErrMsatOverflow else
  Ok {| in_DescriptionHash := in_DescriptionHash invoice; in_Expiry := in_Expiry invoice;
        in_Value := in_Value invoice; in_ValueMsat := priceMsat |}.

(** [CreateInvoice] against lnd's [AddInvoice], [None] when it fails; the
    invoice that was submitted is part of the outcome. *)
Definition CreateInvoice (addInvoice : LnInvoice → option AddInvoiceResponse) (req : InvoiceRequest) :
    option LnInvoice * result invoice_err InvoiceResult :=
  if max_i64 <? ir_ExpirySeconds req then (None, Err ErrExpiryOverflow) else
  let invoice := {| in_DescriptionHash := ir_DescriptionHash req; in_Expiry := ir_ExpirySeconds req;
                    in_Value := 0; in_ValueMsat := 0 |} in
  match setInvoicePriceMsat invoice (ir_PriceMsat req) with
  | Err e => (None, Err e)
  | Ok invoice =>
    (Some invoice,
     resp ← or_err (addInvoice invoice) ErrAddInvoice;
     _ ← ensure (blen (ai_RHash resp) =? 32) (ErrRHashLen (blen (ai_RHash resp)));
     Ok {| iv_PaymentRequest := ai_PaymentRequest resp; iv_PaymentHash := ai_RHash resp;
           iv_AddIndex := ai_AddIndex resp |})
  end.

Inductive InvoiceState := InvoiceOpen | InvoiceSettled | InvoiceCanceled | InvoiceAccepted.

(** What [Recv] returns: an error (with whether it is a cancellation or a
    deadline), nil, or an invoice. *)
Inductive recv := RecvErr (ctxErr : bool) | RecvNil | RecvInvoice (rHash : bytes) (st : InvoiceState).

Inductive settlement := Settled | InvoiceWasCanceled | SettlementCtxErr | SettlementRecvErr.

(** The subscription's start index, and the receive loop on what the
    subscription delivers; [None] while it is still waiting. *)
Definition settlementStartIndex (addIndex : Z) : Z := if 0 <? addIndex then addIndex - 1 else 0.

Fixpoint WaitForSettlement (paymentHash : bytes) (rs : list recv) : option settlement :=
  match rs with
  | [] => None
  | RecvErr ctxErr :: _ => Some (if ctxErr then SettlementCtxErr else SettlementRecvErr)
  | RecvNil :: rest => WaitForSettlement paymentHash rest
  | RecvInvoice rHash st :: rest =>
    if negb (bool_decide (rHash = paymentHash)) then WaitForSettlement paymentHash rest else
    match st with
    | InvoiceOpen | InvoiceAccepted => WaitForSettlement paymentHash rest
    | InvoiceSettled => Some Settled
    | InvoiceCanceled => Some InvoiceWasCanceled
    end
  end.

(** ** Lemmas *)

Lemma addMul_eq s t p : addMul s t p = s + t * p.
Proof.
  unfold addMul. destruct (Z.eqb_spec t 0), (Z.eqb_spec p 0); simpl; subst; lia.
Qed.

(** [divCeilBig] rounds up: the least multiple that covers the amount. *)
Lemma divCeilBig_spec n d q :
  0 ≤ n → 0 < d → divCeilBig n d = q ↔ n ≤ q * d ∧ (q - 1) * d < n ∨ n = 0 ∧ q = 0.
Proof.
  intros Hn Hd. unfold divCeilBig.
  rewrite Z.quot_div_nonneg, Z.rem_mod_nonneg by lia.
  pose proof (Z.div_mod n d ltac:(lia)) as Hdm. pose proof (Z.mod_pos_bound n d Hd) as Hm.
  destruct (Z.eqb_spec (Z.sgn (n mod d)) 0) as [Hs|Hs]; simpl.
  - assert (n mod d = 0) by lia. split; [intros <-; left; nia|]. intros [[H1 H2]|[-> ->]]; [|nia]. nia.
  - assert (0 < n mod d) by lia. split; [intros <-; left; nia|]. intros [[H1 H2]|[-> ->]]; [nia|].
    rewrite Z.mod_0_l in * by lia. lia.
Qed.

Definition tokens_cost (e : PriceTableEntry) (tk : PriceTokens) : Z :=
  pt_InputTokens tk * pe_InputMsatPerMTok e +
  pt_CachedInputTokens tk * default (pe_InputMsatPerMTok e) (pe_CachedInputMsatPerMTok e) +
  pt_OutputTokens tk * pe_OutputMsatPerMTok e.

Definition wf_tokens (e : PriceTableEntry) (tk : PriceTokens) : Prop :=
  0 ≤ pt_InputTokens tk ∧ 0 ≤ pt_CachedInputTokens tk ∧ 0 ≤ pt_OutputTokens tk ∧
  0 ≤ pe_InputMsatPerMTok e ∧ 0 ≤ default (pe_InputMsatPerMTok e) (pe_CachedInputMsatPerMTok e) ∧
  0 ≤ pe_OutputMsatPerMTok e.

Lemma tokens_cost_nonneg e tk : wf_tokens e tk → 0 ≤ tokens_cost e tk.
Proof. unfold wf_tokens, tokens_cost. intros (? & ? & ? & ? & ? & ?). nia. Qed.

Lemma totalMsat_unfold e tk :
  totalMsat e tk = let q := divCeilBig (tokens_cost e tk) tokensPerMillion in
                   if IsUint64 q then Ok q else Err ErrPriceOverflow.
Proof. unfold totalMsat. rewrite !addMul_eq. unfold tokens_cost. done. Qed.

Lemma IsUint64_spec v : IsUint64 v = true ↔ is_u64 v.
Proof. unfold IsUint64, is_uint, max_u64. rewrite andb_true_iff, !Z.leb_le. lia. Qed.

Definition wf_surge (cfg : InFlightSurgeConfig) : Prop :=
  is_u32 (sg_Threshold cfg) ∧ is_u32 (sg_PerJobBps cfg) ∧ is_u32 (sg_MaxMultiplierBps cfg).

Definition surge_cap (cfg : InFlightSurgeConfig) : Z :=
  if sg_MaxMultiplierBps cfg =? 0 then defaultMaxInFlightSurgeMultiplierBps
  else sg_MaxMultiplierBps cfg.

(** Without wrap-around the multiplier is a clamped linear function. *)
Lemma inFlightMultiplierBps_eq cfg n :
  wf_surge cfg → 0 ≤ n < 2 ^ 31 → sg_PerJobBps cfg ≠ 0 →
  inFlightMultiplierBps cfg n =
  Z.max multiplierBpsOne
    (Z.min (surge_cap cfg) (multiplierBpsOne + sg_PerJobBps cfg * Z.max 0 (n - sg_Threshold cfg))).
Proof.
  intros (Ht & Hp & Hm) Hn Hne. unfold inFlightMultiplierBps, surge_cap, is_uint in *.
  apply Z.eqb_neq in Hne as Hne'. rewrite Hne'.
  set (over := if sg_Threshold cfg <? n then n - sg_Threshold cfg else 0).
  assert (Hover : over = Z.max 0 (n - sg_Threshold cfg))
    by (subst over; destruct (Z.ltb_spec (sg_Threshold cfg) n); lia).
  rewrite <-Hover. assert (0 ≤ over < 2 ^ 31) by lia.
  assert (Hb : 0 ≤ sg_PerJobBps cfg * over ≤ 2 ^ 32 * 2 ^ 31) by nia.
  unfold wrap_u64, multiplierBpsOne, defaultMaxInFlightSurgeMultiplierBps in *.
  rewrite (Z.mod_small (sg_PerJobBps cfg * over)) by lia. rewrite Z.mod_small by lia.
  set (b := 10000 + sg_PerJobBps cfg * over) in *.
  set (c := if sg_MaxMultiplierBps cfg =? 0 then 30000 else sg_MaxMultiplierBps cfg).
  assert (c ≠ 0) by (subst c; destruct (Z.eqb_spec (sg_MaxMultiplierBps cfg) 0); lia).
  destruct (Z.eqb_spec c 0), (Z.ltb_spec c b); try lia; simpl;
    match goal with |- context [?x <? 10000] => destruct (Z.ltb_spec x 10000) end; lia.
Qed.

(** ** Theorems *)

(** A quoted price is the cost of the tokens rounded up to a whole msat: it
    covers the cost, one msat less would not, and the only error is a price that
    does not fit 64 bits. *)
Theorem total_msat_rounds_up e tk :
  wf_tokens e tk →
  (∀ p, totalMsat e tk = Ok p →
     tokens_cost e tk ≤ p * tokensPerMillion ∧ is_u64 p ∧
     ∀ p', 0 ≤ p' → tokens_cost e tk ≤ p' * tokensPerMillion → p ≤ p') ∧
  (∀ err, totalMsat e tk = Err err → err = ErrPriceOverflow ∧ max_u64 * tokensPerMillion < tokens_cost e tk).
Proof.
  intros Hwf. pose proof (tokens_cost_nonneg e tk Hwf) as Hc. rewrite totalMsat_unfold. cbv zeta.
  pose proof (proj1 (divCeilBig_spec (tokens_cost e tk) tokensPerMillion _ Hc eq_refl) eq_refl) as Hq.
  unfold tokensPerMillion in *. set (q := divCeilBig (tokens_cost e tk) 1000000) in *.
  destruct (IsUint64 q) eqn:Hu; split; try done.
  - intros p [= <-]. apply IsUint64_spec in Hu. split_and!; [lia|done|]. intros p' Hp' Hle. lia.
  - intros err [= <-]. split; [done|]. apply not_true_iff_false in Hu. rewrite IsUint64_spec in Hu.
    unfold is_uint, max_u64 in *. lia.
Qed.

(** Surge pricing never lowers a price: the multiplier lies between 1.0x and
    the configured cap (or 1.0x when the cap is lower), it does not fall when
    more jobs are in flight, and the price it gives is the exact product
    rounded up. *)
Theorem surge_never_undercharges cfg n n' price :
  wf_surge cfg → 0 ≤ n ≤ n' → n' < 2 ^ 31 → is_u64 price →
  let m := inFlightMultiplierBps cfg n in
  multiplierBpsOne ≤ m ≤ Z.max multiplierBpsOne (surge_cap cfg) ∧
  m ≤ inFlightMultiplierBps cfg n' ∧
  (∀ p, applyMultiplierCeil price m = Ok p →
     price ≤ p ∧ price * m ≤ p * multiplierBpsOne < price * m + multiplierBpsOne) ∧
  (∀ err, applyMultiplierCeil price m = Err err → err = ErrPriceOverflow).
Proof.
  intros Hwf Hn Hn' Hp m. assert (Hm : multiplierBpsOne ≤ m ≤ Z.max multiplierBpsOne (surge_cap cfg) ∧
    m ≤ inFlightMultiplierBps cfg n').
  { subst m. destruct (decide (sg_PerJobBps cfg = 0)) as [Hz|Hz].
    - unfold inFlightMultiplierBps. rewrite (proj2 (Z.eqb_eq _ _) Hz). lia.
    - rewrite !inFlightMultiplierBps_eq by (done || lia). destruct Hwf as (_ & Hb & _).
      unfold is_uint in Hb. assert (sg_PerJobBps cfg * Z.max 0 (n - sg_Threshold cfg) ≤
        sg_PerJobBps cfg * Z.max 0 (n' - sg_Threshold cfg)) by (apply Z.mul_le_mono_nonneg_l; lia). lia. }
  destruct Hm as [Hm1 Hm2]. clearbody m. split_and!; [lia..|done| |];
    unfold applyMultiplierCeil, multiplierBpsOne, is_uint in *;
    destruct (Z.eqb_spec m 0); [lia| |lia|]; destruct (Z.eqb_spec m 10000) as [->|].
  - intros p [= <-]. lia.
  - intros p. assert (0 ≤ price * m) by nia.
    pose proof (proj1 (divCeilBig_spec (price * m) 10000 _ ltac:(lia) eq_refl) eq_refl) as Hq.
    set (q := divCeilBig (price * m) 10000) in *. destruct (IsUint64 q); [|done]. intros [= <-]. nia.
  - done.
  - intros err. by destruct (IsUint64 _); [|intros [= <-]].
Qed.

(** The invoice submitted to lnd asks for exactly the quoted price, bound to the
    terms hash, in satoshi when the price is a whole number of them and in msat
    otherwise, within lnd's 64-bit signed fields; a zero price is refused. *)
Theorem invoice_amount addInvoice req inv r :
  is_u64 (ir_PriceMsat req) → CreateInvoice addInvoice req = (Some inv, r) →
  in_Value inv * 1000 + in_ValueMsat inv = ir_PriceMsat req ∧
  0 < ir_PriceMsat req ∧ (in_Value inv = 0 ∨ in_ValueMsat inv = 0) ∧
  0 ≤ in_Value inv ≤ max_i64 ∧ 0 ≤ in_ValueMsat inv ≤ max_i64 ∧
  in_DescriptionHash inv = ir_DescriptionHash req ∧ in_Expiry inv = ir_ExpirySeconds req.
Proof.
  intros Hp. unfold is_uint in Hp. unfold CreateInvoice, setInvoicePriceMsat.
  destruct (max_i64 <? ir_ExpirySeconds req); [done|].
  destruct (Z.eqb_spec (ir_PriceMsat req) 0); [done|].
  pose proof (Z.div_mod (ir_PriceMsat req) 1000 ltac:(lia)).
  destruct (Z.eqb_spec (ir_PriceMsat req mod 1000) 0).
  - destruct (Z.ltb_spec max_i64 (ir_PriceMsat req / 1000)); [done|]. intros [= <- _]. simpl.
    unfold max_i64 in *. split_and!; try done; try lia.
  - destruct (Z.ltb_spec max_i64 (ir_PriceMsat req)); [done|]. intros [= <- _]. simpl.
    unfold max_i64 in *. split_and!; try done; try lia.
Qed.

(** Notifications that decide nothing about the awaited payment. *)
Definition undecided (paymentHash : bytes) (r : recv) : Prop :=
  match r with
  | RecvErr _ => False
  | RecvNil => True
  | RecvInvoice h st => h ≠ paymentHash ∨ st = InvoiceOpen ∨ st = InvoiceAccepted
  end.

(** [WaitForSettlement] reports a payment exactly when the subscription delivers
    the settled invoice of the awaited payment hash before any error and before
    its cancellation. *)
Theorem wait_for_settlement_exact paymentHash rs :
  WaitForSettlement paymentHash rs = Some Settled ↔
  ∃ pre post, rs = pre ++ RecvInvoice paymentHash InvoiceSettled :: post ∧
    Forall (undecided paymentHash) pre.
Proof.
  split.
  - induction rs as [|r rs IH]; [done|].
    assert (Hskip : undecided paymentHash r → WaitForSettlement paymentHash rs = Some Settled →
      ∃ pre post, r :: rs = pre ++ RecvInvoice paymentHash InvoiceSettled :: post ∧
        Forall (undecided paymentHash) pre).
    { intros Hu Hw. destruct (IH Hw) as (pre & post & -> & Hpre). exists (r :: pre), post.
      split; [done|]. by constructor. }
    destruct r as [[]| |h st]; simpl; try done; [by apply Hskip|].
    case_bool_decide as Hh; simpl; [|by apply Hskip; left].
    destruct st; try done; [by apply Hskip; right; left| |by apply Hskip; right; right].
    subst h. intros _. exists [], rs. split; [done|constructor].
  - intros (pre & post & -> & Hpre). induction Hpre as [|r pre Hr _ IH]; simpl.
    + by rewrite bool_decide_eq_true_2.
    + destruct r as [c| |h st]; simpl in Hr; [done|done|]. case_bool_decide as Hh; simpl; [|done].
      destruct Hr as [?|[->| ->]]; done.
Qed.

(** ** Witnesses *)

Definition gpt52_tokens : PriceTokens :=
  {| pt_InputTokens := 1; pt_CachedInputTokens := 0; pt_OutputTokens := 1 |}.
Definition gpt52 : PriceTableEntry :=
  {| pe_Model := "gpt-5.2"; pe_InputMsatPerMTok := 1750000; pe_CachedInputMsatPerMTok := Some 175000;
     pe_OutputMsatPerMTok := 14000000 |}.

Lemma total_msat_rounds_up_witness :
  tokens_cost gpt52 gpt52_tokens ≤ 16 * tokensPerMillion ∧ is_u64 16 ∧
  ∀ p', 0 ≤ p' → tokens_cost gpt52 gpt52_tokens ≤ p' * tokensPerMillion → 16 ≤ p'.
Proof.
  apply (total_msat_rounds_up gpt52 gpt52_tokens); [|vm_compute; reflexivity].
  repeat split; vm_compute; discriminate.
Defined.

Lemma surge_never_undercharges_witness :
  let cfg := {| sg_Threshold := 2; sg_PerJobBps := 500; sg_MaxMultiplierBps := 0 |} in
  let m := inFlightMultiplierBps cfg 5 in
  multiplierBpsOne ≤ m ≤ Z.max multiplierBpsOne (surge_cap cfg) ∧
  m ≤ inFlightMultiplierBps cfg 9 ∧
  (∀ p, applyMultiplierCeil 1001 m = Ok p →
     1001 ≤ p ∧ 1001 * m ≤ p * multiplierBpsOne < 1001 * m + multiplierBpsOne) ∧
  (∀ err, applyMultiplierCeil 1001 m = Err err → err = ErrPriceOverflow).
Proof.
  apply (surge_never_undercharges {| sg_Threshold := 2; sg_PerJobBps := 500; sg_MaxMultiplierBps := 0 |} 5 9 1001);
    [repeat split; vm_compute; discriminate|lia|lia|split; vm_compute; [discriminate|reflexivity]].
Defined.

Lemma invoice_amount_witness :
  let req := {| ir_DescriptionHash := repeat Byte.x05 32; ir_PriceMsat := 1501; ir_ExpirySeconds := 295 |} in
  let inv := {| in_DescriptionHash := repeat Byte.x05 32; in_Expiry := 295; in_Value := 0; in_ValueMsat := 1501 |} in
  in_Value inv * 1000 + in_ValueMsat inv = ir_PriceMsat req.
Proof.
  intros req inv.
  apply (invoice_amount (λ _, None) req inv (Err ErrAddInvoice));
    [split; vm_compute; [discriminate|reflexivity]|reflexivity].
Defined.
