(* ===== verification/Validation.v ===== *)
(** * Provider-side validation, planning and quoting

    [provider/validation.go] and the pure part of [provider/handler.go]: what a
    quote request and an input stream must satisfy, the task they stand for and
    its price.  The JSON decoder is a parameter: [JsonLib] gives the fields
    [encoding/json] fills in, or the text of its error. *)

From stdpp Require Import pretty.
From S2P Require Import Prelude GoStd TlvLib Wire Pricing Terms.

(** ** Parameters *)

Record openAIChatCompletionsRequest := {
  cr_Model : string;
  cr_Messages : list bytes;
  cr_Stream : option bool;
  cr_MaxTokens : option Z;
  cr_MaxCompletionTokens : option Z;
  cr_MaxOutputTokens : option Z;
}.

Record openAIResponsesRequest := {
  rr_Model : string;
  rr_Input : bytes;
  rr_Stream : option bool;
}.

(** [json.Unmarshal] into the two request types. *)
Class JsonLib := {
  parseOpenAIChatCompletionsRequest : bytes → result string openAIChatCompletionsRequest;
  parseOpenAIResponsesRequest : bytes → result string openAIResponsesRequest;
}.

(** [maxOutputTokens] of the request: the first limit that is present. *)
Definition maxOutputTokens (r : openAIChatCompletionsRequest) : option Z :=
  match cr_MaxCompletionTokens r with
  | Some n => Some n
  | None => match cr_MaxTokens r with
            | Some n => Some n
            | None => cr_MaxOutputTokens r
            end
  end.

(** The token limits of the JSON request are decoded into [uint32]s. *)
Class JsonWidths (J : JsonLib) : Prop :=
  json_widths b r : parseOpenAIChatCompletionsRequest b = Ok r →
    match maxOutputTokens r with Some n => is_u32 n | None => True end.

(** [Error()] of the errors of [lcpwire]. *)
Class WireText := wire_text : wire_err → string.

(** ** provider/validation.go *)

Definition taskKindOpenAIChatCompletionsV1 : string := "openai.chat_completions.v1".
Definition taskKindOpenAIResponsesV1 : string := "openai.responses.v1".

Record QuoteRequestValidator := {
  v_SupportedProtocolVersions : gset Z;
  v_SupportedTaskKinds : gset string;
}.

Definition DefaultValidator : QuoteRequestValidator :=
  {| v_SupportedProtocolVersions := {[ ProtocolVersionV02 ]};
     v_SupportedTaskKinds := {[ taskKindOpenAIChatCompletionsV1; taskKindOpenAIResponsesV1 ]} |}.

Record ValidationError := MkVErr { ve_Code : Z; ve_Message : string }.

Definition protocolSupported (v : QuoteRequestValidator) (protocolVersion : Z) : bool :=
  if bool_decide (v_SupportedProtocolVersions v = ∅) then protocolVersion =? ProtocolVersionV02
  else bool_decide (protocolVersion ∈ v_SupportedProtocolVersions v).

Definition taskKindSupported (v : QuoteRequestValidator) (taskKind : string) : bool :=
  if bool_decide (v_SupportedTaskKinds v = ∅) then bool_decide (taskKind = taskKindOpenAIChatCompletionsV1)
  else bool_decide (taskKind ∈ v_SupportedTaskKinds v).

Definition matchesTemplate (req : QuoteRequest) (tmpl : TaskTemplate) : bool :=
  if negb (bool_decide (qr_TaskKind req = tt_TaskKind tmpl)) then false else
  match tt_ParamsBytes tmpl with
  | Some tmplParams =>
    match qr_ParamsBytes req with
    | None => false
    | Some params => bool_decide (params = tmplParams)
    end
  | None => true
  end.

Definition matchesSupportedTemplate (req : QuoteRequest) (templates : list TaskTemplate) : bool :=
  existsb (matchesTemplate req) templates.

(** ** provider/config.go *)

Record Config := {
  cfg_Enabled : bool;
  cfg_QuoteTTLSeconds : Z;
  cfg_InFlightSurge : InFlightSurgeConfig;
  cfg_Models : gmap string ModelConfig;
}.

(** ** Constants of provider/handler.go *)

Definition defaultMaxStreamBytes : Z := 4194304.
Definition defaultMaxJobBytes : Z := 8388608.
Definition contentTypeTextPlain : string := "text/plain; charset=utf-8".
Definition contentTypeApplicationJSON : string := "application/json; charset=utf-8".
Definition contentTypeTextEventStream : string := "text/event-stream; charset=utf-8".
Definition contentEncodingIdentity : string := "identity".

Definition inputContentTypeForTaskKind (taskKind : string) : string :=
  if bool_decide (taskKind = taskKindOpenAIChatCompletionsV1) then contentTypeApplicationJSON
  else if bool_decide (taskKind = taskKindOpenAIResponsesV1) then contentTypeApplicationJSON
  else "".

Definition resultContentTypeForTaskKind (taskKind : string) (streaming : bool) : string :=
  if bool_decide (taskKind = taskKindOpenAIChatCompletionsV1) then
    if streaming then contentTypeTextEventStream else contentTypeApplicationJSON
  else if bool_decide (taskKind = taskKindOpenAIResponsesV1) then
    if streaming then contentTypeTextEventStream else contentTypeApplicationJSON
  else contentTypeTextPlain.

Definition quoteRequestEqual (a b : QuoteRequest) : bool :=
  if negb (bool_decide (qr_TaskKind a = qr_TaskKind b)) then false else
  match qr_ParamsBytes a, qr_ParamsBytes b with
  | None, None => true
  | Some pa, Some pb => bool_decide (pa = pb)
  | _, _ => false
  end.

Definition computeErrorCode (e : task_err) : Z :=
  match e with
  | ErrUnsupportedTaskKind _ => ErrorCodeUnsupportedTask
  | ErrInvalidTask _ => ErrorCodeUnsupportedParams
  | ErrUnauthenticated _ => ErrorCodePaymentInvalid
  | ErrBackendUnavailable _ => ErrorCodeRateLimited
  | _ => ErrorCodePaymentInvalid
  end.

Definition quoteErrorCode (e : task_err) : Z :=
  match e with
  | ErrUnknownModel _ => ErrorCodeUnsupportedTask
  | ErrPriceOverflow => ErrorCodeRateLimited
  | _ => computeErrorCode e
  end.

Definition quoteTTLSeconds (cfg : Config) : Z :=
  if cfg_QuoteTTLSeconds cfg =? 0 then 300 else cfg_QuoteTTLSeconds cfg.

Definition remoteMaxPayloadBytes (manifest : option Manifest) : Z :=
  match manifest with None => 0 | Some m => mf_MaxPayloadBytes m end.

(** The [input] of a responses request counts as missing when it is blank or null. *)
Definition input_missing (input : bytes) : bool :=
  (blen (trim_space input) =? 0) || bool_decide (trim_space input = bytes_of_string "null").

Section validation.
Context {T : TlvLib} {J : JsonLib} {F : Fmt} {W : WireText}.

Definition validateTaskParams (req : QuoteRequest) : option ValidationError :=
  if bool_decide (qr_TaskKind req = taskKindOpenAIChatCompletionsV1) then
    match qr_ParamsBytes req with
    | None => Some (MkVErr ErrorCodeUnsupportedParams "openai.chat_completions.v1 params are required")
    | Some ps =>
      match DecodeOpenAIChatCompletionsV1Params ps with
      | Err _ => Some (MkVErr ErrorCodeUnsupportedParams "openai.chat_completions.v1 params must be a valid TLV stream")
      | Ok params =>
        if 0 <? Z.of_nat (size (oa_Unknown params))
        then Some (MkVErr ErrorCodeUnsupportedParams "openai.chat_completions.v1 params contain unknown tlv types")
        else None
      end
    end
  else if bool_decide (qr_TaskKind req = taskKindOpenAIResponsesV1) then
    match qr_ParamsBytes req with
    | None => Some (MkVErr ErrorCodeUnsupportedParams "openai.responses.v1 params are required")
    | Some ps =>
      match DecodeOpenAIResponsesV1Params ps with
      | Err _ => Some (MkVErr ErrorCodeUnsupportedParams "openai.responses.v1 params must be a valid TLV stream")
      | Ok params =>
        if 0 <? Z.of_nat (size (oa_Unknown params))
        then Some (MkVErr ErrorCodeUnsupportedParams "openai.responses.v1 params contain unknown tlv types")
        else None
      end
    end
  else None.

Definition ValidateQuoteRequest (v : QuoteRequestValidator) (req : QuoteRequest)
    (remoteManifest : option Manifest) : option ValidationError :=
  let pv := env_ProtocolVersion (qr_Envelope req) in
  if negb (protocolSupported v pv) then
    Some (MkVErr ErrorCodeUnsupportedVersion ("unsupported protocol_version: " +:+ pretty pv))
  else if negb (taskKindSupported v (qr_TaskKind req)) then
    Some (MkVErr ErrorCodeUnsupportedTask ("unsupported task_kind: " +:+ fmt_q (qr_TaskKind req)))
  else match validateTaskParams req with
  | Some e => Some e
  | None =>
    match remoteManifest with
    | Some m =>
      if (0 <? blen (mf_SupportedTasks m)) && negb (matchesSupportedTemplate req (mf_SupportedTasks m))
      then Some (MkVErr ErrorCodeUnsupportedTask "task does not match any supported_tasks template")
      else None
    | None => None
    end
  end.

(** ** handler.go: the input stream *)

Definition validateInputStreamBegin (begin : StreamBegin) : result ValidationError (Z * bytes) :=
  if negb (bool_decide (sb_ContentEncoding begin = contentEncodingIdentity)) then
    Err (MkVErr ErrorCodeUnsupportedEncoding "unsupported content_encoding")
  else match sb_TotalLen begin, sb_SHA256 begin with
  | Some totalLen, Some sha =>
    if (defaultMaxStreamBytes <? totalLen) || (defaultMaxJobBytes <? totalLen) then
      Err (MkVErr ErrorCodePayloadTooLarge "input stream exceeds local limits")
    else Ok (totalLen, sha)
  | _, _ => Err (MkVErr ErrorCodeInvalidState "input stream begin missing total_len/sha256")
  end.

Definition validateInputStream (req : QuoteRequest) (input : bytes) : option ValidationError :=
  let bad m := Some (MkVErr ErrorCodeUnsupportedParams m) in
  if bool_decide (qr_TaskKind req = taskKindOpenAIChatCompletionsV1) then
    match qr_ParamsBytes req with
    | None => bad "openai.chat_completions.v1 params are required"%string
    | Some ps =>
      match DecodeOpenAIChatCompletionsV1Params ps with
      | Err _ => bad "openai.chat_completions.v1 params must be a valid TLV stream"%string
      | Ok params =>
        match parseOpenAIChatCompletionsRequest input with
        | Err _ => bad "openai.chat_completions.v1 input must be valid json"%string
        | Ok parsed =>
          if bool_decide (cr_Model parsed = ""%string) then bad "request_json.model is required"%string
          else if blen (cr_Messages parsed) =? 0 then bad "request_json.messages is required"%string
          else if negb (bool_decide (cr_Model parsed = oa_Model params))
          then bad "params.model must match request_json.model"%string
          else None
        end
      end
    end
  else if bool_decide (qr_TaskKind req = taskKindOpenAIResponsesV1) then
    match qr_ParamsBytes req with
    | None => bad "openai.responses.v1 params are required"%string
    | Some ps =>
      match DecodeOpenAIResponsesV1Params ps with
      | Err _ => bad "openai.responses.v1 params must be a valid TLV stream"%string
      | Ok params =>
        match parseOpenAIResponsesRequest input with
        | Err _ => bad "openai.responses.v1 input must be valid json"%string
        | Ok parsed =>
          if bool_decide (rr_Model parsed = ""%string) then bad "request_json.model is required"%string
          else if input_missing (rr_Input parsed) then bad "request_json.input is required"%string
          else if negb (bool_decide (rr_Model parsed = oa_Model params))
          then bad "params.model must match request_json.model"%string
          else None
        end
      end
    end
  else None.

(** ** handler.go: planning and pricing *)

Definition modelFromRequest (req : QuoteRequest) : string :=
  match qr_ParamsBytes req with
  | None => ""
  | Some ps =>
    if bool_decide (qr_TaskKind req = taskKindOpenAIChatCompletionsV1) then
      match DecodeOpenAIChatCompletionsV1Params ps with Ok params => oa_Model params | Err _ => "" end
    else if bool_decide (qr_TaskKind req = taskKindOpenAIResponsesV1) then
      match DecodeOpenAIResponsesV1Params ps with Ok params => oa_Model params | Err _ => "" end
    else ""
  end.

(** The configuration and the policy a handler was built with. *)
Context (cfg : Config) (policy : ExecutionPolicy).

Definition maxOutputTokensForModel (model : string) : result string Z :=
  let dflt := ep_MaxOutputTokens policy in
  chosen ← match cfg_Models cfg !! model with
           | Some modelCfg =>
             match mc_MaxOutputTokens modelCfg with
             | Some n => if n =? 0 then Err "model max_output_tokens must be > 0"%string else Ok n
             | None => Ok dflt
             end
           | None => Ok dflt
           end;
  if chosen =? 0 then Err "max_output_tokens must be > 0"%string else Ok chosen.

(** A planned task, its policy, the model and whether a stream is wanted. *)
Definition plan : Type := Task * ExecutionPolicy * string * bool.

Definition planOpenAIChatCompletionsV1Task (req : QuoteRequest) (inputBytes : bytes) : result task_err plan :=
  ps ← or_err (qr_ParamsBytes req) (ErrInvalidTask "openai.chat_completions.v1 params are required");
  params ← match DecodeOpenAIChatCompletionsV1Params ps with
           | Ok p => Ok p
           | Err e => Err (ErrInvalidTask ("invalid openai.chat_completions.v1 params: " +:+ wire_text e))
           end;
  parsed ← match parseOpenAIChatCompletionsRequest inputBytes with
           | Ok p => Ok p
           | Err e => Err (ErrInvalidTask ("invalid openai.chat_completions.v1 input_json: " +:+ e))
           end;
  _ ← ensure (negb (bool_decide (cr_Model parsed = ""%string))) (ErrInvalidTask "request_json.model is required");
  _ ← ensure (negb (blen (cr_Messages parsed) =? 0)) (ErrInvalidTask "request_json.messages is required");
  _ ← ensure (bool_decide (cr_Model parsed = oa_Model params))
             (ErrInvalidTask "params.model must match request_json.model");
  providerMax ← match maxOutputTokensForModel (oa_Model params) with
                | Ok n => Ok n
                | Err e => Err (ErrInvalidTask ("provider max_output_tokens invalid: " +:+ e))
                end;
  maxOut ← match maxOutputTokens parsed with
           | Some parsedMax =>
             if parsedMax =? 0 then Err (ErrInvalidTask "max_tokens must be > 0")
             else if providerMax <? parsedMax
             then Err (ErrInvalidTask "max_tokens exceeds provider max_output_tokens")
             else Ok parsedMax
           | None => Ok providerMax
           end;
  Ok ({| t_TaskKind := qr_TaskKind req; t_Model := oa_Model params; t_InputBytes := inputBytes;
         t_ParamsBytes := None |},
      {| ep_MaxOutputTokens := maxOut |}, oa_Model params, default false (cr_Stream parsed)).

Definition planOpenAIResponsesV1Task (req : QuoteRequest) (inputBytes : bytes) : result task_err plan :=
  ps ← or_err (qr_ParamsBytes req) (ErrInvalidTask "openai.responses.v1 params are required");
  params ← match DecodeOpenAIResponsesV1Params ps with
           | Ok p => Ok p
           | Err e => Err (ErrInvalidTask ("invalid openai.responses.v1 params: " +:+ wire_text e))
           end;
  parsed ← match parseOpenAIResponsesRequest inputBytes with
           | Ok p => Ok p
           | Err e => Err (ErrInvalidTask ("invalid openai.responses.v1 input_json: " +:+ e))
           end;
  _ ← ensure (negb (bool_decide (rr_Model parsed = ""%string))) (ErrInvalidTask "request_json.model is required");
  _ ← ensure (negb (input_missing (rr_Input parsed))) (ErrInvalidTask "request_json.input is required");
  _ ← ensure (bool_decide (rr_Model parsed = oa_Model params))
             (ErrInvalidTask "params.model must match request_json.model");
  providerMax ← match maxOutputTokensForModel (oa_Model params) with
                | Ok n => Ok n
                | Err e => Err (ErrInvalidTask ("provider max_output_tokens invalid: " +:+ e))
                end;
  Ok ({| t_TaskKind := qr_TaskKind req; t_Model := oa_Model params; t_InputBytes := inputBytes;
         t_ParamsBytes := None |},
      {| ep_MaxOutputTokens := providerMax |}, oa_Model params, default false (rr_Stream parsed)).

Definition planTask (req : QuoteRequest) (inputBytes : bytes) : result task_err plan :=
  if bool_decide (qr_TaskKind req = taskKindOpenAIChatCompletionsV1)
  then planOpenAIChatCompletionsV1Task req inputBytes
  else if bool_decide (qr_TaskKind req = taskKindOpenAIResponsesV1)
  then planOpenAIResponsesV1Task req inputBytes
  else Err (ErrUnsupportedTaskKind (fmt_q (qr_TaskKind req))).

Definition priceTable : PriceTable :=
  if bool_decide (cfg_Models cfg = ∅) then DefaultPriceTable else
  map_imap (λ model c, Some
    {| pe_Model := model; pe_InputMsatPerMTok := pe_InputMsatPerMTok (mc_Price c);
       pe_CachedInputMsatPerMTok := pe_CachedInputMsatPerMTok (mc_Price c);
       pe_OutputMsatPerMTok := pe_OutputMsatPerMTok (mc_Price c) |}) (cfg_Models cfg).

(** [quotePrice] with the default estimator and the number of jobs in flight. *)
Definition quotePrice (inFlight : Z) (req : QuoteRequest) (inputBytes : bytes) :
    result task_err PriceBreakdown :=
  '(planned, pol, model, _) ← planTask req inputBytes;
  estimation ← Estimate "approx.v1" planned pol;
  base ← QuotePrice model (es_Usage estimation) 0 priceTable;
  let multiplierBps := inFlightMultiplierBps (cfg_InFlightSurge cfg) inFlight in
  priceMsat ← applyMultiplierCeil (pb_PriceMsat base) multiplierBps;
  Ok {| pb_InputTokens := pb_InputTokens base; pb_CachedInputTokens := pb_CachedInputTokens base;
        pb_OutputTokens := pb_OutputTokens base; pb_PriceMsat := priceMsat |}.

(** [computeTermsHash] of the handler. *)
Definition handlerTerms (req : QuoteRequest) (quoteExpiry priceMsat : Z) : Terms :=
  {| tm_ProtocolVersion := env_ProtocolVersion (qr_Envelope req); tm_JobID := env_JobID (qr_Envelope req);
     tm_PriceMsat := priceMsat; tm_QuoteExpiry := quoteExpiry |}.

Definition handlerCommit (req : QuoteRequest) (buf : bytes) (ct ce : string) : TermsCommit :=
  {| cm_TaskKind := qr_TaskKind req; cm_Input := buf; cm_InputContentType := ct;
     cm_InputContentEncoding := ce; cm_Params := qr_ParamsBytes req |}.
End validation.

(** ** Theorems *)

Section proofs.
Context {T : TlvLib} {J : JsonLib} {F : Fmt} {W : WireText}.

Definition openai_kind (k : string) : Prop :=
  k = taskKindOpenAIChatCompletionsV1 ∨ k = taskKindOpenAIResponsesV1.

Lemma default_protocolSupported pv : protocolSupported DefaultValidator pv = (pv =? ProtocolVersionV02).
Proof.
  unfold protocolSupported. simpl. destruct (Z.eqb_spec pv ProtocolVersionV02) as [->|Hne]; [done|].
  apply bool_decide_eq_false. set_solver.
Qed.

Lemma default_taskKindSupported k :
  taskKindSupported DefaultValidator k = true ↔ openai_kind k.
Proof.
  unfold taskKindSupported, openai_kind.
  replace (bool_decide (v_SupportedTaskKinds DefaultValidator = ∅)) with false by done.
  rewrite bool_decide_eq_true. simpl. set_solver.
Qed.

Lemma kinds_distinct : taskKindOpenAIChatCompletionsV1 ≠ taskKindOpenAIResponsesV1.
Proof. done. Qed.

(** The params of a request, once they decode without unknown records. *)
Definition known_params (req : QuoteRequest) (params : OpenAIParams) : Prop :=
  ∃ ps, qr_ParamsBytes req = Some ps ∧ DecodeOpenAIParams ps = Ok params ∧ oa_Unknown params = ∅.

Lemma size_zero_test (m : gmap Z bytes) : (0 <? Z.of_nat (size m)) = false ↔ m = ∅.
Proof.
  rewrite Z.ltb_ge. split; [|by intros ->]. intros H. apply map_size_empty_iff. lia.
Qed.

Lemma validateTaskParams_spec req :
  openai_kind (qr_TaskKind req) → validateTaskParams req = None ↔ ∃ params, known_params req params.
Proof.
  intros Hk. unfold validateTaskParams, known_params.
  assert (Hcore : ∀ m1 m2 m3 : ValidationError,
    match qr_ParamsBytes req with
    | None => Some m1
    | Some ps =>
      match DecodeOpenAIParams ps with
      | Err _ => Some m2
      | Ok params => if 0 <? Z.of_nat (size (oa_Unknown params)) then Some m3 else None
      end
    end = None ↔ ∃ params ps, qr_ParamsBytes req = Some ps ∧ DecodeOpenAIParams ps = Ok params ∧ oa_Unknown params = ∅).
  { intros m1 m2 m3. destruct (qr_ParamsBytes req) as [ps|]; [|split; [done|by intros (? & ? & [=] & _)]].
    destruct (DecodeOpenAIParams ps) as [params|] eqn:E.
    - destruct (0 <? Z.of_nat (size (oa_Unknown params))) eqn:Hs; split; try done.
      + intros (params' & ps' & [= <-] & Hd & Hu). rewrite E in Hd. injection Hd as ->.
        apply size_zero_test in Hu. congruence.
      + intros _. exists params, ps. split_and!; [done..|]. by apply size_zero_test.
    - split; [done|]. intros (params' & ps' & [= <-] & Hd & _). congruence. }
  destruct Hk as [Hk|Hk]; rewrite Hk.
  - rewrite bool_decide_eq_true_2 by done. apply Hcore.
  - rewrite (bool_decide_eq_false_2 (_ = taskKindOpenAIChatCompletionsV1)) by done.
    rewrite bool_decide_eq_true_2 by done. apply Hcore.
Qed.

(** With the default validator, a quote request passes exactly when it has
    version 2 and one of the two OpenAI task kinds, its params decode to a
    model without unknown records, and it matches a template of the manifest it
    is checked against if that manifest lists any. *)
Theorem validate_quote_request_spec req manifest :
  ValidateQuoteRequest DefaultValidator req manifest = None ↔
  env_ProtocolVersion (qr_Envelope req) = ProtocolVersionV02 ∧ openai_kind (qr_TaskKind req) ∧
  (∃ params, known_params req params) ∧
  match manifest with
  | Some m => mf_SupportedTasks m = [] ∨ ∃ t, t ∈ mf_SupportedTasks m ∧ matchesTemplate req t = true
  | None => True
  end.
Proof.
  unfold ValidateQuoteRequest. rewrite default_protocolSupported.
  destruct (Z.eqb_spec (env_ProtocolVersion (qr_Envelope req)) ProtocolVersionV02) as [Hv|Hv]; simpl.
  2: { split; [done|]. by intros [? _]. }
  destruct (taskKindSupported DefaultValidator (qr_TaskKind req)) eqn:Hk; simpl.
  2: { apply not_true_iff_false in Hk. rewrite default_taskKindSupported in Hk.
       split; [done|]. by intros (_ & ? & _). }
  apply default_taskKindSupported in Hk. pose proof (validateTaskParams_spec req Hk) as Hp.
  destruct (validateTaskParams req) as [e|].
  { split; [done|]. intros (_ & _ & Hx & _). apply Hp in Hx. done. }
  assert (Hx : ∃ params, known_params req params) by (by apply Hp). clear Hp.
  destruct manifest as [m|]; [|split; done || by intros _].
  assert (Ht : matchesSupportedTemplate req (mf_SupportedTasks m) = true ↔
    ∃ t, t ∈ mf_SupportedTasks m ∧ matchesTemplate req t = true).
  { unfold matchesSupportedTemplate. rewrite existsb_exists. split; intros (t & Hin & ?); exists t;
    (split; [by apply list_elem_of_In|done]). }
  destruct (Z.ltb_spec 0 (blen (mf_SupportedTasks m))) as [Hl|Hl]; simpl.
  - destruct (matchesSupportedTemplate _ _); simpl.
    + split; [|done]. intros _. split_and!; try done. right. by apply Ht.
    + split; [done|]. intros (_ & _ & _ & [Hn|Hm]); [rewrite Hn in Hl; unfold blen in Hl; simpl in Hl; lia|].
      by apply Ht in Hm.
  - split; [|done]. intros _. split_and!; try done. left. apply blen_zero.
    pose proof (blen_nonneg (mf_SupportedTasks m)). lia.
Qed.

Context (cfg : Config) (policy : ExecutionPolicy).


Lemma maxOutputTokensForModel_nonzero model n : maxOutputTokensForModel cfg policy model = Ok n → n ≠ 0.
Proof.
  unfold maxOutputTokensForModel. intros H. invert_ok.
  destruct (Z.eqb_spec x 0); [done|]. by injection H as <-.
Qed.

(** What a successful plan says about the request and the input. *)
Definition plan_ok (req : QuoteRequest) (input : bytes) (p : plan) : Prop :=
  let '(task, pol, model, _) := p in
  openai_kind (qr_TaskKind req) ∧ t_TaskKind task = qr_TaskKind req ∧ t_Model task = model ∧
  t_InputBytes task = input ∧ modelFromRequest req = model ∧
  validateInputStream req input = None ∧ ep_MaxOutputTokens pol ≠ 0 ∧
  ∃ n, maxOutputTokensForModel cfg policy model = Ok n ∧ ep_MaxOutputTokens pol ≤ n.

Lemma chat_plan_ok req input p :
  qr_TaskKind req = taskKindOpenAIChatCompletionsV1 →
  planOpenAIChatCompletionsV1Task cfg policy req input = Ok p → plan_ok req input p.
Proof.
  intros Hk. unfold planOpenAIChatCompletionsV1Task. intros H.
  apply bind_ok_inv in H as (ps & Hps & H). apply or_err_ok_inv in Hps.
  apply bind_ok_inv in H as (params & Hparams & H).
  destruct (DecodeOpenAIChatCompletionsV1Params ps) as [params'|] eqn:Ep; [|done]. injection Hparams as ->.
  apply bind_ok_inv in H as (parsed & Hparsed & H).
  destruct (parseOpenAIChatCompletionsRequest input) as [parsed'|] eqn:Ej; [|done]. injection Hparsed as ->.
  invert_ok. subst p. unfold plan_ok. cbn [t_TaskKind t_Model t_InputBytes ep_MaxOutputTokens].
  destruct (maxOutputTokensForModel cfg policy (oa_Model params)) as [n|] eqn:En; [|done].
  injection Hx2 as <-. pose proof (maxOutputTokensForModel_nonzero _ _ En) as Hn.
  bool_to_prop. split_and!; try done.
  - by left.
  - unfold modelFromRequest. rewrite Hps, Hk. rewrite bool_decide_eq_true_2 by done. by rewrite Ep.
  - unfold validateInputStream. rewrite Hps, Hk. rewrite bool_decide_eq_true_2 by done. rewrite Ep, Ej.
    rewrite (bool_decide_eq_false_2 _ Hx), (bool_decide_eq_true_2 _ Hx1).
    by rewrite (proj2 (Z.eqb_neq _ _) Hx0).
  - destruct (maxOutputTokens parsed) as [pm|]; [|by injection Hx3 as <-].
    destruct (Z.eqb_spec pm 0); [done|]. destruct (n <? pm); [done|]. by injection Hx3 as <-.
  - exists n. split; [done|]. destruct (maxOutputTokens parsed) as [pm|]; [|injection Hx3 as <-; lia].
    destruct (pm =? 0); [done|]. destruct (Z.ltb_spec n pm); [done|]. injection Hx3 as <-. lia.
Qed.

Lemma responses_plan_ok req input p :
  qr_TaskKind req = taskKindOpenAIResponsesV1 →
  planOpenAIResponsesV1Task cfg policy req input = Ok p → plan_ok req input p.
Proof.
  intros Hk. unfold planOpenAIResponsesV1Task. intros H.
  apply bind_ok_inv in H as (ps & Hps & H). apply or_err_ok_inv in Hps.
  apply bind_ok_inv in H as (params & Hparams & H).
  destruct (DecodeOpenAIResponsesV1Params ps) as [params'|] eqn:Ep; [|done]. injection Hparams as ->.
  apply bind_ok_inv in H as (parsed & Hparsed & H).
  destruct (parseOpenAIResponsesRequest input) as [parsed'|] eqn:Ej; [|done]. injection Hparsed as ->.
  invert_ok. subst p. unfold plan_ok. cbn [t_TaskKind t_Model t_InputBytes ep_MaxOutputTokens].
  destruct (maxOutputTokensForModel cfg policy (oa_Model params)) as [n|] eqn:En; [|done].
  injection Hx2 as <-. pose proof (maxOutputTokensForModel_nonzero _ _ En) as Hn.
  bool_to_prop. split_and!; try done.
  - by right.
  - unfold modelFromRequest. rewrite Hps, Hk. rewrite bool_decide_eq_false_2 by done.
    rewrite bool_decide_eq_true_2 by done. by rewrite Ep.
  - unfold validateInputStream. rewrite Hps, Hk. rewrite bool_decide_eq_false_2 by done.
    rewrite bool_decide_eq_true_2 by done. rewrite Ep, Ej.
    rewrite (bool_decide_eq_false_2 _ Hx), (bool_decide_eq_true_2 _ Hx1). by rewrite Hx0.
  - exists n. split; [done|lia].
Qed.

Lemma planTask_ok req input p : planTask cfg policy req input = Ok p → plan_ok req input p.
Proof.
  unfold planTask. case_bool_decide as H1; [by apply chat_plan_ok|].
  case_bool_decide as H2; [by apply responses_plan_ok|done].
Qed.

(** Equal requests have equal plans: the envelope does not matter. *)
Lemma planTask_equal req req' input :
  quoteRequestEqual req req' = true → planTask cfg policy req input = planTask cfg policy req' input.
Proof.
  unfold quoteRequestEqual. case_bool_decide as Hk; [|done]. cbn [andb negb]. intros Hp.
  assert (Hps : qr_ParamsBytes req = qr_ParamsBytes req').
  { destruct (qr_ParamsBytes req), (qr_ParamsBytes req'); try done. by bool_to_prop; subst. }
  unfold planTask, planOpenAIChatCompletionsV1Task, planOpenAIResponsesV1Task. by rewrite Hk, Hps.
Qed.

Lemma approx_tokens b : blen b < 2 ^ 63 → approxTokenCountBytes b = (blen b + 3) / 4.
Proof.
  intros Hb. unfold approxTokenCountBytes. pose proof (blen_nonneg b).
  destruct (Z.eqb_spec (blen b) 0) as [->|]; [done|]. unfold wrap_u64. by rewrite Z.mod_small by lia.
Qed.

(** The widths the configuration's Go types impose. *)
Definition wf_config : Prop :=
  is_u32 (ep_MaxOutputTokens policy) ∧
  map_Forall (λ _ c, match mc_MaxOutputTokens c with Some n => is_u32 n | None => True end) (cfg_Models cfg) ∧
  map_Forall (λ _ e, 0 ≤ pe_InputMsatPerMTok e ∧ 0 ≤ pe_OutputMsatPerMTok e ∧
    0 ≤ default (pe_InputMsatPerMTok e) (pe_CachedInputMsatPerMTok e)) (priceTable cfg).

Lemma maxOutputTokensForModel_nonneg model n :
  wf_config → maxOutputTokensForModel cfg policy model = Ok n → 0 ≤ n.
Proof.
  intros (Hp & Hm & _). unfold maxOutputTokensForModel, is_uint in *. intros H. invert_ok.
  destruct (Z.eqb_spec x 0); [done|]. injection H as <-.
  destruct (cfg_Models cfg !! model) as [c|] eqn:Ec; [|injection Hx as <-; lia].
  specialize (Hm _ _ Ec). simpl in Hm. destruct (mc_MaxOutputTokens c) as [k|]; [|injection Hx as <-; lia].
  destruct (k =? 0); [done|]. injection Hx as <-. unfold is_uint in Hm. lia.
Qed.

(** The price of the planned task, before rounding, in msat per million. *)
Definition quoted_cost (e : PriceTableEntry) (input : bytes) (maxOut : Z) : Z :=
  (blen input + 3) / 4 * pe_InputMsatPerMTok e + maxOut * pe_OutputMsatPerMTok e.

Lemma totalMsat_covers e tk p : wf_tokens e tk → totalMsat e tk = Ok p → tokens_cost e tk ≤ p * tokensPerMillion ∧ is_u64 p.
Proof.
  intros Hwf. pose proof (tokens_cost_nonneg e tk Hwf) as Hc. rewrite totalMsat_unfold. cbv zeta.
  pose proof (proj1 (divCeilBig_spec (tokens_cost e tk) tokensPerMillion _ Hc eq_refl) eq_refl) as Hq.
  destruct (IsUint64 _) eqn:Hu; [|done]. intros [= <-]. apply IsUint64_spec in Hu.
  unfold tokensPerMillion in *. split; [lia|done].
Qed.

Lemma multiplier_covers price m p :
  0 ≤ price → multiplierBpsOne ≤ m → applyMultiplierCeil price m = Ok p → price ≤ p.
Proof.
  intros Hp Hm. unfold applyMultiplierCeil, multiplierBpsOne in *.
  destruct (Z.eqb_spec m 0); [lia|]. destruct (Z.eqb_spec m 10000); [by intros [= <-]|].
  pose proof (proj1 (divCeilBig_spec (price * m) 10000 _ ltac:(nia) eq_refl) eq_refl) as Hq.
  destruct (IsUint64 _); [|done]. intros [= <-]. nia.
Qed.

Lemma multiplier_at_least_one sc n : multiplierBpsOne ≤ inFlightMultiplierBps sc n.
Proof.
  unfold inFlightMultiplierBps. case_match; [lia|]. cbv zeta.
  match goal with |- context [if ?b <? multiplierBpsOne then _ else _] => destruct (Z.ltb_spec b multiplierBpsOne) end; lia.
Qed.

Lemma planTask_nonneg req input p :
  wf_config → JsonWidths J → planTask cfg policy req input = Ok p → 0 ≤ ep_MaxOutputTokens p.1.1.2.
Proof.
  intros Hwf HJ. unfold planTask, planOpenAIChatCompletionsV1Task, planOpenAIResponsesV1Task. intros H.
  case_bool_decide; [|case_bool_decide; [|done]]; invert_ok; subst p; simpl.
  - destruct (parseOpenAIChatCompletionsRequest input) as [r|] eqn:Er; [|done]. injection Hx1 as <-.
    destruct (maxOutputTokensForModel cfg policy (oa_Model x0)) as [m|] eqn:Em; [|done]. injection Hx5 as <-.
    pose proof (maxOutputTokensForModel_nonneg _ _ Hwf Em). pose proof (json_widths _ _ Er) as Hw.
    destruct (maxOutputTokens r) as [k|]; [|by injection Hx6 as <-].
    destruct (k =? 0); [done|]. destruct (m <? k); [done|]. injection Hx6 as <-. unfold is_uint in Hw. lia.
  - destruct (maxOutputTokensForModel cfg policy (oa_Model x0)) as [m|] eqn:Em; [|done]. injection Hx5 as <-.
    by apply maxOutputTokensForModel_nonneg in Em.
Qed.

(** C17: an input that gets a price is a valid input for its task kind, it will be
    planned the same way when the job runs, the output allowance is positive
    and within the provider's limit for the model, and the price covers the
    estimated input tokens (a quarter of the bytes, rounded up) and the whole
    output allowance at the table's rates, whatever the load. *)
Theorem quote_covers_cost inFlight req input b :
  wf_config → JsonWidths J → blen input < 2 ^ 63 →
  quotePrice cfg policy inFlight req input = Ok b →
  validateInputStream req input = None ∧
  ∃ task pol model streaming e n,
    planTask cfg policy req input = Ok (task, pol, model, streaming) ∧
    priceTable cfg !! model = Some e ∧ maxOutputTokensForModel cfg policy model = Ok n ∧
    0 < ep_MaxOutputTokens pol ≤ n ∧
    quoted_cost e input (ep_MaxOutputTokens pol) ≤ pb_PriceMsat b * tokensPerMillion.
Proof.
  intros Hwf HJ Hlen. unfold quotePrice. intros H.
  apply bind_ok_inv in H as ([[[task pol] model] streaming] & Hplan & H).
  pose proof (planTask_ok _ _ _ Hplan) as (_ & _ & _ & Hin & _ & Hval & Hnz & n & Hn & Hle).
  pose proof (planTask_nonneg _ _ _ Hwf HJ Hplan) as Hpos. simpl in Hpos.
  apply bind_ok_inv in H as (est & Hest & H). unfold Estimate in Hest. invert_ok. subst est b.
  unfold QuotePrice, priceFromTokens in Hx. cbn [es_Usage u_InputTokens u_MaxOutputTokens] in Hx.
  apply bind_ok_inv in Hx as (e & He & Hx). apply or_err_ok_inv in He.
  apply bind_ok_inv in Hx as (base & Hbase & [= <-]). cbn [pb_PriceMsat] in *.
  split; [done|]. exists task, pol, model, streaming, e, n. split_and!; try done; [lia|].
  destruct Hwf as (_ & _ & Hprices). destruct (Hprices _ _ He) as (He1 & He2 & He3).
  rewrite Hin, approx_tokens in Hbase by done. pose proof (blen_nonneg input).
  assert (0 ≤ (blen input + 3) / 4) by (apply Z.div_pos; lia).
  apply totalMsat_covers in Hbase as [Hcov Hu]; [|by unfold wf_tokens; simpl; split_and!].
  apply multiplier_covers in Hx0; [|unfold is_uint in Hu; lia|apply multiplier_at_least_one].
  unfold tokens_cost in Hcov. simpl in Hcov. unfold quoted_cost, tokensPerMillion in *. lia.
Qed.
End proofs.

(** ** Witnesses *)

Module ValidationExamples.
#[local] Instance tlv : TlvLib := bolt_tlv.
(** A decoder that accepts two fixed bodies. *)
Definition body : bytes := bytes_of_string "{model:m,messages:[{}],max_tokens:16}".
#[local] Instance json : JsonLib := {|
  parseOpenAIChatCompletionsRequest b :=
    if bool_decide (b = body) then
      Ok {| cr_Model := "m"; cr_Messages := [bytes_of_string "{}"]; cr_Stream := None;
            cr_MaxTokens := Some 16; cr_MaxCompletionTokens := None; cr_MaxOutputTokens := None |}
    else Err "invalid"%string;
  parseOpenAIResponsesRequest _ := Err "invalid"%string;
|}.
#[local] Instance fmt : Fmt := {| fmt_q s := s |}.
#[local] Instance wtext : WireText := λ _, "tlv"%string.

Lemma json_is_wide : JsonWidths json.
Proof.
  intros b r. simpl. case_bool_decide; [|done]. intros [= <-]. split; vm_compute; [discriminate|reflexivity].
Qed.

Definition req : QuoteRequest :=
  {| qr_Envelope := {| env_ProtocolVersion := 2; env_JobID := repeat Byte.x01 32;
                       env_MsgID := repeat Byte.x02 32; env_Expiry := 1700000000 |};
     qr_TaskKind := taskKindOpenAIChatCompletionsV1;
     qr_ParamsBytes := Some [Byte.x01; Byte.x01; Byte.x6d] |}.
Definition cfg : Config :=
  {| cfg_Enabled := true; cfg_QuoteTTLSeconds := 300;
     cfg_InFlightSurge := {| sg_Threshold := 1; sg_PerJobBps := 1000; sg_MaxMultiplierBps := 0 |};
     cfg_Models := {[ "m"%string := {| mc_MaxOutputTokens := Some 64; mc_Price :=
       {| pe_Model := "m"; pe_InputMsatPerMTok := 1000000; pe_CachedInputMsatPerMTok := None;
          pe_OutputMsatPerMTok := 2000000 |} |} ]} |}.
Definition policy : ExecutionPolicy := {| ep_MaxOutputTokens := 4096 |}.

Lemma validate_quote_request_spec_witness :
  ValidateQuoteRequest DefaultValidator req None = None.
Proof.
  apply (validate_quote_request_spec req None). split_and!; [done|by left| |done].
  exists {| oa_Model := "m"; oa_Unknown := ∅ |}, [Byte.x01; Byte.x01; Byte.x6d].
  split_and!; vm_compute; reflexivity.
Defined.

Lemma cfg_is_wf : wf_config cfg policy.
Proof.
  split_and!; [split; vm_compute; [discriminate|reflexivity]|..].
  - apply map_Forall_singleton. split; vm_compute; [discriminate|reflexivity].
  - intros k e. assert (Hpt : priceTable cfg = {[ "m"%string :=
      {| pe_Model := "m"; pe_InputMsatPerMTok := 1000000; pe_CachedInputMsatPerMTok := None;
         pe_OutputMsatPerMTok := 2000000 |} ]}) by (vm_compute; reflexivity).
    rewrite Hpt, lookup_singleton_Some. intros [_ <-]. simpl. lia.
Qed.

Definition breakdown : PriceBreakdown :=
  {| pb_InputTokens := 10; pb_CachedInputTokens := 0; pb_OutputTokens := 16; pb_PriceMsat := 51 |}.

Lemma quote_covers_cost_witness :
  validateInputStream req body = None ∧
  ∃ task pol model streaming e n,
    planTask cfg policy req body = Ok (task, pol, model, streaming) ∧
    priceTable cfg !! model = Some e ∧ maxOutputTokensForModel cfg policy model = Ok n ∧
    0 < ep_MaxOutputTokens pol ≤ n ∧
    quoted_cost e body (ep_MaxOutputTokens pol) ≤ pb_PriceMsat breakdown * tokensPerMillion.
Proof.
  apply (quote_covers_cost cfg policy 3 req body breakdown cfg_is_wf json_is_wide);
    vm_compute; reflexivity.
Defined.
End ValidationExamples.
