(* ===== verification/Tasks.v ===== *)
(** * Package [lcptasks]: tasks of the API and their wire form

    A [lcpdv1.Task] is validated strictly and becomes the task kind and the
    parameters of a quote request and the bytes of an input stream.  The JSON
    decoder is a parameter: the fields of the anonymous structs that
    [encoding/json] fills in, or the text of its error. *)

From S2P Require Import Prelude GoStd TlvLib Wire WireProofs Pricing Terms Validation.

Module Tasks.

(** ** Data *)

(** [OpenAIChatCompletionsV1TaskSpec] and [OpenAIResponsesV1TaskSpec] have the same
    fields; [ts_Params] is the [model] of the params, [None] for a nil pointer. *)
Record TaskSpec := { ts_RequestJson : bytes; ts_Params : option string }.

(** The oneof [spec]; the pointer inside may be nil. *)
Inductive Spec :=
| OpenaiChatCompletionsV1 (spec : option TaskSpec)
| OpenaiResponsesV1 (spec : option TaskSpec).

(** [lcpdv1.Task]; [None] is an unset oneof. *)
Record Task := { tk_Spec : option Spec }.

Inductive tasks_err :=
| ErrTaskRequired | ErrTaskSpecRequired
| ErrOpenAIChatCompletionsV1TaskRequired | ErrOpenAIChatCompletionsV1RequestJSONRequired
| ErrOpenAIChatCompletionsV1RequestJSONInvalid (msg : string)
| ErrOpenAIChatCompletionsV1ParamsRequired | ErrOpenAIChatCompletionsV1ModelRequired
| ErrOpenAIChatCompletionsV1ModelInvalid | ErrOpenAIChatCompletionsV1RequestModelRequired
| ErrOpenAIChatCompletionsV1RequestMessagesRequired | ErrOpenAIChatCompletionsV1ModelMismatch
| ErrOpenAIResponsesV1TaskRequired | ErrOpenAIResponsesV1RequestJSONRequired
| ErrOpenAIResponsesV1RequestJSONInvalid (msg : string)
| ErrOpenAIResponsesV1ParamsRequired | ErrOpenAIResponsesV1ModelRequired
| ErrOpenAIResponsesV1ModelInvalid | ErrOpenAIResponsesV1RequestModelRequired
| ErrOpenAIResponsesV1RequestInputRequired | ErrOpenAIResponsesV1ModelMismatch
| ErrEncodeParams (kind : string) (e : wire_err).

Record QuoteRequestTask := { qt_TaskKind : string; qt_ParamsBytes : bytes }.

Record InputStream := {
  in_DecodedBytes : bytes;
  in_ContentType : string;
  in_ContentEncoding : string;
}.

Definition ContentTypeApplicationJSONUTF8 : string := "application/json; charset=utf-8".
Definition ContentEncodingIdentity : string := "identity".

(** The fields [json.Unmarshal] reads: model and messages, model and input. *)
Class TaskJson := {
  json_chat : bytes → result string (string * list bytes);
  json_responses : bytes → result string (string * bytes);
}.

Section tasks.
Context {T : TlvLib} {W : WireText} {TJ : TaskJson}.

(** [Error()]. *)
Definition tasks_text (e : tasks_err) : string :=
  match e with
  | ErrTaskRequired => "task is required"
  | ErrTaskSpecRequired => "task spec is required"
  | ErrOpenAIChatCompletionsV1TaskRequired => "openai_chat_completions_v1 task is required"
  | ErrOpenAIChatCompletionsV1RequestJSONRequired => "openai_chat_completions_v1.request_json is required"
  | ErrOpenAIChatCompletionsV1RequestJSONInvalid m =>
      "openai_chat_completions_v1.request_json must be valid json: " +:+ m
  | ErrOpenAIChatCompletionsV1ParamsRequired => "openai_chat_completions_v1.params is required"
  | ErrOpenAIChatCompletionsV1ModelRequired => "openai_chat_completions_v1.params.model is required"
  | ErrOpenAIChatCompletionsV1ModelInvalid => "openai_chat_completions_v1.params.model must be valid UTF-8"
  | ErrOpenAIChatCompletionsV1RequestModelRequired =>
      "openai_chat_completions_v1.request_json.model is required"
  | ErrOpenAIChatCompletionsV1RequestMessagesRequired =>
      "openai_chat_completions_v1.request_json.messages is required"
  | ErrOpenAIChatCompletionsV1ModelMismatch =>
      "openai_chat_completions_v1.params.model must match request_json.model"
  | ErrOpenAIResponsesV1TaskRequired => "openai_responses_v1 task is required"
  | ErrOpenAIResponsesV1RequestJSONRequired => "openai_responses_v1.request_json is required"
  | ErrOpenAIResponsesV1RequestJSONInvalid m =>
      "openai_responses_v1.request_json must be valid json: " +:+ m
  | ErrOpenAIResponsesV1ParamsRequired => "openai_responses_v1.params is required"
  | ErrOpenAIResponsesV1ModelRequired => "openai_responses_v1.params.model is required"
  | ErrOpenAIResponsesV1ModelInvalid => "openai_responses_v1.params.model must be valid UTF-8"
  | ErrOpenAIResponsesV1RequestModelRequired => "openai_responses_v1.request_json.model is required"
  | ErrOpenAIResponsesV1RequestInputRequired => "openai_responses_v1.request_json.input is required"
  | ErrOpenAIResponsesV1ModelMismatch => "openai_responses_v1.params.model must match request_json.model"
  | ErrEncodeParams kind e => "encode " +:+ kind +:+ " params: " +:+ wire_text e
  end.

(** ** Operations *)

Definition validateOpenAIChatCompletionsV1 (spec : option TaskSpec) : result tasks_err unit :=
  spec ← or_err spec ErrOpenAIChatCompletionsV1TaskRequired;
  _ ← ensure (negb (blen (ts_RequestJson spec) =? 0)) ErrOpenAIChatCompletionsV1RequestJSONRequired;
  model ← or_err (ts_Params spec) ErrOpenAIChatCompletionsV1ParamsRequired;
  _ ← ensure (negb (bool_decide (model = ""%string))) ErrOpenAIChatCompletionsV1ModelRequired;
  _ ← ensure (utf8_valid (bytes_of_string model)) ErrOpenAIChatCompletionsV1ModelInvalid;
  match json_chat (ts_RequestJson spec) with
  | Err m => Err (ErrOpenAIChatCompletionsV1RequestJSONInvalid m)
  | Ok (parsedModel, messages) =>
    _ ← ensure (negb (bool_decide (parsedModel = ""%string))) ErrOpenAIChatCompletionsV1RequestModelRequired;
    _ ← ensure (negb (blen messages =? 0)) ErrOpenAIChatCompletionsV1RequestMessagesRequired;
    ensure (bool_decide (parsedModel = model)) ErrOpenAIChatCompletionsV1ModelMismatch
  end.

Definition validateOpenAIResponsesV1 (spec : option TaskSpec) : result tasks_err unit :=
  spec ← or_err spec ErrOpenAIResponsesV1TaskRequired;
  _ ← ensure (negb (blen (ts_RequestJson spec) =? 0)) ErrOpenAIResponsesV1RequestJSONRequired;
  model ← or_err (ts_Params spec) ErrOpenAIResponsesV1ParamsRequired;
  _ ← ensure (negb (bool_decide (model = ""%string))) ErrOpenAIResponsesV1ModelRequired;
  _ ← ensure (utf8_valid (bytes_of_string model)) ErrOpenAIResponsesV1ModelInvalid;
  match json_responses (ts_RequestJson spec) with
  | Err m => Err (ErrOpenAIResponsesV1RequestJSONInvalid m)
  | Ok (parsedModel, input) =>
    _ ← ensure (negb (bool_decide (parsedModel = ""%string))) ErrOpenAIResponsesV1RequestModelRequired;
    _ ← ensure (negb (input_missing input)) ErrOpenAIResponsesV1RequestInputRequired;
    ensure (bool_decide (parsedModel = model)) ErrOpenAIResponsesV1ModelMismatch
  end.

(** [None] is a nil task; the oneof has no third case, so [ErrUnsupportedTask] does
    not occur. *)
Definition ValidateTask (task : option Task) : result tasks_err unit :=
  task ← or_err task ErrTaskRequired;
  match tk_Spec task with
  | None => Err ErrTaskSpecRequired
  | Some (OpenaiChatCompletionsV1 spec) => validateOpenAIChatCompletionsV1 spec
  | Some (OpenaiResponsesV1 spec) => validateOpenAIResponsesV1 spec
  end.

(** The getters on nil pointers return zero values. *)
Definition spec_model (spec : option TaskSpec) : string := default ""%string (spec ≫= ts_Params).
Definition spec_json (spec : option TaskSpec) : bytes := default [] (ts_RequestJson <$> spec).
Definition task_spec (task : option Task) : option Spec := task ≫= tk_Spec.

Definition ToWireQuoteRequestTask (task : option Task) : result tasks_err QuoteRequestTask :=
  _ ← ValidateTask task;
  match task_spec task with
  | Some (OpenaiChatCompletionsV1 spec) =>
    match EncodeOpenAIChatCompletionsV1Params {| oa_Model := spec_model spec; oa_Unknown := ∅ |} with
    | Err e => Err (ErrEncodeParams "openai_chat_completions_v1" e)
    | Ok paramsBytes =>
      Ok {| qt_TaskKind := taskKindOpenAIChatCompletionsV1; qt_ParamsBytes := paramsBytes |}
    end
  | Some (OpenaiResponsesV1 spec) =>
    match EncodeOpenAIResponsesV1Params {| oa_Model := spec_model spec; oa_Unknown := ∅ |} with
    | Err e => Err (ErrEncodeParams "openai_responses_v1" e)
    | Ok paramsBytes =>
      Ok {| qt_TaskKind := taskKindOpenAIResponsesV1; qt_ParamsBytes := paramsBytes |}
    end
  | None => Err ErrTaskSpecRequired
  end.

Definition ToWireInputStream (task : option Task) : result tasks_err InputStream :=
  _ ← ValidateTask task;
  match task_spec task with
  | Some (OpenaiChatCompletionsV1 spec) | Some (OpenaiResponsesV1 spec) =>
    Ok {| in_DecodedBytes := spec_json spec; in_ContentType := ContentTypeApplicationJSONUTF8;
          in_ContentEncoding := ContentEncodingIdentity |}
  | None => Err ErrTaskSpecRequired
  end.
End tasks.

(** ** The provider accepts what was validated *)

(** Both sides decode the same JSON: where the provider's decoder, which reads more
    fields, succeeds, the requester's reads the same values. *)
Class JsonAgree (TJ : TaskJson) (J : JsonLib) : Prop := {
  agree_chat b r : parseOpenAIChatCompletionsRequest b = Ok r → json_chat b = Ok (cr_Model r, cr_Messages r);
  agree_responses b r : parseOpenAIResponsesRequest b = Ok r → json_responses b = Ok (rr_Model r, rr_Input r);
}.

Section accepted.
Context {T : TlvLib} {L : TlvLaws T} {W : WireText} {F : Fmt} {TJ : TaskJson} {J : JsonLib} {JA : JsonAgree TJ J}.

(** The provider's decoder accepts the request. *)
Definition provider_parses (kind : string) (input : bytes) : Prop :=
  if bool_decide (kind = taskKindOpenAIChatCompletionsV1)
  then ∃ r, parseOpenAIChatCompletionsRequest input = Ok r
  else ∃ r, parseOpenAIResponsesRequest input = Ok r.

(** What a valid task is: its kind, model and request. *)
Lemma validated_chat spec :
  validateOpenAIChatCompletionsV1 spec = Ok tt → ∃ m,
    spec_model spec ≠ ""%string ∧ utf8_valid (bytes_of_string (spec_model spec)) = true ∧
    json_chat (spec_json spec) = Ok (spec_model spec, m) ∧ blen m ≠ 0.
Proof.
  unfold validateOpenAIChatCompletionsV1. intros H. invert_ok. subst spec. unfold spec_model, spec_json. simpl.
  destruct (json_chat _) as [[model m]|] eqn:Hj; [|done]. invert_ok.
  repeat match goal with H : ts_Params _ = Some _ |- _ => rewrite H in * end. simpl.
  bool_to_prop. subst. by exists m.
Qed.

Lemma validated_responses spec :
  validateOpenAIResponsesV1 spec = Ok tt → ∃ m,
    spec_model spec ≠ ""%string ∧ utf8_valid (bytes_of_string (spec_model spec)) = true ∧
    json_responses (spec_json spec) = Ok (spec_model spec, m) ∧ input_missing m = false.
Proof.
  unfold validateOpenAIResponsesV1. intros H. invert_ok. subst spec. unfold spec_model, spec_json. simpl.
  destruct (json_responses _) as [[model m]|] eqn:Hj; [|done]. invert_ok.
  repeat match goal with H : ts_Params _ = Some _ |- _ => rewrite H in * end. simpl.
  bool_to_prop. subst. by exists m.
Qed.

(** The model of a task. *)
Definition task_model (task : option Task) : string :=
  match task_spec task with
  | Some (OpenaiChatCompletionsV1 spec) | Some (OpenaiResponsesV1 spec) => spec_model spec
  | None => ""
  end.

Lemma params_decode model p :
  blen (bytes_of_string model) ≤ max_record_size → model ≠ ""%string →
  utf8_valid (bytes_of_string model) = true →
  EncodeOpenAIParams {| oa_Model := model; oa_Unknown := ∅ |} = Ok p →
  DecodeOpenAIParams p = Ok {| oa_Model := model; oa_Unknown := ∅ |}.
Proof using L.
  intros Hl Hne Hu Henc. destruct (openai_params_rt model) as (p' & Hp & Hdec); [by repeat split|congruence].
Qed.

(** A task that [ValidateTask] accepts is one the provider accepts: the quote
    request the requester builds from it passes the provider's [ValidateQuoteRequest],
    its input stream has the content type and encoding the provider expects, and the
    provider's [validateInputStream] passes exactly when the provider's JSON decoder,
    which reads further fields, accepts the request. *)
Theorem validated_task_accepted task wt ins env :
  env_ProtocolVersion env = ProtocolVersionV02 →
  blen (bytes_of_string (task_model task)) ≤ max_record_size →
  ToWireQuoteRequestTask task = Ok wt → ToWireInputStream task = Ok ins →
  let q := {| qr_Envelope := env; qr_TaskKind := qt_TaskKind wt; qr_ParamsBytes := Some (qt_ParamsBytes wt) |} in
  ValidateQuoteRequest DefaultValidator q None = None ∧
  in_ContentType ins = inputContentTypeForTaskKind (qr_TaskKind q) ∧
  in_ContentEncoding ins = contentEncodingIdentity ∧
  (validateInputStream q (in_DecodedBytes ins) = None ↔ provider_parses (qr_TaskKind q) (in_DecodedBytes ins)).
Proof using L JA.
  intros Hv Hlen Hwt Hins q. unfold ToWireQuoteRequestTask, ToWireInputStream in *. invert_ok.
  destruct task as [[sp]|]; [|done]. unfold task_model in Hlen. unfold ValidateTask in *. simpl in *.
  destruct sp as [[spec|spec]|]; [| |done]; simpl in *.
  - destruct (EncodeOpenAIChatCompletionsV1Params _) as [ps|] eqn:Henc; [|done]. invert_ok. subst wt ins.
    match goal with H : validateOpenAIChatCompletionsV1 _ = Ok ?u |- _ => destruct u;
      apply validated_chat in H as (m & Hne & Hu & Hj & Hm) end.
    pose proof (params_decode _ _ Hlen Hne Hu Henc) as Hdec.
    split_and!; [|done|done|].
    + unfold ValidateQuoteRequest, validateTaskParams, DecodeOpenAIChatCompletionsV1Params. simpl.
      rewrite Hv, Hdec. by vm_compute.
    + unfold validateInputStream, provider_parses, DecodeOpenAIChatCompletionsV1Params. simpl. rewrite Hdec.
      destruct (parseOpenAIChatCompletionsRequest _) as [r|e] eqn:Hr; [|by split; [|intros []]].
      rewrite (agree_chat _ _ Hr) in Hj. injection Hj as H1 H2. simpl. rewrite H1, H2.
      rewrite (bool_decide_eq_false_2 _ Hne), (proj2 (Z.eqb_neq _ _) Hm), bool_decide_eq_true_2 by done.
      simpl. split; [by eexists|done].
  - destruct (EncodeOpenAIResponsesV1Params _) as [ps|] eqn:Henc; [|done]. invert_ok. subst wt ins.
    match goal with H : validateOpenAIResponsesV1 _ = Ok ?u |- _ => destruct u;
      apply validated_responses in H as (m & Hne & Hu & Hj & Hm) end.
    pose proof (params_decode _ _ Hlen Hne Hu Henc) as Hdec.
    split_and!; [|done|done|].
    + unfold ValidateQuoteRequest, validateTaskParams, DecodeOpenAIResponsesV1Params. simpl.
      rewrite Hv, Hdec. by vm_compute.
    + unfold validateInputStream, provider_parses, DecodeOpenAIResponsesV1Params. simpl. rewrite Hdec.
      destruct (parseOpenAIResponsesRequest _) as [r|e] eqn:Hr; [|by split; [|intros []]].
      rewrite (agree_responses _ _ Hr) in Hj. injection Hj as H1 H2. simpl. rewrite H1, H2.
      rewrite (bool_decide_eq_false_2 _ Hne), Hm, bool_decide_eq_true_2 by done.
      simpl. split; [by eexists|done].
Qed.
End accepted.
End Tasks.
