(* ===== verification/Lightning.v ===== *)
(** * Package [lightningrpc]: the requester's calls to its Lightning node

    The node ([lnrpc], [routerrpc]) is a parameter: what [GetInfo], [DecodePayReq]
    and [SendPaymentV2] answer.  [Client] is what the code makes of the answers;
    [LightningRPC] is the interface the gRPC service sees, with the ranges the
    service relies on ([LightningLaws]), which [Client] establishes. *)

From stdpp Require Import pretty.
From S2P Require Import Prelude GoStd TlvLib Terms.

(** ** Errors and data *)

(** The three sentinels, and errors of the node that are passed on. *)
Inductive ln_err :=
| ErrNotConfigured
| ErrPaymentFailed (msg : string)
| ErrInvalidRequest (msg : string)
| ErrNode (msg : string).

Definition ln_text (e : ln_err) : string :=
  match e with
  | ErrNotConfigured => "lightning rpc not configured"
  | ErrPaymentFailed m => "payment failed: " +:+ m
  | ErrInvalidRequest m => "invalid request: " +:+ m
  | ErrNode m => m
  end.

Record Info := { i_IdentityPubKey : string }.

Record PaymentRequestInfo := {
  pi_DescriptionHash : bytes;
  pi_PayeePubKey : string;
  pi_AmountMsat : Z;
  pi_TimestampUnix : Z;
  pi_ExpirySeconds : Z;
}.

(** What the service asks of the node; [n] distinguishes successive calls. *)
Class LightningRPC := {
  rpc_GetInfo : nat → result ln_err Info;
  rpc_DecodePaymentRequest : nat → string → result ln_err PaymentRequestInfo;
}.

Definition is_i64 (v : Z) : Prop := - 2 ^ 63 ≤ v ≤ max_i64.

(** Signed 64-bit wrap-around. *)
Definition wrap_i64 (v : Z) : Z := (v + 2 ^ 63) mod 2 ^ 64 - 2 ^ 63.

(** A decoded payment request: a hash of 32 bytes, a payee, no negative number. *)
Definition wf_info (i : PaymentRequestInfo) : Prop :=
  length (pi_DescriptionHash i) = 32%nat ∧ pi_PayeePubKey i ≠ ""%string ∧
  0 ≤ pi_AmountMsat i ≤ max_i64 ∧ 0 ≤ pi_TimestampUnix i ≤ max_i64 ∧
  0 ≤ pi_ExpirySeconds i ≤ max_i64.

Class LightningLaws (LN : LightningRPC) : Prop :=
  rpc_decode_wf n pr i : rpc_DecodePaymentRequest n pr = Ok i → wf_info i.

(** ** The node *)

(** [lnrpc.PayReq]; the numbers are [int64]s. *)
Record PayReq := {
  pq_DescriptionHash : string;
  pq_Destination : string;
  pq_NumMsat : Z;
  pq_NumSatoshis : Z;
  pq_Timestamp : Z;
  pq_Expiry : Z;
}.

(** [lnrpc.Payment_PaymentStatus]: the two final values and the others. *)
Inductive PaymentStatus := Payment_SUCCEEDED | Payment_FAILED | Payment_OTHER.

#[export] Instance PaymentStatus_eq_dec : EqDecision PaymentStatus.
Proof. solve_decision. Defined.

Record Payment := {
  pm_Status : PaymentStatus;
  pm_PaymentPreimage : string;
  pm_FailureReason : string;   (** its [String()] *)
}.

(** What [stream.Recv()] returns; past the end of the list, [io.EOF]. *)
Inductive recv := RecvUpdate (update : option Payment) | RecvEOF | RecvErr (msg : string).

(** The two clients; a nil client is [None].  An answer is an error text or a value;
    [hex_error] is [Error()] of [hex.DecodeString]. *)
Record Node := {
  nd_GetInfo : option (nat → result string string);
  nd_DecodePayReq : option (nat → string → result string PayReq);
  nd_SendPaymentV2 : option (nat → string → result string (list recv));
  nd_hex_error : string → string;
}.

Definition defaultPaymentTimeoutSeconds : Z := 30.
Definition defaultFeeLimitSat : Z := 10000.

Section client.
Context (nd : Node).

(** ** [Client] *)

Definition GetInfo (n : nat) : result ln_err Info :=
  match nd_GetInfo nd with
  | None => Err ErrNotConfigured
  | Some get =>
    match get n with
    | Err m => Err (ErrNode ("GetInfo: " +:+ m))
    | Ok pubkey =>
      let identity := TrimSpace pubkey in
      if bool_decide (identity = ""%string) then Err (ErrInvalidRequest "identity_pubkey is empty")
      else Ok {| i_IdentityPubKey := identity |}
    end
  end.

(** The invoice's amount in millisatoshis: a bare amount in satoshis is scaled. *)
Definition invoiceAmount (numMsat numSats : Z) : result ln_err Z :=
  numMsat ←
    (if (numMsat =? 0) && (0 <? numSats) then
       if max_i64 / 1000 <? numSats then Err (ErrInvalidRequest "invoice amount overflows msat")
       else Ok (numSats * 1000)
     else Ok numMsat);
  if numMsat <? 0 then Err (ErrInvalidRequest "invoice amount_msat is negative") else Ok numMsat.

Definition DecodePaymentRequest (n : nat) (paymentRequest : string) : result ln_err PaymentRequestInfo :=
  decode ← or_err (nd_DecodePayReq nd) ErrNotConfigured;
  _ ← ensure (negb (bool_decide (TrimSpace paymentRequest = ""%string)))
        (ErrInvalidRequest "payment_request is required");
  resp ← match decode n paymentRequest with
         | Err m => Err (ErrNode ("DecodePayReq: " +:+ m))
         | Ok resp => Ok resp
         end;
  let descriptionHashHex := TrimSpace (pq_DescriptionHash resp) in
  _ ← ensure (negb (bool_decide (descriptionHashHex = ""%string)))
        (ErrInvalidRequest "description_hash is empty");
  descriptionHash ← or_err (hex_decode descriptionHashHex)
        (ErrInvalidRequest ("decode description_hash: " +:+ nd_hex_error nd descriptionHashHex));
  _ ← ensure (blen descriptionHash =? Hash32Len)
        (ErrInvalidRequest ("description_hash must be " +:+ pretty Hash32Len +:+ " bytes, got " +:+
                            pretty (blen descriptionHash)));
  let payee := TrimSpace (pq_Destination resp) in
  _ ← ensure (negb (bool_decide (payee = ""%string))) (ErrInvalidRequest "destination is empty");
  numMsat ← invoiceAmount (pq_NumMsat resp) (pq_NumSatoshis resp);
  _ ← ensure (0 <=? pq_Timestamp resp) (ErrInvalidRequest "invoice timestamp is negative");
  _ ← ensure (0 <=? pq_Expiry resp) (ErrInvalidRequest "invoice expiry_seconds is negative");
  Ok {| pi_DescriptionHash := descriptionHash; pi_PayeePubKey := payee; pi_AmountMsat := numMsat;
        pi_TimestampUnix := pq_Timestamp resp; pi_ExpirySeconds := pq_Expiry resp |}.

Definition decodePaymentPreimage (preimage : string) : result ln_err bytes :=
  _ ← ensure (negb (bool_decide (preimage = ""%string))) (ErrInvalidRequest "payment_preimage is empty");
  preimageBytes ←
    (if blen (bytes_of_string preimage) =? Hash32Len * 2 then
       or_err (hex_decode preimage)
         (ErrInvalidRequest ("decode payment_preimage: " +:+ nd_hex_error nd preimage))
     else Ok (bytes_of_string preimage));
  _ ← ensure (blen preimageBytes =? Hash32Len)
        (ErrInvalidRequest ("payment_preimage must be " +:+ pretty Hash32Len +:+ " bytes, got " +:+
                            pretty (blen preimageBytes)));
  Ok preimageBytes.

(** [recvLoop]: the first final update, [None] at the end of the stream. *)
Fixpoint recvLoop (updates : list recv) : result ln_err (option Payment) :=
  match updates with
  | [] | RecvEOF :: _ => Ok None
  | RecvErr m :: _ => Err (ErrNode ("SendPaymentV2 recv: " +:+ m))
  | RecvUpdate None :: rest => recvLoop rest
  | RecvUpdate (Some update) :: rest =>
    match pm_Status update with
    | Payment_SUCCEEDED | Payment_FAILED => Ok (Some update)
    | Payment_OTHER => recvLoop rest
    end
  end.

Definition PayInvoice (n : nat) (paymentRequest : string) : result ln_err bytes :=
  send ← or_err (nd_SendPaymentV2 nd) ErrNotConfigured;
  _ ← ensure (negb (bool_decide (TrimSpace paymentRequest = ""%string)))
        (ErrInvalidRequest "payment_request is required");
  updates ← match send n paymentRequest with
            | Err m => Err (ErrNode ("SendPaymentV2: " +:+ m))
            | Ok updates => Ok updates
            end;
  final ← recvLoop updates;
  match final with
  | None => Err (ErrPaymentFailed "no final payment status")
  | Some final =>
    if bool_decide (pm_Status final = Payment_FAILED) then Err (ErrPaymentFailed (pm_FailureReason final))
    else decodePaymentPreimage (pm_PaymentPreimage final)
  end.
End client.

(** The client is what the service is given. *)
Definition client_rpc (nd : Node) : LightningRPC :=
  {| rpc_GetInfo := GetInfo nd; rpc_DecodePaymentRequest := DecodePaymentRequest nd |}.

(** ** The client keeps the contract *)

(** The node's numbers are [int64]s. *)
Class NodeRanges (nd : Node) : Prop :=
  node_ranges decode n pr r : nd_DecodePayReq nd = Some decode → decode n pr = Ok r →
    is_i64 (pq_NumMsat r) ∧ is_i64 (pq_NumSatoshis r) ∧ is_i64 (pq_Timestamp r) ∧ is_i64 (pq_Expiry r).

Lemma invoiceAmount_spec numMsat numSats v :
  is_i64 numMsat → is_i64 numSats →
  invoiceAmount numMsat numSats = Ok v ↔
    v = (if bool_decide (numMsat = 0 ∧ 0 < numSats) then numSats * 1000 else numMsat) ∧ 0 ≤ v ≤ max_i64.
Proof.
  intros Hm Hs. unfold invoiceAmount, is_i64 in *. change (max_i64 / 1000) with 9223372036854775.
  destruct (Z.eqb_spec numMsat 0) as [->|Hne]; [destruct (Z.ltb_spec 0 numSats)|]; cbn [andb].
  - rewrite bool_decide_eq_true_2 by done. destruct (Z.ltb_spec 9223372036854775 numSats) as [Hb|Hb]; simpl.
    + split; [done|]. intros [-> H2]. unfold max_i64 in *. lia.
    + destruct (Z.ltb_spec (numSats * 1000) 0); [lia|]. unfold max_i64 in *. split; [intros [= <-]|intros [-> _]; done].
      split; [done|lia].
  - rewrite bool_decide_eq_false_2 by lia. simpl. unfold max_i64. split; [intros [= <-]|intros [-> _]; done].
    split; [done|lia].
  - rewrite bool_decide_eq_false_2 by (by intros []). simpl.
    destruct (Z.ltb_spec numMsat 0); simpl; split; try done; [intros [-> ?]; lia|intros [= <-]|intros [-> _]; done].
    split; [done|lia].
Qed.

(** The Lightning client gives the service what it relies on: a payment request
    it decodes has a description hash of 32 bytes and a payee, and its amount, its
    timestamp and its expiry are not negative and fit in an [int64]; an amount given
    in satoshis is scaled without overflow. *)
Theorem client_keeps_contract nd : NodeRanges nd → LightningLaws (client_rpc nd).
Proof.
  intros Hr n pr i H. cbn [rpc_DecodePaymentRequest client_rpc] in H. unfold DecodePaymentRequest in H. invert_ok.
  match goal with H : match ?d with Ok _ => _ | Err _ => _ end = Ok _ |- _ =>
    destruct d as [r|] eqn:Hd; [injection H as <-|done] end.
  match goal with H : nd_DecodePayReq nd = Some _ |- _ =>
    destruct (Hr _ _ _ _ H Hd) as (H1 & H2 & H3 & H4) end.
  match goal with H : invoiceAmount _ _ = Ok _ |- _ => apply invoiceAmount_spec in H as [_ Ha]; [|done..] end.
  subst i. unfold wf_info. simpl. bool_to_prop. unfold is_i64, blen, Hash32Len in *. split_and!; try done; lia.
Qed.

(** *** Payments *)

(** The preimage: 64 hexadecimal digits or 32 raw bytes. *)
Definition preimage_of (s : string) : option bytes :=
  let b := bytes_of_string s in
  if blen b =? 64 then hex_decode s else if blen b =? 32 then Some b else None.

Definition not_final (u : recv) : Prop :=
  match u with
  | RecvUpdate None => True
  | RecvUpdate (Some p) => pm_Status p = Payment_OTHER
  | _ => False
  end.

Definition final (p : Payment) : Prop := pm_Status p ≠ Payment_OTHER.

Lemma recvLoop_spec updates p :
  recvLoop updates = Ok (Some p) ↔
  final p ∧ ∃ before after, updates = before ++ RecvUpdate (Some p) :: after ∧ Forall not_final before.
Proof.
  unfold final. split.
  - induction updates as [|u updates IH]; [done|]. destruct u as [[q|]| |]; simpl; try done.
    + destruct (pm_Status q) eqn:Hq; [intros [= ->]..|].
      * split; [congruence|]. by exists [], updates.
      * split; [congruence|]. by exists [], updates.
      * intros H. destruct (IH H) as (Hf & b & a & -> & Hb). split; [done|].
        exists (RecvUpdate (Some q) :: b), a. split; [done|by constructor].
    + intros H. destruct (IH H) as (Hf & b & a & -> & Hb). split; [done|].
      exists (RecvUpdate None :: b), a. split; [done|by constructor].
  - intros (Hf & b & a & -> & Hb). induction Hb as [|u b Hu Hb IH]; simpl.
    + by destruct (pm_Status p).
    + destruct u as [[q|]| |]; simpl in Hu; try done. by rewrite Hu.
Qed.

(** [PayInvoice] succeeds with a preimage exactly when the node's payment stream
    reaches a first final update, nothing but updates in progress before it, that
    says succeeded and carries the preimage as 64 hexadecimal digits or 32 bytes; a
    failed or missing final status is an error. *)
Theorem pay_invoice_spec nd n pr preimage :
  PayInvoice nd n pr = Ok preimage ↔
  TrimSpace pr ≠ ""%string ∧
  ∃ send p before after, nd_SendPaymentV2 nd = Some send ∧
    send n pr = Ok (before ++ RecvUpdate (Some p) :: after) ∧ Forall not_final before ∧
    pm_Status p = Payment_SUCCEEDED ∧
    preimage_of (pm_PaymentPreimage p) = Some preimage ∧ blen preimage = Hash32Len.
Proof.
  assert (Hpre : ∀ s, decodePaymentPreimage nd s = Ok preimage ↔
    preimage_of s = Some preimage ∧ blen preimage = Hash32Len).
  { intros s. unfold decodePaymentPreimage, preimage_of. change (Hash32Len * 2) with 64.
    destruct (decide (s = ""%string)) as [->|Hs]; [by split; [|intros []]|].
    rewrite bool_decide_eq_false_2 by done. simpl.
    destruct (blen (bytes_of_string s) =? 64).
    - destruct (hex_decode s) as [b|]; simpl; [|by split; [|intros []]].
      destruct (Z.eqb_spec (blen b) Hash32Len); simpl; naive_solver.
    - simpl. change Hash32Len with 32. destruct (Z.eqb_spec (blen (bytes_of_string s)) 32); simpl; naive_solver. }
  unfold PayInvoice. split.
  - intros H. invert_ok. bool_to_prop. split; [done|].
    destruct (x n pr) as [updates|] eqn:Hsend; [|done]. invert_ok. subst.
    match goal with H : match ?f with Some _ => _ | None => _ end = Ok _ |- _ => destruct f as [p|]; [|done] end.
    match goal with H : recvLoop _ = Ok _ |- _ => apply recvLoop_spec in H as (Hf & b & a & -> & Hb) end.
    case_bool_decide; [done|]. exists x, p, b, a. rewrite Hpre in H. unfold final in Hf.
    split_and!; try done; try apply H. by destruct (pm_Status p).
  - intros (Hpr & send & p & b & a & Hsend & Hup & Hb & Hst & Hp). rewrite Hsend. simpl.
    rewrite bool_decide_eq_false_2 by done. simpl. rewrite Hup. simpl.
    assert (Hr : recvLoop (b ++ RecvUpdate (Some p) :: a) = Ok (Some p)).
    { apply recvLoop_spec. split; [by unfold final; rewrite Hst|]. by exists b, a. }
    rewrite Hr. simpl. rewrite bool_decide_eq_false_2 by congruence. by apply Hpre.
Qed.
