(* ===== verification/Provider.v ===== *)
(** * The provider: [provider/handler.go]

    The handler's state is a record; a method is a function in the state monad
    [M].  The environment answers what the code cannot compute: the [n]-th effect
    (reading a clock, drawing random bytes, sending a message, adding an invoice)
    gets the [n]-th answer of [ProviderEnv].  [p_out] is the trace of what leaves
    the handler.

    Handlers run one at a time per message; the goroutines they start ([runJob])
    are the [runner]s of the state, and advance in the segments between two of
    their interactions with the job store, in any order with the handlers.  The
    dependencies the daemon always wires (job store, replay store, peer
    directory, messenger, invoice creator) are present. *)

From S2P Require Import Prelude GoStd TlvLib Wire Stores Replay JobStore PeerDir Terms Pricing Validation.

Import JobStore.

(** ** The environment and the trace *)

Class ProviderEnv := {
  env_clock : nat → Z;
  env_rand : nat → option bytes;
  env_send : nat → bool;
  env_invoice : nat → InvoiceRequest → option InvoiceResult;
}.

Inductive out :=
| OSent (peerPubKey : string) (typ : Z) (payload : bytes) (ok : bool)
| OInvoice (req : InvoiceRequest) (res : option InvoiceResult)
| OSettled (rid : nat) (paymentHash : bytes)
| OExec (rid : nat) (key : Key) (task : Task) (streaming : bool)
| OCtxDone (rid : nat).

(** ** State *)

(** What [output.Read] returns: the bytes, and [io.EOF] or another error. *)
Inductive read_err := ReadEOF | ReadErr (msg : string).
Record read := MkRead { rd_data : bytes; rd_err : option read_err }.

(** Where a [runJob] goroutine is: waiting for the settlement, about to plan, in
    the backend (with the planned task, whether a stream is wanted and whether
    the streaming interface was called), about to forward a streamed output, or
    returned. *)
Inductive pc :=
| PcSettle
| PcPlan
| PcExec (task : Task) (wantStreaming streaming : bool)
| PcStream (reads : list read)
| PcDone.

Record runner := MkRunner {
  r_key : Key;
  r_req : QuoteRequest;
  r_input : InputStreamState;
  r_quote : QuoteResponse;
  r_invoice : InvoiceResult;
  r_maxPayload : Z;
  r_timeout : option Z;   (** [WithTimeout] in seconds, [None] for [WithCancel] *)
  r_ctxDone : bool;
  r_pc : pc;
}.

Record PState := MkState {
  p_jobs : JobStore.Store;
  p_replay : ReplayStore.Store;
  p_peers : PeerDir.Directory;
  p_cancels : gmap Key nat;
  p_inFlight : Z;
  p_runners : gmap nat runner;
  p_nextRunner : nat;
  p_tick : nat;
  p_out : list out;
}.

Definition upd_jobs (f : JobStore.Store → JobStore.Store) (s : PState) : PState :=
  MkState (f (p_jobs s)) (p_replay s) (p_peers s) (p_cancels s) (p_inFlight s) (p_runners s)
          (p_nextRunner s) (p_tick s) (p_out s).
Definition set_replay (r : ReplayStore.Store) (s : PState) : PState :=
  MkState (p_jobs s) r (p_peers s) (p_cancels s) (p_inFlight s) (p_runners s)
          (p_nextRunner s) (p_tick s) (p_out s).
Definition set_cancels (c : gmap Key nat) (n : Z) (s : PState) : PState :=
  MkState (p_jobs s) (p_replay s) (p_peers s) c n (p_runners s) (p_nextRunner s) (p_tick s) (p_out s).
Definition upd_runners (f : gmap nat runner → gmap nat runner) (s : PState) : PState :=
  MkState (p_jobs s) (p_replay s) (p_peers s) (p_cancels s) (p_inFlight s) (f (p_runners s))
          (p_nextRunner s) (p_tick s) (p_out s).
Definition set_next (n : nat) (s : PState) : PState :=
  MkState (p_jobs s) (p_replay s) (p_peers s) (p_cancels s) (p_inFlight s) (p_runners s)
          n (p_tick s) (p_out s).
Definition tick (s : PState) : PState :=
  MkState (p_jobs s) (p_replay s) (p_peers s) (p_cancels s) (p_inFlight s) (p_runners s)
          (p_nextRunner s) (S (p_tick s)) (p_out s).
Definition emit (o : out) (s : PState) : PState :=
  MkState (p_jobs s) (p_replay s) (p_peers s) (p_cancels s) (p_inFlight s) (p_runners s)
          (p_nextRunner s) (p_tick s) (p_out s ++ [o]).

(** ** The monad *)

Definition M (A : Type) : Type := PState → PState * A.

#[export] Instance M_ret : MRet M := λ A a s, (s, a).
#[export] Instance M_bind : MBind M := λ A B k m s, k (m s).2 (m s).1.

Definition update (f : PState → PState) : M unit := λ s, (f s, tt).
Definition reads {A} (f : PState → A) : M A := λ s, (s, f s).
Definition done_ : M unit := mret tt.

Section provider.
Context {T : TlvLib} {J : JsonLib} {F : Fmt} {W : WireText} {E : ProviderEnv} {EN : Environ}
        {RJ : MapRange Key Job} {RR : MapRange ReplayStore.Key Z} {RZ : MapRange Z bytes}
        {RM : MapRange string ModelConfig}.

(** What the handler was built with; [backendDisabled] tells a [Disabled]
    backend, [backendStreams] one that implements [StreamingBackend]. *)
Context (cfg : Config) (validator : QuoteRequestValidator) (policy : ExecutionPolicy)
        (backendDisabled backendStreams : bool).

(** *** Clock, randomness, messages *)

Definition clockNow : M Z := λ s, (tick s, env_clock (p_tick s)).

Definition nowUnix : M (option Z) :=
  now ← clockNow;
  let nowUnix := time_unix now in
  mret (if nowUnix <? 0 then None else Some nowUnix).

Definition resultExpiry : M Z :=
  now ← nowUnix;
  mret match now with
       | None => quoteTTLSeconds cfg
       | Some now => wrap_u64 (now + quoteTTLSeconds cfg)
       end.

(** [mustNewMsgID]: a failed read leaves the zero id. *)
Definition mustNewMsgID : M bytes := λ s, (tick s, default (zero_bytes 32) (env_rand (p_tick s))).

Definition newStreamID : M (option bytes) := λ s, (tick s, env_rand (p_tick s)).

Definition SendCustomMessage (peerPubKey : string) (typ : Z) (payload : bytes) : M bool := λ s,
  let ok := env_send (p_tick s) in (emit (OSent peerPubKey typ payload ok) (tick s), ok).

Definition CreateInvoice (req : InvoiceRequest) : M (option InvoiceResult) := λ s,
  let res := env_invoice (p_tick s) req in (emit (OInvoice req res) (tick s), res).

Definition sendError (peerPubKey : string) (env : JobEnvelope) (code : Z) (message : string) : M unit :=
  msgID ← mustNewMsgID;
  expiry ← (if env_Expiry env =? 0 then resultExpiry else mret (env_Expiry env));
  match EncodeError
    {| er_Envelope := {| env_ProtocolVersion := env_ProtocolVersion env; env_JobID := env_JobID env;
                         env_MsgID := msgID; env_Expiry := expiry |};
       er_Code := code; er_Message := Some message |} with
  | Err _ => done_
  | Ok errPayload => _ ← SendCustomMessage peerPubKey MessageTypeError errPayload; done_
  end.

(** *** Stores *)

Definition jobsGet (key : Key) : M (option Job) := reads (λ s, JobStore.Get key (p_jobs s)).

Definition jobsUpsert (job : Job) : M unit :=
  now ← clockNow;
  update (upd_jobs (JobStore.Upsert now job)).

Definition updateState (key : Key) (st : State) : M unit :=
  update (upd_jobs (λ js, (JobStore.UpdateState key st js).1)).

Definition remoteManifestFor (peerPubKey : string) : M (option Manifest) :=
  reads (λ s, PeerDir.RemoteManifestFor peerPubKey (p_peers s)).

Definition dropIfExpired (env : JobEnvelope) (now : Z) : bool := negb (now <=? env_Expiry env).

Definition effectiveExpiry (env : JobEnvelope) (now : Z) : Z :=
  let windowSeconds := envconfig_Uint64 "LCP_MAX_ENVELOPE_EXPIRY_WINDOW_SECONDS" 600 in
  if now <=? max_u64 - windowSeconds then
    let maxExpiry := now + windowSeconds in
    if maxExpiry <? env_Expiry env then maxExpiry else env_Expiry env
  else env_Expiry env.

Definition checkReplay (peerPubKey : string) (env : JobEnvelope) (now : Z) : M bool := λ s,
  let '(r, res) := ReplayStore.CheckAndRemember (p_replay s)
    (ReplayStore.MkKey peerPubKey (env_JobID env) (env_MsgID env)) (effectiveExpiry env now) now in
  (set_replay r s,
   match res with
   | ReplayStore.CheckResultOK => true
   | ReplayStore.CheckResultExpired | ReplayStore.CheckResultDuplicate => false
   end).

(** *** Cancellation and the in-flight count *)

(** [cancel()]: the runner's context is done. *)
Definition set_ctxDone (r : runner) : runner :=
  MkRunner (r_key r) (r_req r) (r_input r) (r_quote r) (r_invoice r) (r_maxPayload r) (r_timeout r)
           true (r_pc r).

Definition cancelRunner (rid : nat) (s : PState) : PState :=
  emit (OCtxDone rid) (upd_runners (alter set_ctxDone rid) s).

Definition dropCancel (key : Key) (s : PState) : PState :=
  set_cancels (delete key (p_cancels s))
    (if 0 <? p_inFlight s then p_inFlight s - 1 else p_inFlight s) s.

Definition cancelJob (key : Key) : M bool := λ s,
  match p_cancels s !! key with
  | Some rid => (cancelRunner rid (dropCancel key s), true)
  | None => (s, false)
  end.

Definition forgetJob (key : Key) : M unit := λ s,
  match p_cancels s !! key with
  | Some _ => (dropCancel key s, tt)
  | None => (s, tt)
  end.

(** The context of a new runner: a timeout when the quote is still alive and the
    remaining time fits a [time.Duration]. *)
Definition runnerTimeout (quoteExpiry : Z) (now : option Z) : option Z :=
  match now with
  | Some nowUnix =>
    if nowUnix <? quoteExpiry then
      let ttlSeconds := quoteExpiry - nowUnix in
      if ttlSeconds <=? max_i64 / ns_per_sec then Some ttlSeconds else None
    else None
  | None => None
  end.

(** The critical section of [startJobRunner] and the [go] statement. *)
Definition registerRunner (key : Key) (r : runner) : M unit := λ s,
  match p_cancels s !! key with
  | Some _ => (s, tt)
  | None =>
    let rid := p_nextRunner s in
    (set_next (S rid) (upd_runners (<[rid := r]>)
       (set_cancels (<[key := rid]> (p_cancels s)) (wrap_u64 (p_inFlight s + 1)) s)), tt)
  end.

Definition startJobRunner (key : Key) (req : QuoteRequest) (input : InputStreamState)
    (quoteResp : QuoteResponse) (invoice : InvoiceResult) (remoteMaxPayload : Z) : M unit :=
  now ← nowUnix;
  registerRunner key
    (MkRunner key req input quoteResp invoice remoteMaxPayload
       (runnerTimeout (qs_QuoteExpiry quoteResp) now) false PcSettle).

(** *** Quotes *)

Definition rejectQuoteRequestIfProviderUnavailable (peerPubKey : string) (env : JobEnvelope) : M bool :=
  if negb (cfg_Enabled cfg) then
    _ ← sendError peerPubKey env ErrorCodeUnsupportedTask "provider disabled"; mret true
  else if backendDisabled then
    _ ← sendError peerPubKey env ErrorCodeUnsupportedTask "compute backend disabled"; mret true
  else mret false.

(** [strings.Join(supported, ", ")] of the sorted model names. *)
Definition supportedModels : string :=
  String.concat ", " (merge_sort PeerDir.string_le (map_range (cfg_Models cfg)).*1).

Definition rejectQuoteRequestIfUnsupportedModel (peerPubKey : string) (req : QuoteRequest) : M bool :=
  let chat := bool_decide (qr_TaskKind req = taskKindOpenAIChatCompletionsV1) in
  let resp := bool_decide (qr_TaskKind req = taskKindOpenAIResponsesV1) in
  if negb (chat || resp) then mret false else
  if bool_decide (cfg_Models cfg = ∅) then mret false else
  match qr_ParamsBytes req with
  | None =>
    _ ← sendError peerPubKey (qr_Envelope req) ErrorCodeUnsupportedParams "params are required"; mret true
  | Some ps =>
    let decoded := if chat then DecodeOpenAIChatCompletionsV1Params ps else DecodeOpenAIResponsesV1Params ps in
    match decoded with
    | Err _ =>
      _ ← sendError peerPubKey (qr_Envelope req) ErrorCodeUnsupportedParams
            (if chat then "openai.chat_completions.v1 params must be a valid TLV stream"
             else "openai.responses.v1 params must be a valid TLV stream");
      mret true
    | Ok params =>
      match cfg_Models cfg !! oa_Model params with
      | Some _ => mret false
      | None =>
        _ ← sendError peerPubKey (qr_Envelope req) ErrorCodeUnsupportedTask
              ("unsupported model: " +:+ fmt_q (oa_Model params) +:+ " (supported: " +:+
               supportedModels +:+ ")");
        mret true
      end
    end
  end.

Definition newQuoteResponse (reqEnvelope : JobEnvelope) (quoteExpiry priceMsat : Z)
    (termsHash : bytes) (paymentRequest : string) : M QuoteResponse :=
  msgID ← mustNewMsgID;
  mret {| qs_Envelope := {| env_ProtocolVersion := env_ProtocolVersion reqEnvelope;
                            env_JobID := env_JobID reqEnvelope; env_MsgID := msgID;
                            env_Expiry := quoteExpiry |};
          qs_PriceMsat := priceMsat; qs_QuoteExpiry := quoteExpiry; qs_TermsHash := termsHash;
          qs_PaymentRequest := paymentRequest |}.

Definition sendQuoteResponse (peerPubKey : string) (resp : QuoteResponse) (remoteMaxPayload : Z) : M bool :=
  match EncodeQuoteResponse resp with
  | Err _ => mret false
  | Ok payload =>
    if negb (remoteMaxPayload =? 0) && (remoteMaxPayload <? blen payload) then
      _ ← sendError peerPubKey (qs_Envelope resp) ErrorCodePayloadTooLarge
            "quote_response exceeds remote max_payload_bytes";
      mret false
    else SendCustomMessage peerPubKey MessageTypeQuoteResponse payload
  end.

Definition invoiceFromJob (job : Job) (resp : QuoteResponse) : InvoiceResult :=
  {| iv_PaymentRequest := qs_PaymentRequest resp;
     iv_PaymentHash := default (zero_bytes 32) (j_PaymentHash job);
     iv_AddIndex := default 0 (j_InvoiceAddIndex job) |}.

Definition set_QuoteRequest (req : QuoteRequest) (j : Job) : Job :=
  {| j_PeerPubKey := j_PeerPubKey j; j_JobID := j_JobID j; j_State := j_State j;
     j_QuoteRequest := Some req; j_InputStream := j_InputStream j;
     j_QuoteExpiry := j_QuoteExpiry j; j_TermsHash := j_TermsHash j;
     j_PaymentHash := j_PaymentHash j; j_InvoiceAddIndex := j_InvoiceAddIndex j;
     j_QuoteResponse := j_QuoteResponse j; j_CreatedAt := j_CreatedAt j |}.

Definition handleExistingQuoteRequest (peerPubKey : string) (key : Key) (req : QuoteRequest)
    (now remoteMaxPayload : Z) (existing : Job) : M unit :=
  if negb (j_QuoteExpiry existing =? 0) && (j_QuoteExpiry existing <? now) then
    sendError peerPubKey (qr_Envelope req) ErrorCodeQuoteExpired "quote expired"
  else if match j_QuoteRequest existing with
          | Some old => negb (quoteRequestEqual old req)
          | None => false
          end then
    sendError peerPubKey (qr_Envelope req) ErrorCodePaymentInvalid "quote_request mismatch for job"
  else
  let existing := set_QuoteRequest req existing in
  _ ← jobsUpsert existing;
  match j_QuoteResponse existing with
  | None => done_
  | Some resp =>
    sent ← sendQuoteResponse peerPubKey resp remoteMaxPayload;
    if negb (sent : bool) then done_ else
    match j_InputStream existing with
    | Some input =>
      if is_Validated input then
        startJobRunner key req input resp (invoiceFromJob existing resp) remoteMaxPayload
      else done_
    | None => done_
    end
  end.

Definition newJob (peerPubKey : string) (req : QuoteRequest) : Job :=
  {| j_PeerPubKey := peerPubKey; j_JobID := env_JobID (qr_Envelope req); j_State := StateAwaitingInput;
     j_QuoteRequest := Some req; j_InputStream := None; j_QuoteExpiry := 0; j_TermsHash := None;
     j_PaymentHash := None; j_InvoiceAddIndex := None; j_QuoteResponse := None;
     j_CreatedAt := time_zero |}.

Definition handleQuoteRequest (peerPubKey : string) (payload : bytes) : M unit :=
  match DecodeQuoteRequest payload with
  | Err _ => done_
  | Ok req =>
    rejected ← rejectQuoteRequestIfProviderUnavailable peerPubKey (qr_Envelope req);
    if (rejected : bool) then done_ else
    remoteManifest ← remoteManifestFor peerPubKey;
    let remoteMaxPayload := remoteMaxPayloadBytes remoteManifest in
    match ValidateQuoteRequest validator req remoteManifest with
    | Some vErr => sendError peerPubKey (qr_Envelope req) (ve_Code vErr) (ve_Message vErr)
    | None =>
      rejected ← rejectQuoteRequestIfUnsupportedModel peerPubKey req;
      if (rejected : bool) then done_ else
      now ← nowUnix;
      match now with
      | None => done_
      | Some now =>
        if dropIfExpired (qr_Envelope req) now then done_ else
        fresh ← checkReplay peerPubKey (qr_Envelope req) now;
        if negb fresh then done_ else
        let key := MkKey peerPubKey (env_JobID (qr_Envelope req)) in
        match remoteManifest with
        | None => sendError peerPubKey (qr_Envelope req) ErrorCodeInvalidState "manifest not exchanged"
        | Some _ =>
          found ← jobsGet key;
          match found with
          | Some existing => handleExistingQuoteRequest peerPubKey key req now remoteMaxPayload existing
          | None => jobsUpsert (newJob peerPubKey req)
          end
        end
      end
    end
  end.

(** *** The input stream *)

Definition handleStreamBegin (peerPubKey : string) (payload : bytes) : M unit :=
  match DecodeStreamBegin payload with
  | Err _ => done_
  | Ok begin =>
    if negb (sb_Kind begin =? StreamKindInput) then done_ else
    let env := sb_Envelope begin in
    rejected ← rejectQuoteRequestIfProviderUnavailable peerPubKey env;
    if (rejected : bool) then done_ else
    remoteManifest ← remoteManifestFor peerPubKey;
    match remoteManifest with
    | None => sendError peerPubKey env ErrorCodeInvalidState "manifest not exchanged"
    | Some _ =>
      now ← nowUnix;
      match now with
      | None => done_
      | Some now =>
        if dropIfExpired env now then done_ else
        fresh ← checkReplay peerPubKey env now;
        if negb (fresh : bool) then done_ else
        match validateInputStreamBegin begin with
        | Err vErr => sendError peerPubKey env (ve_Code vErr) (ve_Message vErr)
        | Ok (totalLen, sha) =>
          found ← jobsGet (MkKey peerPubKey (env_JobID env));
          match found with
          | Some job =>
            match j_QuoteRequest job with
            | None => sendError peerPubKey env ErrorCodeInvalidState "no quote_request for job"
            | Some req =>
              if negb (bool_decide (j_State job = StateAwaitingInput)) then
                sendError peerPubKey env ErrorCodeInvalidState "job not awaiting input"
              else
              let expectedContentType := inputContentTypeForTaskKind (qr_TaskKind req) in
              if negb (bool_decide (expectedContentType = ""%string)) &&
                 negb (bool_decide (sb_ContentType begin = expectedContentType)) then
                sendError peerPubKey env ErrorCodeUnsupportedEncoding "unsupported content_type"
              else
              jobsUpsert (set_InputStream (Some
                {| is_StreamID := sb_StreamID begin; is_ContentType := sb_ContentType begin;
                   is_ContentEncoding := sb_ContentEncoding begin; is_ExpectedSeq := 0; is_Buf := [];
                   is_TotalLen := totalLen; is_SHA256 := sha; is_Validated := false |}) job)
            end
          | None => sendError peerPubKey env ErrorCodeInvalidState "no quote_request for job"
          end
        end
      end
    end
  end.

(** [append(stream.Buf, chunk.Data...)] and [ExpectedSeq++]. *)
Definition append_chunk (data : bytes) (st : InputStreamState) : InputStreamState :=
  {| is_StreamID := is_StreamID st; is_ContentType := is_ContentType st;
     is_ContentEncoding := is_ContentEncoding st; is_ExpectedSeq := wrap_u32 (is_ExpectedSeq st + 1);
     is_Buf := is_Buf st ++ data; is_TotalLen := is_TotalLen st; is_SHA256 := is_SHA256 st;
     is_Validated := is_Validated st |}.

Definition set_Validated (st : InputStreamState) : InputStreamState :=
  {| is_StreamID := is_StreamID st; is_ContentType := is_ContentType st;
     is_ContentEncoding := is_ContentEncoding st; is_ExpectedSeq := is_ExpectedSeq st;
     is_Buf := is_Buf st; is_TotalLen := is_TotalLen st; is_SHA256 := is_SHA256 st;
     is_Validated := true |}.

(** The input stream of a job that has one and a quote request. *)
Definition open_stream (job : option Job) : option (Job * QuoteRequest * InputStreamState) :=
  job ← job; st ← j_InputStream job; req ← j_QuoteRequest job; Some (job, req, st).

Definition handleStreamChunk (peerPubKey : string) (payload : bytes) : M unit :=
  match DecodeStreamChunk payload with
  | Err _ => done_
  | Ok chunk =>
    let env := sc_Envelope chunk in
    let data := default [] (sc_Data chunk) in
    now ← nowUnix;
    match now with
    | None => done_
    | Some now =>
      if dropIfExpired env now then done_ else
      found ← jobsGet (MkKey peerPubKey (env_JobID env));
      match open_stream found with
      | None => done_
      | Some (job, _, st) =>
        if negb (bool_decide (j_State job = StateAwaitingInput)) || is_Validated st then done_ else
        if negb (bool_decide (is_StreamID st = sc_StreamID chunk)) then done_ else
        if sc_Seq chunk <? is_ExpectedSeq st then done_ else
        if is_ExpectedSeq st <? sc_Seq chunk then
          sendError peerPubKey env ErrorCodeChunkOutOfOrder "chunk out of order"
        else
        let nextLen := wrap_u64 (blen (is_Buf st) + blen data) in
        if (is_TotalLen st <? nextLen) || (defaultMaxStreamBytes <? nextLen) ||
           (defaultMaxJobBytes <? nextLen) then
          sendError peerPubKey env ErrorCodePayloadTooLarge "input stream exceeds local limits"
        else jobsUpsert (set_InputStream (Some (append_chunk data st)) job)
      end
    end
  end.

(** *** The quote *)

Definition computeTermsHash (req : QuoteRequest) (input : InputStreamState)
    (quoteExpiry priceMsat : Z) : result terms_err bytes :=
  ComputeTermsHash (handlerTerms req quoteExpiry priceMsat)
    (handlerCommit req (is_Buf input) (is_ContentType input) (is_ContentEncoding input)).

Definition invoiceExpirySeconds (quoteTTL : Z) : Z :=
  let defaultSlackSeconds := envconfig_Uint64 "LCP_ALLOWED_CLOCK_SKEW_SECONDS" 5 in
  let slackSeconds := envconfig_Uint64 "LCP_INVOICE_EXPIRY_SLACK_SECONDS" defaultSlackSeconds in
  let e := if slackSeconds <? quoteTTL then quoteTTL - slackSeconds else quoteTTL in
  if e =? 0 then 1 else e.

Definition createInvoiceAndStartQuoteJob (peerPubKey : string) (key : Key) (req : QuoteRequest)
    (input : InputStreamState) (quoteExpiry quoteTTL priceMsat : Z) (termsHash : bytes)
    (remoteMaxPayload : Z) : M unit :=
  res ← CreateInvoice {| ir_DescriptionHash := termsHash; ir_PriceMsat := priceMsat;
                         ir_ExpirySeconds := invoiceExpirySeconds quoteTTL |};
  match res with
  | None => sendError peerPubKey (qr_Envelope req) ErrorCodePaymentRequired "failed to create invoice"
  | Some invoice =>
    quoteResp ← newQuoteResponse (qr_Envelope req) quoteExpiry priceMsat termsHash
                  (iv_PaymentRequest invoice);
    sent ← sendQuoteResponse peerPubKey quoteResp remoteMaxPayload;
    if negb (sent : bool) then done_ else
    _ ← jobsUpsert
      {| j_PeerPubKey := k_PeerPubKey key; j_JobID := k_JobID key; j_State := StateWaitingPayment;
         j_QuoteRequest := Some req; j_InputStream := Some input; j_QuoteExpiry := quoteExpiry;
         j_TermsHash := Some (qs_TermsHash quoteResp);
         j_PaymentHash := Some (iv_PaymentHash invoice);
         j_InvoiceAddIndex := Some (iv_AddIndex invoice); j_QuoteResponse := Some quoteResp;
         j_CreatedAt := time_zero |};
    startJobRunner key req input quoteResp invoice remoteMaxPayload
  end.

Definition inFlightJobs : M Z := reads p_inFlight.

Definition handleValidatedInputStreamEnd (peerPubKey : string) (key : Key) (job : Job)
    (req : QuoteRequest) (stream : InputStreamState) (now : Z) (env : JobEnvelope) : M unit :=
  match j_QuoteResponse job with
  | Some _ => jobsUpsert job
  | None =>
    match validateInputStream req (is_Buf stream) with
    | Some vErr => sendError peerPubKey env (ve_Code vErr) (ve_Message vErr)
    | None =>
      let quoteTTL := quoteTTLSeconds cfg in
      let quoteExpiry := wrap_u64 (now + quoteTTL) in
      inFlight ← inFlightJobs;
      match quotePrice cfg policy inFlight req (is_Buf stream) with
      | Err e => sendError peerPubKey env (quoteErrorCode e) (err_text e)
      | Ok price =>
        match computeTermsHash req stream quoteExpiry (pb_PriceMsat price) with
        | Err _ => sendError peerPubKey env ErrorCodeUnsupportedTask "failed to compute terms_hash"
        | Ok termsHash =>
          remoteManifest ← remoteManifestFor peerPubKey;
          match remoteManifest with
          | None => sendError peerPubKey env ErrorCodeInvalidState "manifest not exchanged"
          | Some _ =>
            createInvoiceAndStartQuoteJob peerPubKey key req stream quoteExpiry quoteTTL
              (pb_PriceMsat price) termsHash (remoteMaxPayloadBytes remoteManifest)
          end
        end
      end
    end
  end.

Definition handleStreamEnd (peerPubKey : string) (payload : bytes) : M unit :=
  match DecodeStreamEnd payload with
  | Err _ => done_
  | Ok e =>
    let env := se_Envelope e in
    now ← nowUnix;
    match now with
    | None => done_
    | Some now =>
      if dropIfExpired env now then done_ else
      fresh ← checkReplay peerPubKey env now;
      if negb (fresh : bool) then done_ else
      let key := MkKey peerPubKey (env_JobID env) in
      found ← jobsGet key;
      match open_stream found with
      | None => sendError peerPubKey env ErrorCodeInvalidState "no input stream for job"
      | Some (job, req, st) =>
        let mismatch := sendError peerPubKey env ErrorCodeChecksumMismatch in
        if negb (bool_decide (j_State job = StateAwaitingInput)) || is_Validated st then done_ else
        if negb (bool_decide (is_StreamID st = se_StreamID e)) then done_ else
        if negb (se_TotalLen e =? is_TotalLen st) then mismatch "stream total_len mismatch" else
        if negb (bool_decide (se_SHA256 e = is_SHA256 st)) then mismatch "stream sha256 mismatch" else
        if negb (blen (is_Buf st) =? se_TotalLen e) then mismatch "stream length mismatch" else
        if negb (bool_decide (sha256_sum (is_Buf st) = se_SHA256 e)) then
          mismatch "stream sha256 mismatch"
        else
        let stream := set_Validated st in
        handleValidatedInputStreamEnd peerPubKey key (set_InputStream (Some stream) job) req stream now env
      end
    end
  end.

Definition handleCancel (peerPubKey : string) (payload : bytes) : M unit :=
  match DecodeCancel payload with
  | Err _ => done_
  | Ok cancelMsg =>
    let env := cn_Envelope cancelMsg in
    now ← nowUnix;
    match now with
    | None => done_
    | Some now =>
      if dropIfExpired env now then done_ else
      let key := MkKey peerPubKey (env_JobID env) in
      fresh ← checkReplay peerPubKey env now;
      if negb (fresh : bool) then done_ else
      _ ← cancelJob key;
      updateState key StateCanceled
    end
  end.

Definition HandleInboundCustomMessage (peerPubKey : string) (msgType : Z) (payload : bytes) : M unit :=
  if msgType =? MessageTypeQuoteRequest then handleQuoteRequest peerPubKey payload
  else if msgType =? MessageTypeStreamBegin then handleStreamBegin peerPubKey payload
  else if msgType =? MessageTypeStreamChunk then handleStreamChunk peerPubKey payload
  else if msgType =? MessageTypeStreamEnd then handleStreamEnd peerPubKey payload
  else if msgType =? MessageTypeCancel then handleCancel peerPubKey payload
  else done_.
End provider.
