(* ===== verification/ResultSend.v ===== *)
(** * The provider's results: the sending half of [provider/handler.go]

    A result leaves the provider as a stream (begin, chunks, end) and a terminal
    [lcp_result].  The chunk loops are Fixpoints on a fuel that the number of
    bytes left bounds; [ResultProofs.v] shows that the fuel the definitions pass
    is never used up. *)

From S2P Require Import Prelude GoStd TlvLib Wire Stores Replay JobStore PeerDir Terms Pricing Validation Provider.

(** [io.Reader] as the list of what successive reads return; past its end the
    reader reports [io.EOF]. *)
Definition read_next (reads : list read) : read * list read :=
  match reads with
  | [] => (MkRead [] (Some ReadEOF), [])
  | r :: reads' => (r, reads')
  end.

Definition reads_data (reads : list read) : bytes := reads ≫= rd_data.

(** What [encodeFittingResultStreamChunk] reports. *)
Inductive fit_err := FitEncode (e : wire_err) | FitCannot | FitFuel.

(** How the loop of [sendResultStreaming] ends: at the end of the output (with
    the length and the bytes hashed so far), or with the function's results. *)
Inductive stream_end :=
| StreamEOF (totalLen : Z) (hashed : bytes)
| StreamReturn (totalLen : Z) (ok : bool) (err : option task_err)
| StreamFuel.

Section result.
Context {T : TlvLib} {E : ProviderEnv} {W : WireText}.
Context (cfg : Config).

Definition fit_text (e : fit_err) : string :=
  match e with
  | FitEncode e => wire_text e
  | FitCannot => "cannot fit lcp_stream_chunk under remote max_payload_bytes"
  | FitFuel => ""
  end.

(** The envelope of a message about the job: [env] with a new id and expiry. *)
Definition reply_envelope (env : JobEnvelope) (msgID : bytes) (expiry : Z) : JobEnvelope :=
  {| env_ProtocolVersion := env_ProtocolVersion env; env_JobID := env_JobID env;
     env_MsgID := msgID; env_Expiry := expiry |}.

Definition result_chunk (env : JobEnvelope) (expiry : Z) (streamID : bytes) (seq : Z)
    (data : bytes) : StreamChunk :=
  {| sc_Envelope := reply_envelope env (zero_bytes 32) expiry; sc_StreamID := streamID;
     sc_Seq := seq; sc_Data := Some data |}.

(** The loop: halve the chunk until its payload fits. *)
Fixpoint fit_loop (fuel : nat) (env : JobEnvelope) (expiry : Z) (streamID : bytes) (seq : Z)
    (data : bytes) (remoteMaxPayload : Z) (chunkLen : nat) : result fit_err (bytes * nat) :=
  match fuel with
  | O => Err FitFuel
  | S fuel' =>
    match EncodeStreamChunk (result_chunk env expiry streamID seq (take chunkLen data)) with
    | Err e => Err (FitEncode e)
    | Ok (payload, _) =>
      if blen payload <=? remoteMaxPayload then Ok (payload, chunkLen)
      else if (chunkLen <=? 1)%nat then Err FitCannot
      else fit_loop fuel' env expiry streamID seq data remoteMaxPayload (Nat.div2 chunkLen)
    end
  end.

Definition encodeFittingResultStreamChunk (env : JobEnvelope) (expiry : Z) (streamID : bytes)
    (seq : Z) (data : bytes) (remoteMaxPayload : Z) : result fit_err (bytes * nat) :=
  let chunkLen := Z.to_nat (Z.min (blen data) remoteMaxPayload) in
  fit_loop (S chunkLen) env expiry streamID seq data remoteMaxPayload chunkLen.

(** [uint64(len(payload)) > uint64(remoteMaxPayload)] refuses, otherwise send. *)
Definition sendWithin (peerPubKey : string) (typ : Z) (encoded : wres bytes) (remoteMaxPayload : Z) : M bool :=
  match encoded with
  | Err _ => mret false
  | Ok payload =>
    if remoteMaxPayload <? blen payload then mret false
    else SendCustomMessage peerPubKey typ payload
  end.

Definition sendResultStreamBegin (peerPubKey : string) (env : JobEnvelope) (expiry : Z)
    (streamID : bytes) (totalLen : Z) (resultHash : bytes) (contentType contentEncoding : string)
    (remoteMaxPayload : Z) : M bool :=
  msgID ← mustNewMsgID;
  sendWithin peerPubKey MessageTypeStreamBegin
    (EncodeStreamBegin
      {| sb_Envelope := reply_envelope env msgID expiry; sb_StreamID := streamID;
         sb_Kind := StreamKindResult; sb_TotalLen := Some totalLen; sb_SHA256 := Some resultHash;
         sb_ContentType := contentType; sb_ContentEncoding := contentEncoding |})
    remoteMaxPayload.

Definition sendResultStreamBeginUnknown (peerPubKey : string) (env : JobEnvelope) (expiry : Z)
    (streamID : bytes) (contentType contentEncoding : string) (remoteMaxPayload : Z) : M bool :=
  msgID ← mustNewMsgID;
  sendWithin peerPubKey MessageTypeStreamBegin
    (EncodeStreamBegin
      {| sb_Envelope := reply_envelope env msgID expiry; sb_StreamID := streamID;
         sb_Kind := StreamKindResult; sb_TotalLen := None; sb_SHA256 := None;
         sb_ContentType := contentType; sb_ContentEncoding := contentEncoding |})
    remoteMaxPayload.

(** The loop over [output[offset:]]; [None] is out of fuel. *)
Fixpoint chunks_loop (fuel : nat) (peerPubKey : string) (env : JobEnvelope) (expiry : Z)
    (streamID : bytes) (rest : bytes) (seq remoteMaxPayload : Z) : M (option bool) :=
  match rest with
  | [] => mret (Some true)
  | _ =>
    match fuel with
    | O => mret None
    | S fuel' =>
      match encodeFittingResultStreamChunk env expiry streamID seq rest remoteMaxPayload with
      | Err _ => mret (Some false)
      | Ok (chunkPayload, chunkLen) =>
        sent ← SendCustomMessage peerPubKey MessageTypeStreamChunk chunkPayload;
        if negb (sent : bool) then mret (Some false)
        else chunks_loop fuel' peerPubKey env expiry streamID (drop chunkLen rest)
               (wrap_u32 (seq + 1)) remoteMaxPayload
      end
    end
  end.

Definition sendResultStreamChunks (peerPubKey : string) (env : JobEnvelope) (expiry : Z)
    (streamID output : bytes) (remoteMaxPayload : Z) : M bool :=
  res ← chunks_loop (length output) peerPubKey env expiry streamID output 0 remoteMaxPayload;
  mret (default false res).

Definition sendResultStreamEnd (peerPubKey : string) (env : JobEnvelope) (expiry : Z)
    (streamID : bytes) (totalLen : Z) (resultHash : bytes) (remoteMaxPayload : Z) : M bool :=
  msgID ← mustNewMsgID;
  sendWithin peerPubKey MessageTypeStreamEnd
    (EncodeStreamEnd
      {| se_Envelope := reply_envelope env msgID expiry; se_StreamID := streamID;
         se_TotalLen := totalLen; se_SHA256 := resultHash |})
    remoteMaxPayload.

Definition sendResultStream (peerPubKey : string) (env : JobEnvelope) (expiry : Z)
    (streamID output : bytes) (totalLen : Z) (resultHash : bytes)
    (contentType contentEncoding : string) (remoteMaxPayload : Z) : M bool :=
  begun ← sendResultStreamBegin peerPubKey env expiry streamID totalLen resultHash contentType
            contentEncoding remoteMaxPayload;
  if negb (begun : bool) then mret false else
  sent ← sendResultStreamChunks peerPubKey env expiry streamID output remoteMaxPayload;
  if negb (sent : bool) then mret false else
  sendResultStreamEnd peerPubKey env expiry streamID totalLen resultHash remoteMaxPayload.

Definition sendTerminalOKResult (peerPubKey : string) (env : JobEnvelope) (expiry : Z)
    (streamID : bytes) (totalLen : Z) (resultHash : bytes)
    (contentType contentEncoding : string) (remoteMaxPayload : Z) : M bool :=
  msgID ← mustNewMsgID;
  sendWithin peerPubKey MessageTypeResult
    (EncodeResult
      {| rs_Envelope := reply_envelope env msgID expiry; rs_Status := ResultStatusOK;
         rs_OK := Some {| ro_ResultStreamID := streamID; ro_ResultHash := resultHash;
                          ro_ResultLen := totalLen; ro_ResultContentType := contentType;
                          ro_ResultContentEncoding := contentEncoding |};
         rs_Message := None |})
    remoteMaxPayload.

Definition sendTerminalResultStatus (peerPubKey : string) (env : JobEnvelope) (status : Z)
    (message : option string) (remoteMaxPayload : Z) : M bool :=
  msgID ← mustNewMsgID;
  expiry ← resultExpiry cfg;
  match EncodeResult {| rs_Envelope := reply_envelope env msgID expiry; rs_Status := status;
                        rs_OK := None; rs_Message := message |} with
  | Err _ => mret false
  | Ok payload =>
    if negb (remoteMaxPayload =? 0) && (remoteMaxPayload <? blen payload) then mret false
    else SendCustomMessage peerPubKey MessageTypeResult payload
  end.

Definition resolveRemoteManifestAndMaxPayload (peerPubKey : string) (remoteMaxPayload : Z) :
    M (option (Manifest * Z)) :=
  remoteManifest ← remoteManifestFor peerPubKey;
  mret (m ← remoteManifest;
        let max := if remoteMaxPayload =? 0 then mf_MaxPayloadBytes m else remoteMaxPayload in
        if max =? 0 then None else Some (m, max)).

Definition limits_message : string := "result exceeds remote stream limits".

Definition sendResult (peerPubKey : string) (env : JobEnvelope) (taskKind : string)
    (streaming : bool) (inputLen : Z) (output : bytes) (remoteMaxPayload : Z) : M bool :=
  resolved ← resolveRemoteManifestAndMaxPayload peerPubKey remoteMaxPayload;
  match resolved with
  | None => mret false
  | Some (remoteManifest, remoteMaxPayload) =>
    let totalLen := blen output in
    if (mf_MaxStreamBytes remoteManifest <? totalLen) ||
       (mf_MaxJobBytes remoteManifest <? wrap_u64 (inputLen + totalLen)) then
      sendTerminalResultStatus peerPubKey env ResultStatusFailed (Some limits_message) remoteMaxPayload
    else
    sid ← newStreamID;
    match sid with
    | None => mret false
    | Some streamID =>
      let resultHash := sha256_sum output in
      expiry ← resultExpiry cfg;
      let contentType := resultContentTypeForTaskKind taskKind streaming in
      sent ← sendResultStream peerPubKey env expiry streamID output totalLen resultHash contentType
               contentEncodingIdentity remoteMaxPayload;
      if negb (sent : bool) then mret false else
      sendTerminalOKResult peerPubKey env expiry streamID totalLen resultHash contentType
        contentEncodingIdentity remoteMaxPayload
    end
  end.

(** The second half of an iteration of the loop of [sendResultStreaming]: send a
    chunk of [pending]; [next] is the rest of the loop, with what is pending then,
    the new length, sequence number and hash state. *)
Definition streaming_send (next : bytes → Z → Z → bytes → M stream_end) (peerPubKey : string)
    (env : JobEnvelope) (expiry : Z) (streamID : bytes)
    (inputLen remoteMaxPayload maxStreamBytes maxJobBytes : Z)
    (pending : bytes) (totalLen seq : Z) (hashed : bytes) : M stream_end :=
  match encodeFittingResultStreamChunk env expiry streamID seq pending remoteMaxPayload with
  | Err e => mret (StreamReturn totalLen false
               (Some (ErrBackendUnavailable ("encode lcp_stream_chunk: " +:+ fit_text e))))
  | Ok (chunkPayload, chunkLen) =>
    let nextTotalLen := wrap_u64 (totalLen + Z.of_nat chunkLen) in
    if (maxStreamBytes <? nextTotalLen) || (maxJobBytes <? wrap_u64 (inputLen + nextTotalLen)) then
      statusOK ← sendTerminalResultStatus peerPubKey env ResultStatusFailed (Some limits_message)
                   remoteMaxPayload;
      mret (StreamReturn totalLen statusOK None)
    else
    sent ← SendCustomMessage peerPubKey MessageTypeStreamChunk chunkPayload;
    if negb (sent : bool) then mret (StreamReturn totalLen false None) else
    next (drop chunkLen pending) nextTotalLen (wrap_u32 (seq + 1)) (hashed ++ take chunkLen pending)
  end.

(** The loop: an iteration refills an empty [pending] from the reader first. *)
Fixpoint streaming_loop (fuel : nat) (peerPubKey : string) (env : JobEnvelope) (expiry : Z)
    (streamID : bytes) (inputLen remoteMaxPayload maxStreamBytes maxJobBytes : Z)
    (reads : list read) (pending : bytes) (totalLen seq : Z) (hashed : bytes) : M stream_end :=
  match fuel with
  | O => mret StreamFuel
  | S fuel' =>
    let send reads pending := streaming_send
      (streaming_loop fuel' peerPubKey env expiry streamID inputLen remoteMaxPayload maxStreamBytes
         maxJobBytes reads)
      peerPubKey env expiry streamID inputLen remoteMaxPayload maxStreamBytes maxJobBytes
      pending totalLen seq hashed in
    match pending with
    | _ :: _ => send reads pending
    | [] =>
      let '(r, reads') := read_next reads in
      match rd_data r, rd_err r with
      | [], None => mret (StreamReturn totalLen false
                      (Some (ErrBackendUnavailable "stream read returned 0 bytes")))
      | [], Some ReadEOF => mret (StreamEOF totalLen hashed)
      | _, Some (ReadErr msg) => mret (StreamReturn totalLen false
                                   (Some (ErrBackendUnavailable ("stream read: " +:+ msg))))
      | data, _ => send reads' data
      end
    end
  end.

(** Enough for [reads]: every iteration but the last consumes a read or a byte. *)
Definition stream_fuel (reads : list read) (pending : bytes) : nat :=
  S (length reads + length (reads_data reads) + length pending).

Definition sendResultStreaming (peerPubKey : string) (env : JobEnvelope) (taskKind : string)
    (inputLen : Z) (output : list read) (remoteMaxPayload : Z) : M (Z * bool * option task_err) :=
  resolved ← resolveRemoteManifestAndMaxPayload peerPubKey remoteMaxPayload;
  match resolved with
  | None => mret (0, false, None)
  | Some (remoteManifest, remoteMaxPayload) =>
    let maxStreamBytes := if mf_MaxStreamBytes remoteManifest =? 0 then defaultMaxStreamBytes
                          else mf_MaxStreamBytes remoteManifest in
    let maxJobBytes := if mf_MaxJobBytes remoteManifest =? 0 then defaultMaxJobBytes
                       else mf_MaxJobBytes remoteManifest in
    sid ← newStreamID;
    match sid with
    | None => mret (0, false, None)
    | Some streamID =>
      expiry ← resultExpiry cfg;
      let contentType := resultContentTypeForTaskKind taskKind true in
      begun ← sendResultStreamBeginUnknown peerPubKey env expiry streamID contentType
                contentEncodingIdentity remoteMaxPayload;
      if negb (begun : bool) then mret (0, false, None) else
      ended ← streaming_loop (stream_fuel output []) peerPubKey env expiry streamID inputLen
                remoteMaxPayload maxStreamBytes maxJobBytes output [] 0 0 [];
      match ended with
      | StreamReturn totalLen ok err => mret (totalLen, ok, err)
      | StreamFuel => mret (0, false, None)
      | StreamEOF totalLen hashed =>
        if totalLen =? 0 then mret (0, false, Some (ErrBackendUnavailable "empty response")) else
        let resultHash := sha256_sum hashed in
        sent ← sendResultStreamEnd peerPubKey env expiry streamID totalLen resultHash remoteMaxPayload;
        if negb (sent : bool) then mret (totalLen, false, None) else
        ok ← sendTerminalOKResult peerPubKey env expiry streamID totalLen resultHash contentType
               contentEncodingIdentity remoteMaxPayload;
        mret (totalLen, ok, None)
      end
    end
  end.
End result.
