(* ===== verification/Runner.v ===== *)
(** * The job runners and the provider as a whole

    [runJob] as the segments between two of its blocking calls, and the provider
    as a transition system: a step handles one inbound message, advances one
    runner, lets a runner's deadline pass, or changes the peer directory. *)

From S2P Require Import Prelude GoStd TlvLib Wire Stores Replay JobStore PeerDir Terms Pricing Validation Provider ResultSend.

Import JobStore.

(** How the blocking calls of [runJob] return. *)
Inductive settle_outcome := SettleOK | SettleCanceled | SettleFailed.
Inductive exec_outcome :=
| ExecErr (e : task_err)              (** either interface *)
| ExecOutput (output : bytes)         (** [Execute] *)
| ExecNil                             (** [ExecuteStreaming] without an output *)
| ExecReader (reads : list read).     (** [ExecuteStreaming] *)

Inductive event :=
| EMessage (peerPubKey : string) (msgType : Z) (payload : bytes)
| ESettle (rid : nat) (o : settle_outcome)
| EPlan (rid : nat)
| EExec (rid : nat) (o : exec_outcome)
| EStream (rid : nat)
| ETimeout (rid : nat)
| EPeers (d : PeerDir.Directory).

Section runner.
Context {T : TlvLib} {J : JsonLib} {F : Fmt} {W : WireText} {E : ProviderEnv} {EN : Environ}
        {RJ : MapRange Key Job} {RR : MapRange ReplayStore.Key Z} {RZ : MapRange Z bytes}
        {RM : MapRange string ModelConfig}.
Context (cfg : Config) (validator : QuoteRequestValidator) (policy : ExecutionPolicy)
        (backendDisabled backendStreams : bool).

Definition set_pc (p : pc) (r : runner) : runner :=
  MkRunner (r_key r) (r_req r) (r_input r) (r_quote r) (r_invoice r) (r_maxPayload r) (r_timeout r)
           (r_ctxDone r) p.

Definition goto (rid : nat) (p : pc) : M unit := update (upd_runners (alter (set_pc p) rid)).
Definition emits (o : out) : M unit := update (emit o).

(** [return]: the deferred [forgetJob] runs. *)
Definition exit (rid : nat) (r : runner) : M unit :=
  _ ← forgetJob (r_key r); goto rid PcDone.

(** [if ctx.Err() != nil { return }], then the error is reported and the job fails. *)
Definition failJob (rid : nat) (r : runner) (e : task_err) : M unit :=
  if r_ctxDone r then exit rid r else
  _ ← sendError cfg (k_PeerPubKey (r_key r)) (qs_Envelope (r_quote r)) (computeErrorCode e) (err_text e);
  _ ← updateState (r_key r) StateFailed;
  exit rid r.

Definition finish (rid : nat) (r : runner) (st : State) : M unit :=
  _ ← updateState (r_key r) st; exit rid r.

(** [runJob] up to [updateState(key, StatePaid)]. *)
Definition runSettle (rid : nat) (r : runner) (o : settle_outcome) : M unit :=
  match o with
  | SettleCanceled => exit rid r
  | SettleFailed => finish rid r StateFailed
  | SettleOK =>
    _ ← emits (OSettled rid (iv_PaymentHash (r_invoice r)));
    _ ← updateState (r_key r) StatePaid;
    goto rid PcPlan
  end.

(** ... to the call of the backend. *)
Definition runPlan (rid : nat) (r : runner) : M unit :=
  if r_ctxDone r then exit rid r else
  _ ← updateState (r_key r) StateExecuting;
  match planTask cfg policy (r_req r) (is_Buf (r_input r)) with
  | Err e => failJob rid r e
  | Ok (planned, _, _, wantStreaming) =>
    let streaming := wantStreaming && backendStreams in
    _ ← emits (OExec rid (r_key r) planned streaming);
    goto rid (PcExec planned wantStreaming streaming)
  end.

(** ... from the backend's answer. *)
Definition runExec (rid : nat) (r : runner) (wantStreaming streaming : bool) (o : exec_outcome) : M unit :=
  match streaming, o with
  | _, ExecErr e => failJob rid r e
  | true, ExecNil => failJob rid r (ErrBackendUnavailable "streaming output is nil")
  | true, ExecReader reads => _ ← updateState (r_key r) StateStreamingResult; goto rid (PcStream reads)
  | false, ExecOutput output =>
    if blen output =? 0 then
      failJob rid r (ErrBackendUnavailable "execute backend returned empty output")
    else
    ok ← sendResult cfg (k_PeerPubKey (r_key r)) (qs_Envelope (r_quote r)) (qr_TaskKind (r_req r))
           wantStreaming (blen (is_Buf (r_input r))) output (r_maxPayload r);
    finish rid r (if (ok : bool) then StateDone else StateFailed)
  | _, _ => done_
  end.

(** ... while the streamed output is forwarded. *)
Definition runStream (rid : nat) (r : runner) (reads : list read) : M unit :=
  res ← sendResultStreaming cfg (k_PeerPubKey (r_key r)) (qs_Envelope (r_quote r))
          (qr_TaskKind (r_req r)) (blen (is_Buf (r_input r))) reads (r_maxPayload r);
  match res with
  | (_, _, Some e) => failJob rid r e
  | (_, ok, None) => finish rid r (if (ok : bool) then StateDone else StateFailed)
  end.

(** A step of the provider; an event that does not apply changes nothing. *)
Definition handle (e : event) : M unit := λ s,
  match e with
  | EMessage peer typ payload =>
    HandleInboundCustomMessage cfg validator policy backendDisabled peer typ payload s
  | ESettle rid o =>
    match p_runners s !! rid with
    | Some r => match r_pc r with PcSettle => runSettle rid r o s | _ => (s, tt) end
    | None => (s, tt)
    end
  | EPlan rid =>
    match p_runners s !! rid with
    | Some r => match r_pc r with PcPlan => runPlan rid r s | _ => (s, tt) end
    | None => (s, tt)
    end
  | EExec rid o =>
    match p_runners s !! rid with
    | Some r => match r_pc r with PcExec _ w st => runExec rid r w st o s | _ => (s, tt) end
    | None => (s, tt)
    end
  | EStream rid =>
    match p_runners s !! rid with
    | Some r => match r_pc r with PcStream reads => runStream rid r reads s | _ => (s, tt) end
    | None => (s, tt)
    end
  | ETimeout rid =>
    match p_runners s !! rid with
    | Some r => match r_timeout r with Some _ => (cancelRunner rid s, tt) | None => (s, tt) end
    | None => (s, tt)
    end
  | EPeers d =>
    (MkState (p_jobs s) (p_replay s) d (p_cancels s) (p_inFlight s) (p_runners s) (p_nextRunner s)
       (p_tick s) (p_out s), tt)
  end.

Definition initial (replayCapacity : Z) : PState :=
  MkState JobStore.NewWithClock (ReplayStore.New replayCapacity) PeerDir.New ∅ 0 ∅ 0 0 [].

Definition run (es : list event) (s : PState) : PState := fold_left (λ s e, (handle e s).1) es s.

Definition reachable (s : PState) : Prop := ∃ cap es, s = run es (initial cap).
End runner.
