(* ===== verification/ResultProofs.v ===== *)
(** * Results leave the provider complete

    Frame lemmas for the operations that only send ([quietly]), the chunk loops
    of [ResultSend.v] and the theorems about what a requester receives.  The
    receiving side of the statements is [reassemble], which decodes the chunks
    with the wire codec and checks their sequence numbers. *)

From S2P Require Import Prelude GoStd TlvLib Wire WireProofs Stores Replay JobStore PeerDir Terms Pricing Validation Provider ResultSend.

(** ** Operations that only send *)

(** [s] after [n] ticks in all and the events [evs]. *)
Definition after (s : PState) (n : nat) (evs : list out) : PState :=
  MkState (p_jobs s) (p_replay s) (p_peers s) (p_cancels s) (p_inFlight s) (p_runners s)
          (p_nextRunner s) n (p_out s ++ evs).

Definition quiet (s s' : PState) (evs : list out) : Prop := ∃ n, s' = after s n evs.

(** [m] changes nothing but the trace, and [Q] holds of its result and events. *)
Definition quietly {A} (m : M A) (s : PState) (Q : A → list out → Prop) : Prop :=
  ∃ evs, quiet s (m s).1 evs ∧ Q (m s).2 evs.

Lemma quiet_refl s : quiet s s [].
Proof. exists (p_tick s). unfold after. rewrite app_nil_r. by destruct s. Qed.

Lemma quiet_trans s1 s2 s3 e1 e2 : quiet s1 s2 e1 → quiet s2 s3 e2 → quiet s1 s3 (e1 ++ e2).
Proof. intros [n ->] [n' ->]. exists n'. unfold after. simpl. by rewrite app_assoc. Qed.

Lemma quiet_out s s' evs : quiet s s' evs → p_out s' = p_out s ++ evs.
Proof. by intros [n ->]. Qed.
Lemma quiet_peers s s' evs : quiet s s' evs → p_peers s' = p_peers s.
Proof. by intros [n ->]. Qed.

Lemma quietly_ret {A} (a : A) s (Q : A → list out → Prop) : Q a [] → quietly (mret a) s Q.
Proof. intros HQ. exists []. split; [apply quiet_refl|done]. Qed.

Lemma quietly_reads {A} (f : PState → A) s (Q : A → list out → Prop) :
  Q (f s) [] → quietly (reads f) s Q.
Proof. intros HQ. exists []. split; [apply quiet_refl|done]. Qed.

Lemma quietly_bind {A B} (m : M A) (k : A → M B) s (R : A → list out → Prop) (Q : B → list out → Prop) :
  quietly m s R →
  (∀ a s1 e1, quiet s s1 e1 → R a e1 → quietly (k a) s1 (λ b e2, Q b (e1 ++ e2))) →
  quietly (m ≫= k) s Q.
Proof.
  intros (e1 & Hq1 & HR) Hk. destruct (Hk _ _ _ Hq1 HR) as (e2 & Hq2 & HQ).
  exists (e1 ++ e2). split; [by eapply quiet_trans|done].
Qed.

Lemma quietly_mono {A} (m : M A) s (Q Q' : A → list out → Prop) :
  quietly m s Q → (∀ a evs, Q a evs → Q' a evs) → quietly m s Q'.
Proof. intros (evs & ? & ?) HQ. exists evs. auto. Qed.

(** A step that sends nothing and returns anything. *)
Lemma quietly_silent_bind {A B} (m : M A) (k : A → M B) s (Q : B → list out → Prop) :
  quietly m s (λ _ evs, evs = []) →
  (∀ a s1, quiet s s1 [] → quietly (k a) s1 Q) → quietly (m ≫= k) s Q.
Proof. intros Hm Hk. eapply quietly_bind; [exact Hm|]. intros a s1 e1 Hq ->. by apply Hk. Qed.

Section senders.
Context {T : TlvLib} {E : ProviderEnv} {W : WireText}.
Context (cfg : Config).

Lemma tick_quiet s : quiet s (tick s) [].
Proof. exists (S (p_tick s)). unfold after. by rewrite app_nil_r. Qed.

Lemma quietly_clock s : quietly clockNow s (λ _ evs, evs = []).
Proof. exists []. split; [apply tick_quiet|done]. Qed.

Lemma quietly_nowUnix s : quietly nowUnix s (λ _ evs, evs = []).
Proof. exists []. split; [apply tick_quiet|done]. Qed.

Lemma quietly_resultExpiry s : quietly (resultExpiry cfg) s (λ _ evs, evs = []).
Proof. exists []. split; [apply tick_quiet|done]. Qed.

Lemma quietly_msgID s : quietly mustNewMsgID s (λ _ evs, evs = []).
Proof. exists []. split; [apply tick_quiet|done]. Qed.

Lemma quietly_streamID s : quietly newStreamID s (λ _ evs, evs = []).
Proof. exists []. split; [apply tick_quiet|done]. Qed.

Lemma quietly_send peer typ payload s :
  quietly (SendCustomMessage peer typ payload) s (λ ok evs, evs = [OSent peer typ payload ok]).
Proof. exists [OSent peer typ payload (env_send (p_tick s))]. split; [by eexists|done]. Qed.

Lemma quietly_sendWithin peer typ encoded max s :
  quietly (sendWithin peer typ encoded max) s (λ ok evs,
    (ok = false ∧ evs = []) ∨
    ∃ payload, encoded = Ok payload ∧ blen payload ≤ max ∧ evs = [OSent peer typ payload ok]).
Proof.
  unfold sendWithin. destruct encoded as [payload|e]; [|apply quietly_ret; by left].
  destruct (Z.ltb_spec max (blen payload)); [apply quietly_ret; by left|].
  eapply quietly_mono; [apply quietly_send|]. intros ok evs ->. right. eauto.
Qed.
End senders.

#[export] Hint Resolve quietly_clock quietly_nowUnix quietly_resultExpiry quietly_msgID
  quietly_streamID : lcp.

(** The random identifiers are 32 bytes long. *)
Class EnvSizes (E : ProviderEnv) : Prop :=
  env_rand_size : ∀ n b, env_rand n = Some b → wf_hash b.

(** ** Chunks *)

(** What a requester rebuilds from the chunks of a stream: each must decode,
    belong to the job and the stream and carry the next sequence number. *)
Fixpoint reassemble {T : TlvLib} (jobID streamID : bytes) (seq : Z) (evs : list out) : option bytes :=
  match evs with
  | [] => Some []
  | OSent _ typ payload true :: evs' =>
    if negb (typ =? MessageTypeStreamChunk) then None else
    match DecodeStreamChunk payload with
    | Err _ => None
    | Ok c =>
      if bool_decide (env_JobID (sc_Envelope c) = jobID) && bool_decide (sc_StreamID c = streamID) &&
         (sc_Seq c =? seq) then
        d ← sc_Data c; rest ← reassemble jobID streamID (wrap_u32 (seq + 1)) evs'; Some (d ++ rest)
      else None
    end
  | _ => None
  end.

(** A message to [peer] within the limit. *)
Definition fits (peer : string) (max : Z) (o : out) : Prop :=
  ∃ typ payload ok, o = OSent peer typ payload ok ∧ blen payload ≤ max.

Section chunks.
Context {T : TlvLib} {L : TlvLaws T} {E : ProviderEnv} {W : WireText}.
Context (env : JobEnvelope) (expiry : Z) (streamID : bytes) (max : Z).
Context (Hpv : env_ProtocolVersion env ≠ 0) (Hpv16 : is_u16 (env_ProtocolVersion env))
        (Hjob : wf_hash (env_JobID env)) (Hexp : is_u64 expiry) (Hsid : wf_hash streamID)
        (Hmax : 0 < max ≤ max_record_size).

(** The chunk as it is sent: with its deterministic message id. *)
Definition sent_chunk (seq : Z) (d : bytes) : StreamChunk :=
  {| sc_Envelope := reply_envelope env (ComputeDeterministicStreamChunkMsgID streamID seq) expiry;
     sc_StreamID := streamID; sc_Seq := seq; sc_Data := Some d |}.

Lemma encode_chunk_decodes seq d payload msgID :
  is_u32 seq → blen d ≤ max →
  EncodeStreamChunk (result_chunk env expiry streamID seq d) = Ok (payload, msgID) →
  DecodeStreamChunk payload = Ok (sent_chunk seq d).
Proof using Hpv Hpv16 Hjob Hexp Hsid Hmax L.
  intros Hseq Hd Henc.
  assert (Hm : wf_hash (ComputeDeterministicStreamChunkMsgID streamID seq)) by apply length_sha256_sum.
  destruct (stream_chunk_rt (sent_chunk seq d)) as (p & Hp & Hdec).
  - split; [done|]. unfold wf_env. simpl. done.
  - unfold wf_stream_chunk, wf_env, wf_blob. simpl. split_and!; try done. exists d. split; [done|lia].
  - change (EncodeStreamChunk (sent_chunk seq d))
      with (EncodeStreamChunk (result_chunk env expiry streamID seq d)) in Hp.
    rewrite Henc in Hp. injection Hp as -> _. done.
Qed.

Lemma fit_loop_ok fuel seq data n payload m :
  fit_loop fuel env expiry streamID seq data max n = Ok (payload, m) →
  (m ≤ n)%nat ∧ ((0 < n)%nat → (0 < m)%nat) ∧ blen payload ≤ max ∧
  ∃ msgID, EncodeStreamChunk (result_chunk env expiry streamID seq (take m data)) = Ok (payload, msgID).
Proof.
  revert n. induction fuel as [|fuel IH]; intros n; cbn [fit_loop]; [done|].
  destruct (EncodeStreamChunk (result_chunk _ _ _ _ (take n data))) as [[p mid]|e] eqn:He; [|done].
  destruct (Z.leb_spec (blen p) max) as [Hle|Hgt].
  - intros [= -> ->]. split_and!; [lia|lia|done|eauto].
  - destruct (Nat.leb_spec n 1) as [|Hn]; [done|]. intros H. apply IH in H as (H1 & H2 & H3 & H4).
    pose proof (Nat.lt_div2 n ltac:(lia)). assert (0 < Nat.div2 n)%nat.
    { rewrite Nat.div2_div. apply Nat.div_str_pos. lia. }
    split_and!; [lia|auto|done|done].
Qed.

Lemma fit_loop_fuel fuel seq data n :
  (n < fuel)%nat → fit_loop fuel env expiry streamID seq data max n ≠ Err FitFuel.
Proof.
  revert n. induction fuel as [|fuel IH]; intros n Hn; [lia|]. cbn [fit_loop].
  destruct (EncodeStreamChunk _) as [[p mid]|e]; [|done].
  destruct (blen p <=? max); [done|]. destruct (Nat.leb_spec n 1) as [|Hn1]; [done|].
  apply IH. pose proof (Nat.lt_div2 n ltac:(lia)). lia.
Qed.

(** A chunk that was encoded is a non-empty prefix of the data, fits, and decodes
    to what the loop put in. *)
Lemma fitting_chunk seq data payload m :
  is_u32 seq → data ≠ [] →
  encodeFittingResultStreamChunk env expiry streamID seq data max = Ok (payload, m) →
  (0 < m ≤ length data)%nat ∧ blen payload ≤ max ∧
  DecodeStreamChunk payload = Ok (sent_chunk seq (take m data)).
Proof using Hpv Hpv16 Hjob Hexp Hsid Hmax L.
  intros Hseq Hne Hfit. apply fit_loop_ok in Hfit as (Hle & Hpos & Hlen & msgID & Henc).
  assert (0 < blen data) by (unfold blen; destruct data; [done|simpl; lia]).
  assert (blen (take m data) ≤ max) by (unfold blen in *; rewrite length_take; lia).
  split_and!; [unfold blen in *; lia|unfold blen in *; lia|done|].
  by eapply encode_chunk_decodes.
Qed.

Lemma reassemble_cons peer payload seq d evs rest :
  DecodeStreamChunk payload = Ok (sent_chunk seq d) →
  reassemble (env_JobID env) streamID (wrap_u32 (seq + 1)) evs = Some rest →
  reassemble (env_JobID env) streamID seq (OSent peer MessageTypeStreamChunk payload true :: evs) = Some (d ++ rest).
Proof.
  intros Hdec Hrest. simpl. rewrite Hdec. simpl. rewrite !bool_decide_eq_true_2 by done.
  rewrite Z.eqb_refl. simpl. by rewrite Hrest.
Qed.

Lemma wrap_u32_range z : is_u32 (wrap_u32 z).
Proof. unfold wrap_u32, is_uint. apply Z.mod_pos_bound. done. Qed.

(** The chunk loop never runs out of fuel; what it sent fits, and when it
    succeeds the chunks reassemble to the bytes it was given. *)
Lemma chunks_loop_spec fuel peer rest seq s :
  is_u32 seq → (length rest ≤ fuel)%nat →
  quietly (chunks_loop fuel peer env expiry streamID rest seq max) s (λ res evs,
    res ≠ None ∧ Forall (fits peer max) evs ∧
    (res = Some true → reassemble (env_JobID env) streamID seq evs = Some rest)).
Proof using Hpv Hpv16 Hjob Hexp Hsid Hmax L.
  revert rest seq s. induction fuel as [|fuel IH]; intros rest seq s Hseq Hfuel.
  { destruct rest; [|simpl in Hfuel; lia]. by apply quietly_ret. }
  destruct rest as [|b rest]; [by apply quietly_ret|].
  change (chunks_loop (S fuel) peer env expiry streamID (b :: rest) seq max) with
    (match encodeFittingResultStreamChunk env expiry streamID seq (b :: rest) max with
     | Err _ => mret (Some false)
     | Ok (chunkPayload, chunkLen) =>
       sent ← SendCustomMessage peer MessageTypeStreamChunk chunkPayload;
       if negb (sent : bool) then mret (Some false)
       else chunks_loop fuel peer env expiry streamID (drop chunkLen (b :: rest)) (wrap_u32 (seq + 1)) max
     end : M (option bool)).
  destruct (encodeFittingResultStreamChunk _ _ _ _ _ _) as [[payload m]|e] eqn:Hfit; [|by apply quietly_ret].
  apply fitting_chunk in Hfit as (Hm & Hlen & Hdec); [|done..].
  eapply quietly_bind; [apply quietly_send|]. intros sent s1 e1 _ ->.
  assert (Hf : ∀ ok, fits peer max (OSent peer MessageTypeStreamChunk payload ok)) by (by repeat eexists).
  destruct sent; simpl.
  - eapply quietly_mono; [apply IH|].
    + apply wrap_u32_range.
    + rewrite length_drop. simpl in *. lia.
    + intros res evs (H1 & H2 & H3). split_and!; [done|by constructor|]. intros Hr.
      rewrite <-(take_drop m (b :: rest)) at 1. apply (reassemble_cons peer); auto.
  - apply quietly_ret. split_and!; [done|by repeat constructor|done].
Qed.
End chunks.

(** ** The whole result *)

(** The messages of a result that arrived: begin, chunks that reassemble to the
    output, an end and a terminal result that carry its length and its SHA-256.
    [announced] tells whether the begin already carried both. *)
Definition delivered {T : TlvLib} (peer : string) (jobID streamID output : bytes)
    (announced : bool) (contentType : string) (evs : list out) : Prop :=
  ∃ pb chunks pe pr b e r,
    evs = OSent peer MessageTypeStreamBegin pb true :: chunks ++
            [OSent peer MessageTypeStreamEnd pe true; OSent peer MessageTypeResult pr true] ∧
    DecodeStreamBegin pb = Ok b ∧ env_JobID (sb_Envelope b) = jobID ∧
    sb_StreamID b = streamID ∧ sb_Kind b = StreamKindResult ∧
    sb_ContentType b = contentType ∧ sb_ContentEncoding b = contentEncodingIdentity ∧
    (sb_TotalLen b, sb_SHA256 b) =
      (if announced then (Some (blen output), Some (sha256_sum output)) else (None, None)) ∧
    reassemble jobID streamID 0 chunks = Some output ∧
    DecodeStreamEnd pe = Ok e ∧ env_JobID (se_Envelope e) = jobID ∧ se_StreamID e = streamID ∧
    se_TotalLen e = blen output ∧ se_SHA256 e = sha256_sum output ∧
    DecodeResult pr = Ok r ∧ env_JobID (rs_Envelope r) = jobID ∧ rs_Status r = ResultStatusOK ∧
    rs_OK r = Some {| ro_ResultStreamID := streamID; ro_ResultHash := sha256_sum output;
                      ro_ResultLen := blen output; ro_ResultContentType := contentType;
                      ro_ResultContentEncoding := contentEncodingIdentity |}.

(** A terminal result that reports a failure. *)
Definition refused {T : TlvLib} (peer : string) (jobID : bytes) (evs : list out) : Prop :=
  ∃ pr r, evs = [OSent peer MessageTypeResult pr true] ∧ DecodeResult pr = Ok r ∧
    env_JobID (rs_Envelope r) = jobID ∧ rs_Status r = ResultStatusFailed ∧
    rs_Message r = Some limits_message.

(** A concatenation of messages that fit. *)
Ltac solve_fits := rewrite ?app_nil_l; repeat apply Forall_app_2; done.

Section results.
Context {T : TlvLib} {L : TlvLaws T} {E : ProviderEnv} {ES : EnvSizes E} {W : WireText}.
Context (cfg : Config) (Httl : is_u64 (cfg_QuoteTTLSeconds cfg)).
Context (peer : string) (env : JobEnvelope).
Context (Hpv : env_ProtocolVersion env ≠ 0) (Hpv16 : is_u16 (env_ProtocolVersion env))
        (Hjob : wf_hash (env_JobID env)).

Lemma quietly_msgID_wf s : quietly mustNewMsgID s (λ id evs, evs = [] ∧ wf_hash id).
Proof using ES.
  exists []. split; [apply tick_quiet|]. split; [done|]. simpl.
  destruct (env_rand (p_tick s)) eqn:Hr; [by eapply env_rand_size|done].
Qed.

Lemma quietly_streamID_wf s : quietly newStreamID s (λ id evs, evs = [] ∧ wf_opt wf_hash id).
Proof using ES.
  exists []. split; [apply tick_quiet|]. split; [done|]. simpl.
  destruct (env_rand (p_tick s)) eqn:Hr; [by eapply env_rand_size|done].
Qed.

Lemma quoteTTL_u64 : is_u64 (quoteTTLSeconds cfg).
Proof using Httl. unfold quoteTTLSeconds. by case_match. Qed.

Lemma quietly_resultExpiry_wf s : quietly (resultExpiry cfg) s (λ x evs, evs = [] ∧ is_u64 x).
Proof using Httl.
  exists []. split; [apply tick_quiet|]. split; [done|]. simpl.
  destruct (_ <? 0); [apply quoteTTL_u64|]. unfold wrap_u64, is_uint. by apply Z.mod_pos_bound.
Qed.

Lemma reply_sendable msgID expiry :
  wf_hash msgID → is_u64 expiry → sendable (reply_envelope env msgID expiry).
Proof using Hpv Hpv16 Hjob. intros ??. split; [done|]. unfold wf_env. simpl. done. Qed.

(** The shape of the three senders: a fresh message id, then one message that
    fits or none. *)
Lemma sender_spec {A} typ (mk : bytes → A) (enc : A → wres bytes) (dec : bytes → wres A) max s :
  (∀ msgID, wf_hash msgID → ∃ p, enc (mk msgID) = Ok p ∧ dec p = Ok (mk msgID)) →
  quietly (msgID ← mustNewMsgID; sendWithin peer typ (enc (mk msgID)) max) s (λ ok evs,
    Forall (fits peer max) evs ∧
    (ok = true → ∃ p msgID, evs = [OSent peer typ p true] ∧ dec p = Ok (mk msgID))).
Proof using ES.
  intros Hrt. eapply quietly_bind; [apply quietly_msgID_wf|]. intros msgID s1 e1 _ [-> Hid].
  eapply quietly_mono; [apply quietly_sendWithin|]. simpl.
  intros ok evs [[-> ->]|(p & He & Hp & ->)]; [done|].
  split; [constructor; [by repeat eexists|done]|]. intros ->.
  destruct (Hrt msgID Hid) as (p' & He' & Hd). rewrite He in He'. injection He' as <-. eauto.
Qed.

Lemma content_type_wf kind streaming : wf_name (resultContentTypeForTaskKind kind streaming).
Proof. unfold resultContentTypeForTaskKind. repeat case_match; by vm_compute. Qed.

Lemma identity_wf : wf_name contentEncodingIdentity.
Proof. by vm_compute. Qed.

Definition begin_message (msgID : bytes) (expiry : Z) (streamID : bytes) (totalLen : option Z)
    (sum : option bytes) (ct : string) : StreamBegin :=
  {| sb_Envelope := reply_envelope env msgID expiry; sb_StreamID := streamID;
     sb_Kind := StreamKindResult; sb_TotalLen := totalLen; sb_SHA256 := sum; sb_ContentType := ct;
     sb_ContentEncoding := contentEncodingIdentity |}.

Lemma begin_rt expiry streamID totalLen sum ct msgID :
  is_u64 expiry → wf_hash streamID → wf_opt is_u64 totalLen → wf_opt wf_hash sum → wf_name ct →
  wf_hash msgID →
  ∃ p, EncodeStreamBegin (begin_message msgID expiry streamID totalLen sum ct) = Ok p ∧
       DecodeStreamBegin p = Ok (begin_message msgID expiry streamID totalLen sum ct).
Proof using Hpv Hpv16 Hjob L.
  intros Hx Hs Ht Hh Hc Hid. destruct (reply_sendable msgID expiry Hid Hx) as [H1 H2].
  apply stream_begin_rt; [by split|]. split_and!; try done. by right.
Qed.

Definition end_message (msgID : bytes) (expiry : Z) (streamID output : bytes) : StreamEnd :=
  {| se_Envelope := reply_envelope env msgID expiry; se_StreamID := streamID;
     se_TotalLen := blen output; se_SHA256 := sha256_sum output |}.

Lemma sendResultStreamEnd_spec expiry streamID output max s :
  is_u64 expiry → wf_hash streamID → is_u64 (blen output) →
  quietly (sendResultStreamEnd peer env expiry streamID (blen output) (sha256_sum output) max) s
    (λ ok evs, Forall (fits peer max) evs ∧
       (ok = true → ∃ p msgID, evs = [OSent peer MessageTypeStreamEnd p true] ∧
          DecodeStreamEnd p = Ok (end_message msgID expiry streamID output))).
Proof using Hpv Hpv16 Hjob L ES.
  intros Hx Hs Hl.
  apply (sender_spec MessageTypeStreamEnd (λ id, end_message id expiry streamID output)
    EncodeStreamEnd DecodeStreamEnd). intros msgID Hid. apply stream_end_rt; [by apply reply_sendable|].
  destruct (reply_sendable msgID expiry Hid Hx). split_and!; try done; apply length_sha256_sum.
Qed.

Definition ok_message (msgID : bytes) (expiry : Z) (streamID output : bytes) (ct : string) : Result :=
  {| rs_Envelope := reply_envelope env msgID expiry; rs_Status := ResultStatusOK;
     rs_OK := Some {| ro_ResultStreamID := streamID; ro_ResultHash := sha256_sum output;
                      ro_ResultLen := blen output; ro_ResultContentType := ct;
                      ro_ResultContentEncoding := contentEncodingIdentity |};
     rs_Message := None |}.

Lemma sendTerminalOKResult_spec expiry streamID output ct max s :
  is_u64 expiry → wf_hash streamID → is_u64 (blen output) → wf_name ct →
  quietly (sendTerminalOKResult peer env expiry streamID (blen output) (sha256_sum output) ct
             contentEncodingIdentity max) s
    (λ ok evs, Forall (fits peer max) evs ∧
       (ok = true → ∃ p msgID, evs = [OSent peer MessageTypeResult p true] ∧
          DecodeResult p = Ok (ok_message msgID expiry streamID output ct))).
Proof using Hpv Hpv16 Hjob L ES.
  intros Hx Hs Hl Hc.
  apply (sender_spec MessageTypeResult (λ id, ok_message id expiry streamID output ct)
    EncodeResult DecodeResult). intros msgID Hid. apply result_rt_ok; [by apply reply_sendable|].
  split_and!; try done; first [apply length_sha256_sum|by vm_compute].
Qed.

Lemma sendTerminalFailed_spec max s :
  0 < max →
  quietly (sendTerminalResultStatus cfg peer env ResultStatusFailed (Some limits_message) max) s
    (λ ok evs, Forall (fits peer max) evs ∧ (ok = true → refused peer (env_JobID env) evs)).
Proof using Hpv Hpv16 Hjob L ES Httl.
  intros Hmax. eapply quietly_bind; [apply quietly_msgID_wf|]. intros msgID s1 e1 _ [-> Hid].
  eapply quietly_bind; [apply quietly_resultExpiry_wf|]. intros expiry s2 e2 _ [-> Hx].
  pose (r := {| rs_Envelope := reply_envelope env msgID expiry; rs_Status := ResultStatusFailed;
                rs_OK := None; rs_Message := Some limits_message |}).
  destruct (result_rt r) as (p & He & Hd); [by apply reply_sendable| |].
  { split; [by apply (reply_sendable msgID expiry)|]. right. split_and!; [by left|done|by vm_compute]. }
  fold r. rewrite He. destruct (Z.eqb_spec max 0); [lia|]. simpl.
  destruct (Z.ltb_spec max (blen p)); [by apply quietly_ret|].
  eapply quietly_mono; [apply quietly_send|]. intros ok evs ->.
  split; [constructor; [by repeat eexists|done]|]. intros ->. by exists p, r.
Qed.

(** *** Buffered results *)

(** The payload limit that applies, and limits a Lightning message can carry. *)
Definition payload_limit (d : PeerDir.Directory) (remoteMaxPayload : Z) : Z :=
  if remoteMaxPayload =? 0 then remoteMaxPayloadBytes (PeerDir.RemoteManifestFor peer d)
  else remoteMaxPayload.

Definition usable_limits (d : PeerDir.Directory) (remoteMaxPayload : Z) : Prop :=
  0 ≤ remoteMaxPayload ≤ max_record_size ∧
  ∀ m, PeerDir.RemoteManifestFor peer d = Some m →
    is_u64 (mf_MaxStreamBytes m) ∧ 0 ≤ mf_MaxPayloadBytes m ≤ max_record_size.

Definition over_limits (m : Manifest) (inputLen totalLen : Z) : bool :=
  (mf_MaxStreamBytes m <? totalLen) || (mf_MaxJobBytes m <? wrap_u64 (inputLen + totalLen)).

Lemma quietly_resolve remoteMaxPayload s :
  usable_limits (p_peers s) remoteMaxPayload →
  quietly (resolveRemoteManifestAndMaxPayload peer remoteMaxPayload) s (λ res evs,
    evs = [] ∧ ∀ m max, res = Some (m, max) →
      PeerDir.RemoteManifestFor peer (p_peers s) = Some m ∧
      max = payload_limit (p_peers s) remoteMaxPayload ∧ 0 < max ≤ max_record_size ∧
      is_u64 (mf_MaxStreamBytes m)).
Proof.
  intros [Hr Hm]. eapply quietly_bind; [by apply (quietly_reads _ _
    (λ o evs, o = PeerDir.RemoteManifestFor peer (p_peers s) ∧ evs = []))|].
  intros o s1 e1 _ [-> ->]. apply quietly_ret. split; [done|]. intros m max Hres.
  unfold payload_limit. destruct (PeerDir.RemoteManifestFor peer (p_peers s)) as [m'|] eqn:Em; [|done].
  simpl in Hres. destruct (Hm m' eq_refl) as [Hu Hp].
  destruct (Z.eqb_spec remoteMaxPayload 0) as [|Hne]; simpl in Hres |- *.
  - destruct (Z.eqb_spec (mf_MaxPayloadBytes m') 0); [done|]. injection Hres as <- <-. split_and!; [done..|lia|lia|done].
  - destruct (Z.eqb_spec remoteMaxPayload 0); [done|]. injection Hres as <- <-. split_and!; [done..|lia|lia|done].
Qed.

Lemma sendResultStreamChunks_spec expiry streamID output max s :
  is_u64 expiry → wf_hash streamID → 0 < max ≤ max_record_size →
  quietly (sendResultStreamChunks peer env expiry streamID output max) s (λ ok evs,
    Forall (fits peer max) evs ∧ (ok = true → reassemble (env_JobID env) streamID 0 evs = Some output)).
Proof using Hpv Hpv16 Hjob L.
  intros Hx Hs Hmax. eapply quietly_bind; [by apply chunks_loop_spec|]. simpl.
  intros res s1 e1 _ (Hn & Hf & Hr). apply quietly_ret. rewrite app_nil_r. split; [done|].
  intros Hok. apply Hr. by destruct res as [[]|].
Qed.

Lemma delivered_intro streamID output (announced : bool) ct expiry pb bid chunks pe eid pr rid :
  DecodeStreamBegin pb = Ok (begin_message bid expiry streamID
    (if announced then Some (blen output) else None)
    (if announced then Some (sha256_sum output) else None) ct) →
  reassemble (env_JobID env) streamID 0 chunks = Some output →
  DecodeStreamEnd pe = Ok (end_message eid expiry streamID output) →
  DecodeResult pr = Ok (ok_message rid expiry streamID output ct) →
  delivered peer (env_JobID env) streamID output announced ct
    (OSent peer MessageTypeStreamBegin pb true :: chunks ++
       [OSent peer MessageTypeStreamEnd pe true; OSent peer MessageTypeResult pr true]).
Proof.
  intros Hb Hc He Hr. exists pb, chunks, pe, pr. do 3 eexists. split; [reflexivity|].
  split_and!; try done. by destruct announced.
Qed.

(** A buffered result is sent only in messages within the peer's payload limit;
    when [sendResult] reports success, the messages of the whole result were sent,
    or, if the output exceeds the peer's stream limits, just a terminal result with
    status failed. *)
Lemma sendResult_sends taskKind streaming inputLen output remoteMaxPayload s :
  usable_limits (p_peers s) remoteMaxPayload →
  quietly (sendResult cfg peer env taskKind streaming inputLen output remoteMaxPayload) s (λ ok evs,
    Forall (fits peer (payload_limit (p_peers s) remoteMaxPayload)) evs ∧
    (ok = true → ∃ m, PeerDir.RemoteManifestFor peer (p_peers s) = Some m ∧
       if over_limits m inputLen (blen output) then refused peer (env_JobID env) evs
       else ∃ streamID, delivered peer (env_JobID env) streamID output true
              (resultContentTypeForTaskKind taskKind streaming) evs)).
Proof using Hpv Hpv16 Hjob L ES Httl.
  intros Hlim. eapply quietly_bind; [by apply quietly_resolve|].
  intros res s1 e1 _ [-> Hres]. destruct res as [[m max]|]; [|by apply quietly_ret].
  destruct (Hres m max eq_refl) as (Hm & -> & Hmax & Hu). clear Hres. simpl.
  fold (over_limits m inputLen (blen output)). rewrite Hm.
  destruct (over_limits m inputLen (blen output)) eqn:Hover.
  { eapply quietly_mono; [apply sendTerminalFailed_spec; lia|]. intros ok evs [H1 H2].
    split; [done|]. intros Hok. exists m. rewrite Hover. auto. }
  assert (Hlen : is_u64 (blen output)).
  { unfold over_limits in Hover. bool_to_prop. pose proof (blen_nonneg output). unfold is_uint in *. lia. }
  eapply quietly_bind; [apply quietly_streamID_wf|]. intros sid s2 e2 _ [-> Hsid].
  destruct sid as [streamID|]; [|by apply quietly_ret]. simpl in Hsid.
  eapply quietly_bind; [apply quietly_resultExpiry_wf|]. intros expiry s3 e3 _ [-> Hx].
  pose proof (content_type_wf taskKind streaming) as Hct.
  eapply (quietly_bind _ _ _ (λ ok evs, Forall (fits peer (payload_limit (p_peers s) remoteMaxPayload)) evs ∧
    (ok = true → ∃ pb bid chunks pe eid,
       evs = OSent peer MessageTypeStreamBegin pb true :: chunks ++ [OSent peer MessageTypeStreamEnd pe true] ∧
       DecodeStreamBegin pb = Ok (begin_message bid expiry streamID (Some (blen output))
         (Some (sha256_sum output)) (resultContentTypeForTaskKind taskKind streaming)) ∧
       reassemble (env_JobID env) streamID 0 chunks = Some output ∧
       DecodeStreamEnd pe = Ok (end_message eid expiry streamID output)))).
  - eapply quietly_bind.
    { apply (sender_spec MessageTypeStreamBegin (λ id, begin_message id expiry streamID (Some (blen output))
        (Some (sha256_sum output)) (resultContentTypeForTaskKind taskKind streaming)) EncodeStreamBegin DecodeStreamBegin).
      intros msgID Hid. apply begin_rt; try done; apply length_sha256_sum. }
    intros begun s4 e4 _ [Hf4 Hb]. destruct begun; [|apply quietly_ret; by rewrite app_nil_r].
    destruct (Hb eq_refl) as (pb & bid & -> & Hdb).
    eapply quietly_bind; [by apply sendResultStreamChunks_spec|].
    intros sent s5 e5 _ [Hf5 Hc]. destruct sent.
    2: { apply quietly_ret. rewrite app_nil_r. split; [by apply Forall_app|done]. }
    eapply quietly_mono; [by apply sendResultStreamEnd_spec|]. intros ok evs [Hf6 He].
    split; [by rewrite !Forall_app|]. intros Hok. destruct (He Hok) as (pe & eid & -> & Hde).
    exists pb, bid, e5, pe, eid. split_and!; auto.
  - intros sent s4 e4 _ [Hf4 Hs]. destruct sent; [|apply quietly_ret; by rewrite app_nil_r].
    destruct (Hs eq_refl) as (pb & bid & chunks & pe & eid & -> & Hdb & Hc & Hde).
    eapply quietly_mono; [by apply sendTerminalOKResult_spec|]. intros ok evs [Hf5 Hr].
    split; [solve_fits|]. intros Hok. destruct (Hr Hok) as (pr & rid & -> & Hdr).
    exists m. split; [done|]. rewrite Hover. exists streamID. simpl. rewrite <-app_assoc.
    by eapply delivered_intro.
Qed.

(** *** Streamed results *)

(** The bytes a reader delivers before [io.EOF]; [None] when it fails, or returns
    neither bytes nor an error. *)
Fixpoint eof_data (reads : list read) : option bytes :=
  match reads with
  | [] => Some []
  | r :: reads' =>
    match rd_data r, rd_err r with
    | [], None => None
    | [], Some ReadEOF => Some []
    | _, Some (ReadErr _) => None
    | data, _ => rest ← eof_data reads'; Some (data ++ rest)
    end
  end.

Lemma eof_data_le reads data : eof_data reads = Some data → blen data ≤ blen (reads_data reads).
Proof.
  revert data. induction reads as [|[d err] reads IH]; intros data; cbn [eof_data rd_data rd_err]; [by intros [= <-]|].
  change (reads_data (_ :: reads)) with (d ++ reads_data reads). rewrite blen_app.
  pose proof (blen_nonneg (reads_data reads)) as Hr. pose proof (blen_nonneg d) as Hd.
  assert (H0 : blen (@nil byte) = 0) by done.
  assert (Hc : ∀ d0, (rest ← eof_data reads; Some (d0 ++ rest)) = Some data →
    blen data ≤ blen d0 + blen (reads_data reads)).
  { intros d0. destruct (eof_data reads) as [rest|]; [|done]. intros [= <-]. rewrite blen_app.
    specialize (IH rest eq_refl). lia. }
  destruct d as [|b d]; destruct err as [[|msg]|]; try done; [|apply (Hc (b :: d))..].
  intros [= <-]. lia.
Qed.

(** What the streaming loop has to show for itself when it ends. *)
Definition stream_post (streamID : bytes) (max : Z) (reads : list read) (pending : bytes)
    (totalLen seq : Z) (hashed : bytes) (e : ResultSend.stream_end) (evs : list out) : Prop :=
  Forall (fits peer max) evs ∧
  match e with
  | StreamFuel => False
  | StreamEOF total h =>
    ∃ rest, eof_data reads = Some rest ∧ h = hashed ++ pending ++ rest ∧
      total = totalLen + blen (pending ++ rest) ∧ reassemble (env_JobID env) streamID seq evs = Some (pending ++ rest)
  | StreamReturn _ ok err =>
    err = None → ok = true → ∃ e1 e2, evs = e1 ++ e2 ∧ refused peer (env_JobID env) e2
  end.

Lemma stream_post_cons streamID max reads pending totalLen seq hashed e evs payload x m :
  blen payload ≤ max → DecodeStreamChunk payload = Ok (sent_chunk env x streamID seq (take m pending)) →
  stream_post streamID max reads (drop m pending) (totalLen + blen (take m pending))
    (wrap_u32 (seq + 1)) (hashed ++ take m pending) e evs →
  stream_post streamID max reads pending totalLen seq hashed e
    (OSent peer MessageTypeStreamChunk payload true :: evs).
Proof.
  intros Hp Hd [Hf He]. split; [constructor; [by repeat eexists|done]|].
  destruct e as [total h|n ok err|]; [|..|done].
  - destruct He as (rest & H1 & H2 & H3 & H4). exists rest.
    assert (Hpr : pending ++ rest = take m pending ++ (drop m pending ++ rest))
      by (by rewrite app_assoc, take_drop).
    split_and!; [done|by rewrite H2, Hpr, !app_assoc| |].
    + rewrite Hpr, blen_app. lia.
    + rewrite Hpr. by eapply reassemble_cons.
  - intros ??. destruct He as (e1 & e2 & -> & ?); [done..|]. by exists (OSent peer MessageTypeStreamChunk payload true :: e1), e2.
Qed.

Section loop.
Context (expiry : Z) (streamID : bytes) (inputLen max maxStreamBytes maxJobBytes : Z).
Context (Hx : is_u64 expiry) (Hsid : wf_hash streamID) (Hmax : 0 < max ≤ max_record_size).

Lemma streaming_send_spec next reads pending totalLen seq hashed s :
  is_u32 seq → 0 ≤ totalLen → totalLen + blen pending < 2 ^ 64 → pending ≠ [] →
  (∀ m s1, (0 < m ≤ length pending)%nat →
     quietly (next (drop m pending) (totalLen + blen (take m pending)) (wrap_u32 (seq + 1))
                (hashed ++ take m pending)) s1
       (stream_post streamID max reads (drop m pending) (totalLen + blen (take m pending))
          (wrap_u32 (seq + 1)) (hashed ++ take m pending))) →
  quietly (streaming_send cfg next peer env expiry streamID inputLen max maxStreamBytes maxJobBytes
             pending totalLen seq hashed) s
    (stream_post streamID max reads pending totalLen seq hashed).
Proof using Hpv Hpv16 Hjob L ES Httl Hx Hsid Hmax.
  intros Hseq Htot Hbig Hne Hnext. unfold streaming_send.
  destruct (encodeFittingResultStreamChunk _ _ _ _ pending _) as [[payload m]|e] eqn:Hfit; [|by apply quietly_ret].
  eapply fitting_chunk in Hfit as (Hm & Hlen & Hdec); try done.
  assert (Heq : wrap_u64 (totalLen + Z.of_nat m) = totalLen + blen (take m pending)).
  { unfold blen in *. rewrite length_take, Nat.min_l by lia. apply Z.mod_small. lia. }
  rewrite Heq. destruct ((_ <? _) || _).
  - eapply quietly_bind; [apply sendTerminalFailed_spec; lia|]. intros ok s1 e1 _ [Hf1 Hr].
    apply quietly_ret. rewrite app_nil_r. split; [done|]. intros _ Hok. exists [], e1. auto.
  - eapply quietly_bind; [apply quietly_send|]. intros sent s1 e1 _ ->. destruct sent; simpl.
    + eapply quietly_mono; [by apply Hnext|]. intros e evs He. by eapply stream_post_cons.
    + apply quietly_ret. split; [constructor; [by repeat eexists|done]|done].
Qed.

Lemma streaming_loop_spec fuel reads pending totalLen seq hashed s :
  is_u32 seq → 0 ≤ totalLen → totalLen + blen pending + blen (reads_data reads) < 2 ^ 64 →
  (length reads + length (reads_data reads) + length pending < fuel)%nat →
  quietly (streaming_loop cfg fuel peer env expiry streamID inputLen max maxStreamBytes maxJobBytes
             reads pending totalLen seq hashed) s
    (stream_post streamID max reads pending totalLen seq hashed).
Proof using Hpv Hpv16 Hjob L ES Httl Hx Hsid Hmax.
  revert reads pending totalLen seq hashed s. induction fuel as [|fuel IH];
    intros reads pending totalLen seq hashed s Hseq Htot Hbig Hfuel; [lia|].
  assert (Hsend : ∀ rs pend, pend ≠ [] → totalLen + blen pend + blen (reads_data rs) < 2 ^ 64 →
    (length rs + length (reads_data rs) + length pend < S fuel)%nat →
    quietly (streaming_send cfg (streaming_loop cfg fuel peer env expiry streamID inputLen max
      maxStreamBytes maxJobBytes rs) peer env expiry streamID inputLen max maxStreamBytes maxJobBytes
      pend totalLen seq hashed) s (stream_post streamID max rs pend totalLen seq hashed)).
  { intros rs pend Hne Hb Hf. unfold blen in Hb. apply streaming_send_spec; try done; [unfold blen; lia|].
    intros m s1 Hm. apply IH; [apply wrap_u32_range|unfold blen; lia|..].
    - unfold blen. rewrite length_take, length_drop. lia.
    - rewrite length_drop. lia. }
  destruct pending as [|b pending]; [|apply Hsend; try done; lia].
  destruct reads as [|[data err] reads].
  { apply quietly_ret. split; [done|]. exists []. rewrite !app_nil_r. split_and!; [done..|unfold blen; simpl; lia|done]. }
  change (reads_data _) with (data ++ reads_data reads) in Hbig, Hfuel.
  rewrite blen_app in Hbig. rewrite length_app in Hfuel. simpl in Hfuel, Hbig.
  unfold blen at 1 in Hbig. simpl in Hbig. rewrite Z.add_0_r in Hbig.
  destruct data as [|b data]; [destruct err as [[|msg]|]|destruct err as [[|msg]|]];
    try (by apply quietly_ret).
  - apply quietly_ret. split; [done|]. exists []. rewrite !app_nil_r.
    split_and!; [done..|unfold blen; simpl; lia|done].
  - eapply quietly_mono; [apply (Hsend reads (b :: data)); [done|lia|simpl in *; lia]|].
    intros e evs [Hf He]; split; [done|]; destruct e; [|done..].
    destruct He as (rest & Hr & -> & -> & Hre). exists (b :: data ++ rest). simpl. rewrite Hr. by split_and!.
  - eapply quietly_mono; [apply (Hsend reads (b :: data)); [done|lia|simpl in *; lia]|].
    intros e evs [Hf He]; split; [done|]; destruct e; [|done..].
    destruct He as (rest & Hr & -> & -> & Hre). exists (b :: data ++ rest). simpl. rewrite Hr. by split_and!.
Qed.
End loop.

Lemma fit_loop_err fuel expiry streamID seq data max n e :
  is_u64 expiry → wf_hash streamID → is_u32 seq → (0 < n)%nat → Z.of_nat n ≤ max_record_size →
  fit_loop fuel env expiry streamID seq data max n = Err e →
  match e with
  | FitEncode _ => False
  | FitCannot => ∃ payload msgID, max < blen payload ∧
      EncodeStreamChunk (result_chunk env expiry streamID seq (take 1 data)) = Ok (payload, msgID)
  | FitFuel => True
  end.
Proof using Hpv Hpv16 Hjob L.
  intros Hx Hs Hseq. revert n. induction fuel as [|fuel IH]; intros n Hn Hle; cbn [fit_loop]; [by intros [= <-]|].
  assert (Henc : ∃ p id, EncodeStreamChunk (result_chunk env expiry streamID seq (take n data)) = Ok (p, id)).
  { destruct (stream_chunk_rt (sent_chunk env expiry streamID seq (take n data))) as (p & Hp & _); [| |by eauto].
    - apply reply_sendable; [apply length_sha256_sum|done].
    - destruct (reply_sendable (ComputeDeterministicStreamChunkMsgID streamID seq) expiry); [apply length_sha256_sum|done|].
      split_and!; try done. eexists. split; [done|]. unfold wf_blob, blen. rewrite length_take. lia. }
  destruct Henc as (p & id & Henc). rewrite Henc. destruct (Z.leb_spec (blen p) max) as [|Hbig]; [done|].
  destruct (Nat.leb_spec n 1) as [Hn1|Hn1].
  - assert (n = 1%nat) as -> by lia. intros [= <-]. eauto.
  - apply IH; [rewrite Nat.div2_div; apply Nat.div_str_pos; lia|]. pose proof (Nat.lt_div2 n ltac:(lia)). lia.
Qed.

(** Fitting a chunk under the peer's payload limit ends with a non-empty
    prefix of the data whose message fits and decodes to that prefix, and gives up
    only when even a single byte does not fit. *)
Theorem chunk_fitting expiry streamID seq data max :
  is_u64 expiry → wf_hash streamID → is_u32 seq → data ≠ [] → 0 < max ≤ max_record_size →
  match encodeFittingResultStreamChunk env expiry streamID seq data max with
  | Ok (payload, n) =>
    (0 < n ≤ length data)%nat ∧ blen payload ≤ max ∧
    DecodeStreamChunk payload = Ok (sent_chunk env expiry streamID seq (take n data))
  | Err FitCannot => ∃ payload msgID, max < blen payload ∧
      EncodeStreamChunk (result_chunk env expiry streamID seq (take 1 data)) = Ok (payload, msgID)
  | Err _ => False
  end.
Proof using Hpv Hpv16 Hjob L.
  intros Hx Hs Hseq Hne Hmax.
  destruct (encodeFittingResultStreamChunk _ _ _ _ _ _) as [[payload n]|e] eqn:Hfit.
  { eapply fitting_chunk in Hfit; done. }
  unfold encodeFittingResultStreamChunk in Hfit.
  assert (0 < blen data) by (unfold blen; destruct data; [done|simpl; lia]).
  pose proof Hfit as He. eapply fit_loop_err in He; [|done..|lia|lia].
  destruct e; [done..|]. eapply fit_loop_fuel; [|exact Hfit]. lia.
Qed.

(** Forwarding a streamed output always ends, and sends only messages within the
    payload limit; what success means is the conclusion. *)
Lemma sendResultStreaming_sends taskKind inputLen output remoteMaxPayload s :
  usable_limits (p_peers s) remoteMaxPayload → blen (reads_data output) < 2 ^ 64 →
  quietly (sendResultStreaming cfg peer env taskKind inputLen output remoteMaxPayload) s (λ res evs,
    Forall (fits peer (payload_limit (p_peers s) remoteMaxPayload)) evs ∧
    (res.1.2 = true → res.2 = None →
       (∃ e1 e2, evs = e1 ++ e2 ∧ refused peer (env_JobID env) e2) ∨
       ∃ streamID data, eof_data output = Some data ∧ res.1.1 = blen data ∧ data ≠ [] ∧
         delivered peer (env_JobID env) streamID data false
           (resultContentTypeForTaskKind taskKind true) evs)).
Proof using Hpv Hpv16 Hjob L ES Httl.
  intros Hlim Hbig. eapply quietly_bind; [by apply quietly_resolve|].
  intros res s1 e1 _ [-> Hres]. destruct res as [[m max]|]; [|by apply quietly_ret].
  destruct (Hres m max eq_refl) as (Hm & -> & Hmax & Hu). clear Hres.
  eapply quietly_bind; [apply quietly_streamID_wf|]. intros sid s2 e2 _ [-> Hsid].
  destruct sid as [streamID|]; [|by apply quietly_ret]. simpl in Hsid.
  eapply quietly_bind; [apply quietly_resultExpiry_wf|]. intros expiry s3 e3 _ [-> Hx].
  pose proof (content_type_wf taskKind true) as Hct.
  eapply quietly_bind.
  { apply (sender_spec MessageTypeStreamBegin (λ id, begin_message id expiry streamID None
      None (resultContentTypeForTaskKind taskKind true)) EncodeStreamBegin DecodeStreamBegin).
    intros msgID Hid. by apply begin_rt. }
  intros begun s4 e4 _ [Hf4 Hb]. destruct begun; [|apply quietly_ret; by rewrite app_nil_r].
  destruct (Hb eq_refl) as (pb & bid & -> & Hdb). clear Hb.
  eapply quietly_bind; [apply streaming_loop_spec; try done; unfold stream_fuel; simpl; lia|].
  intros ended s5 e5 _ [Hf5 Hend]. destruct ended as [total h|n ok err|]; [|..|done].
  2: { apply quietly_ret. rewrite app_nil_r. split; [solve_fits|]. simpl. intros Hok Herr.
       left. destruct (Hend Herr Hok) as (x1 & x2 & -> & Hr). by eexists (_ :: x1), x2. }
  destruct Hend as (data & Hd & -> & -> & Hre).
  change (@app byte [] ([] ++ data)) with data. change (@app byte [] data) with data in *. rewrite Z.add_0_l.
  destruct (Z.eqb_spec (blen data) 0) as [|Hnz].
  { apply quietly_ret. rewrite app_nil_r. split; [solve_fits|done]. }
  assert (Hlen : is_u64 (blen data)).
  { split; [apply blen_nonneg|]. eapply Z.le_lt_trans; [|exact Hbig]. by apply eof_data_le. }
  eapply quietly_bind; [by apply sendResultStreamEnd_spec|]. intros sent s6 e6 _ [Hf6 He].
  destruct sent; cbn [negb].
  2: { apply quietly_ret. rewrite app_nil_r. split; [solve_fits|done]. }
  destruct (He eq_refl) as (pe & eid & -> & Hde).
  eapply quietly_bind; [by apply sendTerminalOKResult_spec|]. intros ok s7 e7 _ [Hf7 Hr].
  apply quietly_ret. rewrite app_nil_r. split; [solve_fits|]. simpl. intros Hok _.
  destruct (Hr Hok) as (pr & rid & -> & Hdr). right. exists streamID, data.
  split_and!; [done..| |]; [by intros ->|]. by eapply (delivered_intro _ _ false).
Qed.
End results.

(** ** Witnesses *)

Module ResultExamples.
#[local] Instance tlv : TlvLib := bolt_tlv.
#[local] Instance no_environ : Environ := λ _, ""%string.
#[local] Instance text : WireText := λ _, "wire error"%string.
#[local] Instance world : ProviderEnv :=
  {| env_clock _ := 1700000000 * ns_per_sec; env_rand n := Some (repeat Byte.x55 32); env_send _ := true;
     env_invoice _ _ := None |}.
#[local] Instance world_sizes : EnvSizes world.
Proof. intros n b [= <-]. reflexivity. Qed.

Definition cfg : Config :=
  {| cfg_Enabled := true; cfg_QuoteTTLSeconds := 300;
     cfg_InFlightSurge := {| sg_Threshold := 0; sg_PerJobBps := 0; sg_MaxMultiplierBps := 0 |};
     cfg_Models := ∅ |}.
Definition peer : string := "02aa".
Definition env : JobEnvelope :=
  {| env_ProtocolVersion := 2; env_JobID := repeat Byte.x11 32; env_MsgID := repeat Byte.x12 32;
     env_Expiry := 1700000300 |}.
Definition manifest : Manifest :=
  {| mf_ProtocolVersion := 2; mf_MaxPayloadBytes := 260; mf_MaxStreamBytes := 4096;
     mf_MaxJobBytes := 8192; mf_MaxInflightJobs := None; mf_SupportedTasks := [] |}.
Definition s0 : PState :=
  MkState JobStore.NewWithClock (ReplayStore.New 0)
    (PeerDir.MarkLCPReady peer manifest (PeerDir.MarkConnected peer PeerDir.New)) ∅ 0 ∅ 0 0 [].
Definition output : bytes := bytes_of_string "an answer longer than one small chunk can carry".

Lemma limits : usable_limits peer (p_peers s0) 0.
Proof.
  split; [by vm_compute|]. intros m Hm.
  replace (PeerDir.RemoteManifestFor peer (p_peers s0)) with (Some manifest) in Hm by (vm_compute; reflexivity).
  injection Hm as <-. by vm_compute.
Qed.

Lemma chunk_fitting_witness :
  match encodeFittingResultStreamChunk env 1700000300 (repeat Byte.x33 32) 0 output 170 with
  | Ok (payload, n) =>
    (0 < n ≤ length output)%nat ∧ blen payload ≤ 170 ∧
    DecodeStreamChunk payload = Ok (sent_chunk env 1700000300 (repeat Byte.x33 32) 0 (take n output))
  | Err FitCannot => ∃ payload msgID, 170 < blen payload ∧
      EncodeStreamChunk (result_chunk env 1700000300 (repeat Byte.x33 32) 0 (take 1 output)) = Ok (payload, msgID)
  | Err _ => False
  end.
Proof.
  apply (chunk_fitting env); first [reflexivity|discriminate|by vm_compute].
Defined.

Definition reader : list read :=
  [MkRead (take 20 output) None; MkRead (drop 20 output) (Some ReadEOF)].

(** Both calls report success here. *)
Example both_succeed :
  (sendResult cfg peer env "openai.responses.v1" false 5 output 0 s0).2 = true ∧
  (sendResultStreaming cfg peer env "openai.responses.v1" 5 reader 0 s0).2 = (blen output, true, None).
Proof. vm_compute. split; reflexivity. Qed.
End ResultExamples.
