(* ===== verification/Waiter.v ===== *)
(** * Package [requesterwait]: the requester's side of a job

    The waiter reassembles and checks result streams and hands quotes, results and
    errors to the callers that wait for them.  Every locked region is a function on
    [Waiter]; a message is handled in one step, and a waiting call is two steps, the
    registration and the wake-up.  A channel of capacity one is a list of the values
    sent and not yet received. *)

From S2P Require Import Prelude GoStd TlvLib Wire Stores.

Module Waiter.

(** ** Data *)

Record QuoteOutcome := MkQuoteOutcome {
  qo_QuoteResponse : option QuoteResponse;
  qo_Error : option LcpError;
}.

Record ResultOutcome := MkResultOutcome {
  ro_Result : option Result;
  ro_ResultBytes : bytes;
  ro_Error : option LcpError;
}.

Inductive wait_err :=
| ErrPeerIDRequired | ErrAlreadyWaitingQuote | ErrAlreadyWaitingResult | ErrAlreadySubscribed
| ErrWaitCancelled.

Record key := MkKey { k_peerID : string; k_jobID : bytes }.

#[global] Instance key_eq_dec : EqDecision key.
Proof. solve_decision. Defined.
#[global] Instance key_countable : Countable key.
Proof.
  refine (inj_countable' (λ k, (k_peerID k, k_jobID k)) (λ '(p, j), MkKey p j) _). by intros [].
Defined.

Inductive ResultStreamEvent :=
| EventBegin (contentType contentEncoding : string)
| EventChunk (data : bytes).

Record streamState := {
  ss_streamID : bytes;
  ss_contentType : string;
  ss_contentEncoding : string;
  ss_expectedSeq : Z;
  ss_buf : bytes;
  ss_beginTotalLen : option Z;
  ss_beginSHA256 : option bytes;
  ss_done : bool;
}.

(** A channel is named by a number; a subscription by the number of its channel. *)
Record entry := {
  e_quoteOutcome : option QuoteOutcome;
  e_quoteDelivered : bool;
  e_quoteCh : option nat;
  e_resultOutcome : option ResultOutcome;
  e_resultDelivered : bool;
  e_resultCh : option nat;
  e_resultStreamSub : option nat;
  e_resultStream : option streamState;
  e_terminalResult : option Result;
  e_terminalDelivered : bool;
}.

Definition empty_entry : entry :=
  {| e_quoteOutcome := None; e_quoteDelivered := false; e_quoteCh := None; e_resultOutcome := None;
     e_resultDelivered := false; e_resultCh := None; e_resultStreamSub := None;
     e_resultStream := None; e_terminalResult := None; e_terminalDelivered := false |}.

Record Waiter := {
  w_entries : gmap key entry;
  w_quoteChans : gmap nat (list QuoteOutcome);
  w_resultChans : gmap nat (list ResultOutcome);
  w_nextChan : nat;
  (** the events offered to subscribers, in order *)
  w_published : list (nat * ResultStreamEvent);
  w_maxStreamBytes : Z;
  w_maxJobBytes : Z;
}.

(** *** Field updates *)

Definition set_quote (o : option QuoteOutcome) (d : bool) (ch : option nat) (e : entry) : entry :=
  {| e_quoteOutcome := o; e_quoteDelivered := d; e_quoteCh := ch;
     e_resultOutcome := e_resultOutcome e; e_resultDelivered := e_resultDelivered e;
     e_resultCh := e_resultCh e; e_resultStreamSub := e_resultStreamSub e;
     e_resultStream := e_resultStream e; e_terminalResult := e_terminalResult e;
     e_terminalDelivered := e_terminalDelivered e |}.

Definition set_result (o : option ResultOutcome) (d : bool) (ch : option nat) (e : entry) : entry :=
  {| e_quoteOutcome := e_quoteOutcome e; e_quoteDelivered := e_quoteDelivered e;
     e_quoteCh := e_quoteCh e; e_resultOutcome := o; e_resultDelivered := d; e_resultCh := ch;
     e_resultStreamSub := e_resultStreamSub e; e_resultStream := e_resultStream e;
     e_terminalResult := e_terminalResult e; e_terminalDelivered := e_terminalDelivered e |}.

Definition set_sub (s : option nat) (e : entry) : entry :=
  {| e_quoteOutcome := e_quoteOutcome e; e_quoteDelivered := e_quoteDelivered e;
     e_quoteCh := e_quoteCh e; e_resultOutcome := e_resultOutcome e;
     e_resultDelivered := e_resultDelivered e; e_resultCh := e_resultCh e; e_resultStreamSub := s;
     e_resultStream := e_resultStream e; e_terminalResult := e_terminalResult e;
     e_terminalDelivered := e_terminalDelivered e |}.

Definition set_stream (st : streamState) (e : entry) : entry :=
  {| e_quoteOutcome := e_quoteOutcome e; e_quoteDelivered := e_quoteDelivered e;
     e_quoteCh := e_quoteCh e; e_resultOutcome := e_resultOutcome e;
     e_resultDelivered := e_resultDelivered e; e_resultCh := e_resultCh e;
     e_resultStreamSub := e_resultStreamSub e; e_resultStream := Some st;
     e_terminalResult := e_terminalResult e; e_terminalDelivered := e_terminalDelivered e |}.

Definition set_terminal (r : Result) (e : entry) : entry :=
  {| e_quoteOutcome := e_quoteOutcome e; e_quoteDelivered := e_quoteDelivered e;
     e_quoteCh := e_quoteCh e; e_resultOutcome := e_resultOutcome e;
     e_resultDelivered := e_resultDelivered e; e_resultCh := e_resultCh e;
     e_resultStreamSub := e_resultStreamSub e; e_resultStream := e_resultStream e;
     e_terminalResult := Some r; e_terminalDelivered := true |}.

Definition with_entries (m : gmap key entry) (w : Waiter) : Waiter :=
  {| w_entries := m; w_quoteChans := w_quoteChans w; w_resultChans := w_resultChans w;
     w_nextChan := w_nextChan w; w_published := w_published w;
     w_maxStreamBytes := w_maxStreamBytes w; w_maxJobBytes := w_maxJobBytes w |}.

Definition with_quoteChans (m : gmap nat (list QuoteOutcome)) (w : Waiter) : Waiter :=
  {| w_entries := w_entries w; w_quoteChans := m; w_resultChans := w_resultChans w;
     w_nextChan := w_nextChan w; w_published := w_published w;
     w_maxStreamBytes := w_maxStreamBytes w; w_maxJobBytes := w_maxJobBytes w |}.

Definition with_resultChans (m : gmap nat (list ResultOutcome)) (w : Waiter) : Waiter :=
  {| w_entries := w_entries w; w_quoteChans := w_quoteChans w; w_resultChans := m;
     w_nextChan := w_nextChan w; w_published := w_published w;
     w_maxStreamBytes := w_maxStreamBytes w; w_maxJobBytes := w_maxJobBytes w |}.

(** [make(chan ...)]: a fresh number. *)
Definition fresh_chan (w : Waiter) : Waiter :=
  {| w_entries := w_entries w; w_quoteChans := w_quoteChans w; w_resultChans := w_resultChans w;
     w_nextChan := S (w_nextChan w); w_published := w_published w;
     w_maxStreamBytes := w_maxStreamBytes w; w_maxJobBytes := w_maxJobBytes w |}.

(** ** Operations *)

Definition defaultMaxStreamBytes : Z := 4194304.
Definition defaultMaxJobBytes : Z := 8388608.

Definition New (localManifest : option Manifest) : Waiter :=
  let lim f d := match localManifest with
                 | Some m => if f m =? 0 then d else f m
                 | None => d
                 end in
  {| w_entries := ∅; w_quoteChans := ∅; w_resultChans := ∅; w_nextChan := 0; w_published := [];
     w_maxStreamBytes := lim mf_MaxStreamBytes defaultMaxStreamBytes;
     w_maxJobBytes := lim mf_MaxJobBytes defaultMaxJobBytes |}.

Definition ensureEntryLocked (k : key) (w : Waiter) : entry := default empty_entry (w_entries w !! k).

(** [*e = e'] for the entry of [k], which [ensureEntryLocked] has put into the map. *)
Definition store (k : key) (e : entry) (w : Waiter) : Waiter :=
  with_entries (<[k := e]> (w_entries w)) w.

Definition maybeCleanupLocked (k : key) (e : entry) (w : Waiter) : Waiter :=
  if bool_decide (is_Some (e_resultStreamSub e)) then w
  else if bool_decide (is_Some (e_quoteCh e)) || bool_decide (is_Some (e_resultCh e)) then w
  else if negb (e_quoteDelivered e) || negb (e_resultDelivered e) then w
  else with_entries (delete k (w_entries w)) w.

(** [ch <- out] on a channel of capacity one that nobody else sends to. *)
Definition send_quote (ch : option nat) (out : QuoteOutcome) (w : Waiter) : Waiter :=
  match ch with
  | None => w
  | Some c => with_quoteChans (<[c := default [] (w_quoteChans w !! c) ++ [out]]> (w_quoteChans w)) w
  end.

Definition send_result (ch : option nat) (out : ResultOutcome) (w : Waiter) : Waiter :=
  match ch with
  | None => w
  | Some c => with_resultChans (<[c := default [] (w_resultChans w !! c) ++ [out]]> (w_resultChans w)) w
  end.

Definition deliverQuoteResponse (peerID : string) (resp : QuoteResponse) (w : Waiter) : Waiter :=
  let k := MkKey peerID (env_JobID (qs_Envelope resp)) in
  let out := MkQuoteOutcome (Some resp) None in
  let e := ensureEntryLocked k w in
  let e' := set_quote (Some out) (e_quoteDelivered e) None e in
  send_quote (e_quoteCh e) out (maybeCleanupLocked k e' (store k e' w)).

Definition deliverResult (peerID : string) (res : Result) (resultBytes : bytes) (w : Waiter) : Waiter :=
  let k := MkKey peerID (env_JobID (rs_Envelope res)) in
  let out := MkResultOutcome (Some res) resultBytes None in
  let e := ensureEntryLocked k w in
  let e' := set_result (Some out) (e_resultDelivered e) None e in
  send_result (e_resultCh e) out (maybeCleanupLocked k e' (store k e' w)).

Definition deliverError (peerID : string) (errMsg : LcpError) (w : Waiter) : Waiter :=
  let k := MkKey peerID (env_JobID (er_Envelope errMsg)) in
  let out := MkQuoteOutcome None (Some errMsg) in
  let outResult := MkResultOutcome None [] (Some errMsg) in
  let e := ensureEntryLocked k w in
  let e' := set_result (Some outResult) (e_resultDelivered e) None
              (set_quote (Some out) (e_quoteDelivered e) None e) in
  send_result (e_resultCh e) outResult
    (send_quote (e_quoteCh e) out (maybeCleanupLocked k e' (store k e' w))).

Definition deliverProtocolError (peerID : string) (env : JobEnvelope) (code : Z) (message : string)
    (w : Waiter) : Waiter :=
  deliverError peerID {| er_Envelope := env; er_Code := code; er_Message := Some message |} w.

(** The event is offered to the subscriber, who may be gone. *)
Definition publishResultStreamEvent (sub : option nat) (ev : ResultStreamEvent) (w : Waiter) : Waiter :=
  match sub with
  | None => w
  | Some c =>
    {| w_entries := w_entries w; w_quoteChans := w_quoteChans w; w_resultChans := w_resultChans w;
       w_nextChan := w_nextChan w; w_published := w_published w ++ [(c, ev)];
       w_maxStreamBytes := w_maxStreamBytes w; w_maxJobBytes := w_maxJobBytes w |}
  end.

Definition handleStreamBegin (peerID : string) (begin : StreamBegin) (w : Waiter) : Waiter :=
  let env := sb_Envelope begin in
  if negb (sb_Kind begin =? StreamKindResult) then w else
  if negb (bool_decide (sb_ContentEncoding begin = "identity"%string)) then
    deliverProtocolError peerID env ErrorCodeUnsupportedEncoding "unsupported content_encoding" w
  else if match sb_TotalLen begin with
          | Some n => (w_maxStreamBytes w <? n) || (w_maxJobBytes w <? n)
          | None => false
          end then
    deliverProtocolError peerID env ErrorCodePayloadTooLarge "result stream exceeds local limits" w
  else
  let k := MkKey peerID (env_JobID env) in
  let e := ensureEntryLocked k w in
  let fresh :=
    {| ss_streamID := sb_StreamID begin; ss_contentType := sb_ContentType begin;
       ss_contentEncoding := sb_ContentEncoding begin; ss_expectedSeq := 0; ss_buf := [];
       ss_beginTotalLen := sb_TotalLen begin; ss_beginSHA256 := sb_SHA256 begin; ss_done := false |} in
  let begin_ := publishResultStreamEvent (e_resultStreamSub e)
                  (EventBegin (sb_ContentType begin) (sb_ContentEncoding begin))
                  (store k (set_stream fresh e) w) in
  match e_resultStream e with
  | Some st => if negb (ss_done st) then store k e w else begin_
  | None => begin_
  end.

Definition append_chunk (data : bytes) (st : streamState) : streamState :=
  {| ss_streamID := ss_streamID st; ss_contentType := ss_contentType st;
     ss_contentEncoding := ss_contentEncoding st; ss_expectedSeq := wrap_u32 (ss_expectedSeq st + 1);
     ss_buf := ss_buf st ++ data; ss_beginTotalLen := ss_beginTotalLen st;
     ss_beginSHA256 := ss_beginSHA256 st; ss_done := ss_done st |}.

Definition handleStreamChunk (peerID : string) (chunk : StreamChunk) (w : Waiter) : Waiter :=
  let env := sc_Envelope chunk in
  let data := default [] (sc_Data chunk) in
  let k := MkKey peerID (env_JobID env) in
  let e := ensureEntryLocked k w in
  let w := store k e w in
  match e_resultStream e with
  | None => w
  | Some st =>
    if ss_done st then w else
    if negb (bool_decide (ss_streamID st = sc_StreamID chunk)) then w else
    if sc_Seq chunk <? ss_expectedSeq st then w else
    if ss_expectedSeq st <? sc_Seq chunk then
      deliverProtocolError peerID env ErrorCodeChunkOutOfOrder "chunk out of order" w
    else
    let nextLen := wrap_u64 (blen (ss_buf st) + blen data) in
    if (w_maxStreamBytes w <? nextLen) || (w_maxJobBytes w <? nextLen) then
      deliverProtocolError peerID env ErrorCodePayloadTooLarge "result stream exceeds local limits" w
    else
    publishResultStreamEvent (e_resultStreamSub e) (EventChunk data)
      (store k (set_stream (append_chunk data st) e) w)
  end.

Definition tryDeliverResult (peerID : string) (terminal : Result) (resultBytes : bytes)
    (streamContentType streamContentEncoding : string) (w : Waiter) : Waiter :=
  let mismatch := deliverProtocolError peerID (rs_Envelope terminal) ErrorCodeChecksumMismatch in
  match rs_OK terminal with
  | Some ok =>
    if negb (rs_Status terminal =? ResultStatusOK) then deliverResult peerID terminal resultBytes w else
    if negb (bool_decide (sha256_sum resultBytes = ro_ResultHash ok)) then
      mismatch "result_hash mismatch"%string w
    else if negb (blen resultBytes =? ro_ResultLen ok) then mismatch "result_len mismatch"%string w
    else if negb (bool_decide (streamContentType = ""%string)) &&
            negb (bool_decide (streamContentType = ro_ResultContentType ok)) then
      mismatch "result_content_type mismatch"%string w
    else if negb (bool_decide (streamContentEncoding = ""%string)) &&
            negb (bool_decide (streamContentEncoding = ro_ResultContentEncoding ok)) then
      mismatch "result_content_encoding mismatch"%string w
    else deliverResult peerID terminal resultBytes w
  | None => deliverResult peerID terminal resultBytes w
  end.

Definition set_done (st : streamState) : streamState :=
  {| ss_streamID := ss_streamID st; ss_contentType := ss_contentType st;
     ss_contentEncoding := ss_contentEncoding st; ss_expectedSeq := ss_expectedSeq st;
     ss_buf := ss_buf st; ss_beginTotalLen := ss_beginTotalLen st;
     ss_beginSHA256 := ss_beginSHA256 st; ss_done := true |}.

Definition handleStreamEnd (peerID : string) (e0 : StreamEnd) (w : Waiter) : Waiter :=
  let env := se_Envelope e0 in
  let k := MkKey peerID (env_JobID env) in
  let e := ensureEntryLocked k w in
  let w := store k e w in
  match e_resultStream e with
  | None => w
  | Some st =>
    if ss_done st then w else
    if negb (bool_decide (ss_streamID st = se_StreamID e0)) then w else
    let w := store k (set_stream (set_done st) e) w in
    if negb (blen (ss_buf st) =? se_TotalLen e0) then
      deliverProtocolError peerID env ErrorCodeChecksumMismatch "stream total_len mismatch" w
    else if negb (bool_decide (sha256_sum (ss_buf st) = se_SHA256 e0)) then
      deliverProtocolError peerID env ErrorCodeChecksumMismatch "stream sha256 mismatch" w
    else
    match e_terminalResult e with
    | Some terminal =>
      tryDeliverResult peerID terminal (ss_buf st) (ss_contentType st) (ss_contentEncoding st) w
    | None => w
    end
  end.

Definition handleTerminalResult (peerID : string) (res : Result) (w : Waiter) : Waiter :=
  let k := MkKey peerID (env_JobID (rs_Envelope res)) in
  let e := ensureEntryLocked k w in
  if e_terminalDelivered e then store k e w else
  let w := store k (set_terminal res e) w in
  if negb (rs_Status res =? ResultStatusOK) then deliverResult peerID res [] w else
  match e_resultStream e with
  | Some st =>
    if ss_done st then
      tryDeliverResult peerID res (ss_buf st) (ss_contentType st) (ss_contentEncoding st) w
    else w
  | None => w
  end.

Definition HandleInboundCustomMessage `{TlvLib} (peerPubKey : string) (msgType : Z) (payload : bytes)
    (w : Waiter) : Waiter :=
  let on {A} (d : wres A) (h : string → A → Waiter → Waiter) :=
    match d with Ok x => h peerPubKey x w | Err _ => w end in
  if msgType =? MessageTypeQuoteResponse then on (DecodeQuoteResponse payload) deliverQuoteResponse
  else if msgType =? MessageTypeStreamBegin then on (DecodeStreamBegin payload) handleStreamBegin
  else if msgType =? MessageTypeStreamChunk then on (DecodeStreamChunk payload) handleStreamChunk
  else if msgType =? MessageTypeStreamEnd then on (DecodeStreamEnd payload) handleStreamEnd
  else if msgType =? MessageTypeResult then on (DecodeResult payload) handleTerminalResult
  else if msgType =? MessageTypeError then on (DecodeError payload) deliverError
  else w.

(** *** Waiting *)

(** What [waitOutcome] is given: the accessors of one of the two kinds of outcome,
    and the channels of its type. *)
Record Slot (O : Type) := {
  getOutcome : entry → option O;
  getCh : entry → option nat;
  setCh : entry → option nat → entry;
  markDelivered : entry → entry;
  chans : Waiter → gmap nat (list O);
  with_chans : gmap nat (list O) → Waiter → Waiter;
  alreadyWaitingErr : wait_err;
}.
Arguments getOutcome {O}. Arguments getCh {O}. Arguments setCh {O}. Arguments markDelivered {O}.
Arguments chans {O}. Arguments with_chans {O}. Arguments alreadyWaitingErr {O}.

Definition quote_slot : Slot QuoteOutcome :=
  {| getOutcome := e_quoteOutcome; getCh := e_quoteCh;
     setCh e ch := set_quote (e_quoteOutcome e) (e_quoteDelivered e) ch e;
     markDelivered e := set_quote (e_quoteOutcome e) true (e_quoteCh e) e;
     chans := w_quoteChans; with_chans := with_quoteChans;
     alreadyWaitingErr := ErrAlreadyWaitingQuote |}.

Definition result_slot : Slot ResultOutcome :=
  {| getOutcome := e_resultOutcome; getCh := e_resultCh;
     setCh e ch := set_result (e_resultOutcome e) (e_resultDelivered e) ch e;
     markDelivered e := set_result (e_resultOutcome e) true (e_resultCh e) e;
     chans := w_resultChans; with_chans := with_resultChans;
     alreadyWaitingErr := ErrAlreadyWaitingResult |}.

(** [waitOutcome] up to its [select]: it returns, or blocks on a new channel. *)
Inductive wait_start (O : Type) := Returned (out : O) | Failed (err : wait_err) | Blocked (ch : nat).
Arguments Returned {O}. Arguments Failed {O}. Arguments Blocked {O}.

Definition waitOutcome {O} (sl : Slot O) (peerID : string) (jobID : bytes) (w : Waiter) :
    Waiter * wait_start O :=
  if bool_decide (peerID = ""%string) then (w, Failed ErrPeerIDRequired) else
  let k := MkKey peerID jobID in
  let e := ensureEntryLocked k w in
  match getOutcome sl e with
  | Some out =>
    let e' := markDelivered sl e in
    (maybeCleanupLocked k e' (store k e' w), Returned out)
  | None =>
    match getCh sl e with
    | Some _ => (store k e w, Failed (alreadyWaitingErr sl))
    | None =>
      let ch := w_nextChan w in
      let w := fresh_chan w in
      let w := with_chans sl (<[ch := []]> (chans sl w)) w in
      (store k (setCh sl e (Some ch)) w, Blocked ch)
    end
  end.

(** [case out := <-ch]; [None] while the channel is empty. *)
Definition waitReceive {O} (sl : Slot O) (k : key) (ch : nat) (w : Waiter) : option (Waiter * O) :=
  match chans sl w !! ch with
  | Some (out :: rest) =>
    let w := with_chans sl (<[ch := rest]> (chans sl w)) w in
    Some (match w_entries w !! k with
          | Some curr =>
            let e' := markDelivered sl curr in maybeCleanupLocked k e' (store k e' w)
          | None => w
          end, out)
  | _ => None
  end.

(** [case <-ctx.Done()]. *)
Definition waitCancel {O} (sl : Slot O) (k : key) (ch : nat) (w : Waiter) : Waiter :=
  match w_entries w !! k with
  | Some curr =>
    if bool_decide (getCh sl curr = Some ch) then
      let e' := setCh sl curr None in maybeCleanupLocked k e' (store k e' w)
    else w
  | None => w
  end.

Definition WaitQuoteResponse := waitOutcome quote_slot.
Definition WaitResult := waitOutcome result_slot.

Definition SubscribeResultStream (peerID : string) (jobID : bytes) (w : Waiter) :
    Waiter * result wait_err nat :=
  if bool_decide (peerID = ""%string) then (w, Err ErrPeerIDRequired) else
  let k := MkKey peerID jobID in
  let ch := w_nextChan w in
  let w := fresh_chan w in
  let e := ensureEntryLocked k w in
  match e_resultStreamSub e with
  | Some _ => (store k e w, Err ErrAlreadySubscribed)
  | None => (store k (set_sub (Some ch) e) w, Ok ch)
  end.

Definition unsubscribe (k : key) (ch : nat) (w : Waiter) : Waiter :=
  match w_entries w !! k with
  | Some curr =>
    if bool_decide (e_resultStreamSub curr = Some ch) then
      let e' := set_sub None curr in maybeCleanupLocked k e' (store k e' w)
    else w
  | None => w
  end.

(** ** The waiter as a transition system *)

Inductive op :=
| OMessage (peerPubKey : string) (msgType : Z) (payload : bytes)
| OWaitQuote (peerID : string) (jobID : bytes)
| OWaitResult (peerID : string) (jobID : bytes)
| OReceiveQuote (k : key) (ch : nat)
| OReceiveResult (k : key) (ch : nat)
| OCancelQuote (k : key) (ch : nat)
| OCancelResult (k : key) (ch : nat)
| OSubscribe (peerID : string) (jobID : bytes)
| OUnsubscribe (k : key) (ch : nat).

Definition step `{TlvLib} (w : Waiter) (o : op) : Waiter :=
  match o with
  | OMessage peer typ payload => HandleInboundCustomMessage peer typ payload w
  | OWaitQuote peer job => (WaitQuoteResponse peer job w).1
  | OWaitResult peer job => (WaitResult peer job w).1
  | OReceiveQuote k ch => match waitReceive quote_slot k ch w with Some (w', _) => w' | None => w end
  | OReceiveResult k ch => match waitReceive result_slot k ch w with Some (w', _) => w' | None => w end
  | OCancelQuote k ch => waitCancel quote_slot k ch w
  | OCancelResult k ch => waitCancel result_slot k ch w
  | OSubscribe peer job => (SubscribeResultStream peer job w).1
  | OUnsubscribe k ch => unsubscribe k ch w
  end.

Definition run `{TlvLib} (ops : list op) (w : Waiter) : Waiter := fold_left step ops w.
End Waiter.
