(* ===== verification/WaiterProofs.v ===== *)
(** * The requester gets what the provider sent

    The theorems about [Waiter.v]: a result that left the provider reaches the
    caller that waits for it, every result handed out was verified, sends on
    outcome channels never block, and jobs do not interfere. *)

From S2P Require Import Prelude GoStd TlvLib Wire WireProofs Stores Replay JobStore PeerDir Terms Pricing Validation Provider ResultSend ResultProofs Waiter.
Import Waiter.

(** Reduce projections and guards, but no hash. *)
Ltac wsimpl :=
  cbn [e_quoteOutcome e_quoteDelivered e_quoteCh e_resultOutcome e_resultDelivered e_resultCh
       e_resultStreamSub e_resultStream e_terminalResult e_terminalDelivered set_quote set_result
       set_sub set_stream set_terminal ss_done ss_buf ss_streamID ss_contentType ss_contentEncoding
       set_done negb orb andb].

(** ** Looking at one entry *)

Lemma ensure_store k e w : ensureEntryLocked k (store k e w) = e.
Proof. unfold ensureEntryLocked, store. simpl. by rewrite lookup_insert_eq. Qed.

Lemma ensure_publish k sub ev w :
  ensureEntryLocked k (publishResultStreamEvent sub ev w) = ensureEntryLocked k w.
Proof. by destruct sub. Qed.

Lemma store_store k e1 e2 w : store k e2 (store k e1 w) = store k e2 w.
Proof. unfold store, with_entries. simpl. by rewrite insert_insert_eq. Qed.

(** The events a subscriber is offered. *)
Definition offered (sub : option nat) (evs : list ResultStreamEvent) : list (nat * ResultStreamEvent) :=
  match sub with Some c => (c,.) <$> evs | None => [] end.

Lemma publish_published sub ev w :
  w_published (publishResultStreamEvent sub ev w) = w_published w ++ offered sub [ev].
Proof. destruct sub; simpl; [done|by rewrite app_nil_r]. Qed.

(** The messages that arrive: those that were sent, coming from [provider]. *)
Definition inbound (provider : string) (evs : list out) : list op :=
  omap (λ o, match o with
             | OSent _ typ payload true => Some (OMessage provider typ payload)
             | _ => None
             end) evs.

Lemma inbound_app provider e1 e2 : inbound provider (e1 ++ e2) = inbound provider e1 ++ inbound provider e2.
Proof. apply omap_app. Qed.

Lemma run_app {T : TlvLib} l1 l2 w : run (l1 ++ l2) w = run l2 (run l1 w).
Proof. apply fold_left_app. Qed.

Lemma run_cons {T : TlvLib} o l w : run (o :: l) w = run l (step w o).
Proof. done. Qed.

(** A message that decodes goes to its handler. *)
Section dispatch.
Context {T : TlvLib} (w : Waiter) (peer : string) (payload : bytes).

Lemma step_quote m : DecodeQuoteResponse payload = Ok m →
  step w (OMessage peer MessageTypeQuoteResponse payload) = deliverQuoteResponse peer m w.
Proof. intros H. unfold step, HandleInboundCustomMessage. cbn -[DecodeQuoteResponse]. by rewrite H. Qed.

Lemma step_begin m : DecodeStreamBegin payload = Ok m →
  step w (OMessage peer MessageTypeStreamBegin payload) = handleStreamBegin peer m w.
Proof. intros H. unfold step, HandleInboundCustomMessage. cbn -[DecodeStreamBegin]. by rewrite H. Qed.

Lemma step_chunk m : DecodeStreamChunk payload = Ok m →
  step w (OMessage peer MessageTypeStreamChunk payload) = handleStreamChunk peer m w.
Proof. intros H. unfold step, HandleInboundCustomMessage. cbn -[DecodeStreamChunk]. by rewrite H. Qed.

Lemma step_end m : DecodeStreamEnd payload = Ok m →
  step w (OMessage peer MessageTypeStreamEnd payload) = handleStreamEnd peer m w.
Proof. intros H. unfold step, HandleInboundCustomMessage. cbn -[DecodeStreamEnd]. by rewrite H. Qed.

Lemma step_result m : DecodeResult payload = Ok m →
  step w (OMessage peer MessageTypeResult payload) = handleTerminalResult peer m w.
Proof. intros H. unfold step, HandleInboundCustomMessage. cbn -[DecodeResult]. by rewrite H. Qed.

Lemma step_error m : DecodeError payload = Ok m →
  step w (OMessage peer MessageTypeError payload) = deliverError peer m w.
Proof. intros H. unfold step, HandleInboundCustomMessage. cbn -[DecodeError]. by rewrite H. Qed.
End dispatch.

(** ** A result stream arrives *)

Section arrival.
Context {T : TlvLib}.
Context (provider : string) (jobID streamID : bytes).
Abbreviation k := (MkKey provider jobID).

(** [w] is [w0] with the job's stream in state [st] and the events [pub] offered;
    [e] is the rest of the job's entry. *)
Definition at_stream (w0 : Waiter) (e : entry) (pub : list (nat * ResultStreamEvent))
    (st : streamState) (w : Waiter) : Prop :=
  ensureEntryLocked k w = set_stream st e ∧ w_resultChans w = w_resultChans w0 ∧
  w_maxStreamBytes w = w_maxStreamBytes w0 ∧ w_maxJobBytes w = w_maxJobBytes w0 ∧
  w_published w = pub.

(** The limits allow [n] bytes. *)
Definition within (w : Waiter) (n : Z) : Prop :=
  n ≤ w_maxStreamBytes w ∧ n ≤ w_maxJobBytes w ∧ w_maxStreamBytes w < 2 ^ 64.

Lemma begin_arrives w b :
  env_JobID (sb_Envelope b) = jobID → sb_Kind b = StreamKindResult →
  sb_ContentEncoding b = contentEncodingIdentity →
  wf_opt (within w) (sb_TotalLen b) → e_resultStream (ensureEntryLocked k w) = None →
  at_stream w (ensureEntryLocked k w)
    (w_published w ++ offered (e_resultStreamSub (ensureEntryLocked k w))
       [EventBegin (sb_ContentType b) (sb_ContentEncoding b)])
    {| ss_streamID := sb_StreamID b; ss_contentType := sb_ContentType b;
       ss_contentEncoding := sb_ContentEncoding b; ss_expectedSeq := 0; ss_buf := [];
       ss_beginTotalLen := sb_TotalLen b; ss_beginSHA256 := sb_SHA256 b; ss_done := false |}
    (handleStreamBegin provider b w).
Proof.
  intros Hj Hk Hce Hl Hs. unfold handleStreamBegin. rewrite Hk, Hj, Hs, Hce. cbn [negb Z.eqb StreamKindResult].
  rewrite bool_decide_eq_true_2 by done. simpl.
  assert (Hl' : match sb_TotalLen b with
                | Some n => (w_maxStreamBytes w <? n) || (w_maxJobBytes w <? n)
                | None => false end = false).
  { destruct (sb_TotalLen b); [|done]. destruct Hl as (? & ? & ?). apply orb_false_iff.
    rewrite !Z.ltb_ge. done. }
  rewrite Hl'. unfold at_stream. rewrite ensure_publish, ensure_store, publish_published.
  by destruct (e_resultStreamSub _).
Qed.

Lemma chunk_arrives w0 e pub st w c d :
  at_stream w0 e pub st w → env_JobID (sc_Envelope c) = jobID → sc_StreamID c = ss_streamID st →
  sc_Seq c = ss_expectedSeq st → sc_Data c = Some d → ss_done st = false →
  within w0 (blen (ss_buf st ++ d)) →
  at_stream w0 e (pub ++ offered (e_resultStreamSub e) [EventChunk d]) (append_chunk d st)
    (handleStreamChunk provider c w).
Proof.
  intros (He & Hc & Hms & Hmj & Hp) Hj Hs Hq Hd Hdone (Hl1 & Hl2 & Hl3). unfold handleStreamChunk.
  rewrite Hj, He, Hd, Hs, Hq. simpl. rewrite Hdone, bool_decide_eq_true_2 by done. simpl.
  rewrite Z.ltb_irrefl, Hms, Hmj. rewrite blen_app in *.
  assert (Hw : wrap_u64 (blen (ss_buf st) + blen d) = blen (ss_buf st) + blen d).
  { apply Z.mod_small. pose proof (blen_nonneg (ss_buf st)). pose proof (blen_nonneg d). lia. }
  rewrite Hw. destruct (Z.ltb_spec (w_maxStreamBytes w0) (blen (ss_buf st) + blen d)); [lia|].
  destruct (Z.ltb_spec (w_maxJobBytes w0) (blen (ss_buf st) + blen d)); [lia|]. simpl.
  unfold at_stream. rewrite ensure_publish, ensure_store, publish_published. simpl. rewrite Hp.
  by destruct (e_resultStreamSub e).
Qed.

Lemma chunks_arrive w0 e evs : ∀ pub st w data,
  at_stream w0 e pub st w → ss_done st = false → ss_streamID st = streamID →
  reassemble jobID streamID (ss_expectedSeq st) evs = Some data →
  within w0 (blen (ss_buf st ++ data)) →
  ∃ pieces st',
    at_stream w0 e (pub ++ offered (e_resultStreamSub e) (EventChunk <$> pieces)) st'
      (run (inbound provider evs) w) ∧
    concat pieces = data ∧ ss_buf st' = ss_buf st ++ data ∧ ss_done st' = false ∧
    ss_streamID st' = streamID ∧ ss_contentType st' = ss_contentType st ∧
    ss_contentEncoding st' = ss_contentEncoding st.
Proof.
  induction evs as [|o evs IH]; intros pub st w data Hat Hdone Hsid Hre Hlim.
  { injection Hre as <-. exists [], st. rewrite app_nil_r.
    replace (offered _ _) with (@nil (nat * ResultStreamEvent)) by (by destruct (e_resultStreamSub e)).
    by rewrite app_nil_r. }
  destruct o as [p typ payload []| | | |]; try done. simpl in Hre.
  destruct (Z.eqb_spec typ MessageTypeStreamChunk) as [->|]; [|done]. simpl in Hre.
  destruct (DecodeStreamChunk payload) as [c|] eqn:Hdec; [|done].
  destruct (bool_decide (env_JobID (sc_Envelope c) = jobID)) eqn:Hj; [|done].
  destruct (bool_decide (sc_StreamID c = streamID)) eqn:Hs; [|done].
  destruct (Z.eqb_spec (sc_Seq c) (ss_expectedSeq st)) as [Hq|]; [|done]. bool_to_prop.
  destruct (sc_Data c) as [d|] eqn:Hd; [|done]. simpl in Hre.
  destruct (reassemble jobID streamID _ evs) as [rest|] eqn:Hrest; [|done]. injection Hre as <-.
  assert (Hd1 : within w0 (blen (ss_buf st ++ d))).
  { destruct Hlim as (?&?&?). pose proof (blen_nonneg rest). unfold within. rewrite !blen_app in *. lia. }
  assert (Hat' := chunk_arrives w0 e pub st w c d Hat Hj ltac:(congruence) Hq Hd Hdone Hd1).
  destruct (IH _ _ _ rest Hat') as (pieces & st' & H1 & H2 & H3 & H4 & H5 & H6 & H7); simpl; try done.
  { by rewrite <-app_assoc. }
  exists (d :: pieces), st'. split_and!; try done.
  - replace (run _ _) with (run (inbound provider evs) (handleStreamChunk provider c w)).
    2: { by rewrite <-(step_chunk _ _ _ _ Hdec). }
    replace (offered _ (EventChunk <$> d :: pieces)) with
      (offered (e_resultStreamSub e) [EventChunk d] ++ offered (e_resultStreamSub e) (EventChunk <$> pieces))
      by (by destruct (e_resultStreamSub e)).
    by rewrite app_assoc.
  - simpl. by rewrite H2.
  - rewrite H3. simpl. by rewrite app_assoc.
Qed.

Lemma end_arrives w0 e pub st w m :
  at_stream w0 e pub st w → ss_done st = false → env_JobID (se_Envelope m) = jobID →
  se_StreamID m = ss_streamID st → se_TotalLen m = blen (ss_buf st) →
  se_SHA256 m = sha256_sum (ss_buf st) → e_terminalResult e = None →
  at_stream w0 e pub (set_done st) (handleStreamEnd provider m w).
Proof.
  intros (He & Hc & Hms & Hmj & Hp) Hdone Hj Hs Hl Hh Ht. unfold handleStreamEnd.
  rewrite Hj, He, Hs, Hl, Hh. wsimpl. rewrite Hdone, !bool_decide_eq_true_2, Z.eqb_refl, Ht by done. wsimpl.
  unfold at_stream. by rewrite ensure_store.
Qed.

(** The job's outcome is [output], and it went to the channel of a waiting caller. *)
Definition completed (w0 : Waiter) (e : entry) (output : bytes) (ct : string)
    (pub : list (nat * ResultStreamEvent)) (w : Waiter) : Prop :=
  ∃ r ok, let out := MkResultOutcome (Some r) output None in
    env_JobID (rs_Envelope r) = jobID ∧ rs_Status r = ResultStatusOK ∧ rs_OK r = Some ok ∧
    ro_ResultHash ok = sha256_sum output ∧ ro_ResultContentType ok = ct ∧
    e_resultOutcome (ensureEntryLocked k w) = Some out ∧
    w_resultChans w = match e_resultCh e with
                      | Some c => <[c := default [] (w_resultChans w0 !! c) ++ [out]]> (w_resultChans w0)
                      | None => w_resultChans w0
                      end ∧
    w_published w = pub.

Lemma terminal_arrives w0 e pub st w r :
  at_stream w0 e pub st w → ss_done st = true → env_JobID (rs_Envelope r) = jobID →
  rs_Status r = ResultStatusOK →
  rs_OK r = Some {| ro_ResultStreamID := streamID; ro_ResultHash := sha256_sum (ss_buf st);
                    ro_ResultLen := blen (ss_buf st); ro_ResultContentType := ss_contentType st;
                    ro_ResultContentEncoding := ss_contentEncoding st |} →
  e_terminalDelivered e = false → e_resultDelivered e = false →
  completed w0 e (ss_buf st) (ss_contentType st) pub (handleTerminalResult provider r w).
Proof.
  intros (He & Hc & Hms & Hmj & Hp) Hdone Hj Hs Hok Ht Hd. unfold handleTerminalResult.
  rewrite Hj, He. wsimpl. rewrite Ht, Hs, Hdone, Z.eqb_refl. wsimpl. unfold tryDeliverResult.
  rewrite Hok, Hs. cbn [ro_ResultHash ro_ResultLen ro_ResultContentType ro_ResultContentEncoding].
  rewrite !Z.eqb_refl, (bool_decide_eq_true_2 (sha256_sum _ = _)) by done.
  rewrite (bool_decide_eq_true_2 (ss_contentType st = ss_contentType st)) by done.
  rewrite (bool_decide_eq_true_2 (ss_contentEncoding st = ss_contentEncoding st)) by done. wsimpl.
  rewrite !andb_false_r. unfold deliverResult. rewrite Hj, ensure_store. unfold maybeCleanupLocked. wsimpl.
  rewrite Hd. wsimpl. rewrite orb_true_r. unfold completed. exists r. eexists. rewrite Hok, <-Hc.
  repeat case_bool_decide; simpl; split_and!; try done; destruct (e_resultCh e); simpl; try done;
    unfold ensureEntryLocked; simpl; by rewrite lookup_insert_eq.
Qed.

(** The job has no stream, no terminal result and no delivered outcome yet. *)
Definition expecting (w : Waiter) : Prop :=
  let e := ensureEntryLocked k w in
  e_resultStream e = None ∧ e_terminalResult e = None ∧ e_terminalDelivered e = false ∧
  e_resultDelivered e = false.

(** The messages of a whole result complete the job. *)
Lemma delivered_completes peer output announced ct evs w :
  delivered peer jobID streamID output announced ct evs → expecting w → within w (blen output) →
  ∃ pieces, concat pieces = output ∧
    completed w (ensureEntryLocked k w) output ct
      (w_published w ++ offered (e_resultStreamSub (ensureEntryLocked k w))
         (EventBegin ct contentEncodingIdentity :: (EventChunk <$> pieces)))
      (run (inbound provider evs) w).
Proof.
  intros (pb & chunks & pe & pr & b & m & r & -> & Hb & Hbj & Hbs & Hbk & Hbc & Hbe & Hann & Hre & He &
    Hej & Hes & Hel & Heh & Hr & Hrj & Hrs & Hrok) (Hs & Ht & Htd & Hrd) Hlim.
  assert (Hat := begin_arrives w b Hbj Hbk Hbe).
  eapply chunks_arrive in Hat as (pieces & st & Hat & Hp & Hbuf & Hdone & Hsid & Hct & Hce); simpl; try done.
  2: { destruct announced; by injection Hann as -> _. }
  exists pieces. split; [done|]. simpl in Hbuf, Hct, Hce.
  eapply end_arrives in Hat; [|done|exact Hej|congruence|by rewrite Hbuf|by rewrite Hbuf|done].
  eapply terminal_arrives in Hat; [|done|exact Hrj|done| |done..].
  2: { rewrite Hrok. simpl. by rewrite Hbuf, Hct, Hce, Hbc, Hbe. }
  change (HandleInboundCustomMessage provider MessageTypeStreamBegin pb w) with
    (step w (OMessage provider MessageTypeStreamBegin pb)).
  rewrite inbound_app, run_app. change (inbound provider [?o1; ?o2]) with
    [OMessage provider MessageTypeStreamEnd pe; OMessage provider MessageTypeResult pr].
  rewrite !run_cons, (step_begin _ _ _ b), (step_end _ _ _ m), (step_result _ _ _ r) by done.
  simpl in Hat. rewrite Hbuf, Hct, Hbc, Hbe, <-app_assoc in Hat.
  by destruct (e_resultStreamSub (ensureEntryLocked k w)).
Qed.
End arrival.

(** ** From the provider to the caller *)

(** What the caller of the requester has once [w] became [w']: [WaitResult] returns
    the output with a terminal result of status ok; a call that was already blocked
    on its channel receives it; a subscriber was offered the output in pieces. *)
Definition obtained (provider : string) (jobID output : bytes) (ct : string) (w w' : Waiter) : Prop :=
  ∃ r pieces, let k := MkKey provider jobID in let out := MkResultOutcome (Some r) output None in
    rs_Status r = ResultStatusOK ∧ concat pieces = output ∧
    (WaitResult provider jobID w').2 = Returned out ∧
    (∀ ch, e_resultCh (ensureEntryLocked k w) = Some ch → w_resultChans w !! ch = Some [] →
       ∃ w'', waitReceive result_slot k ch w' = Some (w'', out)) ∧
    (∀ c, e_resultStreamSub (ensureEntryLocked k w) = Some c →
       w_published w' = w_published w ++
         (c, EventBegin ct contentEncodingIdentity) :: ((λ d, (c, EventChunk d)) <$> pieces)).

Lemma delivered_obtained {T : TlvLib} provider peer jobID streamID output announced ct evs w :
  delivered peer jobID streamID output announced ct evs →
  provider ≠ ""%string → expecting provider jobID w → within w (blen output) →
  obtained provider jobID output ct w (run (inbound provider evs) w).
Proof.
  intros Hd Hpr Hex Hlim.
  destruct (delivered_completes provider jobID streamID peer output announced ct evs w Hd Hex Hlim)
    as (pieces & Hp & r & ok & Hj & Hs & Hok & Hh & Hct & Hout & Hch & Hpub).
  exists r, pieces. split_and!; [done|done|..].
  - unfold WaitResult, waitOutcome. rewrite bool_decide_eq_false_2 by done.
    cbn [getOutcome result_slot]. by rewrite Hout.
  - intros ch Hreg Hempty. unfold waitReceive. cbn [chans result_slot]. rewrite Hch, Hreg, Hempty.
    rewrite lookup_insert_eq. simpl. eauto.
  - intros c Hc. rewrite Hpub, Hc. simpl. by rewrite <-list_fmap_compose.
Qed.

Section end_to_end.
Context {T : TlvLib} {L : TlvLaws T} {E : ProviderEnv} {ES : EnvSizes E} {WT : WireText}.
Context (cfg : Config) (Httl : is_u64 (cfg_QuoteTTLSeconds cfg)).
Context (peer provider : string) (env : JobEnvelope).
Context (Hpv : env_ProtocolVersion env ≠ 0) (Hpv16 : is_u16 (env_ProtocolVersion env))
        (Hjob : wf_hash (env_JobID env)) (Hprov : provider ≠ ""%string).

(** C12: the provider sends a buffered result only in messages within the requester's
    payload limit; when [sendResult] reports success, it sent a begin that announces
    length and SHA-256, chunks that reassemble to exactly the output, an end and a
    terminal result that repeat both, and a requester that gets these messages and
    expects the job's result returns exactly the output to its caller; if the output
    exceeds the requester's stream limits, one terminal result with status failed. *)
Theorem result_delivered taskKind streaming inputLen output remoteMaxPayload s :
  usable_limits peer (p_peers s) remoteMaxPayload →
  quietly (sendResult cfg peer env taskKind streaming inputLen output remoteMaxPayload) s (λ ok evs,
    Forall (fits peer (payload_limit peer (p_peers s) remoteMaxPayload)) evs ∧
    (ok = true → ∃ m, PeerDir.RemoteManifestFor peer (p_peers s) = Some m ∧
       let ct := resultContentTypeForTaskKind taskKind streaming in
       if over_limits m inputLen (blen output) then refused peer (env_JobID env) evs
       else ∃ streamID, delivered peer (env_JobID env) streamID output true ct evs ∧
         ∀ w, expecting provider (env_JobID env) w → within w (blen output) →
           obtained provider (env_JobID env) output ct w (run (inbound provider evs) w))).
Proof using Hpv Hpv16 Hjob L ES Httl Hprov.
  intros Hlim. eapply quietly_mono; [by apply sendResult_sends|]. simpl.
  intros ok evs [Hf Hs]. split; [done|]. intros Hok. destruct (Hs Hok) as (m & Hm & Hd).
  exists m. split; [done|]. destruct (over_limits _ _ _); [done|]. destruct Hd as (streamID & Hd).
  exists streamID. split; [done|]. intros w Hex Hw. by eapply delivered_obtained.
Qed.

End end_to_end.

(** ** Witnesses *)

Module ReceiveExamples.
Import ResultExamples.
#[local] Existing Instances tlv text world world_sizes.
Definition provider : string := "03bb".

Lemma result_delivered_witness :
  quietly (sendResult cfg peer env "openai.responses.v1" false 5 output 0) s0 (λ ok evs,
    Forall (fits peer (payload_limit peer (p_peers s0) 0)) evs ∧
    (ok = true → ∃ m, PeerDir.RemoteManifestFor peer (p_peers s0) = Some m ∧
       let ct := resultContentTypeForTaskKind "openai.responses.v1" false in
       if over_limits m 5 (blen output) then refused peer (env_JobID env) evs
       else ∃ streamID, delivered peer (env_JobID env) streamID output true ct evs ∧
         ∀ w, expecting provider (env_JobID env) w → within w (blen output) →
           obtained provider (env_JobID env) output ct w (run (inbound provider evs) w))).
Proof.
  apply (result_delivered cfg); first [reflexivity|discriminate|exact limits|by vm_compute].
Defined.


(** A new waiter expects the result and takes it. *)
Example fresh_waiter_ready :
  expecting provider (env_JobID env) (New None) ∧ within (New None) (blen output).
Proof. by vm_compute. Qed.
End ReceiveExamples.
