(* ===== verification/WaiterInv.v ===== *)
(** * Invariants of the requester's waiter

    Two invariants of every reachable [Waiter]: outcomes were verified before they
    were handed out ([verified]), and outcome channels are used once
    ([disciplined]).  The second is proved through an abstract step relation on the
    channels of one kind of outcome, which every operation implements. *)

From S2P Require Import Prelude GoStd TlvLib Wire WireProofs Stores Waiter WaiterProofs.
Import Waiter.

(** ** Verified outcomes *)

Section verified.
Context (maxS maxJ : Z).

Definition sized (b : bytes) : Prop := blen b ≤ maxS ∧ blen b ≤ maxJ.

(** An outcome a caller may see: an error and nothing else, a terminal result that
    is not ok, or an ok result with bytes whose SHA-256 and length are those the
    result states; the bytes are within the limits.  A result that is not ok can
    come with bytes: those of a stream that ended after it. *)
Definition verified (o : ResultOutcome) : Prop :=
  match ro_Error o, ro_Result o with
  | Some _, None => ro_ResultBytes o = []
  | None, Some r =>
    match rs_OK r with
    | None => rs_Status r ≠ ResultStatusOK ∧ sized (ro_ResultBytes o)
    | Some ok => rs_Status r = ResultStatusOK ∧ sized (ro_ResultBytes o) ∧
        sha256_sum (ro_ResultBytes o) = ro_ResultHash ok ∧ blen (ro_ResultBytes o) = ro_ResultLen ok
    end
  | _, _ => False
  end.

Definition entry_ok (e : entry) : Prop :=
  (∀ o, e_resultOutcome e = Some o → verified o) ∧
  (∀ st, e_resultStream e = Some st → sized (ss_buf st)) ∧
  (∀ r, e_terminalResult e = Some r → wf_result r).

Record waiter_ok (w : Waiter) : Prop := {
  ok_entries : ∀ k e, w_entries w !! k = Some e → entry_ok e;
  ok_chans : ∀ c l, w_resultChans w !! c = Some l → Forall verified l;
  ok_maxS : w_maxStreamBytes w = maxS;
  ok_maxJ : w_maxJobBytes w = maxJ;
}.

Lemma ensure_ok k w : waiter_ok w → entry_ok (ensureEntryLocked k w).
Proof.
  intros Hw. unfold ensureEntryLocked. destruct (w_entries w !! k) eqn:Hk; [by eapply ok_entries|done].
Qed.

Lemma store_ok k e w : waiter_ok w → entry_ok e → waiter_ok (store k e w).
Proof.
  intros [He Hc Hs Hj] Hok. split; try done. simpl. intros k' e'.
  destruct (decide (k' = k)) as [->|]; [rewrite lookup_insert_eq; by intros [= <-]|].
  rewrite lookup_insert_ne by done. apply He.
Qed.

Lemma cleanup_ok k e w : waiter_ok w → waiter_ok (maybeCleanupLocked k e w).
Proof.
  intros Hw. unfold maybeCleanupLocked. repeat case_match; try done.
  destruct Hw as [He Hc Hs Hj]. split; try done. simpl. intros k' e' Hk.
  apply lookup_delete_Some in Hk as [_ Hk]. by eapply He.
Qed.

Lemma publish_ok sub ev w : waiter_ok w → waiter_ok (publishResultStreamEvent sub ev w).
Proof. intros [He Hc Hs Hj]. by destruct sub. Qed.

Lemma send_quote_ok ch o w : waiter_ok w → waiter_ok (send_quote ch o w).
Proof. intros [He Hc Hs Hj]. by destruct ch. Qed.

Lemma chans_ok c l w : waiter_ok w → Forall verified l →
  waiter_ok (with_resultChans (<[c := l]> (w_resultChans w)) w).
Proof.
  intros [He Hc Hs Hj] Hl. split; try done. simpl. intros c' l'.
  destruct (decide (c' = c)) as [->|]; [rewrite lookup_insert_eq; by intros [= <-]|].
  rewrite lookup_insert_ne by done. apply Hc.
Qed.

Lemma send_result_ok ch o w : waiter_ok w → verified o → waiter_ok (send_result ch o w).
Proof.
  intros Hw Ho. destruct ch as [c|]; [|done]. apply chans_ok; [done|]. apply Forall_app. split; [|by constructor].
  destruct (w_resultChans w !! c) eqn:Hc; [by eapply ok_chans|constructor].
Qed.

Lemma fresh_ok w : waiter_ok w → waiter_ok (fresh_chan w).
Proof. by intros []. Qed.

Hint Resolve fresh_ok ensure_ok store_ok cleanup_ok publish_ok send_quote_ok send_result_ok chans_ok : core.

(** Updates that keep the outcome, the stream and the terminal result. *)
Lemma entry_ok_quote o d ch e : entry_ok e → entry_ok (set_quote o d ch e).
Proof. done. Qed.
Lemma entry_ok_sub s e : entry_ok e → entry_ok (set_sub s e).
Proof. done. Qed.
Lemma entry_ok_result o d ch e : entry_ok e → (∀ x, o = Some x → verified x) → entry_ok (set_result o d ch e).
Proof. by intros (H1 & H2 & H3) Ho. Qed.
Lemma entry_ok_keep d ch e : entry_ok e → entry_ok (set_result (e_resultOutcome e) d ch e).
Proof. by intros (H1 & H2 & H3). Qed.
Lemma entry_ok_stream st e : entry_ok e → sized (ss_buf st) → entry_ok (set_stream st e).
Proof. intros (H1 & H2 & H3) Hs. split_and!; try done. simpl. by intros ? [= <-]. Qed.
Lemma entry_ok_terminal r e : entry_ok e → wf_result r → entry_ok (set_terminal r e).
Proof. intros (H1 & H2 & H3) Hs. split_and!; try done. simpl. by intros ? [= <-]. Qed.

Hint Resolve entry_ok_quote entry_ok_sub entry_ok_keep entry_ok_stream entry_ok_terminal : core.

Lemma deliverQuoteResponse_ok peer q w : waiter_ok w → waiter_ok (deliverQuoteResponse peer q w).
Proof. unfold deliverQuoteResponse. auto 10. Qed.

Lemma deliverResult_ok peer r b w :
  waiter_ok w → verified (MkResultOutcome (Some r) b None) → waiter_ok (deliverResult peer r b w).
Proof.
  intros Hw Ho. apply send_result_ok; [|done]. apply cleanup_ok, store_ok; [done|].
  apply entry_ok_result; [auto|]. by intros ? [= <-].
Qed.

Lemma deliverError_ok peer m w : waiter_ok w → waiter_ok (deliverError peer m w).
Proof.
  intros Hw. apply send_result_ok; [|done]. apply send_quote_ok, cleanup_ok, store_ok; [done|].
  apply entry_ok_result; [auto|]. by intros ? [= <-].
Qed.

Lemma protocolError_ok peer env code msg w :
  waiter_ok w → waiter_ok (deliverProtocolError peer env code msg w).
Proof. apply deliverError_ok. Qed.

Hint Resolve deliverQuoteResponse_ok deliverError_ok protocolError_ok : core.

Lemma handleStreamBegin_ok peer b w : 0 ≤ maxS → 0 ≤ maxJ → waiter_ok w → waiter_ok (handleStreamBegin peer b w).
Proof.
  intros ? ? Hw. unfold handleStreamBegin. cbv zeta. repeat case_match; auto; apply publish_ok, store_ok;
    auto; apply entry_ok_stream; auto; by split.
Qed.

Lemma handleStreamChunk_ok peer c w :
  maxS + max_record_size < 2 ^ 64 → wf_stream_chunk c → waiter_ok w →
  waiter_ok (handleStreamChunk peer c w).
Proof.
  intros Hbig (_ & _ & _ & (d & Hd & Hdl) & _) Hw. unfold handleStreamChunk. rewrite Hd. cbv zeta. simpl.
  destruct (e_resultStream _) as [st|] eqn:Hst; [|auto].
  destruct (ss_done st); [auto|]. case_match; [auto|]. case_match; [auto|]. case_match; [auto|].
  destruct (_ || _) eqn:Hlim; [auto|]. apply publish_ok, store_ok; [auto|]. apply entry_ok_stream; [auto|].
  destruct (ensure_ok (MkKey peer (env_JobID (sc_Envelope c))) w Hw) as (_ & Hsz & _).
  destruct (Hsz st Hst) as [Hs1 Hs2]. rewrite (ok_maxS w Hw), (ok_maxJ w Hw) in Hlim.
  assert (Hw64 : wrap_u64 (blen (ss_buf st) + blen d) = blen (ss_buf st) + blen d).
  { apply Z.mod_small. pose proof (blen_nonneg (ss_buf st)). pose proof (blen_nonneg d). unfold wf_blob in Hdl. lia. }
  rewrite Hw64 in Hlim. bool_to_prop. unfold sized. simpl. rewrite blen_app. lia.
Qed.

Lemma failed_verified r b :
  wf_result r → rs_Status r ≠ ResultStatusOK → sized b → verified (MkResultOutcome (Some r) b None).
Proof. intros (_ & [(Hs & _)|(_ & Hn & _)]) Hne Hb; [done|]. unfold verified. simpl. by rewrite Hn. Qed.

Lemma tryDeliverResult_ok peer r b ct ce w :
  waiter_ok w → wf_result r → sized b → waiter_ok (tryDeliverResult peer r b ct ce w).
Proof.
  intros Hw Hr Hb. unfold tryDeliverResult. cbv zeta.
  destruct (Z.eqb_spec (rs_Status r) ResultStatusOK) as [Hs|Hs].
  2: { cbn [negb]. destruct (rs_OK r); apply deliverResult_ok; auto using failed_verified. }
  destruct Hr as (_ & [(_ & _ & ok & Hok & _)|([Hf|Hf] & _)]); [|rewrite Hs in Hf; discriminate..].
  rewrite Hok. cbn [negb].
  destruct (bool_decide (sha256_sum b = _)) eqn:Hh; [|apply deliverError_ok; exact Hw].
  destruct (Z.eqb_spec (blen b) (ro_ResultLen ok)) as [Hl|]; [|apply deliverError_ok; exact Hw].
  bool_to_prop. cbn [negb]. destruct (_ && _); [apply deliverError_ok; exact Hw|].
  destruct (_ && _); [apply deliverError_ok; exact Hw|].
  apply deliverResult_ok; [exact Hw|]. unfold verified. simpl. by rewrite Hok.
Qed.

Lemma handleStreamEnd_ok peer m w : waiter_ok w → waiter_ok (handleStreamEnd peer m w).
Proof.
  intros Hw. unfold handleStreamEnd. cbv zeta.
  pose proof (ensure_ok (MkKey peer (env_JobID (se_Envelope m))) w Hw) as He.
  destruct (e_resultStream _) as [st|] eqn:Hst; [|auto]. destruct (ss_done st); [auto|].
  destruct He as (H1 & H2 & H3). assert (Hsz : sized (ss_buf st)) by auto.
  case_match; [auto|]. repeat (case_match; [apply protocolError_ok; auto|]).
  case_match; [apply tryDeliverResult_ok; auto|auto].
Qed.

Lemma handleTerminalResult_ok peer r w :
  0 ≤ maxS → 0 ≤ maxJ → wf_result r → waiter_ok w → waiter_ok (handleTerminalResult peer r w).
Proof.
  intros ? ? Hr Hw. unfold handleTerminalResult. cbv zeta.
  pose proof (ensure_ok (MkKey peer (env_JobID (rs_Envelope r))) w Hw) as He.
  case_match; [auto|]. destruct (Z.eqb_spec (rs_Status r) ResultStatusOK); cbn [negb].
  - destruct (e_resultStream _) as [st|] eqn:Hst; [|auto]. case_match; [|auto].
    destruct He as (? & ? & ?). apply tryDeliverResult_ok; auto.
  - apply deliverResult_ok; [auto|]. apply failed_verified; [done..|]. by split.
Qed.

Lemma message_ok {T : TlvLib} {L : TlvLaws T} peer typ payload w :
  0 ≤ maxS → 0 ≤ maxJ → maxS + max_record_size < 2 ^ 64 → waiter_ok w →
  waiter_ok (HandleInboundCustomMessage peer typ payload w).
Proof.
  intros ? ? ? Hw. unfold HandleInboundCustomMessage.
  repeat (case_match; [case_match; [|done]|]); [..|done];
    eauto using handleStreamBegin_ok, handleStreamChunk_ok, handleStreamEnd_ok, handleTerminalResult_ok,
      stream_chunk_wf, result_wf.
Qed.

Lemma waitOutcome_ok {O} (sl : Slot O) peer job w :
  (∀ e, entry_ok e → entry_ok (markDelivered sl e)) →
  (∀ e ch, entry_ok e → entry_ok (setCh sl e ch)) →
  (∀ c w', waiter_ok w' → waiter_ok (with_chans sl (<[c := []]> (chans sl w')) w')) →
  waiter_ok w → waiter_ok (waitOutcome sl peer job w).1.
Proof.
  intros Hm Hs Hc Hw. unfold waitOutcome. repeat case_match; simpl; auto 10.
Qed.

Lemma waitCancel_ok {O} (sl : Slot O) k c w :
  (∀ e ch, entry_ok e → entry_ok (setCh sl e ch)) → waiter_ok w → waiter_ok (waitCancel sl k c w).
Proof.
  intros Hs Hw. unfold waitCancel. destruct (w_entries w !! k) eqn:Hk; [|done]. case_match; [|done].
  apply cleanup_ok, store_ok; [done|]. apply Hs. by eapply ok_entries.
Qed.

Lemma waitReceive_ok {O} (sl : Slot O) k c w w' o :
  (∀ e, entry_ok e → entry_ok (markDelivered sl e)) →
  (∀ rest, chans sl w !! c = Some (o :: rest) →
     waiter_ok (with_chans sl (<[c := rest]> (chans sl w)) w)) →
  waitReceive sl k c w = Some (w', o) → waiter_ok w'.
Proof.
  intros Hm Hc. unfold waitReceive. destruct (chans sl w !! c) as [[|x rest]|] eqn:Hl; [done| |done].
  intros [= <- <-]. specialize (Hc rest eq_refl). destruct (w_entries _ !! k) eqn:Hk; [|done].
  apply cleanup_ok, store_ok; [done|]. apply Hm. by eapply ok_entries.
Qed.

Lemma step_ok {T : TlvLib} {L : TlvLaws T} w o :
  0 ≤ maxS → 0 ≤ maxJ → maxS + max_record_size < 2 ^ 64 → waiter_ok w → waiter_ok (step w o).
Proof.
  intros ? ? ? Hw. destruct o as [peer typ payload|peer job|peer job|k c|k c|k c|k c|peer job|k c].
  - by apply message_ok.
  - apply waitOutcome_ok; simpl; auto. by intros c w' [].
  - apply waitOutcome_ok; simpl; auto.
  - simpl. destruct (waitReceive quote_slot k c w) as [[w' o]|] eqn:Hr; [|done].
    eapply waitReceive_ok; [..|exact Hr]; simpl; auto. intros rest _. by destruct Hw.
  - simpl. destruct (waitReceive result_slot k c w) as [[w' o]|] eqn:Hr; [|done].
    eapply waitReceive_ok; [..|exact Hr]; simpl; auto. intros rest Hl. apply chans_ok; [done|].
    apply (ok_chans w Hw) in Hl. by inversion Hl.
  - apply waitCancel_ok; simpl; auto.
  - apply waitCancel_ok; simpl; auto.
  - simpl. unfold SubscribeResultStream. repeat case_match; simpl; auto 10.
  - simpl. unfold unsubscribe. destruct (w_entries w !! k) eqn:Hk; [|done]. case_match; [|done].
    apply cleanup_ok, store_ok; [done|]. apply entry_ok_sub. by eapply ok_entries.
Qed.
End verified.

(** The limits a manifest sets, small enough for 64-bit lengths not to wrap. *)
Definition sane_limits (m : option Manifest) : Prop :=
  0 ≤ w_maxStreamBytes (New m) ∧ 0 ≤ w_maxJobBytes (New m) ∧
  w_maxStreamBytes (New m) + max_record_size < 2 ^ 64.

Lemma reachable_ok {T : TlvLib} {L : TlvLaws T} m ops :
  sane_limits m → waiter_ok (w_maxStreamBytes (New m)) (w_maxJobBytes (New m)) (run ops (New m)).
Proof.
  intros (H1 & H2 & H3). unfold run.
  assert (Hw : waiter_ok (w_maxStreamBytes (New m)) (w_maxJobBytes (New m)) (New m)) by done.
  revert Hw. generalize (New m) at 3 6. induction ops as [|o ops IH]; intros w Hw; [done|].
  apply IH. by apply step_ok.
Qed.

(** What a wait returns or receives was verified. *)
Lemma wait_verified maxS maxJ peer job w out :
  waiter_ok maxS maxJ w → (WaitResult peer job w).2 = Returned out → verified maxS maxJ out.
Proof.
  intros Hw. unfold WaitResult, waitOutcome. case_match; [done|].
  cbn [getOutcome getCh result_slot]. destruct (e_resultOutcome _) eqn:Ho; simpl; [|by case_match].
  intros [= <-]. by apply (ensure_ok _ _ (MkKey peer job) w Hw).
Qed.

Lemma receive_verified maxS maxJ k ch w w' out :
  waiter_ok maxS maxJ w → waitReceive result_slot k ch w = Some (w', out) → verified maxS maxJ out.
Proof.
  intros Hw. unfold waitReceive. cbn [chans result_slot].
  destruct (w_resultChans w !! ch) as [[|x rest]|] eqn:Hl; [done| |done]. intros [= _ <-].
  apply (ok_chans _ _ w Hw) in Hl. by inversion Hl.
Qed.

(** Whatever messages arrive and whoever waits, the outcome [WaitResult] returns
    at once or a blocked call receives was verified: an ok result's bytes hash to
    its [result_hash], have its [result_len] and are within the local limits; an
    error carries no bytes. *)
Theorem waited_result_verified {T : TlvLib} {L : TlvLaws T} m ops peer job k ch :
  sane_limits m →
  let w := run ops (New m) in
  let good := verified (w_maxStreamBytes (New m)) (w_maxJobBytes (New m)) in
  (∀ out, (WaitResult peer job w).2 = Returned out → good out) ∧
  (∀ w' out, waitReceive result_slot k ch w = Some (w', out) → good out).
Proof.
  intros Hm w good. pose proof (reachable_ok m ops Hm) as Hw. fold w in Hw.
  split; intros; [by eapply wait_verified|by eapply receive_verified].
Qed.

(** ** Channels *)

Section channels.
Context {O : Type} (sl : Slot O).

(** The channel a job's caller waits on. *)
Definition registered (w : Waiter) (k : key) : option nat := w_entries w !! k ≫= getCh sl.

(** A job keeps its channel or loses it. *)
Definition keeps (w w' : Waiter) (k : key) : Prop :=
  registered w' k = registered w k ∨ registered w' k = None.

(** What an operation may do to the channels of one kind of outcome. *)
Inductive chan_step (w w' : Waiter) : Prop :=
| cs_keep :
    (∀ k, keeps w w' k) → chans sl w' = chans sl w → (w_nextChan w ≤ w_nextChan w')%nat →
    chan_step w w'
| cs_send k c out :
    registered w k = Some c → registered w' k = None → (∀ k', keeps w w' k') →
    chans sl w' = <[c := default [] (chans sl w !! c) ++ [out]]> (chans sl w) →
    (w_nextChan w ≤ w_nextChan w')%nat → chan_step w w'
| cs_register k :
    registered w' k = Some (w_nextChan w) → (∀ k', k' ≠ k → keeps w w' k') →
    chans sl w' = <[w_nextChan w := []]> (chans sl w) →
    (w_nextChan w < w_nextChan w')%nat → chan_step w w'
| cs_receive c out rest :
    chans sl w !! c = Some (out :: rest) → (∀ k, keeps w w' k) →
    chans sl w' = <[c := rest]> (chans sl w) → (w_nextChan w ≤ w_nextChan w')%nat → chan_step w w'.

Record disciplined (w : Waiter) : Prop := {
  d_empty : ∀ k c, registered w k = Some c → chans sl w !! c = Some [];
  d_own : ∀ k1 k2 c, registered w k1 = Some c → registered w k2 = Some c → k1 = k2;
  d_cap : ∀ c l, chans sl w !! c = Some l → (length l ≤ 1)%nat ∧ (c < w_nextChan w)%nat;
}.

Lemma disciplined_step w w' : disciplined w → chan_step w w' → disciplined w'.
Proof.
  intros [He Ho Hc] Hs.
  assert (Hkeep : ∀ k c, keeps w w' k → registered w' k = Some c → registered w k = Some c)
    by (unfold keeps; naive_solver congruence).
  assert (Hown : ∀ k0, (∀ k', k' ≠ k0 → keeps w w' k') → ∀ k1 k2 c, k1 ≠ k0 → k2 ≠ k0 →
    registered w' k1 = Some c → registered w' k2 = Some c → k1 = k2) by naive_solver.
  destruct Hs as [Hk Hch Hn|k c out Hr Hr' Hk Hch Hn|k Hr Hk Hch Hn|c out rest Hl Hk Hch Hn].
  - split; rewrite ?Hch; [naive_solver..|]. intros c l Hl. destruct (Hc c l Hl). lia.
  - assert (Hne : ∀ k' c', registered w' k' = Some c' → c' ≠ c).
    { intros k' c' Hk' ->. assert (k' = k) by eauto. congruence. }
    split; rewrite ?Hch; [|naive_solver|].
    + intros k' c' Hk'. rewrite lookup_insert_ne by naive_solver. eauto.
    + intros c' l. destruct (decide (c' = c)) as [->|]; [|rewrite lookup_insert_ne by done; intros Hl; destruct (Hc c' l Hl); lia].
      rewrite lookup_insert_eq, (He k c Hr). intros [= <-]. destruct (Hc c [] (He k c Hr)). simpl. lia.
  - assert (Hold : ∀ k' c', k' ≠ k → registered w' k' = Some c' → chans sl w !! c' = Some [] ∧ c' ≠ w_nextChan w).
    { intros k' c' Hne Hk'. assert (Hl : chans sl w !! c' = Some []) by eauto. split; [done|].
      destruct (Hc c' [] Hl). lia. }
    split; rewrite ?Hch.
    + intros k' c' Hk'. destruct (decide (k' = k)) as [->|Hne].
      * rewrite Hr in Hk'. injection Hk' as <-. by rewrite lookup_insert_eq.
      * destruct (Hold k' c' Hne Hk'). by rewrite lookup_insert_ne.
    + intros k1 k2 c H1 H2. destruct (decide (k1 = k)) as [->|]; destruct (decide (k2 = k)) as [->|]; [done|..|eauto].
      * destruct (Hold k2 c) as [_ []]; [done..|congruence].
      * destruct (Hold k1 c) as [_ []]; [done..|congruence].
    + intros c l. destruct (decide (c = w_nextChan w)) as [->|]; [rewrite lookup_insert_eq; intros [= <-]; simpl; lia|].
      rewrite lookup_insert_ne by done. intros Hl. destruct (Hc c l Hl). lia.
  - split; rewrite ?Hch; [|naive_solver|].
    + intros k' c' Hk'. assert (Hl' : chans sl w !! c' = Some []) by eauto.
      rewrite lookup_insert_ne; [done|]. intros ->. congruence.
    + intros c' l. destruct (Hc c _ Hl) as [Hlen Hlt]. destruct (decide (c' = c)) as [->|].
      * rewrite lookup_insert_eq. intros [= <-]. simpl in Hlen. lia.
      * rewrite lookup_insert_ne by done. intros Hl'. destruct (Hc c' l Hl'). lia.
Qed.
(** *** Operations as channel steps *)

(** What the accessors given to [waitOutcome] promise: a new entry has no channel,
    an entry with one is not cleaned up, and they read and write what they name. *)
Class SlotLaws : Prop := {
  slot_empty : getCh sl empty_entry = None;
  slot_kept e : is_Some (getCh sl e) → is_Some (e_quoteCh e) ∨ is_Some (e_resultCh e);
  slot_setCh e ch : getCh sl (setCh sl e ch) = ch;
  slot_mark e : getCh sl (markDelivered sl e) = getCh sl e;
  slot_chans w w' : w_quoteChans w = w_quoteChans w' → w_resultChans w = w_resultChans w' →
    chans sl w = chans sl w';
  slot_with m w : chans sl (with_chans sl m w) = m ∧ w_entries (with_chans sl m w) = w_entries w ∧
    w_nextChan (with_chans sl m w) = w_nextChan w;
}.
Context {SL : SlotLaws}.

(** The channels are as before. *)
Definition neutral (w w' : Waiter) : Prop :=
  (∀ k, registered w' k = registered w k) ∧ chans sl w' = chans sl w ∧ w_nextChan w' = w_nextChan w.

(** The channel of [k], if any, got a value and was taken off the entry. *)
Definition delivers (k : key) (w w' : Waiter) : Prop :=
  ∃ out, (∀ k', registered w' k' = if decide (k' = k) then None else registered w k') ∧
    chans sl w' = match registered w k with
                  | Some c => <[c := default [] (chans sl w !! c) ++ [out]]> (chans sl w)
                  | None => chans sl w
                  end ∧ w_nextChan w' = w_nextChan w.

(** What handling a message does. *)
Definition handles (k : key) (w w' : Waiter) : Prop := neutral w w' ∨ delivers k w w'.

Lemma neutral_step w w' : neutral w w' → chan_step w w'.
Proof. intros (H1 & H2 & H3). apply cs_keep; [by left|done|lia]. Qed.

Lemma handles_step k w w' : handles k w w' → chan_step w w'.
Proof.
  intros [Hn|(out & Hr & Hc & Hn)]; [by apply neutral_step|].
  assert (Hk : ∀ k', keeps w w' k').
  { intros k'. unfold keeps. rewrite Hr. case_decide; auto. }
  destruct (registered w k) as [c|] eqn:Hreg; [|apply cs_keep; auto; lia].
  eapply (cs_send _ _ k c out); auto; [|lia]. rewrite Hr. by case_decide.
Qed.

Lemma neutral_trans w1 w2 w3 : neutral w1 w2 → neutral w2 w3 → neutral w1 w3.
Proof. intros (H1 & H2 & H3) (H4 & H5 & H6). split_and!; congruence. Qed.

Lemma neutral_handles k w1 w2 w3 : neutral w1 w2 → handles k w2 w3 → handles k w1 w3.
Proof.
  intros Hn [H|(out & Hr & Hc & Hx)]; [left; by eapply neutral_trans|right].
  destruct Hn as (H1 & H2 & H3). exists out. split_and!; [|by rewrite <-H2, <-H1|congruence].
  intros k'. rewrite Hr. by rewrite H1.
Qed.

Lemma neutral_refl w : neutral w w.
Proof. done. Qed.

Lemma registered_ensure w k : registered w k = getCh sl (ensureEntryLocked k w).
Proof using SL.
  unfold registered, ensureEntryLocked. destruct (w_entries w !! k); [done|]. simpl. by rewrite slot_empty.
Qed.

Lemma registered_store k e w k' :
  registered (store k e w) k' = if decide (k' = k) then getCh sl e else registered w k'.
Proof.
  unfold registered. simpl. case_decide as Hd; [by rewrite Hd, lookup_insert_eq|by rewrite lookup_insert_ne].
Qed.

Lemma registered_cleanup k e w k' :
  registered (maybeCleanupLocked k e (store k e w)) k' =
  if decide (k' = k) then getCh sl e else registered w k'.
Proof using SL.
  rewrite <-registered_store. unfold maybeCleanupLocked.
  destruct (bool_decide (is_Some (e_resultStreamSub e))); [done|].
  destruct (bool_decide (is_Some (e_quoteCh e))) eqn:H1; [done|].
  destruct (bool_decide (is_Some (e_resultCh e))) eqn:H2; [done|]. simpl.
  destruct (_ || _); [done|].
  rewrite registered_store. unfold registered. simpl. case_decide as Hd.
  - rewrite Hd, lookup_delete_eq. simpl. destruct (getCh sl e) eqn:Hg; [|done].
    bool_to_prop. destruct (slot_kept e); [by rewrite Hg|done..].
  - by rewrite lookup_delete_ne, lookup_insert_ne.
Qed.

Lemma neutral_store k e w : getCh sl e = getCh sl (ensureEntryLocked k w) → neutral w (store k e w).
Proof using SL.
  intros He. split_and!; [|by apply slot_chans|done]. intros k'. rewrite registered_store.
  case_decide as Hd; [|done]. by rewrite Hd, registered_ensure.
Qed.

Lemma cleanup_frame k e w :
  w_quoteChans (maybeCleanupLocked k e w) = w_quoteChans w ∧
  w_resultChans (maybeCleanupLocked k e w) = w_resultChans w ∧
  w_nextChan (maybeCleanupLocked k e w) = w_nextChan w.
Proof. unfold maybeCleanupLocked. by repeat case_match. Qed.

Lemma neutral_cleanup k e w :
  getCh sl e = getCh sl (ensureEntryLocked k w) → neutral w (maybeCleanupLocked k e (store k e w)).
Proof using SL.
  intros He. destruct (cleanup_frame k e (store k e w)) as (H1 & H2 & H3).
  split_and!; [|by apply slot_chans|done]. intros k'. rewrite registered_cleanup.
  case_decide as Hd; [|done]. by rewrite Hd, registered_ensure.
Qed.

(** Taking the channel off an entry. *)
Lemma drop_step k e w : getCh sl e = None → chan_step w (maybeCleanupLocked k e (store k e w)).
Proof using SL.
  intros He. destruct (cleanup_frame k e (store k e w)) as (H1 & H2 & H3).
  apply cs_keep; [|by apply slot_chans|by rewrite H3].
  intros k'. unfold keeps. rewrite registered_cleanup, He. case_decide; auto.
Qed.

Lemma neutral_publish sub ev w : neutral w (publishResultStreamEvent sub ev w).
Proof using SL. by destruct sub; split_and!; try done; apply slot_chans. Qed.

Lemma neutral_fresh w k : keeps w (fresh_chan w) k.
Proof. by left. Qed.

(** *** Waiting *)

Lemma waitOutcome_step peer job w : chan_step w (waitOutcome sl peer job w).1.
Proof using SL.
  unfold waitOutcome. case_match; [apply neutral_step, neutral_refl|].
  destruct (getOutcome sl _); simpl.
  { apply neutral_step, neutral_cleanup, slot_mark. }
  destruct (getCh sl (ensureEntryLocked _ w)) eqn:Hch; simpl; [by apply neutral_step, neutral_store|].
  set (w1 := fresh_chan w). set (m := <[w_nextChan w := []]> (chans sl w1)).
  destruct (slot_with m w1) as (H1 & H2 & H3).
  apply (cs_register _ _ (MkKey peer job)).
  - rewrite registered_store, decide_True by done. apply slot_setCh.
  - intros k' Hne. left. rewrite registered_store, decide_False by done. unfold registered. by rewrite H2.
  - transitivity (chans sl (with_chans sl m w1)); [by apply slot_chans|]. rewrite H1. unfold m.
    f_equal. by apply slot_chans.
  - simpl. rewrite H3. simpl. lia.
Qed.

Lemma waitReceive_step k c w w' out : waitReceive sl k c w = Some (w', out) → chan_step w w'.
Proof using SL.
  unfold waitReceive. destruct (chans sl w !! c) as [[|x rest]|] eqn:Hl; [done| |done].
  set (w1 := with_chans sl (<[c := rest]> (chans sl w)) w).
  destruct (slot_with (<[c := rest]> (chans sl w)) w) as (H1 & H2 & H3). fold w1 in H1, H2, H3.
  intros [= <- <-].
  assert (Hn : neutral w1 (match w_entries w1 !! k with
    | Some curr => maybeCleanupLocked k (markDelivered sl curr) (store k (markDelivered sl curr) w1)
    | None => w1 end)).
  { destruct (w_entries w1 !! k) as [curr|] eqn:Hk; [|apply neutral_refl]. apply neutral_cleanup.
    unfold ensureEntryLocked. rewrite Hk. apply slot_mark. }
  destruct Hn as (N1 & N2 & N3). eapply (cs_receive _ _ c x rest); [done|..|by rewrite N2|by rewrite N3, H3].
  intros k'. left. rewrite N1. unfold registered. by rewrite H2.
Qed.

Lemma waitCancel_step k c w : chan_step w (waitCancel sl k c w).
Proof using SL.
  unfold waitCancel. destruct (w_entries w !! k); [|apply neutral_step, neutral_refl].
  case_match; [|apply neutral_step, neutral_refl]. apply drop_step, slot_setCh.
Qed.
End channels.

(** *** Messages *)

(** Every delivery concerns the job it names. *)
Class SlotDelivers {O} (sl : Slot O) : Prop := {
  del_quote peer q w : handles sl (MkKey peer (env_JobID (qs_Envelope q))) w (deliverQuoteResponse peer q w);
  del_result peer r b w : handles sl (MkKey peer (env_JobID (rs_Envelope r))) w (deliverResult peer r b w);
  del_error peer m w : handles sl (MkKey peer (env_JobID (er_Envelope m))) w (deliverError peer m w);
  del_stream st e : getCh sl (set_stream st e) = getCh sl e;
  del_terminal r e : getCh sl (set_terminal r e) = getCh sl e;
  del_sub s e : getCh sl (set_sub s e) = getCh sl e;
}.

(** Split on the guard of the operation in the goal. *)
Ltac split_guard := match goal with |- handles _ _ _ (if ?b then _ else _) => destruct b end.

Section messages.
Context {O : Type} (sl : Slot O) {SL : SlotLaws sl} {SD : SlotDelivers sl}.

Lemma protocolError_handles peer env code msg w :
  handles sl (MkKey peer (env_JobID env)) w (deliverProtocolError peer env code msg w).
Proof using SD.
  apply (del_error peer {| er_Envelope := env; er_Code := code; er_Message := Some msg |}).
Qed.

Lemma store_ensure_neutral k w : neutral sl w (store k (ensureEntryLocked k w) w).
Proof using SL. by apply neutral_store. Qed.

Lemma begin_handles peer b w :
  handles sl (MkKey peer (env_JobID (sb_Envelope b))) w (handleStreamBegin peer b w).
Proof using SL SD.
  unfold handleStreamBegin. case_match; [left; apply neutral_refl|].
  do 2 (split_guard; [apply protocolError_handles|]).
  assert (Hb : ∀ sub ev st, neutral sl w (publishResultStreamEvent sub ev
    (store (MkKey peer (env_JobID (sb_Envelope b))) (set_stream st
       (ensureEntryLocked (MkKey peer (env_JobID (sb_Envelope b))) w)) w))).
  { intros. eapply neutral_trans; [|by apply neutral_publish]. by apply neutral_store, del_stream. }
  left. destruct (e_resultStream _); [case_match|]; auto using store_ensure_neutral.
Qed.

Lemma chunk_handles peer c w :
  handles sl (MkKey peer (env_JobID (sc_Envelope c))) w (handleStreamChunk peer c w).
Proof using SL SD.
  unfold handleStreamChunk. cbv zeta. set (k := MkKey peer _). set (w1 := store k _ w).
  assert (Hn : neutral sl w w1) by apply store_ensure_neutral.
  destruct (e_resultStream _) as [st|]; [|by left].
  repeat (case_match; [first [by left|eapply neutral_handles; [exact Hn|apply protocolError_handles]]|]).
  left. eapply neutral_trans; [|by apply neutral_publish]. eapply neutral_trans; [exact Hn|].
  apply neutral_store; [done|]. unfold w1. by rewrite ensure_store, del_stream.
Qed.

Lemma try_handles peer r b ct ce w :
  handles sl (MkKey peer (env_JobID (rs_Envelope r))) w (tryDeliverResult peer r b ct ce w).
Proof using SD.
  unfold tryDeliverResult. cbv zeta. destruct (rs_OK r); [|apply del_result].
  destruct (negb _); [apply del_result|].
  repeat (split_guard; [apply protocolError_handles|]). apply del_result.
Qed.

Lemma end_handles peer m w :
  ∃ job, handles sl (MkKey peer job) w (handleStreamEnd peer m w).
Proof using SL SD.
  assert (Hid : ∀ w', neutral sl w w' → ∃ job, handles sl (MkKey peer job) w w')
    by (intros w' H; exists []; by left).
  unfold handleStreamEnd. cbv zeta. set (k := MkKey peer _). set (w1 := store k _ w).
  assert (Hn : neutral sl w w1) by apply store_ensure_neutral.
  destruct (e_resultStream _) as [st|]; [|auto]. do 2 (case_match; [by auto|]).
  set (w2 := store k (set_stream _ _) w1).
  assert (Hn2 : neutral sl w w2).
  { eapply neutral_trans; [exact Hn|]. apply neutral_store; [done|]. unfold w1. by rewrite ensure_store, del_stream. }
  do 2 (case_match; [eexists; eapply neutral_handles; [exact Hn2|apply protocolError_handles]|]).
  destruct (e_terminalResult _) as [r|]; [|by auto].
  eexists. eapply neutral_handles; [exact Hn2|apply try_handles].
Qed.

Lemma terminal_handles peer r w :
  handles sl (MkKey peer (env_JobID (rs_Envelope r))) w (handleTerminalResult peer r w).
Proof using SL SD.
  unfold handleTerminalResult. cbv zeta. set (k := MkKey peer _).
  case_match; [left; apply store_ensure_neutral|]. set (w1 := store k _ w).
  assert (Hn : neutral sl w w1) by (by apply neutral_store, del_terminal).
  case_match; [eapply neutral_handles; [exact Hn|apply del_result]|].
  destruct (e_resultStream _); [|by left]. case_match; [|by left].
  eapply neutral_handles; [exact Hn|apply try_handles].
Qed.

(** A message changes at most the channel of a job of its sender. *)
Lemma message_handles {T : TlvLib} peer typ payload w :
  ∃ job, handles sl (MkKey peer job) w (HandleInboundCustomMessage peer typ payload w).
Proof using SL SD.
  assert (Hid : ∃ job, handles sl (MkKey peer job) w w) by (exists []; left; apply neutral_refl).
  unfold HandleInboundCustomMessage.
  repeat (case_match; [case_match; [|done]|]); [..|done];
    eauto using del_quote, del_error, begin_handles, chunk_handles, end_handles, terminal_handles.
Qed.
End messages.

(** What handling does to the channel a call waits on. *)
Lemma handles_channel {O} (sl : Slot O) k0 w w' k c :
  disciplined sl w → handles sl k0 w w' → registered sl w k = Some c →
  (registered sl w' k = Some c ∧ chans sl w' !! c = Some []) ∨
  (registered sl w' k = None ∧ ∃ out, chans sl w' !! c = Some [out]).
Proof.
  intros [He Ho _] Hh Hc. pose proof (He k c Hc) as Hl.
  destruct Hh as [(H1 & H2 & H3)|(out & H1 & H2 & H3)]; [left; by rewrite H1, H2|].
  rewrite H1. destruct (decide (k = k0)) as [->|Hne].
  - right. split; [done|]. exists out. by rewrite H2, Hc, lookup_insert_eq, Hl.
  - left. split; [done|]. rewrite H2. destruct (registered sl w k0) as [c0|] eqn:Hc0; [|done].
    rewrite lookup_insert_ne; [done|]. intros ->. by apply Hne, (Ho k k0 c).
Qed.

(** *** The two kinds of outcome *)

#[global] Instance quote_laws : SlotLaws quote_slot.
Proof. split; try done; auto. Qed.
#[global] Instance result_laws : SlotLaws result_slot.
Proof. split; try done; auto. Qed.

(** A delivery to the entry of [k]: its frame on entries and channel numbers. *)
Lemma registered_send {O} (sl : Slot O) {SL : SlotLaws sl} k e w w' k' :
  w_entries w' = w_entries (maybeCleanupLocked k e (store k e w)) →
  registered sl w' k' = if decide (k' = k) then getCh sl e else registered sl w k'.
Proof. intros He. rewrite <-(registered_cleanup sl). unfold registered. by rewrite He. Qed.

#[global] Instance quote_delivers : SlotDelivers quote_slot.
Proof.
  split; try done.
  - intros peer q w. right. exists (MkQuoteOutcome (Some q) None). unfold deliverQuoteResponse.
    set (k := MkKey _ _). rewrite (registered_ensure quote_slot w k). cbn [getCh quote_slot chans].
    set (e' := set_quote _ _ _ _). destruct (cleanup_frame k e' (store k e' w)) as (H1 & H2 & H3).
    destruct (e_quoteCh _); simpl; rewrite H1; (split_and!; [|done..]);
    intros k'; by rewrite (registered_send _ k e' w).
  - intros peer r b w. left. unfold deliverResult.
    set (k := MkKey _ _). set (e' := set_result _ _ _ _).
    eapply neutral_trans; [by apply (neutral_cleanup _ k e')|]. by destruct (e_resultCh _).
  - intros peer m w. right. exists (MkQuoteOutcome None (Some m)). unfold deliverError.
    set (k := MkKey _ _). rewrite (registered_ensure quote_slot w k). cbn [getCh quote_slot chans].
    set (e' := set_result _ _ _ _). destruct (cleanup_frame k e' (store k e' w)) as (H1 & H2 & H3).
    destruct (e_quoteCh (ensureEntryLocked k w)), (e_resultCh (ensureEntryLocked k w)); simpl; rewrite H1;
    (split_and!; [|done..]); intros k'; by rewrite (registered_send _ k e' w).
Qed.

#[global] Instance result_delivers : SlotDelivers result_slot.
Proof.
  split; try done.
  - intros peer q w. left. unfold deliverQuoteResponse.
    set (k := MkKey _ _). set (e' := set_quote _ _ _ _).
    eapply neutral_trans; [by apply (neutral_cleanup _ k e')|]. by destruct (e_quoteCh _).
  - intros peer r b w. right. exists (MkResultOutcome (Some r) b None). unfold deliverResult.
    set (k := MkKey _ _). rewrite (registered_ensure result_slot w k). cbn [getCh result_slot chans].
    set (e' := set_result _ _ _ _). destruct (cleanup_frame k e' (store k e' w)) as (H1 & H2 & H3).
    destruct (e_resultCh _); simpl; rewrite H2; (split_and!; [|done..]);
    intros k'; by rewrite (registered_send _ k e' w).
  - intros peer m w. right. exists (MkResultOutcome None [] (Some m)). unfold deliverError.
    set (k := MkKey _ _). rewrite (registered_ensure result_slot w k). cbn [getCh result_slot chans].
    set (e' := set_result _ _ _ _). destruct (cleanup_frame k e' (store k e' w)) as (H1 & H2 & H3).
    destruct (e_quoteCh (ensureEntryLocked k w)), (e_resultCh (ensureEntryLocked k w)); simpl; rewrite H2;
    (split_and!; [|done..]); intros k'; by rewrite (registered_send _ k e' w).
Qed.

(** Waiting for one kind of outcome leaves the channels of the other alone. *)
Class Independent {O1 O2} (sl : Slot O1) (sl' : Slot O2) : Prop := {
  ind_mark e : getCh sl (markDelivered sl' e) = getCh sl e;
  ind_setCh e ch : getCh sl (setCh sl' e ch) = getCh sl e;
  ind_chans m w : chans sl (with_chans sl' m w) = chans sl w;
}.
#[global] Instance quote_result : Independent quote_slot result_slot.
Proof. done. Qed.
#[global] Instance result_quote : Independent result_slot quote_slot.
Proof. done. Qed.

Section other_kind.
Context {O1 O2} (sl : Slot O1) (sl' : Slot O2).
Context {SL : SlotLaws sl} {SL' : SlotLaws sl'} {I : Independent sl sl'}.

Lemma with_chans_neutral m w : neutral sl w (with_chans sl' m w).
Proof using SL' I.
  destruct (slot_with sl' m w) as (_ & H2 & H3). split_and!; [|apply ind_chans|done].
  intros k. unfold registered. by rewrite H2.
Qed.

Lemma other_waitOutcome_step peer job w : chan_step sl w (waitOutcome sl' peer job w).1.
Proof using SL SL' I.
  unfold waitOutcome. case_match; [apply neutral_step, neutral_refl|].
  destruct (getOutcome sl' _); simpl; [by apply neutral_step, neutral_cleanup, ind_mark|].
  destruct (getCh sl' _); simpl; [by apply neutral_step, neutral_store|].
  set (m := <[_ := _]> _). set (w1 := with_chans sl' m (fresh_chan w)). set (k := MkKey _ _).
  assert (Hn : neutral sl (fresh_chan w) (store k (setCh sl' (ensureEntryLocked k w) (Some (w_nextChan w))) w1)).
  { eapply neutral_trans; [by apply with_chans_neutral|]. apply neutral_store; [done|]. rewrite ind_setCh.
    rewrite <-!(registered_ensure sl). symmetry. exact (proj1 (with_chans_neutral m (fresh_chan w)) k). }
  destruct Hn as (H1 & H2 & H3).
  apply cs_keep; [intros k'; left; by rewrite H1|rewrite H2; by apply slot_chans|rewrite H3; simpl; lia].
Qed.

Lemma other_waitReceive_step k c w w' out : waitReceive sl' k c w = Some (w', out) → chan_step sl w w'.
Proof using SL SL' I.
  unfold waitReceive. destruct (chans sl' w !! c) as [[|x rest]|]; [done| |done]. intros [= <- _].
  apply neutral_step. eapply neutral_trans; [by apply with_chans_neutral|].
  destruct (w_entries _ !! k) eqn:Hk; [|apply neutral_refl]. apply neutral_cleanup; [done|].
  unfold ensureEntryLocked. rewrite Hk. apply ind_mark.
Qed.

Lemma other_waitCancel_step k c w : chan_step sl w (waitCancel sl' k c w).
Proof using SL I.
  apply neutral_step. unfold waitCancel. destruct (w_entries w !! k) eqn:Hk; [|apply neutral_refl].
  case_match; [|apply neutral_refl]. apply neutral_cleanup; [done|].
  unfold ensureEntryLocked. rewrite Hk. apply ind_setCh.
Qed.
End other_kind.

Lemma subscribe_step {O} (sl : Slot O) {SL : SlotLaws sl} {SD : SlotDelivers sl} peer job w :
  chan_step sl w (SubscribeResultStream peer job w).1.
Proof.
  unfold SubscribeResultStream. case_match; [apply neutral_step, neutral_refl|].
  assert (Hf : ∀ w', neutral sl (fresh_chan w) w' → chan_step sl w w').
  { intros w' (H1 & H2 & H3).
    apply cs_keep; [intros k'; left; by rewrite H1|rewrite H2; by apply slot_chans|rewrite H3; simpl; lia]. }
  case_match; simpl; apply Hf; apply neutral_store; try done. apply del_sub.
Qed.

Lemma unsubscribe_step {O} (sl : Slot O) {SL : SlotLaws sl} {SD : SlotDelivers sl} k c w :
  chan_step sl w (unsubscribe k c w).
Proof.
  apply neutral_step. unfold unsubscribe. destruct (w_entries w !! k) eqn:Hk; [|apply neutral_refl].
  case_match; [|apply neutral_refl]. apply neutral_cleanup; [done|].
  unfold ensureEntryLocked. rewrite Hk. apply del_sub.
Qed.

(** Every operation is a step on the channels of either kind. *)
Lemma step_chan_step {T : TlvLib} w o :
  chan_step quote_slot w (step w o) ∧ chan_step result_slot w (step w o).
Proof.
  destruct o as [peer typ payload|peer job|peer job|k c|k c|k c|k c|peer job|k c]; cbn [step];
    unfold WaitQuoteResponse, WaitResult.
  - split.
    + destruct (message_handles quote_slot peer typ payload w) as [job Hh]. exact (handles_step _ _ _ _ Hh).
    + destruct (message_handles result_slot peer typ payload w) as [job Hh]. exact (handles_step _ _ _ _ Hh).
  - split; [exact (waitOutcome_step quote_slot _ _ _)|exact (other_waitOutcome_step result_slot quote_slot _ _ _)].
  - split; [exact (other_waitOutcome_step quote_slot result_slot _ _ _)|exact (waitOutcome_step result_slot _ _ _)].
  - destruct (waitReceive quote_slot k c w) as [[w' out]|] eqn:Hr; [|split; apply neutral_step, neutral_refl].
    split; [exact (waitReceive_step quote_slot _ _ _ _ _ Hr)|exact (other_waitReceive_step result_slot quote_slot _ _ _ _ _ Hr)].
  - destruct (waitReceive result_slot k c w) as [[w' out]|] eqn:Hr; [|split; apply neutral_step, neutral_refl].
    split; [exact (other_waitReceive_step quote_slot result_slot _ _ _ _ _ Hr)|exact (waitReceive_step result_slot _ _ _ _ _ Hr)].
  - split; [exact (waitCancel_step quote_slot _ _ _)|exact (other_waitCancel_step result_slot quote_slot _ _ _)].
  - split; [exact (other_waitCancel_step quote_slot result_slot _ _ _)|exact (waitCancel_step result_slot _ _ _)].
  - split; [exact (subscribe_step quote_slot _ _ _)|exact (subscribe_step result_slot _ _ _)].
  - split; [exact (unsubscribe_step quote_slot _ _ _)|exact (unsubscribe_step result_slot _ _ _)].
Qed.

Lemma reachable_disciplined {T : TlvLib} m ops :
  disciplined quote_slot (run ops (New m)) ∧ disciplined result_slot (run ops (New m)).
Proof.
  assert (H0 : disciplined quote_slot (New m) ∧ disciplined result_slot (New m)).
  { split; split; unfold registered; simpl; intros *; by rewrite ?lookup_empty. }
  revert H0. generalize (New m). induction ops as [|o ops IH]; intros w [Hq Hr]; [done|].
  rewrite run_cons. apply IH. destruct (step_chan_step w o). eauto using disciplined_step.
Qed.

(** ** Messages of one peer *)

(** The entries of other peers' jobs are as before. *)
Definition untouched (peer : string) (w w' : Waiter) : Prop :=
  ∀ k, k_peerID k ≠ peer → w_entries w' !! k = w_entries w !! k.

Section untouched.
Context (peer : string).

Lemma untouched_store job e w w' : untouched peer w w' → untouched peer w (store (MkKey peer job) e w').
Proof. intros H k Hk. simpl. rewrite lookup_insert_ne; [by apply H|]. intros <-. by apply Hk. Qed.

Lemma untouched_cleanup job e w w' :
  untouched peer w w' → untouched peer w (maybeCleanupLocked (MkKey peer job) e w').
Proof.
  intros H. unfold maybeCleanupLocked. repeat case_match; try done. intros k Hk. simpl.
  rewrite lookup_delete_ne; [by apply H|]. intros <-. by apply Hk.
Qed.

Lemma untouched_publish sub ev w w' :
  untouched peer w w' → untouched peer w (publishResultStreamEvent sub ev w').
Proof. by destruct sub. Qed.

Lemma untouched_send_quote ch o w w' : untouched peer w w' → untouched peer w (send_quote ch o w').
Proof. by destruct ch. Qed.

Lemma untouched_send_result ch o w w' : untouched peer w w' → untouched peer w (send_result ch o w').
Proof. by destruct ch. Qed.

Hint Resolve untouched_store untouched_cleanup untouched_publish untouched_send_quote
  untouched_send_result : core.

Lemma untouched_deliver_quote q w w' : untouched peer w w' → untouched peer w (deliverQuoteResponse peer q w').
Proof. unfold deliverQuoteResponse. auto. Qed.
Lemma untouched_deliver_result r b w w' : untouched peer w w' → untouched peer w (deliverResult peer r b w').
Proof. unfold deliverResult. auto. Qed.
Lemma untouched_deliver_error m w w' : untouched peer w w' → untouched peer w (deliverError peer m w').
Proof. unfold deliverError. auto. Qed.
Lemma untouched_protocol_error env code msg w w' :
  untouched peer w w' → untouched peer w (deliverProtocolError peer env code msg w').
Proof. apply untouched_deliver_error. Qed.

Hint Resolve untouched_deliver_quote untouched_deliver_result untouched_deliver_error
  untouched_protocol_error : core.

Lemma untouched_try r b ct ce w w' : untouched peer w w' → untouched peer w (tryDeliverResult peer r b ct ce w').
Proof. intros H. unfold tryDeliverResult. cbv zeta. repeat case_match; auto. Qed.

Hint Resolve untouched_try : core.

Lemma message_untouched {T : TlvLib} typ payload w :
  untouched peer w (HandleInboundCustomMessage peer typ payload w).
Proof.
  assert (H0 : untouched peer w w) by done.
  unfold HandleInboundCustomMessage, handleStreamBegin, handleStreamChunk, handleStreamEnd,
    handleTerminalResult. cbv zeta. repeat case_match; auto 10.
Qed.
End untouched.

(** On a waiter in any reachable state, a message never blocks on, overfills or
    hijacks a channel: the channel of a call waiting for a quote or a result is
    either still empty and registered, or holds the one value that was sent, and is
    registered no more. *)
Theorem delivery_never_blocks {T : TlvLib} m ops peer typ payload :
  let w := run ops (New m) in
  let w' := HandleInboundCustomMessage peer typ payload w in
  (∀ k c, registered quote_slot w k = Some c →
     (registered quote_slot w' k = Some c ∧ w_quoteChans w' !! c = Some []) ∨
     (registered quote_slot w' k = None ∧ ∃ out, w_quoteChans w' !! c = Some [out])) ∧
  (∀ k c, registered result_slot w k = Some c →
     (registered result_slot w' k = Some c ∧ w_resultChans w' !! c = Some []) ∨
     (registered result_slot w' k = None ∧ ∃ out, w_resultChans w' !! c = Some [out])).
Proof.
  intros w w'. destruct (reachable_disciplined m ops) as [Hq Hr]. fold w in Hq, Hr.
  destruct (message_handles quote_slot peer typ payload w) as [j1 H1].
  destruct (message_handles result_slot peer typ payload w) as [j2 H2]. fold w' in H1, H2.
  split; intros k c Hk; [exact (handles_channel _ _ _ _ _ _ Hq H1 Hk)|exact (handles_channel _ _ _ _ _ _ Hr H2 Hk)].
Qed.

(** C38: peers do not interfere: a message from one peer changes neither the entry of
    another peer's job nor what the calls waiting for it will receive. *)
Theorem peers_do_not_interfere {T : TlvLib} m ops peer typ payload k :
  k_peerID k ≠ peer →
  let w := run ops (New m) in
  let w' := HandleInboundCustomMessage peer typ payload w in
  w_entries w' !! k = w_entries w !! k ∧
  (∀ c, registered quote_slot w k = Some c → w_quoteChans w' !! c = Some []) ∧
  (∀ c, registered result_slot w k = Some c → w_resultChans w' !! c = Some []).
Proof.
  intros Hk w w'. destruct (reachable_disciplined m ops) as [Hq Hr]. fold w in Hq, Hr.
  assert (He : w_entries w' !! k = w_entries w !! k) by (by apply message_untouched).
  destruct (message_handles quote_slot peer typ payload w) as [j1 H1].
  destruct (message_handles result_slot peer typ payload w) as [j2 H2]. fold w' in H1, H2.
  split_and!; [done|..]; intros c Hc.
  - destruct (handles_channel _ _ _ _ _ _ Hq H1 Hc) as [[_ Hx]|[Hn _]]; [done|].
    unfold registered in Hn, Hc. rewrite He in Hn. congruence.
  - destruct (handles_channel _ _ _ _ _ _ Hr H2 Hc) as [[_ Hx]|[Hn _]]; [done|].
    unfold registered in Hn, Hc. rewrite He in Hn. congruence.
Qed.

(** ** Quotes *)

(** The job an answer to a quote request names, and what its caller is told. *)
Definition answer {T : TlvLib} (typ : Z) (payload : bytes) : option (bytes * QuoteOutcome) :=
  if typ =? MessageTypeQuoteResponse then
    match DecodeQuoteResponse payload with
    | Ok q => Some (env_JobID (qs_Envelope q), MkQuoteOutcome (Some q) None)
    | Err _ => None
    end
  else if typ =? MessageTypeError then
    match DecodeError payload with
    | Ok m => Some (env_JobID (er_Envelope m), MkQuoteOutcome None (Some m))
    | Err _ => None
    end
  else None.

(** The entry of [k] tells [out], as does the channel of a waiting call. *)
Definition told (k : key) (out : QuoteOutcome) (w w' : Waiter) : Prop :=
  e_quoteOutcome (ensureEntryLocked k w') = Some out ∧
  ∀ ch, e_quoteCh (ensureEntryLocked k w) = Some ch → w_quoteChans w !! ch = Some [] →
    w_quoteChans w' !! ch = Some [out].

Lemma told_intro k out e' (send : Waiter → Waiter) w :
  e_quoteOutcome e' = Some out → e_resultDelivered e' = false →
  (∀ w1, w_entries (send w1) = w_entries w1 ∧
     w_quoteChans (send w1) = w_quoteChans (send_quote (e_quoteCh (ensureEntryLocked k w)) out w1)) →
  told k out w (send (maybeCleanupLocked k e' (store k e' w))).
Proof.
  intros Ho Hd Hs. set (w1 := maybeCleanupLocked k e' (store k e' w)).
  assert (Hw1 : w1 = store k e' w).
  { unfold w1, maybeCleanupLocked. rewrite Hd. simpl. rewrite orb_true_r. by repeat case_match. }
  destruct (Hs w1) as [H1 H2]. split.
  - unfold ensureEntryLocked. rewrite H1, Hw1. simpl. by rewrite lookup_insert_eq.
  - intros ch Hch Hl. rewrite H2, Hch, Hw1. simpl. by rewrite lookup_insert_eq, Hl.
Qed.

Lemma answer_told {T : TlvLib} peer typ payload job out w :
  answer typ payload = Some (job, out) → e_resultDelivered (ensureEntryLocked (MkKey peer job) w) = false →
  told (MkKey peer job) out w (step w (OMessage peer typ payload)).
Proof.
  unfold answer. intros Ha Hd. destruct (Z.eqb_spec typ MessageTypeQuoteResponse) as [->|].
  { destruct (DecodeQuoteResponse payload) eqn:He; [|done]. injection Ha as <- <-.
    rewrite (step_quote _ _ _ _ He). apply (told_intro _ _ _ (send_quote _ _)); [done..|].
    intros w1. by destruct (e_quoteCh _). }
  destruct (Z.eqb_spec typ MessageTypeError) as [->|]; [|done].
  destruct (DecodeError payload) eqn:He; [|done]. injection Ha as <- <-. rewrite (step_error _ _ _ _ He).
  apply (told_intro _ _ _ (λ w1, send_result _ _ (send_quote _ _ w1))); [done..|].
  intros w1. by destruct (e_resultCh _), (e_quoteCh _).
Qed.

(** A quote response or an error for a job reaches its caller: after it, the wait
    for the quote returns it, and a call already blocked receives it, unless the job's
    result was already handed out. *)
Theorem answer_reaches_caller {T : TlvLib} peer typ payload job out w :
  answer typ payload = Some (job, out) → peer ≠ ""%string →
  e_resultDelivered (ensureEntryLocked (MkKey peer job) w) = false →
  let w' := HandleInboundCustomMessage peer typ payload w in
  (WaitQuoteResponse peer job w').2 = Returned out ∧
  (∀ ch, e_quoteCh (ensureEntryLocked (MkKey peer job) w) = Some ch → w_quoteChans w !! ch = Some [] →
     ∃ w'', waitReceive quote_slot (MkKey peer job) ch w' = Some (w'', out)).
Proof.
  intros Ha Hp Hd w'. destruct (answer_told peer typ payload job out w Ha Hd) as [Ho Hch].
  change (step w (OMessage peer typ payload)) with w' in Ho, Hch. split.
  - unfold WaitQuoteResponse, waitOutcome. rewrite bool_decide_eq_false_2 by done.
    cbn [getOutcome quote_slot]. by rewrite Ho.
  - intros ch H1 H2. unfold waitReceive. cbn [chans quote_slot]. rewrite (Hch ch H1 H2). eauto.
Qed.

(** ** Witnesses *)

Module WaiterExamples.
#[local] Instance tlv : TlvLib := bolt_tlv.
Definition job : bytes := repeat Byte.x11 32.
Definition peer : string := "03bb".
Definition env : JobEnvelope :=
  {| env_ProtocolVersion := 2; env_JobID := job; env_MsgID := repeat Byte.x12 32; env_Expiry := 1700000300 |}.
Definition refusal : LcpError := {| er_Envelope := env; er_Code := 5; er_Message := Some "busy"%string |}.
Definition payload : bytes := match EncodeError refusal with Ok p => p | Err _ => [] end.
(** A caller waits for the quote. *)
Definition waiting : Waiter := run [OWaitQuote peer job] (New None).

Lemma waited_result_verified_witness :
  let w := run [OMessage peer MessageTypeError payload] (New None) in
  let good := verified (w_maxStreamBytes (New None)) (w_maxJobBytes (New None)) in
  (∀ out, (WaitResult peer job w).2 = Returned out → good out) ∧
  (∀ w' out, waitReceive result_slot (MkKey peer job) 0 w = Some (w', out) → good out).
Proof. apply (waited_result_verified None). by vm_compute. Defined.

Lemma peers_do_not_interfere_witness :
  let w := run [OWaitQuote "02cc" job] (New None) in
  let w' := HandleInboundCustomMessage peer MessageTypeError payload w in
  w_entries w' !! MkKey "02cc" job = w_entries w !! MkKey "02cc" job ∧
  (∀ c, registered quote_slot w (MkKey "02cc" job) = Some c → w_quoteChans w' !! c = Some []) ∧
  (∀ c, registered result_slot w (MkKey "02cc" job) = Some c → w_resultChans w' !! c = Some []).
Proof. apply (peers_do_not_interfere None). discriminate. Defined.

Lemma answer_reaches_caller_witness :
  let w' := HandleInboundCustomMessage peer MessageTypeError payload waiting in
  (WaitQuoteResponse peer job w').2 = Returned (MkQuoteOutcome None (Some refusal)) ∧
  (∀ ch, e_quoteCh (ensureEntryLocked (MkKey peer job) waiting) = Some ch →
     w_quoteChans waiting !! ch = Some [] →
     ∃ w'', waitReceive quote_slot (MkKey peer job) ch w' = Some (w'', MkQuoteOutcome None (Some refusal))).
Proof. apply answer_reaches_caller; first [discriminate|vm_compute; reflexivity]. Defined.

Definition sid : bytes := repeat Byte.x21 32.
Definition begin_msg : StreamBegin :=
  {| sb_Envelope := env; sb_StreamID := sid; sb_Kind := StreamKindResult; sb_TotalLen := None;
     sb_SHA256 := None; sb_ContentType := "text/plain"; sb_ContentEncoding := "identity" |}.
Definition chunk_msg : StreamChunk :=
  {| sc_Envelope := env; sc_StreamID := sid; sc_Seq := 0; sc_Data := Some [Byte.x61] |}.
Definition failed_msg : Result :=
  {| rs_Envelope := env; rs_Status := ResultStatusFailed; rs_OK := None; rs_Message := None |}.
Definition end_msg : StreamEnd :=
  {| se_Envelope := env; se_StreamID := sid; se_TotalLen := 1; se_SHA256 := sha256_sum [Byte.x61] |}.

(** A failed result can come with bytes: when the terminal result with status
    failed overtakes the end of a stream, the end hands the failed result out again,
    now with the bytes of the stream. *)
Example failed_result_with_bytes :
  let w := handleTerminalResult peer failed_msg
             (handleStreamChunk peer chunk_msg (handleStreamBegin peer begin_msg (New None))) in
  (WaitResult peer job w).2 = Returned (MkResultOutcome (Some failed_msg) [] None) ∧
  (WaitResult peer job (handleStreamEnd peer end_msg w)).2 =
    Returned (MkResultOutcome (Some failed_msg) [Byte.x61] None).
Proof. vm_compute. by split. Qed.

Definition other_ok_msg : Result :=
  {| rs_Envelope := env; rs_Status := ResultStatusOK; rs_Message := None;
     rs_OK := Some {| ro_ResultStreamID := repeat Byte.x99 32; ro_ResultHash := sha256_sum [Byte.x61];
                      ro_ResultLen := 1; ro_ResultContentType := "text/plain";
                      ro_ResultContentEncoding := "identity" |} |}.

(** The terminal result may name another stream than the one that was received. *)
Example other_stream_accepted :
  ro_ResultStreamID <$> rs_OK other_ok_msg ≠ Some sid ∧
  (WaitResult peer job (handleTerminalResult peer other_ok_msg (handleStreamEnd peer end_msg
     (handleStreamChunk peer chunk_msg (handleStreamBegin peer begin_msg (New None)))))).2 =
  Returned (MkResultOutcome (Some other_ok_msg) [Byte.x61] None).
Proof. vm_compute. by split. Qed.

(** The caller is waiting on an empty channel here. *)
Example waiting_caller :
  e_quoteCh (ensureEntryLocked (MkKey peer job) waiting) = Some 0%nat ∧ w_quoteChans waiting !! 0%nat = Some [].
Proof. vm_compute. by split. Qed.
End WaiterExamples.
