(* ===== verification/WaiterRoute.v ===== *)
(** * The waiter routes what it receives

    An outcome a caller obtains for a job comes from a message that the job's peer
    sent about that job: an invariant of the entries and of the channels, for the
    messages received so far. *)

From S2P Require Import Prelude GoStd TlvLib Wire WireProofs Stores Waiter WaiterProofs WaiterInv.
Import Waiter.

Section route.
Context {T : TlvLib}.
(** The messages received: sender, type, payload. *)
Context (Msg : string → Z → bytes → Prop).

(** A quote response received from the peer of [k] about the job of [k]. *)
Definition quote_from (k : key) (resp : QuoteResponse) : Prop :=
  env_JobID (qs_Envelope resp) = k_jobID k ∧
  ∃ payload, Msg (k_peerID k) MessageTypeQuoteResponse payload ∧ DecodeQuoteResponse payload = Ok resp.

Definition terminal_from (k : key) (res : Result) : Prop :=
  env_JobID (rs_Envelope res) = k_jobID k ∧
  ∃ payload, Msg (k_peerID k) MessageTypeResult payload ∧ DecodeResult payload = Ok res.

(** Either a response of the peer or an error. *)
Definition quote_routed (k : key) (o : QuoteOutcome) : Prop :=
  match qo_QuoteResponse o with
  | Some resp => quote_from k resp ∧ qo_Error o = None
  | None => is_Some (qo_Error o)
  end.

Definition result_routed (k : key) (o : ResultOutcome) : Prop :=
  match ro_Result o with
  | Some res => terminal_from k res ∧ ro_Error o = None
  | None => is_Some (ro_Error o)
  end.

Definition entry_routed (k : key) (e : entry) : Prop :=
  (∀ o, e_quoteOutcome e = Some o → quote_routed k o) ∧
  (∀ o, e_resultOutcome e = Some o → result_routed k o) ∧
  (∀ r, e_terminalResult e = Some r → terminal_from k r).

(** Channel [c], once it exists, belongs to [k]: no other job has it registered, and
    what it holds is about [k]. *)
Record routed (c : nat) (k : key) (w : Waiter) : Prop := {
  rt_entries : ∀ k' e, w_entries w !! k' = Some e →
    entry_routed k' e ∧ ((e_quoteCh e = Some c ∨ e_resultCh e = Some c) → k' = k);
  rt_quote : ∀ l, w_quoteChans w !! c = Some l → Forall (quote_routed k) l;
  rt_result : ∀ l, w_resultChans w !! c = Some l → Forall (result_routed k) l;
}.

Section channel.
Context (c : nat) (k : key).
Abbreviation ok := (routed c k).

Lemma ensure_routed k' w : ok w →
  entry_routed k' (ensureEntryLocked k' w) ∧
  ((e_quoteCh (ensureEntryLocked k' w) = Some c ∨ e_resultCh (ensureEntryLocked k' w) = Some c) → k' = k).
Proof.
  intros [He _ _]. unfold ensureEntryLocked. destruct (w_entries w !! k') eqn:Hk; [by apply He|].
  split; [done|]. by intros [?|?].
Qed.

Lemma store_routed k' e w :
  ok w → entry_routed k' e → ((e_quoteCh e = Some c ∨ e_resultCh e = Some c) → k' = k) →
  ok (store k' e w).
Proof.
  intros [He Hq Hr] H1 H2. split; try done. simpl. intros k'' e'.
  destruct (decide (k'' = k')) as [->|]; [rewrite lookup_insert_eq; by intros [= <-]|].
  rewrite lookup_insert_ne by done. apply He.
Qed.

Lemma store_ensure_routed k' w : ok w → ok (store k' (ensureEntryLocked k' w) w).
Proof. intros Hw. destruct (ensure_routed k' w Hw). by apply store_routed. Qed.

Lemma cleanup_routed k' e w : ok w → ok (maybeCleanupLocked k' e w).
Proof.
  intros [He Hq Hr]. unfold maybeCleanupLocked. repeat case_match; try by split.
  split; try done. simpl. intros k'' e' Hk. apply lookup_delete_Some in Hk as [_ Hk]. by apply He.
Qed.

Lemma publish_routed sub ev w : ok w → ok (publishResultStreamEvent sub ev w).
Proof. by intros []; destruct sub. Qed.

Lemma fresh_routed w : ok w → ok (fresh_chan w).
Proof. by intros []. Qed.

(** What is sent on [k']'s channel is about [k']. *)
Lemma send_quote_routed k' ch o w :
  ok w → quote_routed k' o → (ch = Some c → k' = k) → ok (send_quote ch o w).
Proof.
  intros [He Hq Hr] Ho Hc. destruct ch as [c'|]; [|by split]. split; try done. simpl. intros l.
  destruct (decide (c' = c)) as [->|]; [|rewrite lookup_insert_ne by done; apply Hq].
  rewrite lookup_insert_eq. intros [= <-]. specialize (Hc eq_refl). subst k'. apply Forall_app.
  split; [|by constructor]. destruct (w_quoteChans w !! c) eqn:Hl; [by apply Hq|constructor].
Qed.

Lemma send_result_routed k' ch o w :
  ok w → result_routed k' o → (ch = Some c → k' = k) → ok (send_result ch o w).
Proof.
  intros [He Hq Hr] Ho Hc. destruct ch as [c'|]; [|by split]. split; try done. simpl. intros l.
  destruct (decide (c' = c)) as [->|]; [|rewrite lookup_insert_ne by done; apply Hr].
  rewrite lookup_insert_eq. intros [= <-]. specialize (Hc eq_refl). subst k'. apply Forall_app.
  split; [|by constructor]. destruct (w_resultChans w !! c) eqn:Hl; [by apply Hr|constructor].
Qed.

(** ** Messages *)

Lemma deliverQuoteResponse_routed peer resp w :
  ok w → quote_from (MkKey peer (env_JobID (qs_Envelope resp))) resp → ok (deliverQuoteResponse peer resp w).
Proof.
  intros Hw Hf. unfold deliverQuoteResponse. cbv zeta. set (k' := MkKey peer _).
  destruct (ensure_routed k' w Hw) as [(H1 & H2 & H3) Hc].
  apply (send_quote_routed k'); [|by split|by intros ?; apply Hc; left].
  apply cleanup_routed, store_routed; [done| |].
  - split_and!; try done. simpl. intros o [= <-]. by split.
  - simpl. intros [|Hr]; [done|]. apply Hc. by right.
Qed.

Lemma deliverResult_routed peer res b w :
  ok w → terminal_from (MkKey peer (env_JobID (rs_Envelope res))) res → ok (deliverResult peer res b w).
Proof.
  intros Hw Hf. unfold deliverResult. cbv zeta. set (k' := MkKey peer _).
  destruct (ensure_routed k' w Hw) as [(H1 & H2 & H3) Hc].
  apply (send_result_routed k'); [|by split|by intros ?; apply Hc; right].
  apply cleanup_routed, store_routed; [done| |].
  - split_and!; try done. simpl. intros o [= <-]. by split.
  - simpl. intros [Hr|]; [|done]. apply Hc. by left.
Qed.

Lemma deliverError_routed peer m w : ok w → ok (deliverError peer m w).
Proof.
  intros Hw. unfold deliverError. cbv zeta. set (k' := MkKey peer _).
  destruct (ensure_routed k' w Hw) as [(H1 & H2 & H3) Hc].
  apply (send_result_routed k'); [|by eexists|by intros ?; apply Hc; right].
  apply (send_quote_routed k'); [|by eexists|by intros ?; apply Hc; left].
  apply cleanup_routed, store_routed; [done| |by intros [|]].
  split_and!; try done; simpl; intros o [= <-]; by eexists.
Qed.

Lemma protocolError_routed peer env code msg w : ok w → ok (deliverProtocolError peer env code msg w).
Proof. apply deliverError_routed. Qed.

Lemma stream_routed k' st w : ok w → ok (store k' (set_stream st (ensureEntryLocked k' w)) w).
Proof. intros Hw. destruct (ensure_routed k' w Hw). by apply store_routed. Qed.

Lemma stream_again_routed k' e st w :
  ok w → ok (store k' (set_stream st (ensureEntryLocked k' w)) (store k' e w)) ↔
  ok (store k' (set_stream st (ensureEntryLocked k' w)) w).
Proof. intros Hw. unfold store, with_entries. simpl. by rewrite insert_insert_eq. Qed.

Lemma handleStreamBegin_routed peer b w : ok w → ok (handleStreamBegin peer b w).
Proof.
  intros Hw. unfold handleStreamBegin. cbv zeta.
  repeat case_match; eauto using protocolError_routed, store_ensure_routed, publish_routed, stream_routed.
Qed.

Lemma handleStreamChunk_routed peer m w : ok w → ok (handleStreamChunk peer m w).
Proof.
  intros Hw. unfold handleStreamChunk. cbv zeta.
  repeat case_match; eauto using protocolError_routed, store_ensure_routed.
  apply publish_routed. apply stream_again_routed; auto using stream_routed.
Qed.

Lemma tryDeliverResult_routed peer res b ct ce w :
  ok w → terminal_from (MkKey peer (env_JobID (rs_Envelope res))) res →
  ok (tryDeliverResult peer res b ct ce w).
Proof.
  intros Hw Hf. unfold tryDeliverResult. cbv zeta.
  repeat case_match; eauto using protocolError_routed, deliverResult_routed.
Qed.

Lemma handleStreamEnd_routed peer m w : ok w → ok (handleStreamEnd peer m w).
Proof.
  intros Hw. unfold handleStreamEnd. cbv zeta. set (k' := MkKey peer _).
  destruct (ensure_routed k' w Hw) as [(_ & _ & H3) _].
  destruct (e_resultStream _) as [st|] eqn:Hst; [|by apply store_ensure_routed].
  destruct (ss_done st); [by apply store_ensure_routed|].
  destruct (negb _); [by apply store_ensure_routed|].
  set (w' := store k' (set_stream _ _) _).
  assert (Hw' : ok w') by (apply stream_again_routed; auto using stream_routed).
  repeat case_match; auto using protocolError_routed.
  apply tryDeliverResult_routed; [done|]. destruct (H3 _ eq_refl) as [Hj Hp].
  unfold terminal_from. by rewrite Hj.
Qed.

Lemma handleTerminalResult_routed peer res w :
  ok w → terminal_from (MkKey peer (env_JobID (rs_Envelope res))) res → ok (handleTerminalResult peer res w).
Proof.
  intros Hw Hf. unfold handleTerminalResult. cbv zeta. set (k' := MkKey peer _).
  destruct (ensure_routed k' w Hw) as [(H1 & H2 & H3) Hc].
  case_match; [by apply store_ensure_routed|].
  assert (Hw' : ok (store k' (set_terminal res (ensureEntryLocked k' w)) w)).
  { apply store_routed; [done| |done]. split_and!; try done. simpl. by intros r [= <-]. }
  repeat case_match; auto using deliverResult_routed, tryDeliverResult_routed.
Qed.

Lemma message_routed peer typ payload w :
  Msg peer typ payload → ok w → ok (HandleInboundCustomMessage peer typ payload w).
Proof.
  intros Hm Hw. unfold HandleInboundCustomMessage.
  repeat match goal with
  | |- ok (if ?a =? ?b then _ else _) => destruct (Z.eqb_spec a b) as [->|]
  end; try done; case_match; auto using handleStreamBegin_routed, handleStreamChunk_routed,
    handleStreamEnd_routed, deliverError_routed.
  - apply deliverQuoteResponse_routed; [done|]. split; [done|]. eauto.
  - apply handleTerminalResult_routed; [done|]. split; [done|]. eauto.
Qed.
End channel.

(** ** Waiting *)

(** What the two kinds of outcome have in common. *)
Class RoutedSlot {O} (sl : Slot O) (P : key → O → Prop) : Prop := {
  rs_out k e o : entry_routed k e → getOutcome sl e = Some o → P k o;
  rs_mark k e : entry_routed k e → entry_routed k (markDelivered sl e);
  rs_mark_ch e : e_quoteCh (markDelivered sl e) = e_quoteCh e ∧ e_resultCh (markDelivered sl e) = e_resultCh e;
  rs_set k e ch : entry_routed k e → entry_routed k (setCh sl e ch);
  rs_set_ch e ch c : e_quoteCh (setCh sl e ch) = Some c ∨ e_resultCh (setCh sl e ch) = Some c →
    ch = Some c ∨ e_quoteCh e = Some c ∨ e_resultCh e = Some c;
  rs_put c k w c' l : routed c k w → (c' = c → Forall (P k) l) →
    routed c k (with_chans sl (<[c' := l]> (chans sl w)) w);
  rs_next m w : w_nextChan (with_chans sl m w) = w_nextChan w;
  rs_get c k w l : routed c k w → chans sl w !! c = Some l → Forall (P k) l;
}.

#[global] Instance quote_slot_routed : RoutedSlot quote_slot quote_routed.
Proof.
  split; simpl; try done; try (intros ??? (? & ? & ?); by auto); try (by intros ??? [?|?]; auto).
  - intros c k w c' l [He Hq Hr] Hl. split; try done. simpl. intros l'.
    destruct (decide (c' = c)) as [->|]; [rewrite lookup_insert_eq; intros [= <-]; auto|].
    rewrite lookup_insert_ne by done. apply Hq.
  - intros c k w l []; auto.
Qed.

#[global] Instance result_slot_routed : RoutedSlot result_slot result_routed.
Proof.
  split; simpl; try done; try (intros ??? (? & ? & ?); by auto); try (by intros ??? [?|?]; auto).
  - intros c k w c' l [He Hq Hr] Hl. split; try done. simpl. intros l'.
    destruct (decide (c' = c)) as [->|]; [rewrite lookup_insert_eq; intros [= <-]; auto|].
    rewrite lookup_insert_ne by done. apply Hr.
  - intros c k w l []; auto.
Qed.

Section waiting.
Context {O} (sl : Slot O) (P : key → O → Prop) {RS : RoutedSlot sl P}.

Lemma waitOutcome_routed c k peer job w :
  routed c k w → ((waitOutcome sl peer job w).2 = Blocked c → k = MkKey peer job) →
  routed c k (waitOutcome sl peer job w).1.
Proof using RS.
  unfold waitOutcome. intros Hw. case_match; [done|]. cbv zeta. set (k' := MkKey peer job).
  destruct (ensure_routed c k k' w Hw) as [He Hch].
  destruct (getOutcome sl _) eqn:Ho; simpl.
  { intros _. destruct (rs_mark_ch (ensureEntryLocked k' w)) as [Hm1 Hm2].
    apply cleanup_routed, store_routed; [done|by apply rs_mark|by rewrite Hm1, Hm2]. }
  destruct (getCh sl _); simpl; [by intros _; apply store_routed|].
  intros Hc. apply store_routed; [|by apply rs_set|].
  - apply rs_put; [by apply fresh_routed|]. by constructor.
  - intros Hx. destruct (rs_set_ch _ _ _ Hx) as [[= Hx']|]; [rewrite Hc; [done|by f_equal]|auto].
Qed.

Lemma waitOutcome_out peer job w o c :
  routed c (MkKey peer job) w → (waitOutcome sl peer job w).2 = Returned o → P (MkKey peer job) o.
Proof using RS.
  intros Hw. unfold waitOutcome. case_match; [done|]. cbv zeta. set (k' := MkKey peer job).
  destruct (ensure_routed c k' k' w Hw) as [He _].
  destruct (getOutcome sl _) eqn:Ho; simpl; [|by case_match].
  intros [= <-]. by eapply rs_out.
Qed.

Lemma waitOutcome_blocked peer job w ch :
  (waitOutcome sl peer job w).2 = Blocked ch → ch = w_nextChan w.
Proof. unfold waitOutcome. repeat case_match; naive_solver. Qed.

Lemma waitOutcome_next peer job w ch :
  (waitOutcome sl peer job w).2 = Blocked ch → w_nextChan (waitOutcome sl peer job w).1 = S ch.
Proof using RS.
  unfold waitOutcome. repeat case_match; try done. intros [= <-]. simpl. by rewrite rs_next.
Qed.

Lemma waitReceive_routed c k k' c' w w' o :
  routed c k w → waitReceive sl k' c' w = Some (w', o) → routed c k w'.
Proof using RS.
  intros Hw. unfold waitReceive. destruct (chans sl w !! c') as [[|x rest]|] eqn:Hl; [done| |done].
  intros [= <- <-].
  assert (Hw' : routed c k (with_chans sl (<[c' := rest]> (chans sl w)) w)).
  { apply rs_put; [done|]. intros ->. pose proof (rs_get _ _ _ _ Hw Hl) as Hf. by inversion Hf. }
  destruct (w_entries _ !! k') as [e|] eqn:He; [|done].
  destruct (rt_entries _ _ _ Hw' _ _ He) as [H1 H2]. destruct (rs_mark_ch e) as [Hm1 Hm2].
  apply cleanup_routed, store_routed; [done|by apply rs_mark|by rewrite Hm1, Hm2].
Qed.

Lemma waitReceive_out k k' c w w' o :
  routed c k w → waitReceive sl k' c w = Some (w', o) → P k o.
Proof using RS.
  intros Hw. unfold waitReceive. destruct (chans sl w !! c) as [[|x rest]|] eqn:Hl; [done| |done].
  intros [= _ <-]. pose proof (rs_get _ _ _ _ Hw Hl) as Hf. by inversion Hf.
Qed.

Lemma waitCancel_routed c k k' c' w : routed c k w → routed c k (waitCancel sl k' c' w).
Proof using RS.
  intros Hw. unfold waitCancel. destruct (w_entries w !! k') as [e|] eqn:He; [|done].
  case_match; [|done]. destruct (rt_entries _ _ _ Hw _ _ He) as [H1 H2].
  apply cleanup_routed, store_routed; [done|by apply rs_set|].
  intros Hx. destruct (rs_set_ch _ _ _ Hx) as [|]; [done|auto].
Qed.
End waiting.

Lemma subscribe_routed c k peer job w : routed c k w → routed c k (SubscribeResultStream peer job w).1.
Proof.
  intros Hw. unfold SubscribeResultStream. case_match; [done|]. cbv zeta.
  apply fresh_routed in Hw. destruct (ensure_routed c k (MkKey peer job) _ Hw).
  case_match; by apply store_routed.
Qed.

Lemma unsubscribe_routed c k k' c' w : routed c k w → routed c k (unsubscribe k' c' w).
Proof.
  intros Hw. unfold unsubscribe. destruct (w_entries w !! k') as [e|] eqn:He; [|done].
  case_match; [|done]. destruct (rt_entries _ _ _ Hw _ _ He) as [H1 H2].
  by apply cleanup_routed, store_routed.
Qed.

(** ** Every operation *)

Lemma step_next w o : (w_nextChan w ≤ w_nextChan (step w o))%nat.
Proof. destruct (step_chan_step w o) as [[] _]; lia. Qed.

(** The messages an operation handles are messages received. *)
Definition received (o : op) : Prop :=
  match o with OMessage peer typ payload => Msg peer typ payload | _ => True end.

(** An operation keeps the routing of the channels that exist and of those that do
    not exist after it. *)
Lemma step_routed c k w o :
  received o → routed c k w → (c < w_nextChan w ∨ w_nextChan (step w o) ≤ c)%nat → routed c k (step w o).
Proof.
  intros Hm Hw Hc. destruct o as [peer typ payload|peer job|peer job|k' c'|k' c'|k' c'|k' c'|peer job|k' c'];
    cbn [step] in *.
  - by apply message_routed.
  - apply (waitOutcome_routed _ quote_routed); [done|]. intros Hb.
    pose proof (waitOutcome_blocked _ _ _ _ _ Hb). apply (waitOutcome_next _ quote_routed) in Hb.
    unfold WaitQuoteResponse in Hc. lia.
  - apply (waitOutcome_routed _ result_routed); [done|]. intros Hb.
    pose proof (waitOutcome_blocked _ _ _ _ _ Hb). apply (waitOutcome_next _ result_routed) in Hb.
    unfold WaitResult in Hc. lia.
  - case_match; [|done]. destruct p. by eapply (waitReceive_routed _ quote_routed).
  - case_match; [|done]. destruct p. by eapply (waitReceive_routed _ result_routed).
  - by apply (waitCancel_routed _ quote_routed).
  - by apply (waitCancel_routed _ result_routed).
  - by apply subscribe_routed.
  - by apply unsubscribe_routed.
Qed.
End route.
