(* ===== verification/ProviderInv.v ===== *)
(** * The provider's invariant

    What holds in every state the provider can reach: jobs and input streams are
    well formed, every quote is bound to an invoice, runners work on bound quotes,
    the trace only has events that earlier events justify, and the in-flight count
    is the number of registered runners.

    [keeps l m Q]: from a state that satisfies the invariant and whose trace
    extends [l], [m] keeps the invariant, only extends the trace, and [Q] holds of
    its result and the new trace.  Facts about a trace survive its extension. *)

From S2P Require Import Prelude GoStd TlvLib Wire WireProofs Stores Replay JobStore PeerDir Terms Pricing Validation Provider ResultSend Runner ResultProofs.

Import JobStore.

(** ** The invariant *)

(** An input stream holds at most what was announced, and what the node accepts;
    once validated it is complete and has the announced hash. *)
Definition stream_wf (st : InputStreamState) : Prop :=
  blen (is_Buf st) ≤ is_TotalLen st ≤ defaultMaxStreamBytes ∧
  (is_Validated st = true → blen (is_Buf st) = is_TotalLen st ∧ sha256_sum (is_Buf st) = is_SHA256 st).

Section invariant.
Context {T : TlvLib} {J : JsonLib} {F : Fmt} {W : WireText} {RZ : MapRange Z bytes}.
Context (cfg : Config) (policy : ExecutionPolicy).

(** The quote was made for the request and the input, which can be planned, and its
    terms hash and price are those of an invoice that was added. *)
Definition bound (l : list out) (key : Key) (req : QuoteRequest) (input : InputStreamState)
    (quote : QuoteResponse) (invoice : InvoiceResult) : Prop :=
  stream_wf input ∧ is_Validated input = true ∧
  env_JobID (qr_Envelope req) = k_JobID key ∧
  qs_PaymentRequest quote = iv_PaymentRequest invoice ∧
  computeTermsHash req input (qs_QuoteExpiry quote) (qs_PriceMsat quote) = Ok (qs_TermsHash quote) ∧
  (∃ plan, planTask cfg policy req (is_Buf input) = Ok plan) ∧
  ∃ expirySeconds, OInvoice {| ir_DescriptionHash := qs_TermsHash quote; ir_PriceMsat := qs_PriceMsat quote;
                               ir_ExpirySeconds := expirySeconds |} (Some invoice) ∈ l.

Definition request_ok (key : Key) (req : QuoteRequest) : Prop :=
  env_JobID (qr_Envelope req) = k_JobID key ∧
  env_ProtocolVersion (qr_Envelope req) = ProtocolVersionV02.

Definition job_ok (l : list out) (key : Key) (j : Job) : Prop :=
  key = job_key j ∧
  (∀ req, j_QuoteRequest j = Some req → request_ok key req) ∧
  (∀ st, j_InputStream j = Some st → stream_wf st) ∧
  (j_State j = StateAwaitingInput → j_QuoteResponse j = None) ∧
  (∀ quote, j_QuoteResponse j = Some quote → j_QuoteExpiry j = qs_QuoteExpiry quote ∧
     ∃ req st h idx, j_QuoteRequest j = Some req ∧ j_InputStream j = Some st ∧
       j_PaymentHash j = Some h ∧ j_InvoiceAddIndex j = Some idx ∧
       bound l key req st quote
         {| iv_PaymentRequest := qs_PaymentRequest quote; iv_PaymentHash := h; iv_AddIndex := idx |}).

Definition runner_ok (l : list out) (rid : nat) (r : runner) : Prop :=
  bound l (r_key r) (r_req r) (r_input r) (r_quote r) (r_invoice r) ∧
  match r_pc r with
  | PcSettle | PcDone => True
  | _ => OSettled rid (iv_PaymentHash (r_invoice r)) ∈ l
  end.

(** What must come before an event. *)
Definition event_ok (l : list out) (o : out) : Prop :=
  match o with
  | OInvoice ireq _ =>
    ∃ inFlight req input price expiry, stream_wf input ∧ is_Validated input = true ∧
      validateInputStream req (is_Buf input) = None ∧
      quotePrice cfg policy inFlight req (is_Buf input) = Ok price ∧
      pb_PriceMsat price = ir_PriceMsat ireq ∧
      computeTermsHash req input expiry (ir_PriceMsat ireq) = Ok (ir_DescriptionHash ireq)
  | OSent peer typ payload _ =>
    typ = MessageTypeQuoteResponse →
    ∃ key req input quote invoice, k_PeerPubKey key = peer ∧ bound l key req input quote invoice ∧
      EncodeQuoteResponse quote = Ok payload
  | OSettled rid h =>
    ∃ key req input quote invoice, bound l key req input quote invoice ∧ h = iv_PaymentHash invoice
  | OExec rid key task _ =>
    ∃ req input quote invoice pol model want,
      (OCtxDone rid ∉ l) ∧
      OSettled rid (iv_PaymentHash invoice) ∈ l ∧ bound l key req input quote invoice ∧
      planTask cfg policy req (is_Buf input) = Ok (task, pol, model, want)
  | OCtxDone _ => True
  end.

Definition trace_ok (l : list out) : Prop := ∀ l1 o l2, l = l1 ++ o :: l2 → event_ok l1 o.

Definition cancels_ok (s : PState) : Prop :=
  (size (p_cancels s) ≤ p_nextRunner s)%nat ∧
  (Z.of_nat (p_nextRunner s) < 2 ^ 64 → p_inFlight s = Z.of_nat (size (p_cancels s))) ∧
  (∀ key rid, p_cancels s !! key = Some rid → ∃ r, p_runners s !! rid = Some r ∧ r_key r = key).

Record Inv (s : PState) : Prop := {
  inv_jobs : map_Forall (job_ok (p_out s)) (jobs (p_jobs s));
  inv_runners : map_Forall (runner_ok (p_out s)) (p_runners s);
  inv_fresh : ∀ rid, (p_nextRunner s ≤ rid)%nat → p_runners s !! rid = None;
  inv_trace : trace_ok (p_out s);
  inv_cancels : cancels_ok s;
  inv_ctx : ∀ rid, OCtxDone rid ∈ p_out s → ∃ r, p_runners s !! rid = Some r ∧ r_ctxDone r = true;
}.

(** ** Facts survive an extension of the trace *)

Lemma elem_of_extended (l l' : list out) o : l `prefix_of` l' → o ∈ l → o ∈ l'.
Proof. intros [k ->] Ho. apply elem_of_app. by left. Qed.

Lemma bound_mono l l' key req input quote invoice :
  l `prefix_of` l' → bound l key req input quote invoice → bound l' key req input quote invoice.
Proof.
  intros Hp (H1 & H2 & H3 & H4 & H5 & H6 & x & Hx). unfold bound. split_and!; try done.
  exists x. by eapply elem_of_extended.
Qed.

Lemma job_ok_mono l l' key j : l `prefix_of` l' → job_ok l key j → job_ok l' key j.
Proof.
  intros Hp (H1 & H2 & H3 & H4 & H5). split_and!; try done. intros quote Hq.
  destruct (H5 quote Hq) as (Hx & req & st & h & idx & ? & ? & ? & ? & Hb).
  split; [done|]. exists req, st, h, idx. split_and!; try done. by eapply bound_mono.
Qed.

Lemma runner_ok_mono l l' rid r : l `prefix_of` l' → runner_ok l rid r → runner_ok l' rid r.
Proof.
  intros Hp [Hb Hpc]. split; [by eapply bound_mono|].
  destruct (r_pc r); try done; by eapply elem_of_extended.
Qed.

Lemma trace_ok_snoc l o : trace_ok l → event_ok l o → trace_ok (l ++ [o]).
Proof.
  intros Hl Ho l1 o' l2 Heq. destruct l2 as [|y l2 _] using rev_ind.
  - apply app_inj_tail in Heq as [<- <-]. done.
  - change (o' :: l2 ++ [y]) with ((o' :: l2) ++ [y]) in Heq. rewrite app_assoc in Heq.
    apply app_inj_tail in Heq as [-> _]. by apply (Hl l1 o' l2).
Qed.

(** Only [OSent] of other messages than quotes. *)
Definition harmless (o : out) : Prop :=
  match o with OSent _ typ _ _ => typ ≠ MessageTypeQuoteResponse | _ => False end.

Lemma trace_ok_harmless l evs : trace_ok l → Forall harmless evs → trace_ok (l ++ evs).
Proof.
  revert l. induction evs as [|o evs IH]; intros l Hl Hf; [by rewrite app_nil_r|].
  apply Forall_cons in Hf as [Ho Hf]. change (o :: evs) with ([o] ++ evs). rewrite app_assoc.
  apply IH; [|done]. apply trace_ok_snoc; [done|]. destruct o; try done. intros Hq. by destruct Ho.
Qed.

(** ** [keeps] *)

Definition keeps (l : list out) {A} (m : M A) (Q : A → list out → Prop) : Prop :=
  ∀ s, Inv s → l `prefix_of` p_out s →
    Inv (m s).1 ∧ p_out s `prefix_of` p_out (m s).1 ∧ Q (m s).2 (p_out (m s).1).

Lemma keeps_ret l {A} (a : A) (Q : A → list out → Prop) :
  (∀ l', l `prefix_of` l' → Q a l') → keeps l (mret a) Q.
Proof. intros HQ s Hs Hl. split_and!; [done|done|]. by apply HQ. Qed.

Lemma keeps_bind l {A B} (m : M A) (k : A → M B) Q R :
  keeps l m Q → (∀ a l', l `prefix_of` l' → Q a l' → keeps l' (k a) R) → keeps l (m ≫= k) R.
Proof.
  intros Hm Hk s Hs Hl. destruct (Hm s Hs Hl) as (H1 & H2 & H3).
  destruct (Hk (m s).2 (p_out (m s).1)) with (s := (m s).1) as (H4 & H5 & H6); [by etrans|done..|].
  split_and!; [done| |done]. etrans; [exact H2|exact H5].
Qed.

Lemma keeps_mono l {A} (m : M A) (Q R : A → list out → Prop) :
  keeps l m Q → (∀ a l', l `prefix_of` l' → Q a l' → R a l') → keeps l m R.
Proof.
  intros Hm HQ s Hs Hl. destruct (Hm s Hs Hl) as (H1 & H2 & H3). split_and!; [done..|].
  apply HQ; [by etrans|done].
Qed.

Definition anything {A} (a : A) (l : list out) : Prop := True.

Lemma keeps_seq l {A B} (m : M A) (k : A → M B) R :
  keeps l m anything → (∀ a, keeps l (k a) R) → keeps l (m ≫= k) R.
Proof.
  intros Hm Hk s Hs Hl. destruct (Hm s Hs Hl) as (H1 & H2 & _).
  destruct (Hk (m s).2 (m s).1) as (H4 & H5 & H6); [done|by etrans|].
  split_and!; [done| |done]. etrans; [exact H2|exact H5].
Qed.

(** An operation that only sends harmless messages. *)
Lemma keeps_quietly l {A} (m : M A) :
  (∀ s, quietly m s (λ _ evs, Forall harmless evs)) → keeps l m anything.
Proof.
  intros Hm s [Hj Hr Hf Ht Hc] Hl. destruct (Hm s) as (evs & [n Hs'] & Hh). rewrite Hs'.
  assert (Hp : p_out s `prefix_of` p_out s ++ evs) by by apply prefix_app_r.
  split_and!; [|done..]. constructor; try done.
  - eapply map_Forall_impl; [exact Hj|]. intros. by eapply job_ok_mono.
  - eapply map_Forall_impl; [exact Hr|]. intros. by eapply runner_ok_mono.
  - by apply trace_ok_harmless.
  - simpl. intros rid [Hin|Hin]%elem_of_app; [auto|]. rewrite Forall_forall in Hh. by apply Hh in Hin.
Qed.
End invariant.

(** ** Operations that only send, and only messages that satisfy [P] *)

Definition only (P : out → Prop) {A} (m : M A) : Prop :=
  ∀ s, quietly m s (λ _ evs, Forall P evs).
Abbreviation hush := (only harmless).

Section only.
Context {T : TlvLib} {W : WireText} {E : ProviderEnv}.
Context (cfg : Config) (P : out → Prop).

Lemma only_ret {A} (a : A) : only P (mret a).
Proof. intros s. by apply quietly_ret. Qed.

Lemma only_bind {A B} (m : M A) (k : A → M B) : only P m → (∀ a, only P (k a)) → only P (m ≫= k).
Proof.
  intros Hm Hk s. eapply quietly_bind; [apply Hm|]. intros a s1 e1 _ H1.
  eapply quietly_mono; [apply Hk|]. intros b e2 H2. by apply Forall_app.
Qed.

Lemma only_silent {A} (m : M A) : (∀ s, quietly m s (λ _ evs, evs = [])) → only P m.
Proof. intros Hm s. eapply quietly_mono; [apply Hm|]. by intros a evs ->. Qed.

Lemma only_reads {A} (f : PState → A) : only P (reads f).
Proof. intros s. by apply quietly_reads. Qed.

Lemma only_send peer typ payload :
  (∀ ok, P (OSent peer typ payload ok)) → only P (SendCustomMessage peer typ payload).
Proof. intros Ht s. eapply quietly_mono; [apply quietly_send|]. intros ok evs ->. by repeat constructor. Qed.

Lemma only_nowUnix : only P nowUnix.
Proof. apply only_silent. auto with lcp. Qed.
Lemma only_resultExpiry : only P (resultExpiry cfg).
Proof. apply only_silent. auto with lcp. Qed.
Lemma only_msgID : only P mustNewMsgID.
Proof. apply only_silent. auto with lcp. Qed.
Lemma only_streamID : only P newStreamID.
Proof. apply only_silent. auto with lcp. Qed.
End only.

(** Take an operation apart: binds, conditionals, matches and known senders. *)
Ltac only_step :=
  first
    [ assumption | apply only_nowUnix | apply only_resultExpiry | apply only_msgID
    | apply only_streamID | apply only_reads | apply only_ret
    | apply only_send; intros ?; solve [discriminate|reflexivity|auto]
    | apply only_bind; [|intros ?]
    | progress cbv beta zeta
    | match goal with |- only _ (match ?x with _ => _ end) => destruct x end ].

(** The error messages. *)
Definition is_error (o : out) : Prop :=
  match o with OSent _ typ _ _ => typ = MessageTypeError | _ => False end.

Section hush_senders.
Context {T : TlvLib} {W : WireText} {E : ProviderEnv}.
Context (cfg : Config).

Lemma errors_sendError peer env code msg : only is_error (sendError cfg peer env code msg).
Proof. unfold sendError, done_. repeat only_step. Qed.

Lemma errors_hush {A} (m : M A) : only is_error m → hush m.
Proof.
  intros Hm s. eapply quietly_mono; [apply Hm|]. intros a evs Hev. eapply Forall_impl; [exact Hev|].
  intros o Ho. destruct o; try done. simpl in *. by rewrite Ho.
Qed.

Lemma hush_sendWithin peer typ enc max :
  typ ≠ MessageTypeQuoteResponse → hush (sendWithin peer typ enc max).
Proof. intros Ht. unfold sendWithin. repeat only_step. Qed.

Lemma hush_status peer env status msg max : hush (sendTerminalResultStatus cfg peer env status msg max).
Proof. unfold sendTerminalResultStatus. repeat only_step. Qed.

Lemma hush_chunks fuel peer env expiry sid rest seq max :
  hush (chunks_loop fuel peer env expiry sid rest seq max).
Proof.
  revert rest seq. induction fuel as [|fuel IH]; intros rest seq; simpl; repeat first [apply IH|only_step].
Qed.

Lemma hush_sendResult peer env kind streaming inputLen output max :
  hush (sendResult cfg peer env kind streaming inputLen output max).
Proof.
  unfold sendResult, resolveRemoteManifestAndMaxPayload, remoteManifestFor, sendResultStream,
    sendResultStreamBegin, sendResultStreamChunks, sendResultStreamEnd, sendTerminalOKResult.
  repeat first [apply hush_status|apply hush_chunks|apply hush_sendWithin; discriminate|only_step].
Qed.

Lemma hush_streaming fuel peer env expiry sid inputLen max maxS maxJ reads pending total seq hashed :
  hush (streaming_loop cfg fuel peer env expiry sid inputLen max maxS maxJ reads pending total seq hashed).
Proof.
  revert reads pending total seq hashed. induction fuel as [|fuel IH]; intros; [apply only_ret|].
  assert (Hsend : ∀ rs pend, hush (streaming_send cfg (streaming_loop cfg fuel peer env expiry sid inputLen
    max maxS maxJ rs) peer env expiry sid inputLen max maxS maxJ pend total seq hashed)).
  { intros rs pend. unfold streaming_send. repeat first [apply hush_status|apply IH|only_step]. }
  cbn [streaming_loop]. repeat first [apply Hsend|only_step].
Qed.

Lemma hush_sendResultStreaming peer env kind inputLen output max :
  hush (sendResultStreaming cfg peer env kind inputLen output max).
Proof.
  unfold sendResultStreaming, resolveRemoteManifestAndMaxPayload, remoteManifestFor,
    sendResultStreamBeginUnknown, sendResultStreamEnd, sendTerminalOKResult.
  repeat first [apply hush_streaming|apply hush_sendWithin; discriminate|only_step].
Qed.
End hush_senders.

(** ** The primitives keep the invariant *)

Section primitives.
Context {T : TlvLib} {J : JsonLib} {F : Fmt} {W : WireText} {E : ProviderEnv} {EN : Environ}
        {RJ : MapRange Key Job} {RR : MapRange ReplayStore.Key Z} {RZ : MapRange Z bytes}.
Context (cfg : Config) (policy : ExecutionPolicy).
Abbreviation Inv := (Inv cfg policy).
Abbreviation keeps := (keeps cfg policy).
Abbreviation bound := (bound cfg policy).
Abbreviation job_ok := (job_ok cfg policy).
Abbreviation runner_ok := (runner_ok cfg policy).
Implicit Types (l : list out).

Lemma keeps_hush l {A} (m : M A) : hush m → keeps l m anything.
Proof. apply keeps_quietly. Qed.

Lemma keeps_reads l {A} (f : PState → A) (Q : A → list out → Prop) :
  (∀ s, Inv s → Q (f s) (p_out s)) → keeps l (reads f) Q.
Proof. intros HQ s Hs Hl. split_and!; [done|done|]. by apply HQ. Qed.

(** An update that leaves the trace alone. *)
Lemma keeps_update l f :
  (∀ s, Inv s → l `prefix_of` p_out s → p_out (f s) = p_out s ∧ Inv (f s)) → keeps l (update f) anything.
Proof. intros Hf s Hs Hl. destruct (Hf s Hs Hl) as [Ho Hi]. simpl. by rewrite Ho. Qed.

(** An event that is justified. *)
Lemma Inv_emit s o :
  Inv s → event_ok cfg policy (p_out s) o →
  (∀ rid, o = OCtxDone rid → ∃ r, p_runners s !! rid = Some r ∧ r_ctxDone r = true) → Inv (emit o s).
Proof.
  intros [Hj Hr Hf Ht Hc Hx] Ho Hd. assert (p_out s `prefix_of` p_out s ++ [o]) by by apply prefix_app_r.
  constructor; simpl; try done.
  - eapply map_Forall_impl; [exact Hj|]. intros. by eapply job_ok_mono.
  - eapply map_Forall_impl; [exact Hr|]. intros. by eapply runner_ok_mono.
  - by apply trace_ok_snoc.
  - intros rid [Hin|Hin]%elem_of_app; [auto|]. apply list_elem_of_singleton in Hin. auto.
Qed.

Lemma Inv_tick s : Inv s → Inv (tick s).
Proof. intros [Hj Hr Hf Ht Hc Hx]. by constructor. Qed.

Lemma Inv_jobs s js : Inv s → map_Forall (job_ok (p_out s)) (jobs js) → Inv (upd_jobs (λ _, js) s).
Proof. intros [Hj Hr Hf Ht Hc Hx] H. by constructor. Qed.

Lemma keeps_jobsGet l key :
  keeps l (jobsGet key) (λ found l', ∀ j, found = Some j → job_ok l' key j).
Proof. apply keeps_reads. intros s Hs j Hj. by apply (inv_jobs _ _ _ Hs). Qed.

Lemma keeps_checkReplay l peer env now : keeps l (checkReplay peer env now) anything.
Proof.
  intros s [Hj Hr Hf Ht Hc Hx] Hl. unfold checkReplay. destruct (ReplayStore.CheckAndRemember _ _ _ _).
  split_and!; [|done|done]. by constructor.
Qed.

Lemma job_ok_stamped l key now job : job_ok l key job → job_ok l key (stamped now job).
Proof. unfold stamped. by case_match. Qed.

(** [Upsert] keeps what holds of all jobs. *)
Lemma upsert_Forall (P : Key → Job → Prop) now job js :
  map_Forall P (jobs js) → P (job_key job) (stamped now job) → map_Forall P (jobs (Upsert now job js)).
Proof.
  intros Hall Hjob. rewrite Upsert_unfold. set (s1 := {| jobs := _; maxEntries := _ |}).
  destruct (evict_spec s1) as (_ & _ & Hsub & _). eapply map_Forall_impl; [|by intros ???; eassumption].
  intros k j Hk. eapply lookup_weaken in Hk; [|exact Hsub]. simpl in Hk.
  apply lookup_insert_Some in Hk as [[<- <-]|[_ Hk]]; [done|].
  apply lookup_pruned in Hk as [Hk _]. by apply Hall.
Qed.

Lemma keeps_jobsUpsert l job : job_ok l (job_key job) job → keeps l (jobsUpsert job) anything.
Proof.
  intros Hok. apply keeps_seq; [apply keeps_hush, only_silent; auto with lcp|]. intros now.
  apply keeps_update. intros s Hs Hl. split; [done|]. apply Inv_jobs; [done|].
  apply upsert_Forall; [apply (inv_jobs _ _ _ Hs)|]. apply job_ok_stamped. by eapply job_ok_mono.
Qed.

Lemma keeps_updateState l key st : st ≠ StateAwaitingInput → keeps l (updateState key st) anything.
Proof.
  intros Hst. apply keeps_update. intros s Hs Hl. split; [done|].
  apply Inv_jobs; [done|]. unfold UpdateState, JobStore.modify.
  destruct (jobs (p_jobs s) !! key) as [j|] eqn:Hj; [|apply (inv_jobs _ _ _ Hs)]. simpl.
  apply map_Forall_insert_2; [|apply (inv_jobs _ _ _ Hs)].
  destruct (inv_jobs _ _ _ Hs key j Hj) as (H1 & H2 & H3 & H4 & H5). by split_and!.
Qed.

(** Runners: a change of the context or of the position of one runner. *)
Lemma Inv_alter_runner s rid f :
  Inv s → (∀ r, r_key (f r) = r_key r) → (∀ r, r_ctxDone r = true → r_ctxDone (f r) = true) →
  (∀ r, p_runners s !! rid = Some r → runner_ok (p_out s) rid r → runner_ok (p_out s) rid (f r)) →
  Inv (upd_runners (alter f rid) s).
Proof.
  intros [Hj Hr Hf Ht (Hc1 & Hc2 & Hc3) Hx] Hkey Hctx Hok. constructor; simpl; try done.
  - intros rid' r' H'. destruct (decide (rid = rid')) as [<-|Hne].
    + rewrite lookup_alter_eq in H'. apply fmap_Some in H' as (r & Hrid & ->). auto.
    + rewrite lookup_alter_ne in H' by done. auto.
  - intros rid' Hle. destruct (decide (rid = rid')) as [<-|Hne].
    + by rewrite lookup_alter_eq, Hf.
    + rewrite lookup_alter_ne by done. auto.
  - split_and!; [done..|]. simpl. intros key rid' Hk. destruct (Hc3 key rid' Hk) as (r & Hrid & Hrk).
    destruct (decide (rid = rid')) as [<-|Hne].
    + exists (f r). rewrite lookup_alter_eq, Hrid. split; [done|]. by rewrite Hkey.
    + exists r. by rewrite lookup_alter_ne.
  - intros rid' Hin. destruct (Hx rid' Hin) as (r & Hrid & Hd). destruct (decide (rid = rid')) as [<-|Hne].
    + exists (f r). rewrite lookup_alter_eq, Hrid. auto.
    + exists r. by rewrite lookup_alter_ne.
Qed.

Lemma Inv_dropCancel s key rid : p_cancels s !! key = Some rid → Inv s → Inv (dropCancel key s).
Proof.
  intros Hk [Hj Hr Hf Ht (Hc1 & Hc2 & Hc3) Hx].
  pose proof (size_delete_lookup _ _ _ Hk) as Hsz. constructor; simpl; try done.
  split_and!; simpl; [lia| |].
  - intros Hn. specialize (Hc2 Hn). destruct (Z.ltb_spec 0 (p_inFlight s)); lia.
  - intros key' rid' Hk'. apply lookup_delete_Some in Hk' as [_ Hk']. auto.
Qed.

Lemma Inv_cancelRunner s rid r : p_runners s !! rid = Some r → Inv s → Inv (cancelRunner rid s).
Proof.
  intros Hr Hs. apply Inv_emit; [by apply Inv_alter_runner|done|].
  intros rid' [= <-]. exists (set_ctxDone r). simpl. by rewrite lookup_alter_eq, Hr.
Qed.

Lemma keeps_cancelJob l key : keeps l (cancelJob key) anything.
Proof.
  intros s Hs Hl. unfold cancelJob. destruct (p_cancels s !! key) as [rid|] eqn:Hk; [|done].
  split_and!; [|by apply prefix_app_r|done].
  destruct (inv_cancels _ _ _ Hs) as (_ & _ & Hc). destruct (Hc key rid Hk) as (r & Hr & _).
  eapply (Inv_cancelRunner _ _ r); [done|]. by eapply Inv_dropCancel.
Qed.

Lemma keeps_forgetJob l key : keeps l (forgetJob key) anything.
Proof.
  intros s Hs Hl. unfold forgetJob. destruct (p_cancels s !! key) as [rid|] eqn:Hk; [|done].
  split_and!; [|done|done]. by eapply Inv_dropCancel.
Qed.

Lemma keeps_registerRunner l key r :
  r_key r = key → r_pc r = PcSettle → bound l key (r_req r) (r_input r) (r_quote r) (r_invoice r) →
  keeps l (registerRunner key r) anything.
Proof.
  intros Hkey Hpc Hb s Hs Hl. unfold registerRunner.
  destruct (p_cancels s !! key) as [rid|] eqn:Hk; [done|]. split_and!; [|done|done].
  destruct Hs as [Hj Hr Hf Ht (Hc1 & Hc2 & Hc3) Hx]. constructor; simpl; try done.
  - apply map_Forall_insert_2; [|done]. split; [rewrite Hkey; by eapply bound_mono|by rewrite Hpc].
  - intros rid Hle. rewrite lookup_insert_ne by lia. apply Hf. lia.
  - split_and!; simpl.
    + rewrite map_size_insert_None by done. lia.
    + intros Hn. rewrite map_size_insert_None by done. rewrite Hc2 by lia.
      unfold wrap_u64. rewrite Z.mod_small; lia.
    + intros key' rid' Hk'. apply lookup_insert_Some in Hk' as [[<- <-]|[_ Hk']].
      * exists r. by rewrite lookup_insert_eq.
      * destruct (Hc3 key' rid' Hk') as (r' & Hr' & Hrk). exists r'. split; [|done].
        rewrite lookup_insert_ne; [done|]. intros <-. rewrite Hf in Hr' by lia. done.
  - intros rid Hin. destruct (Hx rid Hin) as (r' & Hr' & Hd). exists r'. split; [|done].
    rewrite lookup_insert_ne; [done|]. intros <-. rewrite Hf in Hr' by lia. done.
Qed.
End primitives.
