(* ===== verification/ProviderSafety.v ===== *)
(** * What the provider guarantees

    The handlers and the runners keep the invariant of [ProviderInv.v]; hence,
    in every reachable state, what was executed was paid for and is what the
    invoice committed to. *)

From S2P Require Import Prelude GoStd TlvLib Wire WireProofs Stores Replay JobStore PeerDir Terms Pricing Validation Provider ResultSend Runner ResultProofs ProviderInv.

Import JobStore.

Create HintDb keeps.

Section handlers.
Context {T : TlvLib} {J : JsonLib} {F : Fmt} {W : WireText} {E : ProviderEnv} {EN : Environ}
        {RJ : MapRange Key Job} {RR : MapRange ReplayStore.Key Z} {RZ : MapRange Z bytes}
        {RM : MapRange string ModelConfig}.
Context (cfg : Config) (policy : ExecutionPolicy) (backendDisabled backendStreams : bool).
Abbreviation Inv := (Inv cfg policy).
Abbreviation keeps := (keeps cfg policy).
Abbreviation bound := (bound cfg policy).
Abbreviation job_ok := (job_ok cfg policy).
Implicit Types (l : list out).

(** ** Sending quotes and adding invoices *)

Lemma keeps_sendError l peer env code msg : keeps l (sendError cfg peer env code msg) anything.
Proof. apply keeps_hush, errors_hush, errors_sendError. Qed.

Lemma keeps_done l : keeps l done_ anything.
Proof. by apply keeps_ret. Qed.

Lemma keeps_nowUnix l : keeps l nowUnix anything.
Proof. apply keeps_hush, only_nowUnix. Qed.

Lemma keeps_remoteManifestFor l peer : keeps l (remoteManifestFor peer) anything.
Proof. by apply keeps_reads. Qed.

Hint Resolve keeps_sendError keeps_done keeps_nowUnix keeps_remoteManifestFor keeps_checkReplay : keeps.

Lemma keeps_sendQuoteResponse l peer key req input quote invoice max :
  k_PeerPubKey key = peer → bound l key req input quote invoice →
  keeps l (sendQuoteResponse cfg peer quote max) anything.
Proof.
  intros Hpeer Hb. unfold sendQuoteResponse. destruct (EncodeQuoteResponse quote) as [payload|e] eqn:He;
    [|by apply keeps_ret].
  case_match; [apply keeps_seq; [auto with keeps|intros; by apply keeps_ret]|].
  intros s Hs Hl. split_and!; [|by apply prefix_app_r|done].
  apply Inv_emit; [by apply Inv_tick| |done]. intros _. exists key, req, input, quote, invoice.
  split_and!; [done| |done]. by eapply bound_mono.
Qed.

Lemma keeps_CreateInvoice l ireq :
  event_ok cfg policy l (OInvoice ireq None) →
  keeps l (CreateInvoice ireq) (λ res l', ∀ invoice, res = Some invoice → OInvoice ireq (Some invoice) ∈ l').
Proof.
  intros Hev s Hs Hl. split_and!.
  - by apply Inv_emit; [apply Inv_tick|..].
  - by apply prefix_app_r.
  - simpl. intros invoice ->. apply elem_of_app. right. by apply list_elem_of_singleton.
Qed.

Lemma keeps_startJobRunner l key req input quote invoice max :
  bound l key req input quote invoice →
  keeps l (startJobRunner key req input quote invoice max) anything.
Proof.
  intros Hb. apply keeps_seq; [auto with keeps|]. intros now. by apply keeps_registerRunner.
Qed.

(** ** Quote requests *)

(** A retry that passes [quoteRequestEqual] has the terms of the first request. *)
Lemma bound_retry l key old req st quote invoice :
  quoteRequestEqual old req = true → request_ok key old → request_ok key req →
  bound l key old st quote invoice → bound l key req st quote invoice.
Proof.
  intros Heq [Hid Hpv] [Hid' Hpv'] (H1 & H2 & H3 & H4 & H5 & Hp & H6). split_and!; try done.
  2: by rewrite <-(planTask_equal cfg policy old req _ Heq).
  rewrite <-H5. unfold computeTermsHash, handlerTerms, handlerCommit. rewrite Hid, Hid', Hpv, Hpv'.
  unfold quoteRequestEqual in Heq. case_bool_decide as Hk; [|done]. simpl in Heq. rewrite Hk.
  destruct (qr_ParamsBytes old), (qr_ParamsBytes req); try done. by bool_to_prop; subst.
Qed.

Lemma job_ok_retry l key req j :
  job_ok l key j → request_ok key req →
  (∀ old, j_QuoteRequest j = Some old → quoteRequestEqual old req = true) →
  job_ok l key (set_QuoteRequest req j).
Proof.
  intros (H1 & H2 & H3 & H4 & H5) Hreq Heq. split_and!; try done.
  - by intros r [= <-].
  - intros quote Hq. destruct (H5 quote Hq) as (Hx & old & st & h & idx & Ho & Hst & Hh & Hi & Hb).
    split; [done|]. exists req, st, h, idx. split_and!; try done.
    eapply bound_retry; [by apply Heq|by apply H2|done|done].
Qed.

Lemma keeps_handleExistingQuoteRequest l peer key req now max existing :
  k_PeerPubKey key = peer → request_ok key req → job_ok l key existing →
  keeps l (handleExistingQuoteRequest cfg peer key req now max existing) anything.
Proof.
  intros Hpeer Hreq Hjob. unfold handleExistingQuoteRequest.
  case_match; [auto with keeps|].
  destruct (match j_QuoteRequest existing with Some old => _ | None => _ end) eqn:Hold; [auto with keeps|].
  assert (Hok : job_ok l key (set_QuoteRequest req existing)).
  { apply job_ok_retry; [done..|]. intros old Ho. rewrite Ho in Hold. by apply negb_false_iff. }
  apply keeps_seq.
  { apply keeps_jobsUpsert. replace (job_key _) with key by apply Hok. done. }
  intros _. destruct (j_QuoteResponse (set_QuoteRequest req existing)) as [quote|] eqn:Hq; [|auto with keeps].
  destruct Hok as (H1 & _ & _ & _ & H5). destruct (H5 quote Hq) as (Hx & req' & st & h & idx & Hr & Hst & Hh & Hi & Hb).
  injection Hr as <-. apply keeps_seq; [by eapply keeps_sendQuoteResponse|].
  intros sent. destruct sent; [|auto with keeps]. simpl in Hst, Hh, Hi |- *. rewrite Hst.
  destruct (is_Validated st); [|auto with keeps]. apply keeps_startJobRunner.
  unfold invoiceFromJob. simpl. by rewrite Hh, Hi.
Qed.

Lemma errors_rejectUnavailable peer env :
  only is_error (rejectQuoteRequestIfProviderUnavailable cfg backendDisabled peer env).
Proof.
  unfold rejectQuoteRequestIfProviderUnavailable. repeat first [apply errors_sendError|only_step].
Qed.

Lemma errors_rejectUnsupportedModel peer req :
  only is_error (rejectQuoteRequestIfUnsupportedModel cfg peer req).
Proof.
  unfold rejectQuoteRequestIfUnsupportedModel. repeat first [apply errors_sendError|only_step].
Qed.

Lemma keeps_rejectUnavailable l peer env :
  keeps l (rejectQuoteRequestIfProviderUnavailable cfg backendDisabled peer env) anything.
Proof.
  apply keeps_hush, errors_hush, errors_rejectUnavailable.
Qed.

Lemma keeps_rejectUnsupportedModel l peer req :
  keeps l (rejectQuoteRequestIfUnsupportedModel cfg peer req) anything.
Proof.
  apply keeps_hush, errors_hush, errors_rejectUnsupportedModel.
Qed.

Hint Resolve keeps_rejectUnavailable keeps_rejectUnsupportedModel : keeps.

(** The two common steps: bind a result that carries no fact; branch on a guard
    that ends the handler. *)
Ltac bind x := apply keeps_seq; [solve [auto with keeps]|intros x].
Ltac guard_ := match goal with
  | |- ProviderInv.keeps _ _ _ (if ?b then _ else _) _ =>
      let H := fresh "Hg" in destruct b eqn:H; [solve [auto with keeps]|]
  | |- ProviderInv.keeps _ _ _ (match ?x with Some _ => _ | None => _ end) _ =>
      let H := fresh "Hg" in destruct x eqn:H; [|solve [auto with keeps]]
  end.

Lemma validated_version req manifest :
  ValidateQuoteRequest DefaultValidator req manifest = None →
  env_ProtocolVersion (qr_Envelope req) = ProtocolVersionV02.
Proof.
  unfold ValidateQuoteRequest. rewrite default_protocolSupported.
  destruct (Z.eqb_spec (env_ProtocolVersion (qr_Envelope req)) ProtocolVersionV02); [done|]. done.
Qed.

Lemma newJob_ok l peer req :
  env_ProtocolVersion (qr_Envelope req) = ProtocolVersionV02 → job_ok l (job_key (newJob peer req)) (newJob peer req).
Proof. intros Hv. split_and!; try done. by intros r [= <-]. Qed.

Lemma keeps_handleQuoteRequest l peer payload :
  keeps l (handleQuoteRequest cfg DefaultValidator backendDisabled peer payload) anything.
Proof.
  unfold handleQuoteRequest. destruct (DecodeQuoteRequest payload) as [req|e]; [|auto with keeps].
  bind rejected. guard_. bind remoteManifest. cbv zeta.
  destruct (ValidateQuoteRequest _ _ _) as [vErr|] eqn:Hv; [auto with keeps|]. apply validated_version in Hv.
  bind unsupported. guard_. bind clock. destruct clock as [now|]; [|auto with keeps].
  guard_. bind fresh. guard_. guard_.
  eapply keeps_bind; [apply keeps_jobsGet|]. intros found l' Hl Hfound.
  destruct found as [existing|].
  - apply keeps_handleExistingQuoteRequest; [done|by split|by apply Hfound].
  - apply keeps_jobsUpsert. by apply newJob_ok.
Qed.

(** ** The input stream *)

Lemma job_ok_set_stream l key st j :
  job_ok l key j → j_QuoteResponse j = None → stream_wf st → job_ok l key (set_InputStream (Some st) j).
Proof.
  intros (H1 & H2 & H3 & H4 & H5) Hn Hst. split_and!; try done.
  - by intros ? [= <-].
  - intros quote Hq. simpl in Hq. congruence.
Qed.

Lemma validateInputStreamBegin_ok begin totalLen sha :
  validateInputStreamBegin begin = Ok (totalLen, sha) →
  sb_TotalLen begin = Some totalLen ∧ totalLen ≤ defaultMaxStreamBytes.
Proof.
  unfold validateInputStreamBegin. case_match; [done|]. destruct (sb_TotalLen begin), (sb_SHA256 begin); try done.
  destruct (_ || _) eqn:Hb; [done|]. intros [= <- <-]. bool_to_prop. done.
Qed.

Lemma awaiting_unquoted l key j :
  job_ok l key j → j_State j = StateAwaitingInput → j_QuoteResponse j = None.
Proof. intros (_ & _ & _ & H4 & _) Hs. auto. Qed.

Lemma keeps_handleStreamBegin `{!TlvLaws T} l peer payload :
  keeps l (handleStreamBegin cfg backendDisabled peer payload) anything.
Proof.
  unfold handleStreamBegin. destruct (DecodeStreamBegin payload) as [begin|e] eqn:Hdec; [|auto with keeps].
  guard_. cbv zeta. bind rejected. guard_. bind manifest. guard_. bind clock.
  destruct clock as [now|]; [|auto with keeps]. guard_. bind fresh. guard_.
  destruct (validateInputStreamBegin begin) as [[totalLen sha]|vErr] eqn:Hv; [|auto with keeps].
  apply validateInputStreamBegin_ok in Hv as [Htl Hle].
  eapply keeps_bind; [apply keeps_jobsGet|]. intros found l' Hl Hfound.
  destruct found as [job|]; [|auto with keeps]. specialize (Hfound job eq_refl).
  destruct (j_QuoteRequest job) as [req|]; [|auto with keeps]. guard_. guard_.
  apply keeps_jobsUpsert. replace (job_key _) with (MkKey peer (env_JobID (sb_Envelope begin))) by apply Hfound.
  bool_to_prop. apply job_ok_set_stream; [done|by eapply awaiting_unquoted|].
  split; [|done]. simpl. split; [|done]. unfold blen. simpl.
  apply stream_begin_wf in Hdec as (_ & _ & _ & Htot & _). rewrite Htl in Htot. simpl in Htot.
  unfold is_uint in Htot. lia.
Qed.

Lemma open_stream_some found job req st :
  open_stream found = Some (job, req, st) →
  found = Some job ∧ j_InputStream job = Some st ∧ j_QuoteRequest job = Some req.
Proof.
  unfold open_stream. destruct found as [j|]; [|done]. simpl.
  destruct (j_InputStream j) eqn:H1; [|done]. simpl. destruct (j_QuoteRequest j) eqn:H2; [|done]. simpl.
  by intros [= <- <- <-].
Qed.

Lemma chunk_data_size `{!TlvLaws T} payload chunk :
  DecodeStreamChunk payload = Ok chunk → blen (default [] (sc_Data chunk)) ≤ max_record_size.
Proof. intros (_ & _ & _ & (d & -> & Hd) & _)%stream_chunk_wf. done. Qed.

Lemma keeps_handleStreamChunk `{!TlvLaws T} l peer payload :
  keeps l (handleStreamChunk cfg peer payload) anything.
Proof.
  unfold handleStreamChunk. destruct (DecodeStreamChunk payload) as [chunk|e] eqn:Hdec; [|auto with keeps].
  cbv zeta. bind clock. destruct clock as [now|]; [|auto with keeps]. guard_.
  eapply keeps_bind; [apply keeps_jobsGet|]. intros found l' Hl Hfound.
  destruct (open_stream found) as [[[job req] st]|] eqn:Ho; [|auto with keeps].
  apply open_stream_some in Ho as (-> & Hst & Hreq). specialize (Hfound job eq_refl).
  do 5 guard_. apply keeps_jobsUpsert.
  replace (job_key _) with (MkKey peer (env_JobID (sc_Envelope chunk))) by apply Hfound.
  bool_to_prop. apply job_ok_set_stream; [done|by eapply awaiting_unquoted|].
  destruct Hfound as (_ & _ & Hwf & _). destruct (Hwf st Hst) as [[Hlen Htot] _].
  apply chunk_data_size in Hdec. pose proof (blen_nonneg (default [] (sc_Data chunk))).
  pose proof (blen_nonneg (is_Buf st)). unfold max_record_size, defaultMaxStreamBytes, wrap_u64 in *.
  assert (Hmod : (blen (is_Buf st) + blen (default [] (sc_Data chunk))) mod 2 ^ 64 =
    blen (is_Buf st) + blen (default [] (sc_Data chunk))) by (apply Z.mod_small; lia).
  rewrite Hmod in *. split; simpl; [|congruence]. rewrite blen_app. unfold defaultMaxStreamBytes. lia.
Qed.

(** ** The quote *)

Lemma keeps_createInvoice l peer key req input inFlight price expiry ttl termsHash max :
  k_PeerPubKey key = peer → request_ok key req → stream_wf input → is_Validated input = true →
  validateInputStream req (is_Buf input) = None →
  quotePrice cfg policy inFlight req (is_Buf input) = Ok price →
  computeTermsHash req input expiry (pb_PriceMsat price) = Ok termsHash →
  keeps l (createInvoiceAndStartQuoteJob cfg peer key req input expiry ttl (pb_PriceMsat price)
             termsHash max) anything.
Proof.
  intros Hpeer Hreq Hwf Hval Hvi Hprice Hterms. unfold createInvoiceAndStartQuoteJob.
  pose proof Hprice as (plan & Hplan & _)%bind_ok_inv.
  eapply keeps_bind.
  { apply keeps_CreateInvoice. exists inFlight, req, input, price, expiry. by split_and!. }
  intros [invoice|] l1 Hl1 Hinv; [|auto with keeps]. specialize (Hinv invoice eq_refl).
  eapply (keeps_bind _ _ _ _ _ (λ quote l', bound l' key req input quote invoice ∧
    qs_QuoteExpiry quote = expiry)).
  { eapply keeps_bind; [apply (keeps_hush cfg policy l1 mustNewMsgID (only_msgID _))|]. intros msgID l2 Hl2 _.
    apply keeps_ret. intros l3 Hl3. split; [|done]. split_and!; try done; [apply Hreq|by exists plan|].
    eexists. eapply elem_of_extended; [|exact Hinv]. by etrans. }
  intros quote l2 Hl2 [Hb Hx]. apply keeps_seq; [by eapply keeps_sendQuoteResponse|].
  intros sent. guard_. apply keeps_seq; [|intros _; by apply keeps_startJobRunner].
  apply keeps_jobsUpsert. unfold job_key. simpl. destruct key as [kp kj]. simpl.
  split_and!; try done; simpl.
  - by intros r [= <-].
  - by intros st [= <-].
  - intros q [= <-]. split; [done|]. exists req, input, (iv_PaymentHash invoice), (iv_AddIndex invoice).
    split_and!; try done. replace {| iv_PaymentRequest := _; iv_PaymentHash := _; iv_AddIndex := _ |} with invoice; [done|].
    destruct invoice as [pr ph ai]. destruct Hb as (_ & _ & _ & Hpr & _). simpl in *. by rewrite Hpr.
Qed.

Lemma keeps_handleStreamEnd l peer payload :
  keeps l (handleStreamEnd cfg policy peer payload) anything.
Proof.
  unfold handleStreamEnd. destruct (DecodeStreamEnd payload) as [e|e] eqn:Hdec; [|auto with keeps].
  cbv zeta. bind clock. destruct clock as [now|]; [|auto with keeps]. guard_. bind fresh. guard_.
  eapply keeps_bind; [apply keeps_jobsGet|]. intros found l' Hl Hfound.
  destruct (open_stream found) as [[[job req] st]|] eqn:Ho; [|auto with keeps].
  apply open_stream_some in Ho as (-> & Hst & Hreq). specialize (Hfound job eq_refl).
  do 6 guard_. bool_to_prop. unfold handleValidatedInputStreamEnd.
  assert (Hn : j_QuoteResponse job = None) by (by eapply awaiting_unquoted).
  destruct Hfound as (_ & Hrq & Hwf & _). destruct (Hwf st Hst) as [[Hlen Htot] _].
  assert (Hst' : stream_wf (set_Validated st)).
  { split; simpl; [lia|]. intros _. split; [lia|]. congruence. }
  simpl. rewrite Hn. destruct (validateInputStream req (is_Buf st)) as [vErr|] eqn:Hvi; [auto with keeps|].
  eapply keeps_seq; [by apply keeps_reads|]. intros inFlight.
  destruct (quotePrice _ _ _ _ _) as [price|err] eqn:Hprice; [|auto with keeps].
  destruct (computeTermsHash _ _ _ _) as [termsHash|err] eqn:Hterms; [|auto with keeps].
  bind manifest. guard_. eapply keeps_createInvoice; try done. by apply Hrq.
Qed.

(** ** Cancellation, and all messages *)

Lemma keeps_handleCancel l peer payload : keeps l (handleCancel peer payload) anything.
Proof.
  unfold handleCancel. destruct (DecodeCancel payload) as [c|e]; [|auto with keeps].
  cbv zeta. bind clock. destruct clock as [now|]; [|auto with keeps]. guard_. bind fresh. guard_.
  apply keeps_seq; [apply keeps_cancelJob|]. intros _. by apply keeps_updateState.
Qed.

Lemma keeps_message `{!TlvLaws T} l peer typ payload :
  keeps l (HandleInboundCustomMessage cfg DefaultValidator policy backendDisabled peer typ payload) anything.
Proof.
  unfold HandleInboundCustomMessage.
  repeat case_match; auto using keeps_handleQuoteRequest, keeps_handleStreamBegin,
    keeps_handleStreamChunk, keeps_handleStreamEnd, keeps_handleCancel with keeps.
Qed.

(** ** The runners *)

Lemma keeps_Inv {A} (m : M A) s : Inv s → keeps (p_out s) m anything → Inv (m s).1.
Proof. intros Hs Hm. by apply Hm. Qed.

Lemma Inv_updateState s key st :
  Inv s → st ≠ StateAwaitingInput → Inv (updateState key st s).1.
Proof. intros Hs Hst. by apply (keeps_updateState cfg policy (p_out s) key st Hst s). Qed.

Lemma keeps_exit l rid r : keeps l (exit rid r) anything.
Proof.
  apply keeps_seq; [apply keeps_forgetJob|]. intros _. apply keeps_update. intros s Hs Hl. split; [done|].
  apply Inv_alter_runner; [done|done|done|]. by intros r' _ [Hb _].
Qed.

Lemma keeps_finish l rid r st : st ≠ StateAwaitingInput → keeps l (finish rid r st) anything.
Proof. intros Hst. apply keeps_seq; [by apply keeps_updateState|]. intros _. apply keeps_exit. Qed.

Lemma keeps_failJob l rid r e : keeps l (failJob cfg rid r e) anything.
Proof.
  unfold failJob. destruct (r_ctxDone r); [apply keeps_exit|]. bind u.
  apply keeps_seq; [by apply keeps_updateState|]. intros _. apply keeps_exit.
Qed.

(** The runner moves on after its invoice was settled. *)
Lemma Inv_goto s rid r p :
  Inv s → p_runners s !! rid = Some r → OSettled rid (iv_PaymentHash (r_invoice r)) ∈ p_out s →
  Inv (upd_runners (alter (set_pc p) rid) s).
Proof.
  intros Hs Hr Ho. apply Inv_alter_runner; [done|done|done|]. intros r' Hr' [Hb _].
  assert (r' = r) as -> by congruence. split; [done|]. by destruct p.
Qed.

Lemma Inv_runSettle s rid r o :
  Inv s → p_runners s !! rid = Some r → Inv (runSettle rid r o s).1.
Proof.
  intros Hs Hr. destruct o; simpl.
  - apply (Inv_goto _ rid r); [|done|apply elem_of_app; right; by apply list_elem_of_singleton].
    apply (Inv_updateState (emit _ s)); [|done]. apply Inv_emit; [done| |done].
    destruct (inv_runners _ _ _ Hs rid r Hr) as [Hb _]. by do 5 eexists.
  - by apply (keeps_exit (p_out s) rid r s).
  - by apply (keeps_finish (p_out s) rid r StateFailed).
Qed.

Lemma Inv_runPlan s rid r :
  Inv s → p_runners s !! rid = Some r → r_pc r = PcPlan → Inv (runPlan cfg policy backendStreams rid r s).1.
Proof.
  intros Hs Hr Hpc. destruct (inv_runners _ _ _ Hs rid r Hr) as [Hb Hset]. rewrite Hpc in Hset.
  unfold runPlan. destruct (r_ctxDone r) eqn:Hctx; [by apply (keeps_exit (p_out s) rid r s)|].
  assert (H1 : Inv (updateState (r_key r) StateExecuting s).1) by (by apply Inv_updateState).
  unfold mbind, M_bind. destruct (planTask _ _ _ _) as [[[[planned pol] model] want]|e] eqn:Hplan.
  - apply (Inv_goto _ rid r); [|done|apply elem_of_app; by left].
    apply Inv_emit; [done| |done]. simpl. do 7 eexists. split_and!; try done.
    intros Hin. destruct (inv_ctx _ _ _ Hs rid Hin) as (r' & Hr' & Hd). congruence.
  - by apply (keeps_failJob (p_out s) rid r e).
Qed.

Lemma Inv_runExec s rid r task want streaming o :
  Inv s → p_runners s !! rid = Some r → r_pc r = PcExec task want streaming →
  Inv (runExec cfg rid r want streaming o s).1.
Proof.
  intros Hs Hr Hpc. destruct (inv_runners _ _ _ Hs rid r Hr) as [Hb Hset]. rewrite Hpc in Hset.
  assert (Hfail : ∀ e, Inv (failJob cfg rid r e s).1) by (intros e; by apply (keeps_failJob (p_out s) rid r e)).
  destruct streaming, o as [e|output| |reads]; simpl; auto.
  - apply (Inv_goto _ rid r); [|done|done]. by apply Inv_updateState.
  - destruct (blen output =? 0); [auto|].
    apply keeps_Inv; [done|]. apply keeps_seq; [apply keeps_hush, hush_sendResult|].
    intros ok. apply keeps_finish. by destruct ok.
Qed.

Lemma keeps_runStream l rid r reads : keeps l (runStream cfg rid r reads) anything.
Proof.
  apply keeps_seq; [apply keeps_hush, hush_sendResultStreaming|]. intros [[n ok] [e|]].
  - apply keeps_failJob.
  - apply keeps_finish. by destruct ok.
Qed.

(** ** The invariant holds *)

Lemma Inv_handle `{!TlvLaws T} e s :
  Inv s → Inv (handle cfg DefaultValidator policy backendDisabled backendStreams e s).1.
Proof.
  intros Hs. destruct e as [peer typ payload|rid o|rid|rid o|rid|rid|d]; simpl.
  1: by apply (keeps_message (p_out s) peer typ payload).
  6: by destruct Hs; constructor.
  all: destruct (p_runners s !! rid) as [r|] eqn:Hr; [|done].
  - destruct (r_pc r); try done. by apply Inv_runSettle.
  - destruct (r_pc r) eqn:Hpc; try done. by apply Inv_runPlan.
  - destruct (r_pc r) eqn:Hpc; try done. by eapply Inv_runExec.
  - destruct (r_pc r); try done. by apply (keeps_runStream (p_out s) rid r reads).
  - destruct (r_timeout r); [by eapply Inv_cancelRunner|done].
Qed.

Lemma Inv_initial cap : Inv (initial cap).
Proof.
  constructor; simpl.
  - apply map_Forall_empty.
  - apply map_Forall_empty.
  - done.
  - intros l1 o l2 Heq. by destruct l1.
  - by split_and!.
  - by intros rid ?%elem_of_nil.
Qed.

Lemma Inv_reachable `{!TlvLaws T} s :
  Runner.reachable cfg DefaultValidator policy backendDisabled backendStreams s → Inv s.
Proof.
  intros (cap & es & ->). unfold Runner.run. rewrite <-(rev_involutive es).
  induction (rev es) as [|e es' IH]; simpl; [apply Inv_initial|].
  rewrite fold_left_app. simpl. by apply Inv_handle.
Qed.
End handlers.
