(* ===== verification/ProviderTheorems.v ===== *)
(** * Theorems about the provider

    Consequences of the invariant for every reachable state, the treatment of
    stale messages, cancellation, and what a retried quote request does to a
    finished job; with a complete run of the provider as witness. *)

From S2P Require Import Prelude GoStd TlvLib Wire WireProofs Stores Replay JobStore PeerDir Terms Pricing Validation Provider ResultSend Runner ResultProofs ProviderInv ProviderSafety.

Import JobStore.

Section theorems.
Context {T : TlvLib} {L : TlvLaws T} {J : JsonLib} {F : Fmt} {W : WireText} {E : ProviderEnv}
        {EN : Environ} {RJ : MapRange Key Job} {RR : MapRange ReplayStore.Key Z}
        {RZ : MapRange Z bytes} {RM : MapRange string ModelConfig}.
Context (cfg : Config) (policy : ExecutionPolicy) (backendDisabled backendStreams : bool).
Abbreviation reachable := (Runner.reachable cfg DefaultValidator policy backendDisabled backendStreams).
Abbreviation handle := (Runner.handle cfg DefaultValidator policy backendDisabled backendStreams).

Lemma reach_inv s : reachable s → Inv cfg policy s.
Proof using L. apply (Inv_reachable cfg policy backendDisabled backendStreams). Qed.

(** ** Safety *)

(** C1: the backend is called only for a job whose invoice was settled before.  The
    description hash of that invoice commits to its price, to the job, and to
    exactly the task kind, params and input bytes that are executed, and the input
    has the hash the requester announced. *)
Theorem execution_is_paid s l1 rid key task streaming l2 :
  reachable s → p_out s = l1 ++ OExec rid key task streaming :: l2 →
  ∃ ireq invoice req input quoteExpiry,
    OInvoice ireq (Some invoice) ∈ l1 ∧ OSettled rid (iv_PaymentHash invoice) ∈ l1 ∧
    ComputeTermsHash
      {| tm_ProtocolVersion := env_ProtocolVersion (qr_Envelope req); tm_JobID := k_JobID key;
         tm_PriceMsat := ir_PriceMsat ireq; tm_QuoteExpiry := quoteExpiry |}
      {| cm_TaskKind := t_TaskKind task; cm_Input := t_InputBytes task;
         cm_InputContentType := is_ContentType input;
         cm_InputContentEncoding := is_ContentEncoding input; cm_Params := qr_ParamsBytes req |}
      = Ok (ir_DescriptionHash ireq) ∧
    (∃ pol model want, planTask cfg policy req (t_InputBytes task) = Ok (task, pol, model, want)) ∧
    sha256_sum (t_InputBytes task) = is_SHA256 input ∧ blen (t_InputBytes task) = is_TotalLen input.
Proof.
  intros Hr Hout. apply reach_inv in Hr. pose proof (inv_trace _ _ _ Hr _ _ _ Hout) as
    (req & input & quote & invoice & pol & model & want & _ & Hset & (Hwf & Hval & Hid & _ & Hterms & _ & x & Hinv) & Hplan).
  pose proof (planTask_ok _ _ _ _ _ Hplan) as (_ & Hkind & _ & Hin & _).
  destruct Hwf as [_ Hwf]. destruct (Hwf Hval) as [Hlen Hsha].
  eexists _, invoice, req, input, (qs_QuoteExpiry quote). split_and!; [exact Hinv|exact Hset|..].
  - simpl. rewrite Hkind, Hin, <-Hid. exact Hterms.
  - rewrite Hin. eauto.
  - by rewrite Hin.
  - by rewrite Hin.
Qed.

(** C15: every invoice is for the price [quotePrice] computes for a validated input,
    and its description hash is the terms hash of that request, input and price. *)
Theorem invoice_is_quoted s l1 ireq res l2 :
  reachable s → p_out s = l1 ++ OInvoice ireq res :: l2 →
  ∃ inFlight req input price expiry,
    validateInputStream req (is_Buf input) = None ∧ is_Validated input = true ∧
    blen (is_Buf input) ≤ defaultMaxStreamBytes ∧ sha256_sum (is_Buf input) = is_SHA256 input ∧
    quotePrice cfg policy inFlight req (is_Buf input) = Ok price ∧
    ir_PriceMsat ireq = pb_PriceMsat price ∧
    computeTermsHash req input expiry (ir_PriceMsat ireq) = Ok (ir_DescriptionHash ireq).
Proof.
  intros Hr Hout. apply reach_inv in Hr.
  destruct (inv_trace _ _ _ Hr _ _ _ Hout) as (n & req & input & price & x & Hwf & Hval & Hvi & Hp & Heq & Ht).
  exists n, req, input, price, x. destruct Hwf as [Hlen Hwf]. destruct (Hwf Hval). split_and!; try done; lia.
Qed.

(** C2: every quote response that is sent was preceded by an invoice with the
    quoted price, the quoted payment request, and the terms hash of the quote as
    description hash. *)
Theorem quote_matches_invoice s l1 peer payload ok l2 :
  reachable s → p_out s = l1 ++ OSent peer MessageTypeQuoteResponse payload ok :: l2 →
  ∃ quote ireq invoice req input,
    EncodeQuoteResponse quote = Ok payload ∧ OInvoice ireq (Some invoice) ∈ l1 ∧
    ir_PriceMsat ireq = qs_PriceMsat quote ∧ ir_DescriptionHash ireq = qs_TermsHash quote ∧
    iv_PaymentRequest invoice = qs_PaymentRequest quote ∧
    computeTermsHash req input (qs_QuoteExpiry quote) (qs_PriceMsat quote) = Ok (qs_TermsHash quote).
Proof.
  intros Hr Hout. apply reach_inv in Hr.
  destruct (inv_trace _ _ _ Hr _ _ _ Hout eq_refl) as
    (key & req & input & quote & invoice & _ & (_ & _ & _ & Hpr & Hterms & _ & x & Hinv) & Henc).
  eexists quote, _, invoice, req, input. by split_and!.
Qed.

(** C21: in every reachable state a stored input stream never exceeds what was
    announced or 4 MiB, a validated one is complete and has the announced hash, and
    a job that still waits for its input has no quote. *)
Theorem input_stream_invariant s key job :
  reachable s → Get key (p_jobs s) = Some job →
  key = job_key job ∧
  (j_State job = StateAwaitingInput → j_QuoteResponse job = None) ∧
  ∀ st, j_InputStream job = Some st →
    blen (is_Buf st) ≤ is_TotalLen st ≤ defaultMaxStreamBytes ∧
    (is_Validated st = true → blen (is_Buf st) = is_TotalLen st ∧ sha256_sum (is_Buf st) = is_SHA256 st).
Proof.
  intros Hr Hj. apply reach_inv in Hr.
  destruct (inv_jobs _ _ _ Hr key job Hj) as (H1 & _ & H3 & H4 & _). by split_and!.
Qed.

(** The number of jobs in flight, which surge pricing uses, is the number of
    registered runners (as long as fewer than 2^64 were ever started), and each
    registered runner exists and works on the job it is registered for. *)
Theorem in_flight_exact s :
  reachable s → Z.of_nat (p_nextRunner s) < 2 ^ 64 →
  p_inFlight s = Z.of_nat (size (p_cancels s)) ∧
  ∀ key rid, p_cancels s !! key = Some rid → ∃ r, p_runners s !! rid = Some r ∧ r_key r = key.
Proof.
  intros Hr Hn. apply reach_inv in Hr. destruct (inv_cancels _ _ _ Hr) as (_ & H2 & H3). auto.
Qed.

(** ** Stale messages *)

(** The message is expired, or its id is remembered by the replay store. *)
Definition stale (r : ReplayStore.Store) (peer : string) (env : JobEnvelope) (now : Z) : Prop :=
  env_Expiry env < now ∨
  ∃ e, ReplayStore.entries r !! ReplayStore.MkKey peer (env_JobID env) (env_MsgID env) = Some e ∧ now ≤ e.

(** Nothing happened but error replies (and the replay store's pruning). *)
Definition ignored (s s' : PState) : Prop :=
  p_jobs s' = p_jobs s ∧ p_cancels s' = p_cancels s ∧ p_inFlight s' = p_inFlight s ∧
  p_runners s' = p_runners s ∧ p_nextRunner s' = p_nextRunner s ∧
  ∃ evs, p_out s' = p_out s ++ evs ∧ Forall is_error evs.

Lemma ignored_refl s : ignored s s.
Proof. split_and!; try done. exists []. by rewrite app_nil_r. Qed.

Lemma ignored_quiet {A} (m : M A) s : only is_error m → ignored s (m s).1.
Proof. intros Hm. destruct (Hm s) as (evs & [n ->] & Hev). split_and!; try done. by exists evs. Qed.

Lemma ignored_bind {A B} (m : M A) (k : A → M B) s (R : A → Prop) :
  quietly m s (λ a evs, Forall is_error evs ∧ R a) →
  (∀ a s1, p_replay s1 = p_replay s → R a → ignored s1 (k a s1).1) → ignored s ((m ≫= k) s).1.
Proof.
  intros (evs & [n Hs] & Hev & HR) Hk. specialize (Hk (m s).2 (m s).1). unfold mbind, M_bind.
  destruct Hk as (H1 & H2 & H3 & H4 & H5 & evs' & H6 & H7); [by rewrite Hs|done|].
  rewrite Hs in H1, H2, H3, H4, H5, H6. simpl in *. rewrite Hs.
  split_and!; [done..|]. exists (evs ++ evs'). split; [|by apply Forall_app].
  by rewrite H6, app_assoc.
Qed.

Lemma ignored_errors_bind {A B} (m : M A) (k : A → M B) s :
  only is_error m → (∀ a s1, p_replay s1 = p_replay s → ignored s1 (k a s1).1) →
  ignored s ((m ≫= k) s).1.
Proof.
  intros Hm Hk. apply (ignored_bind _ _ _ (λ _, True)); [|auto].
  eapply quietly_mono; [apply Hm|]. auto.
Qed.

Lemma nowUnix_value s :
  quietly nowUnix s (λ o evs, Forall is_error evs ∧
    ∀ now, o = Some now → 0 ≤ now ∧ ∃ n, now = time_unix (env_clock n)).
Proof.
  exists []. split; [apply tick_quiet|]. split; [done|]. simpl. intros now.
  destruct (Z.ltb_spec (time_unix (env_clock (p_tick s))) 0); [done|]. intros [= <-]. eauto.
Qed.

Lemma checkReplay_stale peer env now s :
  stale (p_replay s) peer env now → dropIfExpired env now = false →
  ignored s (checkReplay peer env now s).1 ∧ (checkReplay peer env now s).2 = false.
Proof.
  intros Hst Hd. unfold dropIfExpired in Hd. bool_to_prop. destruct Hst as [?|(e & He & Hle)]; [lia|].
  unfold checkReplay. rewrite ReplayStore.check_unfold.
  assert (Hp : ReplayStore.pruneLocked now (ReplayStore.entries (p_replay s)) !!
    ReplayStore.MkKey peer (env_JobID env) (env_MsgID env) = Some e).
  { by apply ReplayStore.lookup_prune. }
  rewrite Hp. destruct (_ <? _); simpl; (split; [|done]);
    (split_and!; [done..|]; exists []; by rewrite app_nil_r).
Qed.

(** The gate every handler but the chunk handler runs a message through. *)
Lemma stale_gate peer env s (k : Z → M unit) :
  (∀ n, stale (p_replay s) peer env (time_unix (env_clock n))) →
  ignored s ((clock ← nowUnix;
    match clock with
    | None => done_
    | Some now =>
      if dropIfExpired env now then done_ else
      fresh ← checkReplay peer env now;
      if negb (fresh : bool) then done_ else k now
    end) s).1.
Proof.
  intros Hst. eapply ignored_bind; [apply nowUnix_value|]. intros [now|] s1 Hrep Hnow; [|apply ignored_refl].
  destruct (Hnow now eq_refl) as (_ & n & ->). destruct (dropIfExpired _ _) eqn:Hd; [apply ignored_refl|].
  specialize (Hst n). rewrite <-Hrep in Hst.
  destruct (checkReplay_stale peer env _ s1 Hst Hd) as [Hi Hf]. unfold mbind, M_bind. by rewrite Hf.
Qed.

Lemma stale_quote_request peer payload req s :
  DecodeQuoteRequest payload = Ok req →
  (∀ n, stale (p_replay s) peer (qr_Envelope req) (time_unix (env_clock n))) →
  ignored s (handleQuoteRequest cfg DefaultValidator backendDisabled peer payload s).1.
Proof.
  intros Hdec Hst. unfold handleQuoteRequest. rewrite Hdec.
  apply ignored_errors_bind; [apply errors_rejectUnavailable|]. intros rejected s1 H1.
  destruct rejected; [apply ignored_refl|].
  apply ignored_errors_bind; [apply only_reads|]. intros manifest s2 H2. cbv zeta.
  destruct (ValidateQuoteRequest _ _ _); [apply ignored_quiet, errors_sendError|].
  apply ignored_errors_bind; [apply errors_rejectUnsupportedModel|]. intros unsupported s3 H3.
  destruct unsupported; [apply ignored_refl|]. apply stale_gate. intros n. by rewrite H3, H2, H1.
Qed.

Lemma stale_stream_begin peer payload begin s :
  DecodeStreamBegin payload = Ok begin →
  (∀ n, stale (p_replay s) peer (sb_Envelope begin) (time_unix (env_clock n))) →
  ignored s (handleStreamBegin cfg backendDisabled peer payload s).1.
Proof.
  intros Hdec Hst. unfold handleStreamBegin. rewrite Hdec. destruct (negb _); [apply ignored_refl|]. cbv zeta.
  apply ignored_errors_bind; [apply errors_rejectUnavailable|]. intros rejected s1 H1.
  destruct rejected; [apply ignored_refl|].
  apply ignored_errors_bind; [apply only_reads|]. intros manifest s2 H2.
  destruct manifest; [|apply ignored_quiet, errors_sendError].
  apply stale_gate. intros n. by rewrite H2, H1.
Qed.

Lemma expired_stream_chunk peer payload chunk s :
  DecodeStreamChunk payload = Ok chunk →
  (∀ n, env_Expiry (sc_Envelope chunk) < time_unix (env_clock n)) →
  ignored s (handleStreamChunk cfg peer payload s).1.
Proof.
  intros Hdec Hexp. unfold handleStreamChunk. rewrite Hdec. cbv zeta.
  eapply ignored_bind; [apply nowUnix_value|]. intros [now|] s1 Hrep Hnow; [|apply ignored_refl].
  destruct (Hnow now eq_refl) as (_ & n & ->). unfold dropIfExpired.
  destruct (Z.leb_spec (time_unix (env_clock n)) (env_Expiry (sc_Envelope chunk))); [specialize (Hexp n); lia|].
  apply ignored_refl.
Qed.


(** ** Cancellation *)


(** The message passes the gate: it is neither expired nor a replay. *)
Definition accepted (s : PState) (peer : string) (env : JobEnvelope) : Prop :=
  let now := time_unix (env_clock (p_tick s)) in
  0 ≤ now ≤ env_Expiry env ∧ (checkReplay peer env now (tick s)).2 = true.

Lemma gate_accepted peer env s (k : Z → M unit) :
  accepted s peer env →
  let now := time_unix (env_clock (p_tick s)) in
  ((clock ← nowUnix;
    match clock with
    | None => done_
    | Some now =>
      if dropIfExpired env now then done_ else
      fresh ← checkReplay peer env now;
      if negb (fresh : bool) then done_ else k now
    end) s) = k now (checkReplay peer env now (tick s)).1.
Proof.
  intros [[H0 Hx] Hf] now. unfold nowUnix, clockNow, mbind, M_bind. simpl. fold now in Hf, Hx, H0 |- *.
  destruct (Z.ltb_spec now 0); [lia|]. unfold dropIfExpired. destruct (Z.leb_spec now (env_Expiry env)); [|lia].
  simpl. by rewrite Hf.
Qed.

Lemma Get_UpdateState k st js : Get k (UpdateState k st js).1 = set_State st <$> Get k js.
Proof.
  unfold UpdateState, JobStore.modify, Get. destruct (jobs js !! k) as [j|] eqn:Hj; simpl; [|by rewrite Hj].
  by rewrite lookup_insert_eq.
Qed.

(** An accepted cancel message ends the context of the job's runner, removes it
    from the jobs in flight and marks the job canceled, without a reply. *)
Theorem cancel_takes_effect peer payload c s rid (key := MkKey peer (env_JobID (cn_Envelope c))) :
  reachable s → DecodeCancel payload = Ok c → accepted s peer (cn_Envelope c) →
  p_cancels s !! key = Some rid →
  let s' := (handle (EMessage peer MessageTypeCancel payload) s).1 in
  p_out s' = p_out s ++ [OCtxDone rid] ∧ p_cancels s' = delete key (p_cancels s) ∧
  Get key (p_jobs s') = set_State StateCanceled <$> Get key (p_jobs s) ∧
  ∃ r, p_runners s' !! rid = Some r ∧ r_key r = key ∧ r_ctxDone r = true.
Proof.
  intros Hr Hdec Hacc Hk. apply reach_inv in Hr. destruct (inv_cancels _ _ _ Hr) as (_ & _ & Hc).
  destruct (Hc key rid Hk) as (r & Hrid & Hkey). cbn [Runner.handle].
  change (HandleInboundCustomMessage _ _ _ _ peer MessageTypeCancel payload s) with (handleCancel peer payload s).
  unfold handleCancel. rewrite Hdec. cbv zeta. rewrite gate_accepted by done. fold key.
  unfold checkReplay. destruct (ReplayStore.CheckAndRemember _ _ _ _) as [rep res].
  unfold mbind, M_bind, cancelJob. cbn [fst snd set_replay tick p_cancels]. rewrite Hk.
  cbn. split_and!; [done|done| |].
  - apply (Get_UpdateState key StateCanceled (p_jobs s)).
  - exists (set_ctxDone r). by rewrite lookup_alter_eq, Hrid.
Qed.

(** ** Retried quote requests *)

(** A retry of a quote request (same task, fresh message id) for a job with an
    unexpired quote and a validated input registers a new runner whenever none is
    registered, whatever state the job is in: also after it was executed, canceled
    or failed, and with the invoice that may have been paid long ago. *)
Theorem retry_restarts_job peer req now max job st quote s (key := job_key job) :
  quoteRequestEqual (default req (j_QuoteRequest job)) req = true →
  j_QuoteExpiry job = 0 ∨ now ≤ j_QuoteExpiry job →
  j_QuoteResponse job = Some quote → j_InputStream job = Some st → is_Validated st = true →
  (∃ payload, EncodeQuoteResponse quote = Ok payload ∧ (max = 0 ∨ blen payload ≤ max)) →
  (∀ n, env_send n = true) → p_cancels s !! key = None →
  let s' := (handleExistingQuoteRequest cfg peer key req now max job s).1 in
  p_cancels s' !! key = Some (p_nextRunner s) ∧
  ∃ r, p_runners s' !! p_nextRunner s = Some r ∧ r_key r = key ∧ r_req r = req ∧ r_input r = st ∧
    r_pc r = PcSettle ∧ r_ctxDone r = false ∧ r_invoice r = invoiceFromJob job quote.
Proof.
  intros Heq Hexp Hq Hst Hval (payload & Henc & Hmax) Hsend Hk. unfold handleExistingQuoteRequest.
  assert (Hx : negb (j_QuoteExpiry job =? 0) && (j_QuoteExpiry job <? now) = false).
  { destruct (Z.eqb_spec (j_QuoteExpiry job) 0); [done|]. simpl. apply Z.ltb_ge. lia. }
  rewrite Hx. replace (match j_QuoteRequest job with Some old => _ | None => _ end) with false.
  2: { destruct (j_QuoteRequest job); [|done]. simpl in Heq. by rewrite Heq. }
  cbn [set_QuoteRequest j_QuoteResponse j_InputStream]. rewrite Hq, Hst, Hval.
  unfold sendQuoteResponse. rewrite Henc.
  assert (Hm : negb (max =? 0) && (max <? blen payload) = false).
  { destruct (Z.eqb_spec max 0); [done|]. simpl. apply Z.ltb_ge. lia. }
  rewrite Hm. unfold jobsUpsert, SendCustomMessage, startJobRunner, registerRunner, nowUnix, clockNow,
    update, mbind, M_bind. cbn. rewrite Hsend. cbn. rewrite Hk. cbn.
  split; [by rewrite lookup_insert_eq|]. eexists. rewrite lookup_insert_eq. by split_and!.
Qed.
End theorems.

(** ** A complete run

    A requester asks for a chat completion, streams its input in one chunk, pays,
    and gets the result; then it retries the quote request. *)

Module ProviderExamples.
#[local] Instance tlv : TlvLib := bolt_tlv.
#[local] Instance no_environ : Environ := λ _, ""%string.
#[local] Instance rj : MapRange Key Job := canonical_range.
#[local] Instance rr : MapRange ReplayStore.Key Z := canonical_range.
#[local] Instance rz : MapRange Z bytes := canonical_range.
#[local] Instance rm : MapRange string ModelConfig := canonical_range.
#[local] Instance fmt : Fmt := {| fmt_q := id |}.
#[local] Instance text : WireText := λ _, "wire error"%string.
#[local] Instance json : JsonLib :=
  {| parseOpenAIChatCompletionsRequest _ :=
       Ok {| cr_Model := "gpt-5.2"; cr_Messages := [[Byte.x7b; Byte.x7d]]; cr_Stream := None;
             cr_MaxTokens := Some 16; cr_MaxCompletionTokens := None; cr_MaxOutputTokens := None |};
     parseOpenAIResponsesRequest _ := Err "unused"%string |}.

Definition now : Z := 1700000000.
Definition id32 (b : byte) : bytes := repeat b 32.
Definition invoice : InvoiceResult :=
  {| iv_PaymentRequest := "lnbc1"; iv_PaymentHash := id32 Byte.x99; iv_AddIndex := 7 |}.
#[local] Instance world : ProviderEnv :=
  {| env_clock _ := now * ns_per_sec; env_rand n := Some (id32 Byte.x55); env_send _ := true;
     env_invoice _ _ := Some invoice |}.

Definition cfg : Config :=
  {| cfg_Enabled := true; cfg_QuoteTTLSeconds := 300;
     cfg_InFlightSurge := {| sg_Threshold := 0; sg_PerJobBps := 0; sg_MaxMultiplierBps := 0 |};
     cfg_Models := ∅ |}.
Definition policy : ExecutionPolicy := {| ep_MaxOutputTokens := 4096 |}.

Definition peer : string := "02aa".
Definition jobID : bytes := id32 Byte.x11.
Definition envelope (msg : byte) : JobEnvelope :=
  {| env_ProtocolVersion := 2; env_JobID := jobID; env_MsgID := id32 msg; env_Expiry := now + 60 |}.
Definition get (r : wres bytes) : bytes := match r with Ok b => b | Err _ => [] end.
Definition params : bytes := get (EncodeOpenAIParams {| oa_Model := "gpt-5.2"; oa_Unknown := ∅ |}).
Definition input : bytes := bytes_of_string "hello".
Definition request (msg : byte) : QuoteRequest :=
  {| qr_Envelope := envelope msg; qr_TaskKind := taskKindOpenAIChatCompletionsV1; qr_ParamsBytes := Some params |}.
Definition quote_msg (msg : byte) : event :=
  EMessage peer MessageTypeQuoteRequest (get (EncodeQuoteRequest (request msg))).
Definition begin_msg : event :=
  EMessage peer MessageTypeStreamBegin (get (EncodeStreamBegin
    {| sb_Envelope := envelope Byte.x02; sb_StreamID := id32 Byte.x33; sb_Kind := StreamKindInput;
       sb_TotalLen := Some (blen input); sb_SHA256 := Some (sha256_sum input);
       sb_ContentType := contentTypeApplicationJSON; sb_ContentEncoding := contentEncodingIdentity |})).
Definition chunk_msg : event :=
  EMessage peer MessageTypeStreamChunk (get (fst <$> EncodeStreamChunk
    {| sc_Envelope := envelope Byte.x03; sc_StreamID := id32 Byte.x33; sc_Seq := 0; sc_Data := Some input |})).
Definition end_msg : event :=
  EMessage peer MessageTypeStreamEnd (get (EncodeStreamEnd
    {| se_Envelope := envelope Byte.x04; se_StreamID := id32 Byte.x33; se_TotalLen := blen input;
       se_SHA256 := sha256_sum input |})).
Definition cancel : Cancel := {| cn_Envelope := envelope Byte.x05; cn_Reason := None |}.
Definition cancel_payload : bytes := get (EncodeCancel cancel).

Definition manifest : Manifest :=
  {| mf_ProtocolVersion := 2; mf_MaxPayloadBytes := 16384; mf_MaxStreamBytes := 4194304;
     mf_MaxJobBytes := 8388608; mf_MaxInflightJobs := None; mf_SupportedTasks := [] |}.
Definition peers : PeerDir.Directory :=
  PeerDir.MarkLCPReady peer manifest (PeerDir.MarkConnected peer PeerDir.New).

Definition quoted_run : list event := [EPeers peers; quote_msg Byte.x01; begin_msg; chunk_msg; end_msg].
Definition paid_run : list event :=
  quoted_run ++ [ESettle 0 SettleOK; EPlan 0; EExec 0 (ExecOutput (bytes_of_string "world"))].

Abbreviation run_ es := (Runner.run cfg DefaultValidator policy false false es (initial 0)).
Abbreviation reachable_ := (Runner.reachable cfg DefaultValidator policy false false).

Definition key : Key := MkKey peer jobID.

(** What the witnesses look at. *)
Definition view (s : PState) : list out * nat * option nat * option Job * bool :=
  (p_out s, p_nextRunner s, p_cancels s !! key, Get key (p_jobs s),
   (checkReplay peer (cn_Envelope cancel) now (tick s)).2).

Lemma view_out s v : view s = v → p_out s = v.1.1.1.1.
Proof. by intros <-. Qed.
Lemma view_next s v : view s = v → p_nextRunner s = v.1.1.1.2.
Proof. by intros <-. Qed.
Lemma view_cancels s v : view s = v → p_cancels s !! key = v.1.1.2.
Proof. by intros <-. Qed.
Lemma view_job s v : view s = v → Get key (p_jobs s) = v.1.2.
Proof. by intros <-. Qed.
Lemma view_accepted s v :
  view s = v → v.2 = true → accepted s peer (cn_Envelope cancel).
Proof. intros <- Hv. split; [vm_compute; split; discriminate|exact Hv]. Qed.

Definition quoted : PState := run_ quoted_run.
Definition paid : PState := run_ paid_run.
Definition quoted_literal := Eval vm_compute in view quoted.
Definition paid_literal := Eval vm_compute in view paid.

Lemma quoted_view : view quoted = quoted_literal.
Proof. vm_compute. reflexivity. Qed.
Lemma paid_view : view paid = paid_literal.
Proof. vm_compute. reflexivity. Qed.

Lemma quoted_reachable : reachable_ quoted.
Proof. by exists 0, quoted_run. Qed.
Lemma paid_reachable : reachable_ paid.
Proof. by exists 0, paid_run. Qed.

Definition events : list out := Eval vm_compute in paid_literal.1.1.1.1.

Lemma paid_out : p_out paid = events.
Proof. exact (view_out paid paid_literal paid_view). Qed.

Definition task : Task :=
  {| t_TaskKind := taskKindOpenAIChatCompletionsV1; t_Model := "gpt-5.2"; t_InputBytes := input;
     t_ParamsBytes := None |}.

Lemma execution_is_paid_witness :
  ∃ ireq invoice req st quoteExpiry,
    OInvoice ireq (Some invoice) ∈ take 3 events ∧ OSettled 0 (iv_PaymentHash invoice) ∈ take 3 events ∧
    ComputeTermsHash
      {| tm_ProtocolVersion := env_ProtocolVersion (qr_Envelope req); tm_JobID := jobID;
         tm_PriceMsat := ir_PriceMsat ireq; tm_QuoteExpiry := quoteExpiry |}
      {| cm_TaskKind := t_TaskKind task; cm_Input := t_InputBytes task;
         cm_InputContentType := is_ContentType st;
         cm_InputContentEncoding := is_ContentEncoding st; cm_Params := qr_ParamsBytes req |}
      = Ok (ir_DescriptionHash ireq) ∧
    (∃ pol model want, planTask cfg policy req (t_InputBytes task) = Ok (task, pol, model, want)) ∧
    sha256_sum (t_InputBytes task) = is_SHA256 st ∧ blen (t_InputBytes task) = is_TotalLen st.
Proof.
  apply (execution_is_paid cfg policy false false paid (take 3 events) 0 key task false (drop 4 events)
           paid_reachable). rewrite paid_out. vm_compute. reflexivity.
Defined.

Definition an_ireq : InvoiceRequest :=
  Eval vm_compute in match events with
                     | OInvoice r _ :: _ => r
                     | _ => {| ir_DescriptionHash := []; ir_PriceMsat := 0; ir_ExpirySeconds := 0 |}
                     end.

Lemma invoice_is_quoted_witness :
  ∃ inFlight req st price expiry,
    validateInputStream req (is_Buf st) = None ∧ is_Validated st = true ∧
    blen (is_Buf st) ≤ defaultMaxStreamBytes ∧ sha256_sum (is_Buf st) = is_SHA256 st ∧
    quotePrice cfg policy inFlight req (is_Buf st) = Ok price ∧
    ir_PriceMsat an_ireq = pb_PriceMsat price ∧
    computeTermsHash req st expiry (ir_PriceMsat an_ireq) = Ok (ir_DescriptionHash an_ireq).
Proof.
  apply (invoice_is_quoted cfg policy false false paid [] an_ireq (Some invoice) (drop 1 events)
           paid_reachable). rewrite paid_out. vm_compute. reflexivity.
Defined.

Definition quote_payload : bytes :=
  Eval vm_compute in match events with _ :: OSent _ _ p _ :: _ => p | _ => [] end.

Lemma quote_matches_invoice_witness :
  ∃ quote ireq inv req st,
    EncodeQuoteResponse quote = Ok quote_payload ∧ OInvoice ireq (Some inv) ∈ take 1 events ∧
    ir_PriceMsat ireq = qs_PriceMsat quote ∧ ir_DescriptionHash ireq = qs_TermsHash quote ∧
    iv_PaymentRequest inv = qs_PaymentRequest quote ∧
    computeTermsHash req st (qs_QuoteExpiry quote) (qs_PriceMsat quote) = Ok (qs_TermsHash quote).
Proof.
  apply (quote_matches_invoice cfg policy false false paid (take 1 events) peer quote_payload true
           (drop 2 events) paid_reachable). rewrite paid_out. vm_compute. reflexivity.
Defined.

Definition no_job : Job := newJob peer (request Byte.x01).
Definition done_job : Job := Eval vm_compute in default no_job paid_literal.1.2.

Lemma input_stream_invariant_witness :
  key = job_key done_job ∧
  (j_State done_job = StateAwaitingInput → j_QuoteResponse done_job = None) ∧
  ∀ st, j_InputStream done_job = Some st →
    blen (is_Buf st) ≤ is_TotalLen st ≤ defaultMaxStreamBytes ∧
    (is_Validated st = true → blen (is_Buf st) = is_TotalLen st ∧ sha256_sum (is_Buf st) = is_SHA256 st).
Proof.
  apply (input_stream_invariant cfg policy false false paid key done_job paid_reachable).
  exact (view_job paid paid_literal paid_view).
Defined.

Lemma in_flight_exact_witness :
  p_inFlight quoted = Z.of_nat (size (p_cancels quoted)) ∧
  ∀ k rid, p_cancels quoted !! k = Some rid → ∃ r, p_runners quoted !! rid = Some r ∧ r_key r = k.
Proof.
  apply (in_flight_exact cfg policy false false quoted quoted_reachable).
  rewrite (view_next quoted quoted_literal quoted_view). reflexivity.
Defined.

Definition expired : Cancel :=
  {| cn_Envelope := {| env_ProtocolVersion := 2; env_JobID := jobID; env_MsgID := jobID;
                       env_Expiry := now - 1 |}; cn_Reason := None |}.



Lemma cancel_takes_effect_witness :
  let s' := (Runner.handle cfg DefaultValidator policy false false
               (EMessage peer MessageTypeCancel cancel_payload) quoted).1 in
  p_out s' = p_out quoted ++ [OCtxDone 0] ∧ p_cancels s' = delete key (p_cancels quoted) ∧
  Get key (p_jobs s') = set_State StateCanceled <$> Get key (p_jobs quoted) ∧
  ∃ r, p_runners s' !! 0%nat = Some r ∧ r_key r = key ∧ r_ctxDone r = true.
Proof.
  apply (cancel_takes_effect cfg policy false false peer cancel_payload cancel quoted 0 quoted_reachable).
  - vm_compute. reflexivity.
  - apply (view_accepted quoted quoted_literal quoted_view). reflexivity.
  - exact (view_cancels quoted quoted_literal quoted_view).
Defined.

Definition a_quote : QuoteResponse :=
  Eval vm_compute in default
    {| qs_Envelope := envelope Byte.x01; qs_PriceMsat := 0; qs_QuoteExpiry := 0; qs_TermsHash := [];
       qs_PaymentRequest := "" |} (j_QuoteResponse done_job).
Definition a_stream : InputStreamState :=
  Eval vm_compute in default
    {| is_StreamID := []; is_ContentType := ""; is_ContentEncoding := ""; is_ExpectedSeq := 0;
       is_Buf := []; is_TotalLen := 0; is_SHA256 := []; is_Validated := false |} (j_InputStream done_job).

(** The job is done, and starts again. *)
Lemma retry_restarts_job_witness :
  j_State done_job = StateDone ∧
  let s' := (handleExistingQuoteRequest cfg peer (job_key done_job) (request Byte.x06) now 16384 done_job paid).1 in
  p_cancels s' !! job_key done_job = Some (p_nextRunner paid) ∧
  ∃ r, p_runners s' !! p_nextRunner paid = Some r ∧ r_key r = job_key done_job ∧
    r_req r = request Byte.x06 ∧ r_input r = a_stream ∧
    r_pc r = PcSettle ∧ r_ctxDone r = false ∧ r_invoice r = invoiceFromJob done_job a_quote.
Proof.
  split; [reflexivity|].
  apply (retry_restarts_job cfg peer (request Byte.x06) now 16384 done_job a_stream a_quote paid).
  - vm_compute. reflexivity.
  - right. vm_compute. discriminate.
  - reflexivity.
  - reflexivity.
  - reflexivity.
  - exists quote_payload. split; [vm_compute; reflexivity|]. right. vm_compute. discriminate.
  - reflexivity.
  - exact (view_cancels paid paid_literal paid_view).
Defined.

(** The requester retries the quote request of the finished job under a fresh
    message id; the runner finds the invoice settled. *)
Definition replayed_run : list event := paid_run ++ [quote_msg Byte.x06; ESettle 1 SettleOK; EPlan 1].

Definition executions (l : list out) : list (nat * Key * Task) :=
  omap (λ o, match o with OExec rid k t _ => Some (rid, k, t) | _ => None end) l.
Definition invoices (l : list out) : list InvoiceRequest :=
  omap (λ o, match o with OInvoice r _ => Some r | _ => None end) l.

End ProviderExamples.
