(* ===== verification/ProviderProgress.v ===== *)
(** * Progress of the provider's runners

    Nothing but its own steps moves a runner, each of them moves it forward, and a
    runner whose invoice was settled executes the planned task: planning cannot fail
    after the quote. *)

From S2P Require Import Prelude GoStd TlvLib Wire WireProofs Stores Replay JobStore PeerDir Terms Pricing Validation Provider ResultSend Runner ResultProofs ProviderInv ProviderSafety ProviderTheorems.

Import JobStore.

(** ** What leaves the runners alone *)

(** The directory is the same; runners are only added, and those that were there are
    unchanged or have their context done, the ones of [moved] apart. *)
Definition frame (moved : nat → Prop) (s s' : PState) : Prop :=
  p_peers s' = p_peers s ∧
  (p_nextRunner s ≤ p_nextRunner s')%nat ∧
  ∀ rid r, (rid < p_nextRunner s)%nat → ¬ moved rid → p_runners s !! rid = Some r →
    ∃ r', p_runners s' !! rid = Some r' ∧ (r' = r ∨ r' = set_ctxDone r).

Definition nobody (rid : nat) : Prop := False.
Definition framed {A} (m : M A) : Prop := ∀ s, frame nobody s (m s).1.

Lemma frame_refl moved s : frame moved s s.
Proof. split_and!; [done|done|]. eauto. Qed.

Lemma frame_trans moved s s' s'' : frame moved s s' → frame moved s' s'' → frame moved s s''.
Proof.
  intros (Hp & Hn & H) (Hp' & Hn' & H'). split_and!; [congruence|lia|]. intros rid r Hrid Hm Hr.
  destruct (H rid r Hrid Hm Hr) as (r' & Hr' & He). destruct (H' rid r' ltac:(lia) Hm Hr') as (r'' & Hr'' & He').
  exists r''. split; [done|]. destruct He as [-> | ->], He' as [-> | ->]; auto.
Qed.

Lemma frame_moved moved moved' s s' : (∀ rid, moved rid → moved' rid) → frame moved s s' → frame moved' s s'.
Proof. intros Hm (Hp & Hn & H). split_and!; [done..|]. intros rid r Hrid Hno. apply H; auto. Qed.

(** Same runners. *)
Lemma frame_same moved s s' :
  p_peers s' = p_peers s → p_runners s' = p_runners s → p_nextRunner s' = p_nextRunner s → frame moved s s'.
Proof. intros Hp Hr Hn. split_and!; [done|lia|]. rewrite Hr. eauto. Qed.

Lemma framed_ret {A} (a : A) : framed (mret a).
Proof. intros s. apply frame_refl. Qed.

Lemma framed_bind {A B} (m : M A) (k : A → M B) : framed m → (∀ a, framed (k a)) → framed (m ≫= k).
Proof. intros Hm Hk s. eapply frame_trans; [apply Hm|]. apply Hk. Qed.

Lemma framed_reads {A} (f : PState → A) : framed (reads f).
Proof. intros s. apply frame_refl. Qed.

Lemma framed_only {P A} (m : M A) : only P m → framed m.
Proof. intros Hm s. destruct (Hm s) as (evs & [n Hs] & _). rewrite Hs. by apply frame_same. Qed.

Create HintDb framed.
#[export] Hint Resolve framed_ret framed_reads : framed.

Section progress.
Context {T : TlvLib} {J : JsonLib} {F : Fmt} {W : WireText} {E : ProviderEnv} {EN : Environ}
        {RJ : MapRange Key Job} {RR : MapRange ReplayStore.Key Z} {RZ : MapRange Z bytes}
        {RM : MapRange string ModelConfig}.
Context (cfg : Config) (policy : ExecutionPolicy) (backendDisabled backendStreams : bool).
Abbreviation handle := (Runner.handle cfg DefaultValidator policy backendDisabled backendStreams).
Abbreviation run := (Runner.run cfg DefaultValidator policy backendDisabled backendStreams).
Abbreviation reachable := (Runner.reachable cfg DefaultValidator policy backendDisabled backendStreams).

Lemma framed_clock : framed clockNow.
Proof. intros s. by apply frame_same. Qed.
Lemma framed_nowUnix : framed nowUnix.
Proof. apply framed_bind; [apply framed_clock|]. intros now. apply framed_ret. Qed.
Lemma framed_sendError peer env code msg : framed (sendError cfg peer env code msg).
Proof. eapply framed_only, errors_sendError. Qed.
Lemma framed_jobsGet key : framed (jobsGet key).
Proof. apply framed_reads. Qed.
Lemma framed_jobsUpsert job : framed (jobsUpsert job).
Proof. apply framed_bind; [apply framed_clock|]. intros now s. by apply frame_same. Qed.
Lemma framed_updateState key st : framed (updateState key st).
Proof. intros s. by apply frame_same. Qed.
Lemma framed_checkReplay peer env now : framed (checkReplay peer env now).
Proof. intros s. unfold checkReplay. destruct (ReplayStore.CheckAndRemember _ _ _ _). by apply frame_same. Qed.
Lemma framed_send peer typ payload : framed (SendCustomMessage peer typ payload).
Proof. intros s. by apply frame_same. Qed.
Lemma framed_invoice ireq : framed (CreateInvoice ireq).
Proof. intros s. by apply frame_same. Qed.
Lemma framed_msgID : framed mustNewMsgID.
Proof. intros s. by apply frame_same. Qed.
Lemma framed_emits o : framed (emits o).
Proof. intros s. by apply frame_same. Qed.

Lemma frame_cancelRunner moved rid s : frame moved s (cancelRunner rid s).
Proof.
  split_and!; [done..|]. intros rid' r _ _ Hr. cbn. destruct (decide (rid = rid')) as [->|].
  - rewrite lookup_alter_eq, Hr. eauto.
  - rewrite lookup_alter_ne by done. eauto.
Qed.

Lemma framed_cancelJob key : framed (cancelJob key).
Proof.
  intros s. unfold cancelJob. destruct (p_cancels s !! key); [|apply frame_refl]. cbn [fst].
  eapply frame_trans; [|apply frame_cancelRunner]. by apply frame_same.
Qed.

Lemma framed_forgetJob key : framed (forgetJob key).
Proof. intros s. unfold forgetJob. destruct (p_cancels s !! key); by apply frame_same. Qed.

Lemma framed_registerRunner key r : framed (registerRunner key r).
Proof.
  intros s. unfold registerRunner. destruct (p_cancels s !! key); [apply frame_refl|].
  split_and!; cbn; [done|lia|]. intros rid r' Hrid _ Hr. rewrite lookup_insert_ne by lia. eauto.
Qed.

Lemma framed_startJobRunner key req input quote invoice max :
  framed (startJobRunner key req input quote invoice max).
Proof. apply framed_bind; [apply framed_nowUnix|]. intros now. apply framed_registerRunner. Qed.
End progress.

#[export] Hint Resolve framed_nowUnix framed_sendError framed_jobsGet framed_jobsUpsert framed_updateState
  framed_checkReplay framed_send framed_invoice framed_msgID framed_emits framed_cancelJob framed_forgetJob
  framed_startJobRunner : framed.

(** Take a handler apart. *)
Ltac framed_step :=
  first
    [ solve [auto with framed]
    | apply framed_bind; [|intros ?]
    | progress cbv beta zeta
    | match goal with |- framed (match ?x with _ => _ end) => destruct x end ].

Section steps.
Context {T : TlvLib} {J : JsonLib} {F : Fmt} {W : WireText} {E : ProviderEnv} {EN : Environ}
        {RJ : MapRange Key Job} {RR : MapRange ReplayStore.Key Z} {RZ : MapRange Z bytes}
        {RM : MapRange string ModelConfig}.
Context (cfg : Config) (policy : ExecutionPolicy) (backendDisabled backendStreams : bool).
Abbreviation handle := (Runner.handle cfg DefaultValidator policy backendDisabled backendStreams).
Abbreviation run := (Runner.run cfg DefaultValidator policy backendDisabled backendStreams).
Abbreviation reachable := (Runner.reachable cfg DefaultValidator policy backendDisabled backendStreams).

(** ** Messages *)

Lemma framed_remoteManifestFor peer : framed (remoteManifestFor peer).
Proof. apply framed_reads. Qed.
Lemma framed_sendQuoteResponse peer resp max : framed (sendQuoteResponse cfg peer resp max).
Proof. unfold sendQuoteResponse. repeat framed_step. Qed.
Lemma framed_rejectUnavailable peer env : framed (rejectQuoteRequestIfProviderUnavailable cfg backendDisabled peer env).
Proof. unfold rejectQuoteRequestIfProviderUnavailable. repeat framed_step. Qed.
Lemma framed_rejectUnsupported peer req : framed (rejectQuoteRequestIfUnsupportedModel cfg peer req).
Proof. unfold rejectQuoteRequestIfUnsupportedModel. repeat framed_step. Qed.
#[local] Hint Resolve framed_remoteManifestFor framed_sendQuoteResponse framed_rejectUnavailable
  framed_rejectUnsupported : framed.

Lemma framed_message peer typ payload :
  framed (HandleInboundCustomMessage cfg DefaultValidator policy backendDisabled peer typ payload).
Proof.
  unfold HandleInboundCustomMessage, handleQuoteRequest, handleExistingQuoteRequest, handleStreamBegin, handleStreamChunk, handleStreamEnd, handleValidatedInputStreamEnd, inFlightJobs,
    createInvoiceAndStartQuoteJob, newQuoteResponse, handleCancel, done_.
  repeat framed_step.
Qed.

(** ** Steps of a runner *)

(** How far a runner is from its end. *)
Definition rank (p : pc) : nat :=
  match p with PcSettle => 4 | PcPlan => 3 | PcExec _ _ _ => 2 | PcStream _ => 1 | PcDone => 0 end.

(** The event is the one the runner waits for; a backend answers through the interface
    that was called. *)
Definition own (rid : nat) (p : pc) (e : event) : bool :=
  match p, e with
  | PcSettle, ESettle rid' _ | PcPlan, EPlan rid' | PcStream _, EStream rid' => (rid' =? rid)%nat
  | PcExec _ _ streaming, EExec rid' o =>
    (rid' =? rid)%nat && match streaming, o with
                         | _, ExecErr _ | true, ExecNil | true, ExecReader _ | false, ExecOutput _ => true
                         | _, _ => false
                         end
  | _, _ => false
  end.

(** After [m] the runner is at [p]. *)
Lemma goto_spec rid p s : frame (λ x, x = rid) s (goto rid p s).1.
Proof.
  split_and!; [done..|]. intros rid' r _ Hne Hr. cbn. rewrite lookup_alter_ne by done. eauto.
Qed.

(** A segment ends at one of the places [P]. *)
Definition ends_at (rid : nat) (P : pc → Prop) (m : M unit) : Prop :=
  ∀ s, frame (λ x, x = rid) s (m s).1 ∧
    ∀ r, (rid < p_nextRunner s)%nat → p_runners s !! rid = Some r →
      ∃ r0 p, p_runners (m s).1 !! rid = Some (set_pc p r0) ∧ (r0 = r ∨ r0 = set_ctxDone r) ∧ P p.

Lemma ends_goto rid P p : P p → ends_at rid P (goto rid p).
Proof.
  intros HP s. split; [apply goto_spec|]. intros r _ Hr. exists r, p. cbn. rewrite lookup_alter_eq, Hr. auto.
Qed.

Lemma ends_bind {A} rid P (m : M A) (k : A → M unit) :
  framed m → (∀ a, ends_at rid P (k a)) → ends_at rid P (m ≫= k).
Proof.
  intros Hm Hk s. destruct (Hm s) as (_ & Hn & Hf). destruct (Hk (m s).2 (m s).1) as [Hkf Hke]. split.
  - eapply frame_trans; [|exact Hkf]. eapply frame_moved; [|apply Hm]. by intros ? [].
  - intros r Hrid Hr. destruct (Hf rid r Hrid (λ H, H) Hr) as (r' & Hr' & He).
    destruct (Hke r' ltac:(lia) Hr') as (r0 & p & Hp & He' & HP). exists r0, p. split_and!; try done.
    destruct He as [-> | ->], He' as [-> | ->]; auto.
Qed.

Lemma ends_exit rid r (P : pc → Prop) : P PcDone → ends_at rid P (exit rid r).
Proof. intros HP. apply ends_bind; [apply framed_forgetJob|]. intros _. by apply ends_goto. Qed.

Lemma ends_finish rid r st (P : pc → Prop) : P PcDone → ends_at rid P (finish rid r st).
Proof. intros HP. apply ends_bind; [apply framed_updateState|]. intros _. by apply ends_exit. Qed.

Lemma ends_failJob rid r e (P : pc → Prop) : P PcDone → ends_at rid P (failJob cfg rid r e).
Proof.
  intros HP. unfold failJob. destruct (r_ctxDone r); [by apply ends_exit|].
  apply ends_bind; [apply framed_sendError|]. intros _. by apply ends_finish.
Qed.

Lemma ends_settle rid r o : ends_at rid (λ p, rank p < 4)%nat (runSettle rid r o).
Proof.
  destruct o; cbn [runSettle]; [|apply ends_exit; cbn; lia|apply ends_finish; cbn; lia].
  apply ends_bind; [apply framed_emits|]. intros _. apply ends_bind; [apply framed_updateState|].
  intros _. apply ends_goto. cbn. lia.
Qed.

Lemma ends_plan rid r : ends_at rid (λ p, rank p < 3)%nat (runPlan cfg policy backendStreams rid r).
Proof.
  unfold runPlan. destruct (r_ctxDone r); [apply ends_exit; cbn; lia|].
  apply ends_bind; [apply framed_updateState|]. intros _.
  destruct (planTask _ _ _ _) as [[[[planned pol] model] want]|e]; [|apply ends_failJob; cbn; lia].
  apply ends_bind; [apply framed_emits|]. intros _. apply ends_goto. cbn. lia.
Qed.

Lemma ends_exec rid r task want streaming o : own rid (PcExec task want streaming) (EExec rid o) = true →
  ends_at rid (λ p, rank p < 2)%nat (runExec cfg rid r want streaming o).
Proof.
  cbn [own]. rewrite Nat.eqb_refl. cbn [andb]. intros Ho.
  assert (Hf : ∀ e, ends_at rid (λ p, rank p < 2)%nat (failJob cfg rid r e)) by (intros e; apply ends_failJob; cbn; lia).
  destruct streaming, o as [e|output| |reads]; try done; cbn [runExec]; try apply Hf.
  - apply ends_bind; [apply framed_updateState|]. intros _. apply ends_goto. cbn. lia.
  - destruct (_ =? _); [apply Hf|]. apply ends_bind; [eapply framed_only, hush_sendResult|].
    intros ok. apply ends_finish. cbn. lia.
Qed.

Lemma ends_stream rid r reads : ends_at rid (λ p, rank p < 1)%nat (runStream cfg rid r reads).
Proof.
  unfold runStream. apply ends_bind; [eapply framed_only, hush_sendResultStreaming|].
  intros [[x ok] [e|]]; [apply ends_failJob|apply ends_finish]; cbn; lia.
Qed.

(** What a step does to a runner: nothing but its context, unless it is its own. *)
Definition moved_by (e : event) (rid : nat) (r : runner) (s' : PState) : Prop :=
  ∃ r0 p, p_runners s' !! rid = Some (set_pc p r0) ∧ (r0 = r ∨ r0 = set_ctxDone r) ∧
    if own rid (r_pc r) e then (rank p < rank (r_pc r))%nat else p = r_pc r.

Lemma frame_moved_by (moved : nat → Prop) e s s' rid r : (rid < p_nextRunner s)%nat → p_runners s !! rid = Some r →
  own rid (r_pc r) e = false → ¬ moved rid → frame moved s s' → moved_by e rid r s'.
Proof.
  intros Hrid Hr Hown Hno (_ & _ & H). destruct (H rid r Hrid Hno Hr) as (r' & Hr' & He).
  exists r', (r_pc r). rewrite Hown, Hr'. split_and!; [|done|done]. by destruct He as [-> | ->]; destruct r.
Qed.

Lemma own_rid rid rid' p e : rid' ≠ rid →
  (∃ o, e = ESettle rid' o) ∨ e = EPlan rid' ∨ (∃ o, e = EExec rid' o) ∨ e = EStream rid' → own rid p e = false.
Proof.
  intros Hne. assert (Hb : (rid' =? rid)%nat = false) by by apply Nat.eqb_neq.
  intros [[o ->]|[->|[[o ->]| ->]]]; destruct p; cbn; by rewrite ?Hb.
Qed.

(** The event whose runner it is. *)
Definition runner_of (e : event) : option nat :=
  match e with ESettle rid _ | EPlan rid | EExec rid _ | EStream rid => Some rid | _ => None end.

Lemma own_runner rid p e : own rid p e = true → runner_of e = Some rid.
Proof.
  destruct p, e; cbn; try done; try (by intros ->%Nat.eqb_eq); by intros [->%Nat.eqb_eq _]%andb_true_iff.
Qed.

(** The directory after an event. *)
Definition told (e : event) (s : PState) : PState :=
  match e with
  | EPeers d => MkState (p_jobs s) (p_replay s) d (p_cancels s) (p_inFlight s) (p_runners s) (p_nextRunner s)
                  (p_tick s) (p_out s)
  | _ => s
  end.

(** A step is a segment of one runner, or leaves the runners alone. *)
Lemma handle_split e s :
  (frame nobody (told e s) (handle e s).1 ∧ ∀ rid r, p_runners s !! rid = Some r → own rid (r_pc r) e = false) ∨
  (∃ rid r m, p_runners s !! rid = Some r ∧ own rid (r_pc r) e = true ∧
     ends_at rid (λ p, rank p < rank (r_pc r))%nat m ∧ handle e s = m s).
Proof.
  (** An event without a runner that waits for it. *)
  assert (Hidle : (∀ rid r, runner_of e = Some rid → p_runners s !! rid = Some r → own rid (r_pc r) e = false) →
    ∀ rid r, p_runners s !! rid = Some r → own rid (r_pc r) e = false).
  { intros H rid r Hr. destruct (own rid (r_pc r) e) eqn:Ho; [|done]. rewrite (H rid r) in Ho; [done| |done].
    by eapply own_runner. }
  destruct (runner_of e) as [rid|] eqn:He.
  2: { left. split; [|by apply Hidle]. destruct e; try done; cbn [Runner.handle told].
    - apply framed_message.
    - destruct (p_runners s !! rid) as [r|]; [|apply frame_refl].
      destruct (r_timeout r); [apply frame_cancelRunner|apply frame_refl].
    - by apply frame_same. }
  destruct (p_runners s !! rid) as [r|] eqn:Hr.
  2: { left. split; [|apply Hidle; congruence].
    destruct e; try done; injection He as ->; cbn [Runner.handle told]; rewrite Hr; apply frame_refl. }
  destruct (own rid (r_pc r) e) eqn:Hown.
  - right. exists rid, r. destruct e as [|rid' o|rid'|rid' o|rid'| |]; try done; injection He as ->; cbn [Runner.handle]; rewrite Hr;
      destruct (r_pc r) as [| |task want streaming|reads|] eqn:Hpc; try done.
    + exists (runSettle rid r o). auto using ends_settle.
    + exists (runPlan cfg policy backendStreams rid r). auto using ends_plan.
    + exists (runExec cfg rid r want streaming o). split_and!; try done. by eapply ends_exec.
    + exists (runStream cfg rid r reads). auto using ends_stream.
  - left. split; [|apply Hidle; congruence].
    destruct e as [|rid' o|rid'|rid' o|rid'| |]; try done; injection He as ->; cbn [Runner.handle]; rewrite Hr;
      destruct (r_pc r) as [| |task want streaming|reads|]; try apply frame_refl; cbn [own] in Hown;
      rewrite Nat.eqb_refl in Hown; try done.
    destruct streaming, o; try done; apply frame_refl.
Qed.

Lemma step_spec e s rid r : (rid < p_nextRunner s)%nat → p_runners s !! rid = Some r →
  (p_nextRunner s ≤ p_nextRunner (handle e s).1)%nat ∧ moved_by e rid r (handle e s).1.
Proof.
  intros Hrid Hr. destruct (handle_split e s) as [[Hf Hno]|(rid' & r' & m & Hr' & Hown & Hm & ->)].
  - destruct Hf as (Hp & Hn & Hf). replace (p_nextRunner (told e s)) with (p_nextRunner s) in Hn by by destruct e.
    split; [done|]. apply (frame_moved_by nobody e (told e s)); [by destruct e|by destruct e|by apply Hno|by intros []|].
    split_and!; [done|by destruct e|done].
  - destruct (Hm s) as [Hf He]. split; [apply Hf|]. destruct (decide (rid = rid')) as [->|Hne].
    + rewrite Hr in Hr'. injection Hr' as <-. destruct (He r Hrid Hr) as (r0 & p & Hp & H0 & Hlt).
      exists r0, p. by rewrite Hown.
    + apply (frame_moved_by (λ x, x = rid') e s); try done. destruct (own rid (r_pc r) e) eqn:Ho; [|done].
      apply own_runner in Ho, Hown. congruence.
Qed.

(** Only [EPeers] changes the directory. *)
Lemma handle_peers e s : p_peers (handle e s).1 = p_peers (told e s).
Proof.
  destruct (handle_split e s) as [[Hf _]|(rid & r & m & _ & Hown & Hm & ->)]; [apply Hf|].
  apply own_runner in Hown. destruct (Hm s) as [Hf _]. destruct e; try done; apply Hf.
Qed.

(** ** Runs *)

Lemma reach_fresh `{!TlvLaws T} s rid r : reachable s → p_runners s !! rid = Some r → (rid < p_nextRunner s)%nat.
Proof.
  intros Hs Hr. destruct (decide (rid < p_nextRunner s)%nat) as [|Hge]; [done|].
  pose proof (Inv_reachable cfg policy backendDisabled backendStreams s Hs) as Hinv.
  rewrite (inv_fresh _ _ _ Hinv rid) in Hr by lia. done.
Qed.

(** The steps of a run that are the runner's own. *)
Fixpoint own_steps (rid : nat) (es : list event) (s : PState) : nat :=
  match es with
  | [] => 0
  | e :: es =>
    (if match p_runners s !! rid with Some r => own rid (r_pc r) e | None => false end then 1 else 0) +
    own_steps rid es (handle e s).1
  end.

Lemma run_rank es : ∀ s rid r, (rid < p_nextRunner s)%nat → p_runners s !! rid = Some r →
  ∃ r', p_runners (run es s) !! rid = Some r' ∧ r_key r' = r_key r ∧
    (rank (r_pc r') + own_steps rid es s ≤ rank (r_pc r))%nat ∧
    (own_steps rid es s = 0%nat → r' = r ∨ r' = set_ctxDone r).
Proof.
  induction es as [|e es IH]; intros s rid r Hrid Hr; cbn [Runner.run fold_left own_steps].
  - exists r. split_and!; [done|done|lia|auto].
  - destruct (step_spec e s rid r Hrid Hr) as (Hn & r0 & p & Hp & H0 & Hown).
    destruct (IH (handle e s).1 rid (set_pc p r0) ltac:(lia) Hp) as (r' & Hr' & Hkey & Hrank & Hsame).
    exists r'. rewrite Hr. split_and!; [done| | |].
    + rewrite Hkey. by destruct H0 as [-> | ->].
    + cbn in Hrank. destruct (own rid (r_pc r) e); [|subst p]; lia.
    + destruct (own rid (r_pc r) e); [done|]. intros Hz. subst p. destruct (Hsame Hz) as [-> | ->];
        destruct H0 as [-> | ->]; destruct r; auto.
Qed.

Lemma provider_run_app es es' s : run (es ++ es') s = run es' (run es s).
Proof. apply fold_left_app. Qed.

Lemma reachable_run es s : reachable s → reachable (run es s).
Proof. intros (cap & es0 & ->). exists cap, (es0 ++ es). by rewrite provider_run_app. Qed.

(** A runner about to plan stays there until it does. *)
Lemma waits_to_plan es : ∀ s rid r, (rid < p_nextRunner s)%nat → p_runners s !! rid = Some r → r_pc r = PcPlan →
  EPlan rid ∉ es → own_steps rid es s = 0%nat.
Proof.
  induction es as [|e es IH]; intros s rid r Hrid Hr Hpc Hno; [done|]. apply not_elem_of_cons in Hno as [Hne Hno].
  assert (Hown : own rid (r_pc r) e = false).
  { rewrite Hpc. destruct e; try done. cbn. apply Nat.eqb_neq. congruence. }
  cbn [own_steps]. rewrite Hr, Hown. cbn [Nat.add].
  destruct (step_spec e s rid r Hrid Hr) as (Hn & r0 & p & Hp & H0 & Hp'). rewrite Hown in Hp'.
  apply (IH _ _ (set_pc p r0)); [lia|done|by subst p|done].
Qed.

(** Planning a bound quote calls the backend. *)
Lemma plan_executes s rid r task pol model want :
  p_runners s !! rid = Some r → r_pc r = PcPlan → r_ctxDone r = false →
  planTask cfg policy (r_req r) (is_Buf (r_input r)) = Ok (task, pol, model, want) →
  let s' := (handle (EPlan rid) s).1 in
  p_out s' = p_out s ++ [OExec rid (r_key r) task (want && backendStreams)] ∧
  p_runners s' !! rid = Some (set_pc (PcExec task want (want && backendStreams)) r).
Proof.
  intros Hr Hpc Hctx Hplan. cbn [Runner.handle]. rewrite Hr, Hpc. unfold runPlan. rewrite Hctx, Hplan.
  split; [done|]. unfold mbind, M_bind. cbn. by rewrite lookup_alter_eq, Hr.
Qed.

Lemma finish_out rid r st s : p_out (finish rid r st s).1 = p_out s.
Proof.
  unfold finish, exit, forgetJob, mbind, M_bind. cbn. by destruct (p_cancels s !! r_key r).
Qed.

(** The backend's output is sent. *)
Lemma exec_sends s rid r task want output :
  p_runners s !! rid = Some r → r_pc r = PcExec task want false → output ≠ [] →
  p_out (handle (EExec rid (ExecOutput output)) s).1 =
  p_out (sendResult cfg (k_PeerPubKey (r_key r)) (qs_Envelope (r_quote r)) (qr_TaskKind (r_req r)) want
           (blen (is_Buf (r_input r))) output (r_maxPayload r) s).1.
Proof.
  intros Hr Hpc Hne. cbn [Runner.handle]. rewrite Hr, Hpc. cbn [runExec].
  destruct (Z.eqb_spec (blen output) 0) as [Hz|_]; [by apply blen_zero in Hz|].
  unfold mbind, M_bind. apply finish_out.
Qed.

(** C3: What was paid for is executed.  From any reachable state in which a runner waits
    for its invoice: once the settlement is reported, and whatever else happens before
    its next step, short of the end of its context, that step calls the backend with the
    task planned from the request and the input of the job.  It cannot fail to plan what
    was quoted; and the output of the backend is what sendResult is given. *)
Theorem paid_job_executed `{!TlvLaws T} s rid r es r' :
  reachable s → p_runners s !! rid = Some r → r_pc r = PcSettle → EPlan rid ∉ es →
  let s' := run (ESettle rid SettleOK :: es) s in
  p_runners s' !! rid = Some r' → r_ctxDone r' = false →
  ∃ task pol model want, planTask cfg policy (r_req r) (is_Buf (r_input r)) = Ok (task, pol, model, want) ∧
    let s'' := (handle (EPlan rid) s').1 in
    p_out s'' = p_out s' ++ [OExec rid (r_key r) task (want && backendStreams)] ∧
    (want && backendStreams = false → ∀ output, output ≠ [] →
     p_out (handle (EExec rid (ExecOutput output)) s'').1 =
     p_out (sendResult cfg (k_PeerPubKey (r_key r)) (qs_Envelope (r_quote r)) (qr_TaskKind (r_req r)) want
              (blen (is_Buf (r_input r))) output (r_maxPayload r) s'').1).
Proof.
  intros Hs Hr Hpc Hno s' Hr' Hctx. pose proof (reach_fresh s rid r Hs Hr) as Hrid.
  assert (Hsettled : p_runners (handle (ESettle rid SettleOK) s).1 !! rid = Some (set_pc PcPlan r) ∧
    (rid < p_nextRunner (handle (ESettle rid SettleOK) s).1)%nat).
  { cbn [Runner.handle]. rewrite Hr, Hpc. unfold runSettle, mbind, M_bind. cbn. by rewrite lookup_alter_eq, Hr. }
  destruct Hsettled as [Hr1 Hrid1]. change s' with (run es (handle (ESettle rid SettleOK) s).1) in *.
  pose proof (waits_to_plan es _ _ _ Hrid1 Hr1 eq_refl Hno) as Hz.
  destruct (run_rank es _ _ _ Hrid1 Hr1) as (r1 & Hr1' & _ & _ & Hsame). rewrite Hr' in Hr1'. injection Hr1' as <-.
  assert (Hr'eq : r' = set_pc PcPlan r) by (destruct (Hsame Hz) as [H|H]; rewrite H in *; [done|by cbn in Hctx]).
  assert (Hplan : ∃ plan, planTask cfg policy (r_req r) (is_Buf (r_input r)) = Ok plan).
  { pose proof (Inv_reachable cfg policy backendDisabled backendStreams s Hs) as Hinv.
    destruct (inv_runners _ _ _ Hinv rid r Hr) as [(_ & _ & _ & _ & _ & Hp & _) _]. done. }
  destruct Hplan as ([[[task pol] model] want] & Hplan). exists task, pol, model, want. split; [done|].
  destruct (plan_executes (run es (handle (ESettle rid SettleOK) s).1) rid r' task pol model want) as [Hout Hr2];
    try done; try by rewrite Hr'eq. cbv zeta. split; [by rewrite Hout, Hr'eq|].
  intros Hst output Hne. rewrite Hst in Hr2. rewrite Hr'eq in Hr2.
  exact (exec_sends _ rid _ task want output Hr2 eq_refl Hne).
Qed.

End steps.

(** ** A run *)

Module ProgressExamples.
Import ProviderExamples.
#[local] Existing Instances tlv no_environ rj rr rz rm fmt text json world.

(** The runner of the quoted job, and what happens between the settlement and its next
    step: a retry of the quote request and events of runners that are not there. *)
Definition no_runner : runner := MkRunner key (request Byte.x01) a_stream a_quote invoice 0 None true PcDone.
Definition waiting : runner := Eval vm_compute in default no_runner (p_runners quoted !! 0%nat).
Definition meanwhile : list event := [quote_msg Byte.x06; EPlan 3; ETimeout 4].
Definition settled : PState :=
  Runner.run cfg DefaultValidator policy false false (ESettle 0 SettleOK :: meanwhile) quoted.
Definition planning : runner := Eval vm_compute in default no_runner (p_runners settled !! 0%nat).

Lemma waiting_eq : p_runners quoted !! 0%nat = Some waiting.
Proof. vm_compute. reflexivity. Qed.
Lemma planning_eq : p_runners settled !! 0%nat = Some planning.
Proof. vm_compute. reflexivity. Qed.

Lemma paid_job_executed_witness : ∃ task pol model want,
  planTask cfg policy (request Byte.x01) input = Ok (task, pol, model, want) ∧
  p_out (Runner.handle cfg DefaultValidator policy false false (EPlan 0) settled).1 =
  p_out settled ++ [OExec 0 key task (want && false)].
Proof.
  destruct (paid_job_executed cfg policy false false quoted 0 waiting meanwhile planning quoted_reachable waiting_eq)
    as (task & pol & model & want & Hplan & Hout & _).
  - reflexivity.
  - unfold meanwhile. rewrite !not_elem_of_cons. repeat split; try discriminate. apply not_elem_of_nil.
  - exact planning_eq.
  - reflexivity.
  - exists task, pol, model, want. split; [exact Hplan|exact Hout].
Defined.

End ProgressExamples.
