(* ===== verification/Requester.v ===== *)
(** * The requester: [grpcservice/lcpd/service.go]

    The gRPC service that requests quotes, pays invoices and waits for results.  As
    for the provider, a method is a function in a state monad, and what the code
    cannot compute is answered by the environment ([RequesterEnv], [LightningRPC]),
    a different answer for every effect.  A method that blocks (on a quote, on a
    payment, on a result) is cut there: the call is parked in [s_calls] and goes on
    with an event of [RequesterRun.v], which has the methods that pay and cancel.

    The RPC requests were decoded by the generated code; [protovalidate] is a
    parameter ([Validator]).  Logging is left out. *)

From stdpp Require Import pretty.
From S2P Require Import Prelude GoStd TlvLib Wire Stores PeerDir Terms Pricing Validation Lightning Tasks ReqJobStore Waiter.

(** ** gRPC statuses *)

Inductive Code :=
| CodeOK | Canceled | Unknown | InvalidArgument | DeadlineExceeded | NotFound | AlreadyExists
| PermissionDenied | ResourceExhausted | FailedPrecondition | Aborted | OutOfRange | Unimplemented
| Internal | Unavailable | DataLoss | Unauthenticated.

#[export] Instance Code_eq_dec : EqDecision Code.
Proof. solve_decision. Defined.

Record Status := MkStatus { st_Code : Code; st_Message : string }.

(** [ctx.Err()]. *)
Inductive ctx_err := CtxCanceled | CtxDeadlineExceeded.

(** ** Requests and responses *)

Record RequestQuoteRequest := { rq_PeerId : string; rq_Task : option Tasks.Task }.
(** [AcceptAndExecuteRequest] and [AcceptAndExecuteStreamRequest]. *)
Record AcceptRequest := { ar_PeerId : string; ar_JobId : bytes; ar_PayInvoice : bool }.
Record CancelJobRequest := { cj_PeerId : string; cj_JobId : bytes; cj_Reason : string }.

Inductive ResultStatus := STATUS_OK | STATUS_FAILED | STATUS_CANCELLED.

#[export] Instance ResultStatus_eq_dec : EqDecision ResultStatus.
Proof. solve_decision. Defined.

(** [lcpdv1.Result]. *)
Record PbResult := MkPbResult {
  pr_Status : ResultStatus;
  pr_Result : bytes;
  pr_ResultHash : bytes;
  pr_ResultLen : Z;
  pr_ContentType : string;
  pr_ContentEncoding : string;
  pr_Message : string;
}.

Inductive LCPTaskKind := KIND_OPENAI_CHAT_COMPLETIONS_V1 | KIND_OPENAI_RESPONSES_V1.

(** [lcpdv1.LCPTaskTemplate]: the kind and the model of its params template. *)
Record PbTemplate := { pb_Kind : LCPTaskKind; pb_Model : string }.

Record PbManifest := {
  pb_ProtocolVersion : Z;
  pb_MaxPayloadBytes : Z;
  pb_MaxStreamBytes : Z;
  pb_MaxJobBytes : Z;
  pb_MaxInflightJobs : Z;
  pb_SupportedTasks : list PbTemplate;
}.

Record PbPeer := { pp_PeerId : string; pp_Address : string; pp_RemoteManifest : PbManifest }.

(** [AcceptAndExecuteStreamResponse]. *)
Inductive StreamResponse :=
| RespBegin (contentType contentEncoding : string)
| RespChunk (data : bytes)
| RespEnd (resultHash : bytes) (resultLen : Z)
| RespResult (res : PbResult).

Inductive Reply :=
| ReplyPeers (peers : list PbPeer)
| ReplyInfo (nodeID : string) (manifest : PbManifest)
| ReplyQuote (peerID : string) (terms : ReqJobStore.PbTerms)
| ReplyResult (res : PbResult)
| ReplyStream
| ReplyCancel.

(** ** Parameters *)

Class RequesterEnv := {
  q_clock : nat → Z;
  q_rand : nat → option bytes;
  q_send : nat → option string;
  q_ctx : nat → option ctx_err;
  q_stream : nat → option Status;
}.

(** [protovalidate]: the text of its error. *)
Class Validator := {
  pv_list : option string;
  pv_info : option string;
  pv_quote : RequestQuoteRequest → option string;
  pv_accept : AcceptRequest → option string;
  pv_stream : AcceptRequest → option string;
  pv_cancel : CancelJobRequest → option string;
}.

(** [Error()] of the errors of [protocolcompat]. *)
Class TermsText := terms_text : terms_err → string.

(** ** State *)

(** The goroutine that [AcceptAndExecuteStream] starts to wait for the result. *)
Inductive waitGo :=
| WaitPending
| WaitBlocked (ch : nat)
| WaitDone (res : result Waiter.wait_err Waiter.ResultOutcome).

(** Where a call is blocked: on the quote, on the payment, on the result, in the
    [select] of the streaming call (which has received [consumed] events of its
    subscription), or returned, with its goroutine left. *)
Inductive call :=
| CallQuote (peerID : string) (task : option Tasks.Task) (jobID : bytes) (wireTask : Tasks.QuoteRequestTask)
    (inputStream : Tasks.InputStream) (ch : nat)
| CallPay (peerID : string) (jobID : bytes) (terms : ReqJobStore.PbTerms) (sub : option nat)
| CallResult (peerID : string) (jobID : bytes) (ch : nat)
| CallStream (peerID : string) (jobID : bytes) (sub consumed : nat) (wait : waitGo)
| CallLeft (peerID : string) (jobID : bytes) (wait : waitGo).

Abbreviation JobStoreT := (@ReqJobStore.Store Tasks.Task).
Abbreviation JobEntryT := (@ReqJobStore.jobEntry Tasks.Task).

Inductive rout :=
| RSent (peerID : string) (typ : Z) (payload : bytes) (err : option string)
| RPay (cid : nat) (peerID : string) (jobID : bytes) (paymentRequest : string)
| RStream (cid : nat) (resp : StreamResponse) (err : option Status)
| RReturn (cid : nat) (reply : result Status Reply).

Record RState := MkRState {
  s_jobs : JobStoreT;
  s_peers : PeerDir.Directory;
  s_waiter : Waiter.Waiter;
  s_calls : gmap nat call;
  s_next : nat;
  s_tick : nat;
  s_out : list rout;
}.

Definition with_jobs (j : JobStoreT) (s : RState) : RState :=
  MkRState j (s_peers s) (s_waiter s) (s_calls s) (s_next s) (s_tick s) (s_out s).
Definition with_peers (p : PeerDir.Directory) (s : RState) : RState :=
  MkRState (s_jobs s) p (s_waiter s) (s_calls s) (s_next s) (s_tick s) (s_out s).
Definition with_waiter (w : Waiter.Waiter) (s : RState) : RState :=
  MkRState (s_jobs s) (s_peers s) w (s_calls s) (s_next s) (s_tick s) (s_out s).
Definition with_calls (c : gmap nat call) (s : RState) : RState :=
  MkRState (s_jobs s) (s_peers s) (s_waiter s) c (s_next s) (s_tick s) (s_out s).
Definition fresh_call (s : RState) : RState :=
  MkRState (s_jobs s) (s_peers s) (s_waiter s) (s_calls s) (S (s_next s)) (s_tick s) (s_out s).
Definition ticked (s : RState) : RState :=
  MkRState (s_jobs s) (s_peers s) (s_waiter s) (s_calls s) (s_next s) (S (s_tick s)) (s_out s).
Definition outs (o : rout) (s : RState) : RState :=
  MkRState (s_jobs s) (s_peers s) (s_waiter s) (s_calls s) (s_next s) (s_tick s) (s_out s ++ [o]).

(** ** The monad *)

Definition RM (A : Type) : Type := RState → RState * A.

#[export] Instance RM_ret : MRet RM := λ A a s, (s, a).
#[export] Instance RM_bind : MBind RM := λ A B k m s, k (m s).2 (m s).1.

(** A fallible method; [x ←! m; k] returns early with the status of [m]. *)
Abbreviation RE A := (RM (result Status A)).
Definition rok {A} (a : A) : RE A := mret (Ok a).
Definition fail {A} (code : Code) (msg : string) : RE A := mret (Err (MkStatus code msg)).
Definition try {A B} (m : RE A) (k : A → RE B) : RE B :=
  r ← m; match r with Ok a => k a | Err e => mret (Err e) end.
Notation "x ←! y ; z" := (try y (λ x : _, z))
  (at level 20, y at level 100, z at level 200, only parsing).
Notation "' x ←! y ; z" := (try y (λ x : _, z))
  (at level 20, x pattern, y at level 100, z at level 200, only parsing).

Definition modify (f : RState → RState) : RM unit := λ s, (f s, tt).
Definition asks {A} (f : RState → A) : RM A := λ s, (s, f s).
(** [if !b { return status.Error(code, msg) }]. *)
Definition check (b : bool) (code : Code) (msg : string) : RE unit :=
  if b then rok tt else fail code msg.
(** A pure call whose error becomes a status. *)
Definition lift {E A} (r : result E A) (st : E → Status) : RE A :=
  mret match r with Ok a => Ok a | Err e => Err (st e) end.
(** [s.validate(req)]. *)
Definition validated (err : option string) : RE unit :=
  match err with Some m => fail InvalidArgument m | None => rok tt end.

Definition maxInt64 : Z := max_i64.
Definition defaultMaxPayloadBytes : Z := 16384.
Definition defaultEnvelopeTTLSeconds : Z := 300.
Definition defaultAllowedClockSkewSeconds : Z := 5.

Definition defaultLocalManifest : Manifest :=
  {| mf_ProtocolVersion := ProtocolVersionV02; mf_MaxPayloadBytes := defaultMaxPayloadBytes;
     mf_MaxStreamBytes := defaultMaxStreamBytes; mf_MaxJobBytes := defaultMaxJobBytes;
     mf_MaxInflightJobs := None; mf_SupportedTasks := [] |}.

(** ** Status conversions *)

Definition grpcStatusFromWaiterError (ctx : option ctx_err) (err : Waiter.wait_err) : Status :=
  match err with
  | Waiter.ErrWaitCancelled =>
    match ctx with
    | Some CtxDeadlineExceeded => MkStatus DeadlineExceeded "deadline exceeded waiting for peer response"
    | Some CtxCanceled => MkStatus Canceled "request cancelled"
    | None => MkStatus DeadlineExceeded "wait cancelled"
    end
  | Waiter.ErrAlreadyWaitingQuote | Waiter.ErrAlreadyWaitingResult =>
    MkStatus FailedPrecondition "another request is already waiting for this job"
  | Waiter.ErrPeerIDRequired => MkStatus InvalidArgument "peer_id is required"
  | Waiter.ErrAlreadySubscribed => MkStatus Internal "result stream subscriber already registered"
  end.

Definition grpcStatusFromJobStoreError (err : ReqJobStore.store_err) : Status :=
  match err with
  | ReqJobStore.ErrNotFound => MkStatus NotFound "job not found"
  | ReqJobStore.ErrExpired => MkStatus FailedPrecondition "quote expired"
  | _ => MkStatus Internal "job store error"
  end.

Definition grpcCodeFromLCPErrorCode (code : Z) : Code :=
  if bool_decide (code ∈ [ErrorCodePayloadTooLarge; ErrorCodeRateLimited]) then ResourceExhausted
  else if bool_decide (code ∈ [ErrorCodeUnsupportedVersion; ErrorCodeUnsupportedTask;
         ErrorCodeUnsupportedParams; ErrorCodeUnsupportedEncoding; ErrorCodeInvalidState;
         ErrorCodeChunkOutOfOrder; ErrorCodeChecksumMismatch; ErrorCodeQuoteExpired;
         ErrorCodePaymentRequired; ErrorCodePaymentInvalid]) then FailedPrecondition
  else Internal.

Definition grpcStatusFromLCPError (errMsg : LcpError) : Status :=
  let msg := "lcp_error code=" +:+ pretty (er_Code errMsg) in
  MkStatus (grpcCodeFromLCPErrorCode (er_Code errMsg))
    match er_Message errMsg with
    | Some m => if bool_decide (TrimSpace m = ""%string) then msg else msg +:+ ": " +:+ TrimSpace m
    | None => msg
    end.

Definition grpcStatusFromLightningError (ctx : option ctx_err) (err : ln_err) : Status :=
  match err, ctx with
  | ErrNotConfigured, _ => MkStatus Unavailable "lightning rpc not configured"
  | _, Some CtxDeadlineExceeded => MkStatus DeadlineExceeded "deadline exceeded contacting lightning node"
  | _, Some CtxCanceled => MkStatus Canceled "request cancelled"
  | ErrPaymentFailed _, None | ErrInvalidRequest _, None => MkStatus FailedPrecondition (ln_text err)
  | ErrNode _, None => MkStatus Unavailable (ln_text err)
  end.

Definition grpcStatusFromPeerSendError (ctx : option ctx_err) (err : string) : Status :=
  match ctx with
  | Some CtxDeadlineExceeded => MkStatus DeadlineExceeded "deadline exceeded sending peer message"
  | Some CtxCanceled => MkStatus Canceled "request cancelled"
  | None => MkStatus Unavailable err
  end.

(** [status.FromContextError]. *)
Definition statusFromContextError (err : ctx_err) : Status :=
  match err with
  | CtxCanceled => MkStatus Canceled "context canceled"
  | CtxDeadlineExceeded => MkStatus DeadlineExceeded "context deadline exceeded"
  end.

(** ** Conversions *)

Definition toJobID (b : bytes) : result string bytes :=
  if blen b =? Hash32Len then Ok b
  else Err ("job_id must be " +:+ pretty Hash32Len +:+ " bytes, got " +:+ pretty (blen b)).

Definition toHash32 (b : bytes) : result string bytes :=
  if blen b =? Hash32Len then Ok b
  else Err ("hash must be " +:+ pretty Hash32Len +:+ " bytes, got " +:+ pretty (blen b)).

(** [time.Time] counts seconds from year 1 in an [int64], so [time.Unix] wraps for
    the last [unixToInternal] seconds of the range; [Unix()], as [GetSeconds], wraps
    back. *)
Definition unixToInternal : Z := 62135596800.
Definition goTimeUnix (sec : Z) : Z := (wrap_i64 (sec + unixToInternal) - unixToInternal) * ns_per_sec.
Definition timestampSeconds (ts : Z) : Z := wrap_i64 (time_unix ts).

Definition timestampFromUnixSeconds (sec : Z) : result string Z :=
  if maxInt64 <? sec then Err ("unix seconds overflows int64: " +:+ pretty sec)
  else Ok (goTimeUnix sec).

Definition okResult (terminal : Result) (resultBytes : bytes) : result Status PbResult :=
  match rs_OK terminal with
  | None => Err (MkStatus Internal "missing ok metadata in lcp_result")
  | Some ok => Ok (MkPbResult STATUS_OK resultBytes (ro_ResultHash ok) (ro_ResultLen ok)
                     (ro_ResultContentType ok) (ro_ResultContentEncoding ok) "")
  end.

Definition protoResultFromTerminal (terminal : Result) (resultBytes : bytes) : result Status PbResult :=
  let message := default ""%string (rs_Message terminal) in
  if rs_Status terminal =? ResultStatusOK then okResult terminal resultBytes
  else if rs_Status terminal =? ResultStatusFailed then Ok (MkPbResult STATUS_FAILED [] [] 0 "" "" message)
  else if rs_Status terminal =? ResultStatusCancelled then
    Ok (MkPbResult STATUS_CANCELLED [] [] 0 "" "" message)
  else Err (MkStatus Internal "unknown lcp_result status").

Definition protoResultFromTerminalMetadataOnly (terminal : Result) : result Status PbResult :=
  let message := default ""%string (rs_Message terminal) in
  if rs_Status terminal =? ResultStatusOK then okResult terminal []
  else if rs_Status terminal =? ResultStatusFailed then Ok (MkPbResult STATUS_FAILED [] [] 0 "" "" message)
  else if rs_Status terminal =? ResultStatusCancelled then
    Ok (MkPbResult STATUS_CANCELLED [] [] 0 "" "" message)
  else Err (MkStatus Internal "unknown lcp_result status").

Section service.
Context {T : TlvLib} {W : WireText} {TJ : Tasks.TaskJson} {TX : TermsText} {E : RequesterEnv}
        {V : Validator} {LN : LightningRPC} {EN : Environ}
        {RQ : MapRange ReqJobStore.key JobEntryT} {RP : MapRange string PeerDir.Peer}
        {RZ : MapRange Z bytes}.

(** What the service was built with: whether the peer messenger and the Lightning
    client are configured, and the local manifest. *)
Context (hasMessenger hasLightning : bool) (localManifest : Manifest).

(** *** Manifests *)

Definition toProtoTemplate (tmpl : TaskTemplate) : option PbTemplate :=
  if bool_decide (tt_TaskKind tmpl = taskKindOpenAIChatCompletionsV1) then
    ps ← tt_ParamsBytes tmpl;
    match DecodeOpenAIChatCompletionsV1Params ps with
    | Ok params => Some {| pb_Kind := KIND_OPENAI_CHAT_COMPLETIONS_V1; pb_Model := oa_Model params |}
    | Err _ => None
    end
  else if bool_decide (tt_TaskKind tmpl = taskKindOpenAIResponsesV1) then
    ps ← tt_ParamsBytes tmpl;
    match DecodeOpenAIResponsesV1Params ps with
    | Ok params => Some {| pb_Kind := KIND_OPENAI_RESPONSES_V1; pb_Model := oa_Model params |}
    | Err _ => None
    end
  else None.

Definition toProtoManifest (m : Manifest) : PbManifest :=
  {| pb_ProtocolVersion := mf_ProtocolVersion m; pb_MaxPayloadBytes := mf_MaxPayloadBytes m;
     pb_MaxStreamBytes := mf_MaxStreamBytes m; pb_MaxJobBytes := mf_MaxJobBytes m;
     pb_MaxInflightJobs := default 0 (mf_MaxInflightJobs m);
     pb_SupportedTasks := omap toProtoTemplate (mf_SupportedTasks m) |}.

(** *** Effects *)

Definition clockRead : RM Z := λ s, (ticked s, q_clock (s_tick s)).
Definition ctxErr : RM (option ctx_err) := λ s, (ticked s, q_ctx (s_tick s)).

(** A call of the Lightning client. *)
Definition lightningCall {A} (f : nat → A) : RM A := λ s, (ticked s, f (s_tick s)).

(** [rand.Read]; [what] names what was to be generated. *)
Definition randomBytes (what : string) : RE bytes := λ s,
  (ticked s, match q_rand (s_tick s) with
             | Some b => Ok b
             | None => Err (MkStatus Internal ("generate " +:+ what +:+ " failed"))
             end).

Definition NewJobID : RE bytes := randomBytes "job_id".
Definition newMsgID : RE bytes := randomBytes "msg_id".

Definition newEnvelopeExpiry : RE Z :=
  now ← clockRead;
  let unix := time_unix now in
  if unix <? 0 then fail Internal "generate envelope expiry failed"
  else if max_u64 - defaultEnvelopeTTLSeconds <? unix then
    fail Internal "generate envelope expiry failed"
  else rok (unix + defaultEnvelopeTTLSeconds).

(** [s.messenger.SendCustomMessage]. *)
Definition messengerSend (peerID : string) (typ : Z) (payload : bytes) : RM (option string) := λ s,
  let err := q_send (s_tick s) in (outs (RSent peerID typ payload err) (ticked s), err).

(** The call and the conversion of its error. *)
Definition sendPeer (peerID : string) (typ : Z) (payload : bytes) : RE unit :=
  err ← messengerSend peerID typ payload;
  match err with
  | None => rok tt
  | Some m => ctx ← ctxErr; mret (Err (grpcStatusFromPeerSendError ctx m))
  end.

Definition markJobState (peerID : string) (jobID : bytes) (state : ReqJobStore.State) : RM unit :=
  now ← clockRead;
  modify (λ s, with_jobs (ReqJobStore.MarkState now peerID jobID state (s_jobs s)).1 s).

(** *** Calls *)

Definition newCall : RM nat := λ s, (fresh_call s, s_next s).
Definition park (cid : nat) (c : call) : RM unit := modify (λ s, with_calls (<[cid := c]> (s_calls s)) s).
Definition leave (cid : nat) : RM unit := modify (λ s, with_calls (delete cid (s_calls s)) s).
Definition reply (cid : nat) (r : result Status Reply) : RM unit := modify (outs (RReturn cid r)).

(** The method returns what [m] returns. *)
Definition answer (cid : nat) (m : RE Reply) : RM unit := r ← m; _ ← leave cid; reply cid r.

(** *** Peers and local information *)

Definition toPbPeer (p : PeerDir.LCPPeer) : PbPeer :=
  {| pp_PeerId := PeerDir.l_PeerID p; pp_Address := PeerDir.l_RemoteAddr p;
     pp_RemoteManifest := toProtoManifest (PeerDir.l_RemoteManifest p) |}.

(** [req] tells whether the request is present. *)
Definition ListLCPPeers (req : bool) : RE Reply :=
  _ ←! check req InvalidArgument "request is required";
  _ ←! validated pv_list;
  peers ← asks (λ s, PeerDir.ListLCPPeers (s_peers s));
  rok (ReplyPeers (toPbPeer <$> peers)).

Definition GetLocalInfo (req : bool) : RE Reply :=
  _ ←! check req InvalidArgument "request is required";
  _ ←! validated pv_info;
  _ ←! check hasLightning Unavailable "lightning rpc not configured";
  info ← lightningCall rpc_GetInfo;
  match info with
  | Err e => ctx ← ctxErr; mret (Err (grpcStatusFromLightningError ctx e))
  | Ok info => rok (ReplyInfo (i_IdentityPubKey info) (toProtoManifest localManifest))
  end.

(** *** Quotes *)

Definition requireReadyPeer (peerID : string) : RE Manifest :=
  peer ← asks (λ s, PeerDir.GetPeer peerID (s_peers s));
  match peer with
  | None => fail NotFound "peer not found"
  | Some p =>
    _ ←! check (PeerDir.p_Connected p && PeerDir.p_CustomMsgEnabled p) FailedPrecondition
           "peer is not connected with custom messages enabled";
    match PeerDir.p_RemoteManifest p with
    | Some m =>
      _ ←! check (PeerDir.p_LCPReady p) FailedPrecondition "peer is not ready for lcp";
      _ ←! check (mf_ProtocolVersion m =? ProtocolVersionV02) FailedPrecondition
             "peer protocol_version mismatch";
      rok m
    | None => fail FailedPrecondition "peer is not ready for lcp"
    end
  end.

Definition envelope (jobID msgID : bytes) (expiry : Z) : JobEnvelope :=
  {| env_ProtocolVersion := ProtocolVersionV02; env_JobID := jobID; env_MsgID := msgID;
     env_Expiry := expiry |}.

Definition invalidTask (e : Tasks.tasks_err) : Status := MkStatus InvalidArgument (Tasks.tasks_text e).
Definition invalidWire (e : wire_err) : Status := MkStatus InvalidArgument (wire_text e).

Definition buildQuoteRequestPayload (task : option Tasks.Task) :
    RE (bytes * Z * Tasks.QuoteRequestTask * Tasks.InputStream * bytes) :=
  jobID ←! NewJobID;
  msgID ←! newMsgID;
  expiry ←! newEnvelopeExpiry;
  wireTask ←! lift (Tasks.ToWireQuoteRequestTask task) invalidTask;
  inputStream ←! lift (Tasks.ToWireInputStream task) invalidTask;
  payload ←! lift (EncodeQuoteRequest
    {| qr_Envelope := envelope jobID msgID expiry; qr_TaskKind := Tasks.qt_TaskKind wireTask;
       qr_ParamsBytes := Some (Tasks.qt_ParamsBytes wireTask) |}) invalidWire;
  rok (jobID, expiry, wireTask, inputStream, payload).

Definition validateQuoteRequestRemoteLimits (remoteManifest : Manifest) (payload : bytes)
    (inputStream : Tasks.InputStream) : RE unit :=
  if negb (mf_MaxPayloadBytes remoteManifest =? 0) && (mf_MaxPayloadBytes remoteManifest <? blen payload)
  then fail ResourceExhausted "quote_request payload exceeds peer max_payload_bytes"
  else
  let inputLen := blen (Tasks.in_DecodedBytes inputStream) in
  if (mf_MaxStreamBytes remoteManifest <? inputLen) || (mf_MaxJobBytes remoteManifest <? inputLen)
  then fail ResourceExhausted "input stream exceeds peer max_stream_bytes/max_job_bytes"
  else rok tt.

(** *** The input stream *)

Definition sendInputStreamBegin (peerID : string) (jobID : bytes) (expiry : Z)
    (inputStream : Tasks.InputStream) (streamID : bytes) (totalLen : Z) (inputHash : bytes)
    (remoteMaxPayload : Z) : RE unit :=
  beginMsgID ←! newMsgID;
  beginPayload ←! lift (EncodeStreamBegin
    {| sb_Envelope := envelope jobID beginMsgID expiry; sb_StreamID := streamID;
       sb_Kind := StreamKindInput; sb_TotalLen := Some totalLen; sb_SHA256 := Some inputHash;
       sb_ContentType := Tasks.in_ContentType inputStream;
       sb_ContentEncoding := Tasks.in_ContentEncoding inputStream |}) invalidWire;
  _ ←! check (blen beginPayload <=? remoteMaxPayload) ResourceExhausted
         "input stream_begin exceeds peer max_payload_bytes";
  sendPeer peerID MessageTypeStreamBegin beginPayload.

Definition input_chunk (jobID : bytes) (expiry : Z) (streamID : bytes) (seq : Z) (data : bytes) : StreamChunk :=
  {| sc_Envelope := envelope jobID (zero_bytes 32) expiry; sc_StreamID := streamID; sc_Seq := seq;
     sc_Data := Some data |}.

(** The loop: halve the chunk until its payload fits; [None] is out of fuel. *)
Fixpoint input_fit_loop (fuel : nat) (jobID : bytes) (expiry : Z) (streamID : bytes) (seq : Z)
    (data : bytes) (remoteMaxPayload : Z) (chunkLen : nat) : option (result Status (bytes * nat)) :=
  match fuel with
  | O => None
  | S fuel' =>
    match EncodeStreamChunk (input_chunk jobID expiry streamID seq (take chunkLen data)) with
    | Err e => Some (Err (invalidWire e))
    | Ok (payload, _) =>
      if blen payload <=? remoteMaxPayload then Some (Ok (payload, chunkLen))
      else if (chunkLen <=? 1)%nat then
        Some (Err (MkStatus ResourceExhausted "cannot fit input stream_chunk under peer max_payload_bytes"))
      else input_fit_loop fuel' jobID expiry streamID seq data remoteMaxPayload (Nat.div2 chunkLen)
    end
  end.

Definition encodeFittingInputStreamChunk (jobID : bytes) (expiry : Z) (streamID : bytes) (seq : Z)
    (data : bytes) (remoteMaxPayload : Z) : option (result Status (bytes * nat)) :=
  let chunkLen := Z.to_nat (Z.min (blen data) remoteMaxPayload) in
  input_fit_loop (S chunkLen) jobID expiry streamID seq data remoteMaxPayload chunkLen.

(** The loop over [data[offset:]]; [None] is out of fuel. *)
Fixpoint input_chunks_loop (fuel : nat) (peerID : string) (jobID : bytes) (expiry : Z)
    (streamID rest : bytes) (seq remoteMaxPayload : Z) : RM (option (result Status unit)) :=
  match rest with
  | [] => mret (Some (Ok tt))
  | _ =>
    match fuel with
    | O => mret None
    | S fuel' =>
      match encodeFittingInputStreamChunk jobID expiry streamID seq rest remoteMaxPayload with
      | None => mret None
      | Some (Err e) => mret (Some (Err e))
      | Some (Ok (chunkPayload, chunkLen)) =>
        sent ← sendPeer peerID MessageTypeStreamChunk chunkPayload;
        match sent with
        | Err e => mret (Some (Err e))
        | Ok _ => input_chunks_loop fuel' peerID jobID expiry streamID (drop chunkLen rest)
                    (wrap_u32 (seq + 1)) remoteMaxPayload
        end
      end
    end
  end.

Definition sendInputStreamChunks (peerID : string) (jobID : bytes) (expiry : Z)
    (streamID data : bytes) (remoteMaxPayload : Z) : RE unit :=
  res ← input_chunks_loop (length data) peerID jobID expiry streamID data 0 remoteMaxPayload;
  mret (default (Err (MkStatus Internal "")) res).

Definition sendInputStreamEnd (peerID : string) (jobID : bytes) (expiry : Z) (streamID : bytes)
    (totalLen : Z) (inputHash : bytes) (remoteMaxPayload : Z) : RE unit :=
  endMsgID ←! newMsgID;
  endPayload ←! lift (EncodeStreamEnd
    {| se_Envelope := envelope jobID endMsgID expiry; se_StreamID := streamID;
       se_TotalLen := totalLen; se_SHA256 := inputHash |}) invalidWire;
  _ ←! check (blen endPayload <=? remoteMaxPayload) ResourceExhausted
         "input stream_end exceeds peer max_payload_bytes";
  sendPeer peerID MessageTypeStreamEnd endPayload.

Definition sendInputStream (peerID : string) (jobID : bytes) (expiry : Z)
    (inputStream : Tasks.InputStream) (remoteManifest : Manifest) : RE unit :=
  _ ←! check hasMessenger Unavailable "peer messaging not configured";
  let remoteMaxPayload := mf_MaxPayloadBytes remoteManifest in
  _ ←! check (negb (remoteMaxPayload =? 0)) FailedPrecondition "peer max_payload_bytes is zero";
  let inputBytes := Tasks.in_DecodedBytes inputStream in
  let totalLen := blen inputBytes in
  let inputHash := sha256_sum inputBytes in
  streamID ←! randomBytes "stream_id";
  _ ←! sendInputStreamBegin peerID jobID expiry inputStream streamID totalLen inputHash remoteMaxPayload;
  _ ←! sendInputStreamChunks peerID jobID expiry streamID inputBytes remoteMaxPayload;
  sendInputStreamEnd peerID jobID expiry streamID totalLen inputHash remoteMaxPayload.

(** *** Requesting a quote *)

(** [s.waiter]: a call that takes its lock. *)
Definition waiting {A} (f : Waiter.Waiter → Waiter.Waiter * A) : RM A := λ s,
  let r := f (s_waiter s) in (with_waiter r.1 s, r.2).

Definition termsFromQuoteResponse (wireTask : Tasks.QuoteRequestTask) (inputStream : Tasks.InputStream)
    (resp : QuoteResponse) : result string ReqJobStore.PbTerms :=
  let terms := {| tm_ProtocolVersion := env_ProtocolVersion (qs_Envelope resp);
                  tm_JobID := env_JobID (qs_Envelope resp); tm_PriceMsat := qs_PriceMsat resp;
                  tm_QuoteExpiry := qs_QuoteExpiry resp |} in
  let commit := {| cm_TaskKind := Tasks.qt_TaskKind wireTask;
                   cm_Input := Tasks.in_DecodedBytes inputStream;
                   cm_InputContentType := Tasks.in_ContentType inputStream;
                   cm_InputContentEncoding := Tasks.in_ContentEncoding inputStream;
                   cm_Params := Some (Tasks.qt_ParamsBytes wireTask) |} in
  match ComputeTermsHash terms commit with
  | Err e => Err (terms_text e)
  | Ok wantHash =>
    if negb (bool_decide (wantHash = qs_TermsHash resp)) then Err "terms_hash mismatch"%string else
    ts ← timestampFromUnixSeconds (qs_QuoteExpiry resp);
    Ok {| ReqJobStore.pt_ProtocolVersion := env_ProtocolVersion (qs_Envelope resp);
          ReqJobStore.pt_JobId := env_JobID (qs_Envelope resp);
          ReqJobStore.pt_PriceMsat := qs_PriceMsat resp; ReqJobStore.pt_QuoteExpiry := Some ts;
          ReqJobStore.pt_TermsHash := qs_TermsHash resp;
          ReqJobStore.pt_PaymentRequest := qs_PaymentRequest resp |}
  end.

(** [s.jobs.PutQuote]. *)
Definition putQuote (peerID : string) (task : option Tasks.Task) (terms : ReqJobStore.PbTerms) : RE unit :=
  now ← clockRead;
  now' ← clockRead;
  res ← (λ s, let r := ReqJobStore.PutQuote now now' peerID task (Some terms) (s_jobs s) in
              (with_jobs r.1 s, r.2));
  match res with
  | Ok _ => rok tt
  | Err _ => fail Internal "put quote failed"
  end.

(** [RequestQuote] up to the wait. *)
Definition requestQuoteSend (req : option RequestQuoteRequest) :
    RE (string * option Tasks.Task * bytes * Tasks.QuoteRequestTask * Tasks.InputStream) :=
  match req with
  | None => fail InvalidArgument "request is required"
  | Some req =>
    _ ←! validated (pv_quote req);
    let peerID := TrimSpace (rq_PeerId req) in
    let task := rq_Task req in
    _ ←! lift (Tasks.ValidateTask task) invalidTask;
    remoteManifest ←! requireReadyPeer peerID;
    built ←! buildQuoteRequestPayload task;
    let '(jobID, expiry, wireTask, inputStream, payload) := built in
    _ ←! validateQuoteRequestRemoteLimits remoteManifest payload inputStream;
    _ ←! check hasMessenger Unavailable "peer messaging not configured";
    _ ←! sendPeer peerID MessageTypeQuoteRequest payload;
    _ ←! sendInputStream peerID jobID expiry inputStream remoteManifest;
    rok (peerID, task, jobID, wireTask, inputStream)
  end.

(** [RequestQuote] after the wait. *)
Definition requestQuoteFinish (peerID : string) (task : option Tasks.Task) (jobID : bytes)
    (wireTask : Tasks.QuoteRequestTask) (inputStream : Tasks.InputStream)
    (waited : result Waiter.wait_err Waiter.QuoteOutcome) : RE Reply :=
  match waited with
  | Err e => ctx ← ctxErr; mret (Err (grpcStatusFromWaiterError ctx e))
  | Ok outcome =>
    match Waiter.qo_Error outcome, Waiter.qo_QuoteResponse outcome with
    | Some lcpErr, _ =>
      _ ← markJobState peerID jobID ReqJobStore.StateFailed;
      mret (Err (grpcStatusFromLCPError lcpErr))
    | None, None => fail Internal "quote waiter returned empty outcome"
    | None, Some resp =>
      terms ←! lift (termsFromQuoteResponse wireTask inputStream resp) (MkStatus FailedPrecondition);
      _ ←! putQuote peerID task terms;
      rok (ReplyQuote peerID terms)
    end
  end.

Definition RequestQuote (cid : nat) (req : option RequestQuoteRequest) : RM unit :=
  sent ← requestQuoteSend req;
  match sent with
  | Err st => answer cid (mret (Err st))
  | Ok (peerID, task, jobID, wireTask, inputStream) =>
    let finish w := answer cid (requestQuoteFinish peerID task jobID wireTask inputStream w) in
    started ← waiting (Waiter.WaitQuoteResponse peerID jobID);
    match started with
    | Waiter.Returned out => finish (Ok out)
    | Waiter.Failed e => finish (Err e)
    | Waiter.Blocked ch => park cid (CallQuote peerID task jobID wireTask inputStream ch)
    end
  end.
End service.

(** [New]: an empty store, an empty directory, and a waiter with the limits of the
    local manifest. *)
Definition New (jobs : JobStoreT) (localManifest : Manifest) : RState :=
  MkRState jobs PeerDir.New (Waiter.New (Some localManifest)) ∅ 0 0 [].
