(* ===== verification/RequesterRun.v ===== *)
(** * The requester's payments and results: the rest of [grpcservice/lcpd/service.go]

    The methods that accept a quote (check the invoice, pay it, wait for the result,
    stream it) and cancel a job, and the requester as a transition system: an event
    is an RPC, a custom message, a change of the peers, or a blocked call going on. *)

From stdpp Require Import pretty.
From S2P Require Import Prelude GoStd TlvLib Wire Stores PeerDir Terms Pricing Validation Lightning Tasks ReqJobStore Waiter Requester.

Section service.
Context {T : TlvLib} {W : WireText} {TJ : Tasks.TaskJson} {TX : TermsText} {E : RequesterEnv}
        {V : Validator} {LN : LightningRPC} {EN : Environ}
        {RQ : MapRange ReqJobStore.key JobEntryT} {RP : MapRange string PeerDir.Peer}
        {RZ : MapRange Z bytes}.
Context (hasMessenger hasLightning : bool) (localManifest : Manifest).

(** *** Checking an invoice *)

(** [strings.EqualFold] folds ASCII letters; a payee key is hexadecimal. *)
Definition verifyInvoiceBinding (peerID : string) (terms : ReqJobStore.PbTerms) : RE unit :=
  decoded ← lightningCall (λ n, rpc_DecodePaymentRequest n (ReqJobStore.pt_PaymentRequest terms));
  match decoded with
  | Err e => ctx ← ctxErr; mret (Err (grpcStatusFromLightningError ctx e))
  | Ok info =>
    termsHash ←! lift (toHash32 (ReqJobStore.pt_TermsHash terms))
                   (λ _, MkStatus Internal "invalid stored terms_hash");
    _ ←! check (bool_decide (pi_DescriptionHash info = termsHash)) FailedPrecondition
           "invoice description_hash does not match terms_hash";
    _ ←! check (equal_fold (pi_PayeePubKey info) peerID) FailedPrecondition
           "invoice destination does not match peer_id";
    let priceMsat := ReqJobStore.pt_PriceMsat terms in
    _ ←! check (negb (priceMsat =? 0)) FailedPrecondition "price_msat must be > 0";
    _ ←! check (0 <? pi_AmountMsat info) FailedPrecondition "invoice amount is missing or invalid";
    _ ←! check (pi_AmountMsat info =? priceMsat) FailedPrecondition
           "invoice amount does not match price_msat";
    quoteExpiry ←! lift (or_err (ReqJobStore.pt_QuoteExpiry terms) tt)
                     (λ _, MkStatus Internal "invalid stored quote_expiry");
    let quoteExpiryUnix := timestampSeconds quoteExpiry in
    _ ←! check (0 <=? quoteExpiryUnix) Internal "invalid stored quote_expiry";
    let allowedClockSkewSeconds :=
      Z.max (envconfig_Int64 "LCP_ALLOWED_CLOCK_SKEW_SECONDS" defaultAllowedClockSkewSeconds) 0 in
    _ ←! check (pi_TimestampUnix info <=? wrap_i64 (maxInt64 - pi_ExpirySeconds info))
           FailedPrecondition "invoice expiry overflows";
    let invoiceExpiryUnix := wrap_i64 (pi_TimestampUnix info + pi_ExpirySeconds info) in
    check (invoiceExpiryUnix <=? wrap_i64 (quoteExpiryUnix + allowedClockSkewSeconds))
      FailedPrecondition "invoice expiry exceeds quote_expiry"
  end.

(** *** Accepting a quote *)

(** [AcceptAndExecute] and [AcceptAndExecuteStream] up to the terms; [err] is what
    the validator says of the request. *)
Definition acceptTerms (err : option string) (req : AcceptRequest) :
    RE (string * bytes * ReqJobStore.PbTerms) :=
  _ ←! validated err;
  let peerID := TrimSpace (ar_PeerId req) in
  _ ←! check (ar_PayInvoice req) InvalidArgument "pay_invoice must be true";
  jobID ←! lift (toJobID (ar_JobId req)) (MkStatus InvalidArgument);
  _ ←! check hasLightning Unavailable "lightning rpc not configured";
  now ← clockRead;
  terms ← (λ s, let r := ReqJobStore.GetTerms now peerID jobID (s_jobs s) in (with_jobs r.1 s, r.2));
  terms ←! lift terms grpcStatusFromJobStoreError;
  rok (peerID, jobID, terms).

(** The deferred calls: [unsubscribe], then the mark unless the job is done. *)
Definition acceptReturn (cid : nat) (peerID : string) (jobID : bytes) (sub : option nat) (m : RE Reply) : RM unit :=
  answer cid (
    r ← m;
    _ ← match sub with
        | Some c => waiting (λ w, (Waiter.unsubscribe (Waiter.MkKey peerID jobID) c w, tt))
        | None => mret tt
        end;
    match r with
    | Ok rep => rok rep
    | Err st => _ ← markJobState peerID jobID ReqJobStore.StateFailed; mret (Err st)
    end).

(** [acceptAndExecuteVerifyError] and [acceptAndExecuteLCPError]: the job is marked
    and the status returned; those below read the context as well. *)
Definition acceptAndExecuteError {A} (peerID : string) (jobID : bytes) (st : Status) : RE A :=
  _ ← markJobState peerID jobID ReqJobStore.StateFailed;
  mret (Err st).

Definition acceptAndExecuteLightningError {A} (peerID : string) (jobID : bytes) (err : ln_err) : RE A :=
  _ ← markJobState peerID jobID ReqJobStore.StateFailed;
  ctx ← ctxErr;
  mret (Err (grpcStatusFromLightningError ctx err)).

Definition acceptAndExecuteWaiterError {A} (peerID : string) (jobID : bytes) (err : Waiter.wait_err) : RE A :=
  _ ← markJobState peerID jobID ReqJobStore.StateFailed;
  ctx ← ctxErr;
  mret (Err (grpcStatusFromWaiterError ctx err)).

(** [s.lightning.PayInvoice]: the call blocks until the payment is settled. *)
Definition payInvoice (cid : nat) (peerID : string) (jobID : bytes) (terms : ReqJobStore.PbTerms)
    (sub : option nat) : RM unit :=
  _ ← modify (outs (RPay cid peerID jobID (ReqJobStore.pt_PaymentRequest terms)));
  park cid (CallPay peerID jobID terms sub).

(** What was waited for, up to the conversion of the result. *)
Definition acceptWaited (peerID : string) (jobID : bytes)
    (waited : result Waiter.wait_err Waiter.ResultOutcome) : RE (Result * bytes) :=
  match waited with
  | Err e => acceptAndExecuteWaiterError peerID jobID e
  | Ok outcome =>
    match Waiter.ro_Error outcome, Waiter.ro_Result outcome with
    | Some lcpErr, _ => acceptAndExecuteError peerID jobID (grpcStatusFromLCPError lcpErr)
    | None, None => fail Internal "result waiter returned empty outcome"
    | None, Some res => rok (res, Waiter.ro_ResultBytes outcome)
    end
  end.

Definition AcceptAndExecute (cid : nat) (req : option AcceptRequest) : RM unit :=
  match req with
  | None => answer cid (fail InvalidArgument "request is required")
  | Some req =>
    found ← acceptTerms (pv_accept req) req;
    match found with
    | Err st => answer cid (mret (Err st))
    | Ok (peerID, jobID, terms) =>
      _ ← markJobState peerID jobID ReqJobStore.StatePaying;
      verified ← verifyInvoiceBinding peerID terms;
      match verified with
      | Err st => acceptReturn cid peerID jobID None (acceptAndExecuteError peerID jobID st)
      | Ok _ => payInvoice cid peerID jobID terms None
      end
    end
  end.

Definition subscribe_text (e : Waiter.wait_err) : string :=
  match e with
  | Waiter.ErrPeerIDRequired => "peer_id is required"
  | Waiter.ErrAlreadyWaitingQuote => "quote waiter already registered"
  | Waiter.ErrAlreadyWaitingResult => "result waiter already registered"
  | Waiter.ErrAlreadySubscribed => "result stream subscriber already registered"
  | Waiter.ErrWaitCancelled => "wait cancelled or deadline exceeded"
  end.

Definition AcceptAndExecuteStream (cid : nat) (req : option AcceptRequest) : RM unit :=
  match req with
  | None => answer cid (fail InvalidArgument "request is required")
  | Some req =>
    found ← acceptTerms (pv_stream req) req;
    match found with
    | Err st => answer cid (mret (Err st))
    | Ok (peerID, jobID, terms) =>
      _ ← markJobState peerID jobID ReqJobStore.StatePaying;
      verified ← verifyInvoiceBinding peerID terms;
      match verified with
      | Err st => acceptReturn cid peerID jobID None (acceptAndExecuteError peerID jobID st)
      | Ok _ =>
        subscribed ← waiting (Waiter.SubscribeResultStream peerID jobID);
        match subscribed with
        | Err e => acceptReturn cid peerID jobID None (fail FailedPrecondition (subscribe_text e))
        | Ok events => payInvoice cid peerID jobID terms (Some events)
        end
      end
    end
  end.

(** [AcceptAndExecute] after the wait. *)
Definition acceptFinish (cid : nat) (peerID : string) (jobID : bytes)
    (waited : result Waiter.wait_err Waiter.ResultOutcome) : RM unit :=
  acceptReturn cid peerID jobID None (
    outcome ←! acceptWaited peerID jobID waited;
    res ←! lift (protoResultFromTerminal outcome.1 outcome.2) id;
    _ ← markJobState peerID jobID ReqJobStore.StateDone;
    rok (ReplyResult res)).

(** Both methods, once [PayInvoice] has returned. *)
Definition afterPayment (cid : nat) (peerID : string) (jobID : bytes) (sub : option nat)
    (paid : result ln_err bytes) : RM unit :=
  match paid with
  | Err e => acceptReturn cid peerID jobID sub (acceptAndExecuteLightningError peerID jobID e)
  | Ok _ =>
    _ ← markJobState peerID jobID ReqJobStore.StateAwaitingResult;
    match sub with
    | Some events => park cid (CallStream peerID jobID events 0 WaitPending)
    | None =>
      started ← waiting (Waiter.WaitResult peerID jobID);
      match started with
      | Waiter.Returned out => acceptFinish cid peerID jobID (Ok out)
      | Waiter.Failed e => acceptFinish cid peerID jobID (Err e)
      | Waiter.Blocked ch => park cid (CallResult peerID jobID ch)
      end
    end
  end.

(** *** The streaming call *)

(** [stream.Send]. *)
Definition streamSend (cid : nat) (resp : StreamResponse) : RE unit := λ s,
  let err := q_stream (s_tick s) in
  (outs (RStream cid resp err) (ticked s), match err with Some st => Err st | None => Ok tt end).

Definition sendStreamEvent (cid : nat) (ev : Waiter.ResultStreamEvent) : RE unit :=
  match ev with
  | Waiter.EventBegin contentType contentEncoding => streamSend cid (RespBegin contentType contentEncoding)
  | Waiter.EventChunk [] => rok tt
  | Waiter.EventChunk data => streamSend cid (RespChunk data)
  end.

(** The events offered to a subscription, and those it has not received yet. *)
Definition offered (sub : nat) (w : Waiter.Waiter) : list Waiter.ResultStreamEvent :=
  (filter (λ p, p.1 = sub) (Waiter.w_published w)).*2.
Definition pending (sub consumed : nat) (w : Waiter.Waiter) : list Waiter.ResultStreamEvent :=
  drop consumed (offered sub w).

(** The inner loop: what is buffered is sent until the buffer is empty. *)
Fixpoint drain (cid : nat) (evs : list Waiter.ResultStreamEvent) : RE unit :=
  match evs with
  | [] => rok tt
  | ev :: evs' => _ ←! sendStreamEvent cid ev; drain cid evs'
  end.

(** The method returns; the goroutine stays until its wait is over. *)
Definition streamReturn (cid : nat) (peerID : string) (jobID : bytes) (sub : nat) (wait : waitGo)
    (m : RE Reply) : RM unit :=
  _ ← acceptReturn cid peerID jobID (Some sub) m;
  match wait with
  | WaitDone _ => mret tt
  | _ => park cid (CallLeft peerID jobID wait)
  end.

(** [case ev := <-events], the next event being [ev]. *)
Definition streamEvent (cid : nat) (peerID : string) (jobID : bytes) (sub consumed : nat)
    (wait : waitGo) (ev : Waiter.ResultStreamEvent) : RM unit :=
  sent ← sendStreamEvent cid ev;
  match sent with
  | Err st => streamReturn cid peerID jobID sub wait (mret (Err st))
  | Ok _ => park cid (CallStream peerID jobID sub (S consumed) wait)
  end.

(** [case waited := <-waitCh]. *)
Definition streamWaited (cid : nat) (peerID : string) (jobID : bytes) (sub consumed : nat)
    (waited : result Waiter.wait_err Waiter.ResultOutcome) : RM unit :=
  streamReturn cid peerID jobID sub (WaitDone waited) (
    outcome ←! acceptWaited peerID jobID waited;
    evs ← asks (λ s, pending sub consumed (s_waiter s));
    _ ←! drain cid evs;
    res ←! lift (protoResultFromTerminalMetadataOnly outcome.1) id;
    _ ←! (if bool_decide (pr_Status res = STATUS_OK)
          then streamSend cid (RespEnd (pr_ResultHash res) (pr_ResultLen res)) else rok tt);
    _ ←! streamSend cid (RespResult res);
    _ ← markJobState peerID jobID ReqJobStore.StateDone;
    rok ReplyStream).

(** [case <-ctx.Done()]. *)
Definition streamCtx (cid : nat) (peerID : string) (jobID : bytes) (sub : nat) (wait : waitGo)
    (err : ctx_err) : RM unit :=
  streamReturn cid peerID jobID sub wait (mret (Err (statusFromContextError err))).

(** *** Cancelling *)

Definition CancelJob (req : option CancelJobRequest) : RE Reply :=
  match req with
  | None => fail InvalidArgument "request is required"
  | Some req =>
    _ ←! validated (pv_cancel req);
    let peerID := TrimSpace (cj_PeerId req) in
    jobID ←! lift (toJobID (cj_JobId req)) (MkStatus InvalidArgument);
    _ ←! check hasMessenger Unavailable "peer messaging not configured";
    peer ← asks (λ s, PeerDir.GetPeer peerID (s_peers s));
    peer ←! lift (or_err peer tt) (λ _, MkStatus NotFound "peer not found");
    _ ←! check (PeerDir.p_Connected peer && PeerDir.p_CustomMsgEnabled peer) FailedPrecondition
           "peer is not connected with custom messages enabled";
    msgID ←! newMsgID;
    expiry ←! newEnvelopeExpiry;
    let r := TrimSpace (cj_Reason req) in
    let reason := if bool_decide (r = ""%string) then None else Some r in
    payload ←! lift (EncodeCancel {| cn_Envelope := envelope jobID msgID expiry; cn_Reason := reason |})
                 invalidWire;
    _ ←! sendPeer peerID MessageTypeCancel payload;
    _ ← markJobState peerID jobID ReqJobStore.StateCancelled;
    rok ReplyCancel
  end.

(** ** The transition system *)

(** An RPC arrives, a custom message or a change of the peers arrives, or a blocked
    call goes on: its wait is woken, its context ends, its payment returns, its
    stream has an event. *)
Inductive revent :=
| EvListPeers (req : bool)
| EvLocalInfo (req : bool)
| EvQuote (req : option RequestQuoteRequest)
| EvAccept (req : option AcceptRequest)
| EvStream (req : option AcceptRequest)
| EvCancel (req : option CancelJobRequest)
| EvMessage (peerPubKey : string) (msgType : Z) (payload : bytes)
| EvPeer (o : PeerDir.op)
| EvPaid (cid : nat) (paid : result ln_err bytes)
| EvWake (cid : nat)
| EvCtx (cid : nat) (err : ctx_err)
| EvGoStart (cid : nat)
| EvGoWake (cid : nat)
| EvGoCtx (cid : nat)
| EvStreamEvent (cid : nat)
| EvStreamDone (cid : nat).

Definition waitKey (peerID : string) (jobID : bytes) : Waiter.key := Waiter.MkKey peerID jobID.

(** [waitOutcome]'s [select], one case each. *)
Definition waitWoken {O} (sl : Waiter.Slot O) (k : Waiter.key) (ch : nat) : RM (option O) := λ s,
  match Waiter.waitReceive sl k ch (s_waiter s) with
  | Some (w, out) => (with_waiter w s, Some out)
  | None => (s, None)
  end.

Definition waitEnded {O} (sl : Waiter.Slot O) (k : Waiter.key) (ch : nat) : RM unit :=
  modify (λ s, with_waiter (Waiter.waitCancel sl k ch (s_waiter s)) s).

(** The goroutine of a streaming call: its key and where it is. *)
Definition goroutine (c : call) : option (Waiter.key * waitGo) :=
  match c with
  | CallStream p j _ _ w | CallLeft p j w => Some (waitKey p j, w)
  | _ => None
  end.

(** It goes on to [w]. *)
Definition parkGo (cid : nat) (c : call) (w : waitGo) : RM unit :=
  match c with
  | CallStream p j sub n _ => park cid (CallStream p j sub n w)
  | CallLeft p j _ => match w with WaitDone _ => leave cid | _ => park cid (CallLeft p j w) end
  | _ => mret tt
  end.

Definition goStart (cid : nat) (c : call) : RM unit :=
  match goroutine c with
  | Some (k, WaitPending) =>
    started ← waiting (Waiter.WaitResult (Waiter.k_peerID k) (Waiter.k_jobID k));
    parkGo cid c match started with
                 | Waiter.Returned out => WaitDone (Ok out)
                 | Waiter.Failed e => WaitDone (Err e)
                 | Waiter.Blocked ch => WaitBlocked ch
                 end
  | _ => mret tt
  end.

Definition goWake (cid : nat) (c : call) : RM unit :=
  match goroutine c with
  | Some (k, WaitBlocked ch) =>
    out ← waitWoken Waiter.result_slot k ch;
    match out with
    | Some out => parkGo cid c (WaitDone (Ok out))
    | None => mret tt
    end
  | _ => mret tt
  end.

Definition goCtx (cid : nat) (c : call) : RM unit :=
  match goroutine c with
  | Some (k, WaitBlocked ch) =>
    _ ← waitEnded Waiter.result_slot k ch;
    parkGo cid c (WaitDone (Err Waiter.ErrWaitCancelled))
  | _ => mret tt
  end.

(** A blocked call receives its outcome. *)
Definition wake (cid : nat) (c : call) : RM unit :=
  match c with
  | CallQuote p task j wt ins ch =>
    out ← waitWoken Waiter.quote_slot (waitKey p j) ch;
    match out with
    | Some out => answer cid (requestQuoteFinish p task j wt ins (Ok out))
    | None => mret tt
    end
  | CallResult p j ch =>
    out ← waitWoken Waiter.result_slot (waitKey p j) ch;
    match out with
    | Some out => acceptFinish cid p j (Ok out)
    | None => mret tt
    end
  | _ => mret tt
  end.

(** The context of a blocked call ends. *)
Definition ctxDone (cid : nat) (err : ctx_err) (c : call) : RM unit :=
  match c with
  | CallQuote p task j wt ins ch =>
    _ ← waitEnded Waiter.quote_slot (waitKey p j) ch;
    answer cid (requestQuoteFinish p task j wt ins (Err Waiter.ErrWaitCancelled))
  | CallResult p j ch =>
    _ ← waitEnded Waiter.result_slot (waitKey p j) ch;
    acceptFinish cid p j (Err Waiter.ErrWaitCancelled)
  | CallStream p j sub _ w => streamCtx cid p j sub w err
  | _ => mret tt
  end.

Definition streamNext (cid : nat) (c : call) : RM unit :=
  match c with
  | CallStream p j sub n w =>
    evs ← asks (λ s, pending sub n (s_waiter s));
    match evs with
    | ev :: _ => streamEvent cid p j sub n w ev
    | [] => mret tt
    end
  | _ => mret tt
  end.

Definition streamFinish (cid : nat) (c : call) : RM unit :=
  match c with
  | CallStream p j sub n (WaitDone waited) => streamWaited cid p j sub n waited
  | _ => mret tt
  end.

Definition paidCall (cid : nat) (paid : result ln_err bytes) (c : call) : RM unit :=
  match c with
  | CallPay p j _ sub => afterPayment cid p j sub paid
  | _ => mret tt
  end.

(** A new call of an RPC; a call that goes on. *)
Definition starts (f : nat → RM unit) : RM unit := cid ← newCall; f cid.
Definition continues (cid : nat) (f : call → RM unit) : RM unit :=
  c ← asks (λ s, s_calls s !! cid);
  match c with Some c => f c | None => mret tt end.

Definition rpc (e : revent) : RM unit :=
  match e with
  | EvListPeers req => starts (λ cid, answer cid (ListLCPPeers req))
  | EvLocalInfo req => starts (λ cid, answer cid (GetLocalInfo hasLightning localManifest req))
  | EvQuote req => starts (λ cid, RequestQuote hasMessenger cid req)
  | EvAccept req => starts (λ cid, AcceptAndExecute cid req)
  | EvStream req => starts (λ cid, AcceptAndExecuteStream cid req)
  | EvCancel req => starts (λ cid, answer cid (CancelJob req))
  | EvMessage peer typ payload =>
    modify (λ s, with_waiter (Waiter.HandleInboundCustomMessage peer typ payload (s_waiter s)) s)
  | EvPeer o => modify (λ s, with_peers (PeerDir.step (s_peers s) o) s)
  | EvPaid cid paid => continues cid (paidCall cid paid)
  | EvWake cid => continues cid (wake cid)
  | EvCtx cid err => continues cid (ctxDone cid err)
  | EvGoStart cid => continues cid (goStart cid)
  | EvGoWake cid => continues cid (goWake cid)
  | EvGoCtx cid => continues cid (goCtx cid)
  | EvStreamEvent cid => continues cid (streamNext cid)
  | EvStreamDone cid => continues cid (streamFinish cid)
  end.

Definition rstep (s : RState) (e : revent) : RState := (rpc e s).1.
Definition rrun (evs : list revent) (s : RState) : RState := fold_left rstep evs s.
End service.
