(* ===== verification/RequesterLogic.v ===== *)
(** * A program logic for the requester

    [safe F m s Q]: run in [s], the method [m] keeps the invariant of the frame [F],
    ends in a state above [s] in its preorder, and returns a value of which [Q] holds.
    A frame that allows ticks, sent messages and marks of job states ([Closed]) is
    kept by all the helpers of the service ([calm]). *)

From stdpp Require Import pretty.
From S2P Require Import Prelude GoStd TlvLib Wire Stores PeerDir Terms Pricing Validation Lightning Tasks ReqJobStore Waiter Requester RequesterRun.

(** The trace only grows. *)
Definition grows (s s' : RState) : Prop := s_out s `prefix_of` s_out s'.

Lemma grows_refl s : grows s s.
Proof. by unfold grows. Qed.
Lemma grows_trans s1 s2 s3 : grows s1 s2 → grows s2 s3 → grows s1 s3.
Proof. unfold grows. intros. by etrans. Qed.

Lemma prefix_elem {A} (x : A) l l' : l `prefix_of` l' → x ∈ l → x ∈ l'.
Proof. intros [k ->] Hx. apply elem_of_app. by left. Qed.

(** An invariant, and a preorder in which states only go up. *)
Record Frame := {
  fr_inv : RState → Prop;
  fr_ext : relation RState;
  fr_refl s : fr_ext s s;
  fr_trans s1 s2 s3 : fr_ext s1 s2 → fr_ext s2 s3 → fr_ext s1 s3;
}.

Definition safe (F : Frame) {A} (m : RM A) (s : RState) (Q : A → RState → Prop) : Prop :=
  fr_inv F s → fr_inv F (m s).1 ∧ fr_ext F s (m s).1 ∧ Q (m s).2 (m s).1.

(** A fallible method: [Q] holds of the value it returns. *)
Definition safeE (F : Frame) {A} (m : RE A) (s : RState) (Q : A → RState → Prop) : Prop :=
  safe F m s (λ r s', ∀ a, r = Ok a → Q a s').

Definition calm (F : Frame) {A} (m : RM A) : Prop := ∀ s, safe F m s (λ _ _, True).

(** A change that the frame allows. *)
Definition allowed (F : Frame) (s s' : RState) : Prop := fr_inv F s → fr_inv F s' ∧ fr_ext F s s'.

Class Closed (F : Frame) : Prop := {
  cl_tick s : allowed F s (ticked s);
  cl_sent p typ payload err s : allowed F s (outs (RSent p typ payload err) s);
  cl_mark now p j st s : allowed F s (with_jobs (ReqJobStore.MarkState now p j st (s_jobs s)).1 s);
}.

(** Tests and pure calls leave the state alone. *)
Definition steady {A} (m : RM A) : Prop := ∀ s, (m s).1 = s.

Lemma steady_try {A B} (m : RE A) (k : A → RE B) : steady m → (∀ a, steady (k a)) → steady (try m k).
Proof.
  intros Hm Hk s. unfold try, mbind, RM_bind. rewrite Hm. destruct (m s).2; [apply Hk|done].
Qed.
Lemma steady_check b code msg : steady (check b code msg).
Proof. by destruct b. Qed.
Lemma steady_lift {E A} (r : result E A) st : steady (lift r st).
Proof. done. Qed.

Section rules.
Context (F : Frame).

Lemma safe_steady {A} (m : RM A) s : steady m → safe F m s (λ _ s', s' = s).
Proof. intros Hm Hi. rewrite Hm. split_and!; [done|apply fr_refl|done]. Qed.

Lemma safeE_steady {A} (m : RE A) s : steady m → safeE F m s (λ _ s', s' = s).
Proof. intros Hm Hi. destruct (safe_steady m s Hm Hi) as (H1 & H2 & H3). by split_and!. Qed.

Lemma safe_ret {A} (a : A) s (Q : A → RState → Prop) : Q a s → safe F (mret a) s Q.
Proof. intros HQ Hi. split_and!; [done|apply fr_refl|done]. Qed.

Lemma safe_bind {A B} (m : RM A) (k : A → RM B) s (R : A → RState → Prop) (Q : B → RState → Prop) :
  safe F m s R → (∀ a s1, fr_ext F s s1 → R a s1 → safe F (k a) s1 Q) → safe F (m ≫= k) s Q.
Proof.
  intros Hm Hk Hi. destruct (Hm Hi) as (H1 & Hg & HR). destruct (Hk _ _ Hg HR H1) as (H2 & Hg2 & HQ).
  split_and!; [done|by eapply fr_trans|done].
Qed.

Lemma safe_mono {A} (m : RM A) s (Q Q' : A → RState → Prop) :
  safe F m s Q → (∀ a s', fr_ext F s s' → Q a s' → Q' a s') → safe F m s Q'.
Proof. intros Hm HQ Hi. destruct (Hm Hi) as (? & ? & ?). auto. Qed.

(** The invariant may be used. *)
Lemma safe_inv {A} (m : RM A) s (Q : A → RState → Prop) : (fr_inv F s → safe F m s Q) → safe F m s Q.
Proof. intros Hm Hi. by apply Hm. Qed.

Lemma safe_calm {A} (m : RM A) s : calm F m → safe F m s (λ _ _, True).
Proof. auto. Qed.

Lemma safe_modify f s (Q : unit → RState → Prop) :
  allowed F s (f s) → Q tt (f s) → safe F (modify f) s Q.
Proof. intros Hf HQ Hi. by destruct (Hf Hi). Qed.

Lemma safe_asks {A} (f : RState → A) s (Q : A → RState → Prop) : Q (f s) s → safe F (asks f) s Q.
Proof. intros HQ Hi. split_and!; [done|apply fr_refl|done]. Qed.

Lemma safeE_ok {A} (a : A) s (Q : A → RState → Prop) : Q a s → safeE F (rok a) s Q.
Proof. intros HQ. apply safe_ret. by intros ? [= <-]. Qed.

Lemma safeE_err {A} e s (Q : A → RState → Prop) : safeE F (mret (Err e)) s Q.
Proof. by apply safe_ret. Qed.

Lemma safeE_fail {A} code msg s (Q : A → RState → Prop) : safeE F (fail code msg) s Q.
Proof. by apply safe_ret. Qed.

Lemma safeE_try {A B} (m : RE A) (k : A → RE B) s (R : A → RState → Prop) (Q : B → RState → Prop) :
  safeE F m s R → (∀ a s1, fr_ext F s s1 → R a s1 → safeE F (k a) s1 Q) → safeE F (try m k) s Q.
Proof.
  intros Hm Hk. unfold try. eapply safe_bind; [exact Hm|]. intros [a|e] s1 Hg HR; [by apply Hk; auto|].
  by apply safe_ret.
Qed.

Lemma safeE_calm {A} (m : RE A) s : calm F m → safeE F m s (λ _ _, True).
Proof. intros Hm. eapply safe_mono; [apply Hm|]. done. Qed.

Lemma safeE_lift {E A} (r : result E A) st s (Q : A → RState → Prop) :
  (∀ a, r = Ok a → Q a s) → safeE F (lift r st) s Q.
Proof. intros HQ. apply safe_ret. intros a Ha. apply HQ. by destruct r; [injection Ha as ->|]. Qed.

Lemma safeE_lifted {E A} (r : result E A) st s : safeE F (lift r st) s (λ a _, r = Ok a).
Proof. by apply safeE_lift. Qed.

Lemma safeE_check b code msg s (Q : unit → RState → Prop) :
  (b = true → Q tt s) → safeE F (check b code msg) s Q.
Proof. intros HQ. unfold check. destruct b; [by apply safeE_ok; auto|apply safeE_fail]. Qed.

Lemma safeE_checked b code msg s : safeE F (check b code msg) s (λ _ _, b = true).
Proof. by apply safeE_check. Qed.

Lemma safeE_validated err s (Q : unit → RState → Prop) : Q tt s → safeE F (validated err) s Q.
Proof. intros HQ. unfold validated. destruct err; [apply safeE_fail|by apply safeE_ok]. Qed.

(** *** What changes nothing but the trace *)

Lemma calm_ret {A} (a : A) : calm F (mret a).
Proof. intros s. by apply safe_ret. Qed.
Lemma calm_bind {A B} (m : RM A) (k : A → RM B) : calm F m → (∀ a, calm F (k a)) → calm F (m ≫= k).
Proof. intros Hm Hk s. eapply safe_bind; [apply Hm|]. intros a s1 _ _. apply Hk. Qed.
Lemma calm_try {A B} (m : RE A) (k : A → RE B) : calm F m → (∀ a, calm F (k a)) → calm F (try m k).
Proof. intros Hm Hk. apply calm_bind; [done|]. intros [a|e]; [apply Hk|apply calm_ret]. Qed.
Lemma calm_fail {A} code msg : calm F (fail (A := A) code msg).
Proof. apply calm_ret. Qed.
Lemma calm_ok {A} (a : A) : calm F (rok a).
Proof. apply calm_ret. Qed.
Lemma calm_lift {E A} (r : result E A) st : calm F (lift r st).
Proof. apply calm_ret. Qed.
Lemma calm_check b code msg : calm F (check b code msg).
Proof. unfold check. destruct b; apply calm_ret. Qed.
Lemma calm_validated err : calm F (validated err).
Proof. unfold validated. destruct err; apply calm_ret. Qed.
Lemma calm_asks {A} (f : RState → A) : calm F (asks f).
Proof. intros s. by apply safe_asks. Qed.
End rules.

Create HintDb calm.

(** Take a method apart. *)
Ltac calm_step :=
  lazymatch goal with
  | |- calm _ (mret _) => apply calm_ret
  | |- calm _ (rok _) => apply calm_ok
  | |- calm _ (fail _ _) => apply calm_fail
  | |- calm _ (lift _ _) => apply calm_lift
  | |- calm _ (check _ _ _) => apply calm_check
  | |- calm _ (validated _) => apply calm_validated
  | |- calm _ (asks _) => apply calm_asks
  | |- calm _ (try _ _) => apply calm_try; [|intros ?]
  | |- calm _ (_ ≫= _) => apply calm_bind; [|intros ?]
  | |- calm _ (match ?x with _ => _ end) => destruct x
  | |- calm _ (let _ := _ in _) => cbv zeta
  | |- calm _ ((λ _, _) _) => cbv beta
  | |- calm _ _ => first [assumption | solve [eauto with calm nocore]]
  end.

Section helpers.
Context {T : TlvLib} {W : WireText} {TJ : Tasks.TaskJson} {TX : TermsText} {E : RequesterEnv}
        {V : Validator} {LN : LightningRPC} {EN : Environ}
        {RQ : MapRange ReqJobStore.key JobEntryT} {RP : MapRange string PeerDir.Peer}
        {RZ : MapRange Z bytes}.
Context (hasMessenger hasLightning : bool) (localManifest : Manifest).
Context (F : Frame) {CL : Closed F}.

Lemma safe_tick {A} (f : nat → A) s (Q : A → RState → Prop) :
  Q (f (s_tick s)) (ticked s) → safe F (λ s, (ticked s, f (s_tick s))) s Q.
Proof using CL. intros HQ Hi. by destruct (cl_tick s Hi). Qed.

Lemma calm_clock : calm F clockRead.
Proof using CL. intros s. by apply (safe_tick q_clock). Qed.
Lemma calm_ctx : calm F ctxErr.
Proof using CL. intros s. by apply (safe_tick q_ctx). Qed.
Lemma calm_lightning {A} (f : nat → A) : calm F (lightningCall f).
Proof using CL. intros s. by apply (safe_tick f). Qed.
Lemma safe_lightning {A} (f : nat → A) s : safe F (lightningCall f) s (λ a _, ∃ n, f n = a).
Proof using CL. apply (safe_tick f). by eexists. Qed.
Lemma calm_random what : calm F (randomBytes what).
Proof using CL.
  intros s. by apply (safe_tick (λ n, match q_rand n with
    | Some b => Ok b | None => Err (MkStatus Internal ("generate " +:+ what +:+ " failed")) end)).
Qed.
Lemma calm_expiry : calm F newEnvelopeExpiry.
Proof using CL. unfold newEnvelopeExpiry. repeat (calm_step || first [apply calm_clock]). Qed.

Lemma calm_sent p typ payload : calm F (messengerSend p typ payload).
Proof using CL.
  intros s Hi. destruct (cl_tick s Hi) as [H1 H2].
  destruct (cl_sent p typ payload (q_send (s_tick s)) _ H1) as [H3 H4].
  split_and!; [done|by eapply fr_trans|done].
Qed.

Lemma calm_sendPeer p typ payload : calm F (sendPeer p typ payload).
Proof using CL.
  unfold sendPeer. apply calm_bind; [apply calm_sent|].
  intros []; repeat (calm_step || first [apply calm_ctx]).
Qed.

Lemma calm_mark p j st : calm F (markJobState p j st).
Proof using CL.
  unfold markJobState. apply calm_bind; [apply calm_clock|]. intros now s. apply safe_modify; [apply cl_mark|done].
Qed.

Lemma calm_begin p j x ins sid n h max : calm F (sendInputStreamBegin p j x ins sid n h max).
Proof using CL.
  unfold sendInputStreamBegin, newMsgID. repeat (calm_step || first [apply calm_random|apply calm_sendPeer]).
Qed.

Lemma calm_chunks_loop fuel p j x sid rest seq max : calm F (input_chunks_loop fuel p j x sid rest seq max).
Proof using CL.
  revert rest seq. induction fuel as [|fuel IH]; intros rest seq; simpl;
    repeat (calm_step || first [apply IH|apply calm_sendPeer]).
Qed.

Lemma calm_inputStream p j x ins m : calm F (sendInputStream hasMessenger p j x ins m).
Proof using CL.
  unfold sendInputStream, sendInputStreamChunks, sendInputStreamEnd, newMsgID.
  repeat (calm_step || first [apply calm_random|apply calm_begin|apply calm_chunks_loop|apply calm_sendPeer]).
Qed.

Lemma calm_ready p : calm F (requireReadyPeer p).
Proof using CL. unfold requireReadyPeer. repeat calm_step. Qed.

Lemma calm_limits m payload ins : calm F (validateQuoteRequestRemoteLimits m payload ins).
Proof using CL. unfold validateQuoteRequestRemoteLimits. repeat calm_step. Qed.

Lemma calm_verify p terms : calm F (verifyInvoiceBinding p terms).
Proof using CL.
  unfold verifyInvoiceBinding. repeat (calm_step || first [apply calm_lightning|apply calm_ctx]).
Qed.

Lemma calm_acceptError {A} p j st : calm F (acceptAndExecuteError (A := A) p j st).
Proof using CL. unfold acceptAndExecuteError. repeat (calm_step || first [apply calm_mark]). Qed.
Lemma calm_lightningError {A} p j e : calm F (acceptAndExecuteLightningError (A := A) p j e).
Proof using CL. unfold acceptAndExecuteLightningError. repeat (calm_step || first [apply calm_mark|apply calm_ctx]). Qed.
Lemma calm_waiterError {A} p j e : calm F (acceptAndExecuteWaiterError (A := A) p j e).
Proof using CL. unfold acceptAndExecuteWaiterError. repeat (calm_step || first [apply calm_mark|apply calm_ctx]). Qed.
Lemma safeE_acceptError {A} p j st s (Q : A → RState → Prop) : safeE F (acceptAndExecuteError p j st) s Q.
Proof using CL. eapply safe_bind; [apply calm_mark|]. intros. apply safeE_err. Qed.
Lemma safeE_lightningError {A} p j e s (Q : A → RState → Prop) :
  safeE F (acceptAndExecuteLightningError p j e) s Q.
Proof using CL.
  eapply safe_bind; [apply calm_mark|]. intros. eapply safe_bind; [apply calm_ctx|]. intros. apply safeE_err.
Qed.
Lemma safeE_waiterError {A} p j e s (Q : A → RState → Prop) : safeE F (acceptAndExecuteWaiterError p j e) s Q.
Proof using CL.
  eapply safe_bind; [apply calm_mark|]. intros. eapply safe_bind; [apply calm_ctx|]. intros. apply safeE_err.
Qed.
Lemma calm_waited p j w : calm F (acceptWaited p j w).
Proof using CL.
  unfold acceptWaited. repeat (calm_step || first [apply calm_waiterError|apply calm_acceptError]).
Qed.

Lemma calm_cancel req : calm F (CancelJob hasMessenger req).
Proof using CL.
  unfold CancelJob, newMsgID.
  repeat (calm_step || first [apply calm_random|apply calm_expiry|apply calm_sendPeer|apply calm_mark]).
Qed.

Lemma calm_list req : calm F (ListLCPPeers req).
Proof using CL. unfold ListLCPPeers. repeat calm_step. Qed.

Lemma calm_info req : calm F (GetLocalInfo hasLightning localManifest req).
Proof using CL. unfold GetLocalInfo. repeat (calm_step || first [apply calm_lightning|apply calm_ctx]). Qed.
End helpers.

(** ** What the methods that do not block return *)

Definition returns (F : Frame) {A} (m : RE A) (Q : A → Prop) : Prop := ∀ s, safeE F m s (λ a _, Q a).

Section returns.
Context (F : Frame).
Lemma returns_ok {A} (a : A) (Q : A → Prop) : Q a → returns F (rok a) Q.
Proof. intros HQ s. by apply safeE_ok. Qed.
Lemma returns_err {A} e (Q : A → Prop) : returns F (mret (Err e)) Q.
Proof. intros s. apply safeE_err. Qed.
Lemma returns_fail {A} code msg (Q : A → Prop) : returns F (fail code msg) Q.
Proof. intros s. apply safeE_fail. Qed.
Lemma returns_try {A B} (m : RE A) (k : A → RE B) (Q : B → Prop) :
  calm F m → (∀ a, returns F (k a) Q) → returns F (try m k) Q.
Proof. intros Hm Hk s. eapply safeE_try; [by apply safeE_calm|]. intros. apply Hk. Qed.
Lemma returns_bind {A B} (m : RM A) (k : A → RE B) (Q : B → Prop) :
  calm F m → (∀ a, returns F (k a) Q) → returns F (m ≫= k) Q.
Proof. intros Hm Hk s. eapply safe_bind; [apply Hm|]. intros. apply Hk. Qed.
End returns.

#[export] Hint Resolve calm_clock calm_ctx calm_lightning calm_random calm_expiry calm_sendPeer calm_mark
  calm_begin calm_chunks_loop calm_inputStream calm_ready calm_limits calm_verify calm_acceptError
  calm_lightningError calm_waiterError calm_waited calm_cancel calm_list calm_info : calm.

Ltac returns_step :=
  lazymatch goal with
  | |- returns _ (mret (Err _)) _ => apply returns_err
  | |- returns _ (rok _) _ => apply returns_ok
  | |- returns _ (fail _ _) _ => apply returns_fail
  | |- returns _ (try _ _) _ => apply returns_try; [|intros ?]
  | |- returns _ (_ ≫= _) _ => apply returns_bind; [|intros ?]
  | |- returns _ (match ?x with _ => _ end) _ => destruct x
  | |- returns _ (let _ := _ in _) _ => cbv zeta
  | |- returns _ ((λ _, _) _) _ => cbv beta
  | |- calm _ _ => calm_step
  end.

Section methods.
Context {T : TlvLib} {W : WireText} {TJ : Tasks.TaskJson} {TX : TermsText} {E : RequesterEnv}
        {V : Validator} {LN : LightningRPC} {EN : Environ}
        {RQ : MapRange ReqJobStore.key JobEntryT} {RP : MapRange string PeerDir.Peer}
        {RZ : MapRange Z bytes}.
Context (F : Frame) {CL : Closed F}.

Lemma returns_list req : returns F (ListLCPPeers req) (λ r, ∃ peers, r = ReplyPeers peers).
Proof using CL. unfold ListLCPPeers. repeat returns_step. by eexists. Qed.

Lemma returns_info hasLightning m req :
  returns F (GetLocalInfo hasLightning m req) (λ r, ∃ id m, r = ReplyInfo id m).
Proof using CL. unfold GetLocalInfo. repeat returns_step. by do 2 eexists. Qed.

Lemma returns_cancel hasMessenger req : returns F (CancelJob hasMessenger req) (λ r, r = ReplyCancel).
Proof using CL. unfold CancelJob, newMsgID. by repeat returns_step. Qed.
End methods.
