(* ===== verification/RequesterCalls.v ===== *)
(** * Every call of the requester is answered once

    The bookkeeping of the calls: a call that is blocked has no answer yet, any other
    has exactly one, and the end of its context answers a blocked call. *)

From stdpp Require Import pretty.
From S2P Require Import Prelude GoStd TlvLib Wire Stores PeerDir Terms Pricing Validation Lightning Tasks ReqJobStore Waiter Requester RequesterRun RequesterLogic.

(** ** The answers of a call *)

Definition answers (cid : nat) (o : rout) : option (result Status Reply) :=
  match o with
  | RReturn cid' r => if decide (cid' = cid) then Some r else None
  | _ => None
  end.

Definition replies (cid : nat) (s : RState) : list (result Status Reply) := omap (answers cid) (s_out s).

(** A call that has returned may have left its goroutine. *)
Definition blocked (c : call) : bool := match c with CallLeft _ _ _ => false | _ => true end.

Definition accounted_for (cid : nat) (s : RState) : Prop :=
  if decide (cid < s_next s)%nat then
    length (replies cid s) = match s_calls s !! cid with Some c => if blocked c then 0%nat else 1%nat | None => 1%nat end
  else replies cid s = [] ∧ s_calls s !! cid = None.

Definition accounted (s : RState) : Prop := ∀ cid, accounted_for cid s.

(** While a method of call [cid] runs. *)
Definition busy (cid : nat) (s : RState) : Prop :=
  (cid < s_next s)%nat ∧ replies cid s = [] ∧ ∀ cid', cid' ≠ cid → accounted_for cid' s.

Definition is_return (o : rout) : bool := match o with RReturn _ _ => true | _ => false end.

(** ** Frames in which all but answers and calls may change *)

Class Loose (F : Frame) : Prop := {
  lo_tick s : allowed F s (ticked s);
  lo_out o s : is_return o = false → allowed F s (outs o s);
  lo_jobs j s : allowed F s (with_jobs j s);
  lo_waiter w s : allowed F s (with_waiter w s);
}.

Section loose.
Context {T : TlvLib} {W : WireText} {TJ : Tasks.TaskJson} {TX : TermsText} {E : RequesterEnv}
        {V : Validator} {LN : LightningRPC} {EN : Environ}
        {RQ : MapRange ReqJobStore.key JobEntryT} {RP : MapRange string PeerDir.Peer}
        {RZ : MapRange Z bytes}.
Context (hasMessenger hasLightning : bool) (localManifest : Manifest).
Context (F : Frame) {LO : Loose F}.

#[local] Instance loose_closed : Closed F.
Proof using LO. split; intros; [apply lo_tick|by apply lo_out|apply lo_jobs]. Qed.
#[local] Hint Resolve loose_closed : calm.

Lemma calm_waiting {A} (f : Waiter.Waiter → Waiter.Waiter * A) : calm F (waiting f).
Proof using LO. intros s Hs. by destruct (lo_waiter (f (s_waiter s)).1 s Hs). Qed.

Lemma calm_jobs {A} (f : JobStoreT → JobStoreT * A) :
  calm F (λ s, let r := f (s_jobs s) in (with_jobs r.1 s, r.2)).
Proof using LO. intros s Hs. by destruct (lo_jobs (f (s_jobs s)).1 s Hs). Qed.

Lemma calm_woken {O} (sl : Waiter.Slot O) k ch : calm F (waitWoken sl k ch).
Proof using LO.
  intros s Hs. unfold waitWoken. destruct (Waiter.waitReceive _ _ _ _) as [[w o]|].
  - by destruct (lo_waiter w s Hs).
  - split_and!; [done|apply fr_refl|done].
Qed.

Lemma calm_ended {O} (sl : Waiter.Slot O) k ch : calm F (waitEnded sl k ch).
Proof using LO. intros s. apply safe_modify; [apply lo_waiter|done]. Qed.

Lemma calm_streamSend cid resp : calm F (streamSend cid resp).
Proof using LO.
  intros s Hs. destruct (lo_tick s Hs) as [H1 H2].
  destruct (lo_out (RStream cid resp (q_stream (s_tick s))) _ eq_refl H1) as [H3 H4].
  split_and!; [done|by eapply fr_trans|done].
Qed.

Lemma calm_streamEvent cid ev : calm F (sendStreamEvent cid ev).
Proof using LO. destruct ev as [|[]]; simpl; [apply calm_streamSend|apply calm_ok|apply calm_streamSend]. Qed.

Lemma calm_drain cid evs : calm F (drain cid evs).
Proof using LO.
  induction evs as [|ev evs IH]; simpl; [apply calm_ok|]. apply calm_try; [apply calm_streamEvent|done].
Qed.

Lemma calm_putQuote p task terms : calm F (putQuote p task terms).
Proof using LO.
  unfold putQuote. repeat (calm_step || first [apply (calm_jobs (λ st, ReqJobStore.PutQuote _ _ _ _ _ st))]).
Qed.

Lemma calm_acceptTerms err req : calm F (acceptTerms hasLightning err req).
Proof using LO.
  unfold acceptTerms. repeat (calm_step || first [apply (calm_jobs (λ st, ReqJobStore.GetTerms _ _ _ st))]).
Qed.

Lemma calm_build task : calm F (buildQuoteRequestPayload task).
Proof using LO. unfold buildQuoteRequestPayload, NewJobID, newMsgID. repeat calm_step. Qed.

Lemma calm_requestQuoteSend req : calm F (requestQuoteSend hasMessenger req).
Proof using LO. unfold requestQuoteSend. repeat (calm_step || apply calm_build). Qed.

Lemma calm_requestQuoteFinish p task j wt ins waited : calm F (requestQuoteFinish p task j wt ins waited).
Proof using LO. unfold requestQuoteFinish. repeat (calm_step || apply calm_putQuote). Qed.

Lemma calm_pay cid p j pr : calm F (modify (outs (RPay cid p j pr))).
Proof using LO. intros s. apply safe_modify; [by apply lo_out|done]. Qed.
End loose.

(** ** Methods that conclude a call *)

Lemma replies_outs cid o s : replies cid (outs o s) = replies cid s ++ omap (answers cid) [o].
Proof. unfold replies. simpl. by rewrite omap_app. Qed.

Lemma replies_quiet cid o s : is_return o = false → replies cid (outs o s) = replies cid s.
Proof. intros Ho. rewrite replies_outs. destruct o; try done; by rewrite app_nil_r. Qed.

(** The state of a call, and what it depends on. *)
Lemma accounted_proper cid s s' :
  s_next s' = s_next s → replies cid s' = replies cid s → s_calls s' !! cid = s_calls s !! cid →
  accounted_for cid s → accounted_for cid s'.
Proof. unfold accounted_for. intros -> -> ->. done. Qed.

Definition trivial_ext (s s' : RState) : Prop := True.

Definition busy_frame (cid : nat) : Frame :=
  {| fr_inv := busy cid; fr_ext := trivial_ext; fr_refl _ := I; fr_trans _ _ _ _ _ := I |}.

Lemma busy_proper cid s s' :
  s_next s' = s_next s → (∀ c, replies c s' = replies c s) → s_calls s' = s_calls s → busy cid s → busy cid s'.
Proof.
  intros H1 H2 H3 (Hn & Hr & Ha). split_and!; [by rewrite H1|by rewrite H2|].
  intros cid' Hne. by apply (accounted_proper cid' s); [..|rewrite H3|apply Ha].
Qed.

#[global] Instance busy_loose cid : Loose (busy_frame cid).
Proof.
  split; intros; (intros Hs; split; [|done]); apply (busy_proper cid s); try done.
  intros c. by apply replies_quiet.
Qed.

(** A call still blocked when its method starts again. *)
Lemma accounted_busy cid c s :
  accounted s → s_calls s !! cid = Some c → blocked c = true → busy cid s.
Proof.
  intros Ha Hc Hb. pose proof (Ha cid) as Hcid. unfold accounted_for in Hcid. rewrite Hc, Hb in Hcid.
  case_decide; [|by destruct Hcid]. split_and!; [done| |auto]. by apply nil_length_inv.
Qed.

Definition concludes (cid : nat) (m : RM unit) : Prop := ∀ s, busy cid s → accounted (m s).1.

Lemma concludes_bind {A} cid (m : RM A) k :
  calm (busy_frame cid) m → (∀ a, concludes cid (k a)) → concludes cid (m ≫= k).
Proof. intros Hm Hk s Hs. destruct (Hm s Hs) as [H1 _]. by apply Hk. Qed.

Lemma calls_accounted cid m n (s : RState) :
  (cid < s_next s)%nat → length (replies cid s) = n → (∀ cid', cid' ≠ cid → accounted_for cid' s) →
  (∀ cid', cid' ≠ cid → m !! cid' = s_calls s !! cid') →
  n = match m !! cid with Some c => if blocked c then 0%nat else 1%nat | None => 1%nat end →
  accounted (with_calls m s).
Proof.
  intros Hn Hr Ho Hm Hc cid'. destruct (decide (cid' = cid)) as [->|Hne].
  - unfold accounted_for. simpl. rewrite decide_True by done. change (replies cid (with_calls m s)) with (replies cid s).
    congruence.
  - apply (accounted_proper cid' s); [done|done|by apply Hm|by apply Ho].
Qed.

Lemma concludes_park cid c : blocked c = true → concludes cid (park cid c).
Proof.
  intros Hc s (Hn & Hr & Ho). eapply (calls_accounted cid _ 0%nat); [done|by rewrite Hr|done| |].
  - intros. by rewrite lookup_insert_ne.
  - by rewrite lookup_insert_eq, Hc.
Qed.

Lemma outs_with_calls o m s : outs o (with_calls m s) = with_calls m (outs o s).
Proof. done. Qed.

(** After an answer the call is gone. *)
Lemma answer_gone {E : RequesterEnv} cid m s :
  calm (busy_frame cid) m → busy cid s →
  let s' := (answer cid m s).1 in
  accounted s' ∧ s_calls s' !! cid = None ∧ (cid < s_next s')%nat ∧ replies cid s' = [(m s).2].
Proof.
  intros Hm Hs. destruct (Hm s Hs) as [(Hn & Hr & Ho) _].
  assert (Heq : (answer cid m s).1 =
    with_calls (delete cid (s_calls (m s).1)) (outs (RReturn cid (m s).2) (m s).1)) by done.
  cbv zeta. rewrite Heq.
  assert (Hlen : replies cid (outs (RReturn cid (m s).2) (m s).1) = [(m s).2]).
  { rewrite replies_outs, Hr. simpl. by rewrite decide_True. }
  split_and!; [|by cbn [s_calls with_calls]; rewrite lookup_delete_eq|done|done].
  eapply (calls_accounted cid _ 1%nat); [done|by rewrite Hlen| | |by rewrite lookup_delete_eq].
  - intros cid' Hne. apply (accounted_proper cid' (m s).1); [done| |done|by apply Ho].
    rewrite replies_outs. simpl. by rewrite decide_False, app_nil_r.
  - intros. by rewrite lookup_delete_ne.
Qed.

Lemma concludes_answer {E : RequesterEnv} cid m : calm (busy_frame cid) m → concludes cid (answer cid m).
Proof. intros Hm s Hs. by apply answer_gone. Qed.

(** The goroutine of a call that has returned may stay. *)
Lemma park_left cid p j w s :
  accounted s → s_calls s !! cid = None → (cid < s_next s)%nat →
  accounted (with_calls (<[cid := CallLeft p j w]> (s_calls s)) s).
Proof.
  intros Ha Hc Hn. pose proof (Ha cid) as Hcid. unfold accounted_for in Hcid.
  rewrite decide_True, Hc in Hcid by done.
  eapply (calls_accounted cid _ 1%nat); [done|done|auto| |by rewrite lookup_insert_eq].
  intros. by rewrite lookup_insert_ne.
Qed.

(** ** Every event *)

Definition resumes (cid : nat) (c : call) (m : RM unit) : Prop :=
  ∀ s, accounted s → s_calls s !! cid = Some c → accounted (m s).1.

Lemma resumes_ret cid c : resumes cid c (mret tt).
Proof. by intros s Ha _. Qed.

Lemma resumes_concludes cid c m : blocked c = true → concludes cid m → resumes cid c m.
Proof. intros Hb Hm s Ha Hc. apply Hm. by eapply accounted_busy. Qed.

Section calls.
Context {T : TlvLib} {W : WireText} {TJ : Tasks.TaskJson} {TX : TermsText} {E : RequesterEnv}
        {V : Validator} {LN : LightningRPC} {EN : Environ}
        {RQ : MapRange ReqJobStore.key JobEntryT} {RP : MapRange string PeerDir.Peer}
        {RZ : MapRange Z bytes}.
Context (hasMessenger hasLightning : bool) (localManifest : Manifest).

#[local] Instance busy_closed cid : Closed (busy_frame cid).
Proof. apply loose_closed. apply _. Qed.
#[local] Hint Resolve busy_closed busy_loose : calm.
#[local] Hint Resolve calm_waiting calm_woken calm_ended calm_streamSend calm_streamEvent calm_drain
  calm_putQuote calm_acceptTerms calm_requestQuoteSend calm_requestQuoteFinish calm_pay : calm.

Abbreviation calm_ cid := (calm (busy_frame cid)).

Lemma calm_deferred cid p j sub (m : RE Reply) :
  calm_ cid m →
  calm_ cid (r ← m;
    _ ← match sub with
        | Some c => waiting (λ w, (Waiter.unsubscribe (Waiter.MkKey p j) c w, tt))
        | None => mret tt
        end;
    match r with
    | Ok rep => rok rep
    | Err st => _ ← markJobState p j ReqJobStore.StateFailed; mret (Err st)
    end).
Proof. intros Hm. repeat calm_step. Qed.

Lemma conc_acceptReturn cid p j sub m : calm_ cid m → concludes cid (acceptReturn cid p j sub m).
Proof. intros Hm. by apply concludes_answer, calm_deferred. Qed.

Lemma conc_streamReturn cid p j sub w m : calm_ cid m → concludes cid (streamReturn cid p j sub w m).
Proof.
  intros Hm s Hs. unfold streamReturn, mbind, RM_bind.
  destruct (answer_gone cid _ s (calm_deferred cid p j (Some sub) m Hm) Hs) as (H1 & H2 & H3 & _).
  destruct w; [by apply park_left..|done].
Qed.

Lemma calm_finish cid p j (waited : result Waiter.wait_err Waiter.ResultOutcome) :
  calm_ cid (outcome ←! acceptWaited p j waited;
    res ←! lift (protoResultFromTerminal outcome.1 outcome.2) id;
    _ ← markJobState p j ReqJobStore.StateDone; rok (ReplyResult res)).
Proof. repeat calm_step. Qed.

Lemma conc_acceptFinish cid p j waited : concludes cid (acceptFinish cid p j waited).
Proof. apply conc_acceptReturn, calm_finish. Qed.

Lemma conc_RequestQuote cid req : concludes cid (RequestQuote hasMessenger cid req).
Proof.
  unfold RequestQuote. apply concludes_bind; [auto with calm|]. intros [[[[[p task] j] wt] ins]|st].
  2: { apply concludes_answer, calm_ret. }
  cbv zeta. apply concludes_bind; [apply calm_waiting; apply _|]. intros [out|e|ch].
  - apply concludes_answer. auto with calm.
  - apply concludes_answer. auto with calm.
  - by apply concludes_park.
Qed.

Lemma conc_payInvoice cid p j terms sub : concludes cid (payInvoice cid p j terms sub).
Proof. unfold payInvoice. apply concludes_bind; [auto with calm|]. intros. by apply concludes_park. Qed.

Lemma conc_AcceptAndExecute cid req : concludes cid (AcceptAndExecute hasLightning cid req).
Proof.
  unfold AcceptAndExecute. destruct req as [req|]; [|apply concludes_answer, calm_fail].
  apply concludes_bind; [auto with calm|]. intros [[[p j] terms]|st]; [|apply concludes_answer, calm_ret].
  apply concludes_bind; [auto with calm|]. intros _.
  apply concludes_bind; [auto with calm|]. intros [|st]; [apply conc_payInvoice|].
  apply conc_acceptReturn. auto with calm.
Qed.

Lemma conc_AcceptAndExecuteStream cid req : concludes cid (AcceptAndExecuteStream hasLightning cid req).
Proof.
  unfold AcceptAndExecuteStream. destruct req as [req|]; [|apply concludes_answer, calm_fail].
  apply concludes_bind; [auto with calm|]. intros [[[p j] terms]|st]; [|apply concludes_answer, calm_ret].
  apply concludes_bind; [auto with calm|]. intros _.
  apply concludes_bind; [auto with calm|]. intros [|st]; [|apply conc_acceptReturn; auto with calm].
  apply concludes_bind; [apply calm_waiting; apply _|]. intros [ev|e]; [apply conc_payInvoice|].
  apply conc_acceptReturn, calm_fail.
Qed.

Lemma conc_afterPayment cid p j sub paid : concludes cid (afterPayment cid p j sub paid).
Proof.
  unfold afterPayment. destruct paid; [|apply conc_acceptReturn; auto with calm].
  apply concludes_bind; [auto with calm|]. intros _. destruct sub; [by apply concludes_park|].
  apply concludes_bind; [apply calm_waiting; apply _|].
  intros []; [apply conc_acceptFinish..|by apply concludes_park].
Qed.

Lemma calm_streamWaited cid p j sub n waited :
  calm_ cid (outcome ←! acceptWaited p j waited;
    evs ← asks (λ s, pending sub n (s_waiter s));
    _ ←! drain cid evs;
    res ←! lift (protoResultFromTerminalMetadataOnly outcome.1) id;
    _ ←! (if bool_decide (pr_Status res = STATUS_OK)
          then streamSend cid (RespEnd (pr_ResultHash res) (pr_ResultLen res)) else rok tt);
    _ ←! streamSend cid (RespResult res);
    _ ← markJobState p j ReqJobStore.StateDone;
    rok ReplyStream).
Proof. repeat calm_step. Qed.

(** *** Blocked calls *)

Lemma resumes_woken {O} (sl : Waiter.Slot O) cid c k ch (f : O → RM unit) :
  blocked c = true → (∀ o, concludes cid (f o)) →
  resumes cid c (out ← waitWoken sl k ch; match out with Some o => f o | None => mret tt end).
Proof.
  intros Hb Hf s Ha Hc. unfold mbind, RM_bind, waitWoken.
  destruct (Waiter.waitReceive _ _ _ _) as [[w o]|]; simpl; [|done]. apply Hf.
  destruct (lo_waiter (F := busy_frame cid) w s (accounted_busy _ _ _ Ha Hc Hb)) as [H _]. exact H.
Qed.

Lemma resumes_wake cid c : resumes cid c (wake cid c).
Proof.
  destruct c as [p task j wt ins ch| |p j ch| |]; cbn [wake]; try apply resumes_ret.
  - apply resumes_woken; [done|]. intros o. apply concludes_answer. auto with calm.
  - apply resumes_woken; [done|]. intros o. apply conc_acceptFinish.
Qed.

Lemma resumes_ctxDone cid err c : resumes cid c (ctxDone cid err c).
Proof.
  destruct c as [p task j wt ins ch| |p j ch|p j sub n g|]; try apply resumes_ret;
    (apply resumes_concludes; [done|]); cbn [ctxDone].
  - apply concludes_bind; [auto with calm|]. intros _. apply concludes_answer. auto with calm.
  - apply concludes_bind; [auto with calm|]. intros _. apply conc_acceptFinish.
  - apply conc_streamReturn, calm_ret.
Qed.

Lemma resumes_streamNext cid c : resumes cid c (streamNext cid c).
Proof.
  destruct c as [| | |p j sub n g|]; try apply resumes_ret. intros s Ha Hc. cbn [streamNext].
  unfold mbind at 1, RM_bind at 1, asks at 1 2. cbn [fst snd].
  destruct (pending sub n (s_waiter s)) as [|ev evs]; [done|]. revert Ha Hc.
  apply (resumes_concludes cid (CallStream p j sub n g)); [done|].
  apply concludes_bind; [auto with calm|]. intros [|st]; [by apply concludes_park|].
  apply conc_streamReturn, calm_ret.
Qed.

Lemma resumes_streamFinish cid c : resumes cid c (streamFinish cid c).
Proof.
  destruct c as [| | |p j sub n [| |w]|]; try apply resumes_ret.
  apply resumes_concludes; [done|]. apply conc_streamReturn, calm_streamWaited.
Qed.

Lemma resumes_paid cid paid c : resumes cid c (paidCall cid paid c).
Proof.
  destruct c as [|p j terms sub| | |]; try apply resumes_ret.
  apply resumes_concludes; [done|]. apply conc_afterPayment.
Qed.

(** *** Goroutines *)

Lemma resumes_parkGo cid c g : is_Some (goroutine c) → resumes cid c (parkGo cid c g).
Proof.
  intros Hg s Ha Hc. destruct c as [| | |p j sub n g0|p j g0]; try by destruct Hg.
  - apply concludes_park; [done|]. by eapply accounted_busy.
  - pose proof (Ha cid) as Hcid. unfold accounted_for in Hcid. rewrite Hc in Hcid.
    case_decide as Hn; [|by destruct Hcid].
    assert (Hgo : ∀ m, (∀ cid', cid' ≠ cid → m !! cid' = s_calls s !! cid') →
      match m !! cid with Some c => blocked c = false | None => True end → accounted (with_calls m s)).
    { intros m H1 H2. eapply (calls_accounted cid _ 1%nat); [done|done|auto|done|].
      destruct (m !! cid); [by rewrite H2|done]. }
    destruct g; apply Hgo; try (intros; by rewrite ?lookup_insert_ne, ?lookup_delete_ne).
    + by rewrite lookup_insert_eq.
    + by rewrite lookup_insert_eq.
    + by rewrite lookup_delete_eq.
Qed.

Lemma accounted_waiter w s : accounted s → accounted (with_waiter w s).
Proof. intros Ha cid. by apply (accounted_proper cid s). Qed.

Lemma resumes_goStart cid c : resumes cid c (goStart cid c).
Proof.
  intros s Ha Hc. unfold goStart. destruct (goroutine c) as [[k []]|] eqn:Hg; try done.
  apply resumes_parkGo; [by eexists|by apply accounted_waiter|done].
Qed.

Lemma resumes_goWake cid c : resumes cid c (goWake cid c).
Proof.
  intros s Ha Hc. unfold goWake. destruct (goroutine c) as [[k []]|] eqn:Hg; try done.
  unfold mbind, RM_bind, waitWoken. destruct (Waiter.waitReceive _ _ _ _) as [[w o]|]; [|done].
  apply resumes_parkGo; [by eexists|by apply accounted_waiter|done].
Qed.

Lemma resumes_goCtx cid c : resumes cid c (goCtx cid c).
Proof.
  intros s Ha Hc. unfold goCtx. destruct (goroutine c) as [[k []]|] eqn:Hg; try done.
  apply resumes_parkGo; [by eexists|by apply accounted_waiter|done].
Qed.

(** *** The run *)

Lemma starts_accounted f s : (∀ cid, concludes cid (f cid)) → accounted s → accounted (starts f s).1.
Proof.
  intros Hf Ha. apply Hf. pose proof (Ha (s_next s)) as Hn. unfold accounted_for in Hn.
  rewrite decide_False in Hn by lia. destruct Hn as [Hr Hc].
  split_and!; [simpl; lia|done|]. intros cid' Hne. pose proof (Ha cid') as H.
  unfold accounted_for in *. simpl in *. repeat case_decide; try done; lia.
Qed.

Lemma continues_accounted cid f s : (∀ c, resumes cid c (f c)) → accounted s → accounted (continues cid f s).1.
Proof.
  intros Hf Ha. unfold continues, mbind, RM_bind, asks. cbn [fst snd].
  destruct (s_calls s !! cid) eqn:Hc; [by apply Hf|done].
Qed.

Lemma rstep_accounted e s : accounted s → accounted (rstep hasMessenger hasLightning localManifest s e).
Proof.
  intros Ha. unfold rstep. destruct e; cbn [rpc].
  1-6: apply starts_accounted; [intros cid|done].
  - apply concludes_answer. auto with calm.
  - apply concludes_answer. auto with calm.
  - apply conc_RequestQuote.
  - apply conc_AcceptAndExecute.
  - apply conc_AcceptAndExecuteStream.
  - apply concludes_answer. auto with calm.
  - by apply accounted_waiter.
  - intros cid. by apply (accounted_proper cid s).
  - apply continues_accounted; [intros; apply resumes_paid|done].
  - apply continues_accounted; [intros; apply resumes_wake|done].
  - apply continues_accounted; [intros; apply resumes_ctxDone|done].
  - apply continues_accounted; [intros; apply resumes_goStart|done].
  - apply continues_accounted; [intros; apply resumes_goWake|done].
  - apply continues_accounted; [intros; apply resumes_goCtx|done].
  - apply continues_accounted; [intros; apply resumes_streamNext|done].
  - apply continues_accounted; [intros; apply resumes_streamFinish|done].
Qed.

Lemma New_accounted jobs : accounted (New jobs localManifest).
Proof. intros cid. unfold accounted_for. by rewrite decide_False by (simpl; lia). Qed.

Lemma rrun_accounted evs s :
  accounted s → accounted (rrun hasMessenger hasLightning localManifest evs s).
Proof.
  unfold rrun. revert s. induction evs as [|e evs IH]; intros s Ha; [done|]. simpl.
  by apply IH, rstep_accounted.
Qed.

(** ** Theorems *)

Abbreviation reached jobs evs := (rrun hasMessenger hasLightning localManifest evs (New jobs localManifest)).


(** What ends a blocked call: its context, or a payment that fails. *)
Definition ending (cid : nat) (err : ctx_err) (e : ln_err) (c : call) : revent :=
  match c with
  | CallPay _ _ _ _ => EvPaid cid (Err e)
  | _ => EvCtx cid err
  end.

Lemma deferred_err cid p j sub m s st :
  calm_ cid m → busy cid s → (m s).2 = Err st → replies cid (acceptReturn cid p j sub m s).1 = [Err st].
Proof.
  intros Hm Hs Hst. destruct (answer_gone cid _ s (calm_deferred cid p j sub m Hm) Hs) as (_ & _ & _ & Hr).
  etrans; [exact Hr|]. f_equal. unfold mbind, RM_bind. rewrite Hst. done.
Qed.

(** C25: a blocked call never stays blocked against its caller's will: in every
    reachable state, the end of its context (or, while it pays, the failure of the
    payment) answers it with an error at once, and it is no longer blocked. *)
Theorem blocked_call_ends jobs evs cid c err e :
  let s := reached jobs evs in
  s_calls s !! cid = Some c → blocked c = true →
  let s' := rstep hasMessenger hasLightning localManifest s (ending cid err e c) in
  (∃ st, replies cid s' = [Err st]) ∧ (∀ c', s_calls s' !! cid = Some c' → blocked c' = false).
Proof.
  intros s Hc Hb s'. assert (Ha : accounted s) by apply rrun_accounted, New_accounted.
  assert (Ha' : accounted s') by by apply rstep_accounted.
  assert (Hs : busy cid s) by by eapply accounted_busy.
  enough (Hst : ∃ st, replies cid s' = [Err st]).
  { split; [done|]. destruct Hst as [st Hst]. intros c' Hc'. pose proof (Ha' cid) as Hcid.
    unfold accounted_for in Hcid. rewrite Hc', Hst in Hcid. case_decide; [|by destruct Hcid].
    by destruct (blocked c'). }
  subst s'. unfold rstep. destruct c as [p task j wt ins ch|p j terms sub|p j ch|p j sub n g|]; [..|done];
    cbn [ending rpc]; unfold continues, mbind, RM_bind, asks; cbn [fst snd]; rewrite Hc;
    cbn [ctxDone paidCall afterPayment].
  - eexists. assert (Hs1 : busy cid (waitEnded Waiter.quote_slot (waitKey p j) ch s).1)
      by by apply (busy_proper cid s).
    apply (answer_gone cid _ _ (calm_requestQuoteFinish _ p task j wt ins (Err Waiter.ErrWaitCancelled)) Hs1).
  - eexists. eapply deferred_err; [auto with calm|done|]. done.
  - eexists. eapply deferred_err; [apply calm_finish|by apply (busy_proper cid s)|]. done.
  - unfold streamCtx, streamReturn, mbind, RM_bind. eexists.
    etrans; [|eapply (deferred_err cid p j (Some sub) (mret (Err (statusFromContextError err))) s);
      [apply calm_ret|done|done]].
    by destruct g.
Qed.
End calls.
