(* ===== verification/RequesterRequests.v ===== *)
(** * The requests behind the calls of the requester

    A call is numbered when it arrives: call [cid] of a run is its [cid]-th RPC.  The
    request of a call and the job id it draws are functions of the events. *)

From stdpp Require Import pretty.
From S2P Require Import Prelude GoStd TlvLib Wire Stores PeerDir Terms Pricing Validation Lightning Tasks ReqJobStore Waiter Requester RequesterRun RequesterLogic RequesterCalls.

Definition is_call (e : revent) : bool :=
  match e with
  | EvListPeers _ | EvLocalInfo _ | EvQuote _ | EvAccept _ | EvStream _ | EvCancel _ => true
  | _ => false
  end.

(** ** Only an arriving RPC takes a number, only a directory event changes the directory *)

Definition numbered (n : nat * PeerDir.Directory) : Frame :=
  {| fr_inv s := (s_next s, s_peers s) = n; fr_ext := trivial_ext; fr_refl _ := I; fr_trans _ _ _ _ _ := I |}.

#[export] Instance numbered_loose n : Loose (numbered n).
Proof. split; intros; by intros Hs. Qed.

Lemma calm_park n cid c : calm (numbered n) (park cid c).
Proof. intros s. by apply safe_modify. Qed.
Lemma calm_leave n cid : calm (numbered n) (leave cid).
Proof. intros s. by apply safe_modify. Qed.
Lemma calm_reply n cid r : calm (numbered n) (reply cid r).
Proof. intros s. by apply safe_modify. Qed.

Section numbers.
Context {T : TlvLib} {W : WireText} {TJ : Tasks.TaskJson} {TX : TermsText} {E : RequesterEnv}
        {V : Validator} {LN : LightningRPC} {EN : Environ}
        {RQ : MapRange ReqJobStore.key JobEntryT} {RP : MapRange string PeerDir.Peer}
        {RZ : MapRange Z bytes}.
Context (hasMessenger hasLightning : bool) (localManifest : Manifest).

#[local] Instance numbered_closed n : Closed (numbered n).
Proof. apply loose_closed. apply _. Qed.
#[local] Hint Resolve numbered_closed numbered_loose calm_park calm_leave calm_reply : calm.
#[local] Hint Resolve calm_waiting calm_woken calm_ended calm_streamSend calm_streamEvent calm_drain
  calm_putQuote calm_acceptTerms calm_requestQuoteSend calm_requestQuoteFinish calm_pay : calm.

Abbreviation calm_ n := (calm (numbered n)).

Lemma calm_answer n cid m : calm_ n m → calm_ n (answer cid m).
Proof. intros Hm. unfold answer. repeat calm_step. Qed.

Lemma calm_acceptReturn n cid p j sub m : calm_ n m → calm_ n (acceptReturn cid p j sub m).
Proof. intros Hm. apply calm_answer. repeat calm_step. Qed.

Lemma calm_streamReturn n cid p j sub w m : calm_ n m → calm_ n (streamReturn cid p j sub w m).
Proof. intros Hm. apply calm_bind; [by apply calm_acceptReturn|]. intros _. repeat calm_step. Qed.

Lemma calm_acceptFinish n cid p j w : calm_ n (acceptFinish cid p j w).
Proof. apply calm_acceptReturn. repeat calm_step. Qed.

Lemma calm_streamed n cid p j sub k w : calm_ n (streamWaited cid p j sub k w).
Proof. apply calm_streamReturn. repeat calm_step. Qed.

Lemma calm_payInvoice n cid p j terms sub : calm_ n (payInvoice cid p j terms sub).
Proof. unfold payInvoice. repeat calm_step. Qed.

(** A method that may return. *)
Ltac returning_step :=
  lazymatch goal with
  | |- calm _ (answer _ _) => apply calm_answer
  | |- calm _ (acceptReturn _ _ _ _ _) => apply calm_acceptReturn
  | |- calm _ (streamReturn _ _ _ _ _ _) => apply calm_streamReturn
  | |- _ => calm_step
  end.
#[local] Hint Resolve calm_acceptFinish calm_streamed calm_payInvoice : calm.

Lemma calm_RequestQuote n cid req : calm_ n (RequestQuote hasMessenger cid req).
Proof. unfold RequestQuote. cbv zeta. repeat returning_step. Qed.

Lemma calm_AcceptAndExecute n cid req : calm_ n (AcceptAndExecute hasLightning cid req).
Proof. unfold AcceptAndExecute. repeat returning_step. Qed.

Lemma calm_AcceptAndExecuteStream n cid req : calm_ n (AcceptAndExecuteStream hasLightning cid req).
Proof. unfold AcceptAndExecuteStream. repeat returning_step. Qed.

Lemma calm_parkGo n cid c w : calm_ n (parkGo cid c w).
Proof. unfold parkGo. repeat calm_step. Qed.
#[local] Hint Resolve calm_parkGo : calm.

(** A call that goes on. *)
Lemma calm_continued n cid (f : call → RM unit) : (∀ c, calm_ n (f c)) → calm_ n (continues cid f).
Proof. intros Hf. unfold continues. repeat calm_step. Qed.

Definition is_peer (e : revent) : bool := match e with EvPeer _ => true | _ => false end.

Lemma calm_goes_on n e : is_call e = false → is_peer e = false → calm_ n (rpc hasMessenger hasLightning localManifest e).
Proof.
  destruct e; try done; intros _ _; cbn [rpc]; try (intros s; by apply safe_modify); apply calm_continued; intros c;
    unfold paidCall, afterPayment, wake, ctxDone, goStart, goWake, goCtx, streamNext, streamEvent, streamFinish, streamCtx;
    repeat returning_step.
Qed.

Lemma starts_next f s :
  (∀ n cid, calm_ n (f cid)) → (s_next (starts f s).1, s_peers (starts f s).1) = (S (s_next s), s_peers s).
Proof. intros Hf. by destruct (Hf (S (s_next s), s_peers s) (s_next s) (fresh_call s) eq_refl) as [H _]. Qed.

Abbreviation step_ := (rstep hasMessenger hasLightning localManifest).

Lemma rstep_numbered e s :
  is_peer e = false →
  (s_next (step_ s e), s_peers (step_ s e)) = ((s_next s + if is_call e then 1 else 0)%nat, s_peers s).
Proof.
  intros Hp. destruct (is_call e) eqn:He.
  - rewrite Nat.add_1_r. unfold rstep. destruct e; try done; cbn [rpc]; apply starts_next; intros n cid;
      first [apply calm_RequestQuote|apply calm_AcceptAndExecute|apply calm_AcceptAndExecuteStream|
             apply calm_answer; auto with calm].
  - rewrite Nat.add_0_r. by destruct (calm_goes_on (s_next s, s_peers s) e He Hp s eq_refl) as [H _].
Qed.

Lemma rstep_next e s : s_next (step_ s e) = (s_next s + if is_call e then 1 else 0)%nat.
Proof.
  destruct (is_peer e) eqn:Hp; [|by injection (rstep_numbered e s Hp)].
  by destruct e; rewrite ?Nat.add_0_r.
Qed.

Lemma rstep_peers e s : is_peer e = false → s_peers (step_ s e) = s_peers s.
Proof. intros Hp. by injection (rstep_numbered e s Hp). Qed.

(** ** The calls of a run *)

(** The RPCs, each with the events before it. *)
Fixpoint calls_of (pre evs : list revent) : list (list revent * revent) :=
  match evs with
  | [] => []
  | e :: rest => (if is_call e then [(pre, e)] else []) ++ calls_of (pre ++ [e]) rest
  end.

Abbreviation run_ := (rrun hasMessenger hasLightning localManifest).

Lemma calls_of_lookup pre pre' e post s :
  is_call e = true → s_next s = 0%nat →
  calls_of pre (pre' ++ e :: post) !! s_next (run_ pre' s) = Some (pre ++ pre', e).
Proof.
  intros He Hs. enough (∀ n pre' pre s, s_next s = n → ∃ m, s_next (run_ pre' s) = (n + m)%nat ∧
    calls_of pre (pre' ++ e :: post) !! m = Some (pre ++ pre', e)) as Hall.
  { by destruct (Hall 0%nat pre' pre s Hs) as (m & -> & ?). }
  clear s Hs pre pre'. intros n pre'. revert n. induction pre' as [|x pre' IH]; intros n pre s Hs.
  - exists 0%nat. simpl. rewrite He, Hs, Nat.add_0_r, app_nil_r. done.
  - destruct (IH (n + if is_call x then 1 else 0)%nat (pre ++ [x]) (rstep hasMessenger hasLightning localManifest s x))
      as (m & H1 & H2); [by rewrite rstep_next, Hs|].
    rewrite <-app_assoc in H2. simpl in H2 |- *. destruct (is_call x).
    + exists (S m). split; [|done]. rewrite H1. lia.
    + exists m. split; [|done]. rewrite H1. lia.
Qed.
End numbers.
