(* ===== verification/RequesterSafety.v ===== *)
(** * The requester pays only what it asked for

    The invariant of the requester: a stored quote answers a request that was sent,
    commits to its task and came from its peer; the invoice of every payment was
    checked against such a quote; a result that is returned came from the peer that
    was paid and matches its hash. *)

From stdpp Require Import pretty.
From S2P Require Import Prelude GoStd TlvLib Wire WireProofs Stores PeerDir Terms Pricing Validation Lightning Tasks ReqJobStore Waiter WaiterProofs WaiterInv WaiterRoute Requester RequesterRun RequesterLogic.

Section safety.
Context {T : TlvLib} {L : TlvLaws T} {W : WireText} {TJ : Tasks.TaskJson} {TX : TermsText} {E : RequesterEnv}
        {V : Validator} {LN : LightningRPC} {EN : Environ}
        {RQ : MapRange ReqJobStore.key JobEntryT} {RP : MapRange string PeerDir.Peer}
        {RZ : MapRange Z bytes}.
Context (hasMessenger hasLightning : bool) (localManifest : Manifest).
(** The messages received. *)
Context (Msg : string → Z → bytes → Prop).
(** The request of each call, and the job id that was drawn for it. *)
Context (C : nat → option revent) (J : nat → option bytes).
(** The waiter's limits. *)
Context (maxS maxJ : Z) (HmaxS : 0 ≤ maxS) (HmaxJ : 0 ≤ maxJ) (Hbig : maxS + max_record_size < 2 ^ 64).

(** ** What is stated *)

(** The task was sent to [p] in a quote request with job id [j]. *)
Definition requested (out : list rout) (p : string) (j : bytes) (task : option Tasks.Task)
    (wireTask : Tasks.QuoteRequestTask) (inputStream : Tasks.InputStream) : Prop :=
  Tasks.ToWireQuoteRequestTask task = Ok wireTask ∧ Tasks.ToWireInputStream task = Ok inputStream ∧
  ∃ payload q, RSent p MessageTypeQuoteRequest payload None ∈ out ∧ EncodeQuoteRequest q = Ok payload ∧
    env_JobID (qr_Envelope q) = j ∧ qr_TaskKind q = Tasks.qt_TaskKind wireTask ∧
    qr_ParamsBytes q = Some (Tasks.qt_ParamsBytes wireTask).

(** [p] answered that request, and its quote commits to the task. *)
Definition quoted (out : list rout) (p : string) (j : bytes) (task : option Tasks.Task)
    (terms : ReqJobStore.PbTerms) : Prop :=
  ∃ wireTask inputStream resp, requested out p j task wireTask inputStream ∧
    quote_from Msg (Waiter.MkKey p j) resp ∧
    termsFromQuoteResponse wireTask inputStream resp = Ok terms.

(** What [verifyInvoiceBinding] checks of a decoded invoice. *)
Definition skew : Z :=
  Z.max (envconfig_Int64 "LCP_ALLOWED_CLOCK_SKEW_SECONDS" defaultAllowedClockSkewSeconds) 0.

Definition invoice_matches (p : string) (terms : ReqJobStore.PbTerms) (info : PaymentRequestInfo) : Prop :=
  pi_DescriptionHash info = ReqJobStore.pt_TermsHash terms ∧ wf_hash (ReqJobStore.pt_TermsHash terms) ∧
  to_lower (pi_PayeePubKey info) = to_lower p ∧
  pi_AmountMsat info = ReqJobStore.pt_PriceMsat terms ∧ 0 < pi_AmountMsat info ∧
  ∃ x, ReqJobStore.pt_QuoteExpiry terms = Some x ∧ 0 ≤ timestampSeconds x ∧
    pi_TimestampUnix info ≤ wrap_i64 (maxInt64 - pi_ExpirySeconds info) ∧
    wrap_i64 (pi_TimestampUnix info + pi_ExpirySeconds info) ≤ wrap_i64 (timestampSeconds x + skew).

(** The call is a quote request for the task, and drew the job id. *)
Definition quote_call (cid : nat) (p : string) (task : option Tasks.Task) (j : bytes) : Prop :=
  ∃ req, C cid = Some (EvQuote (Some req)) ∧ p = TrimSpace (rq_PeerId req) ∧ task = rq_Task req ∧ J cid = Some j.

(** The call is to execute the job. *)
Definition exec_call (cid : nat) (p : string) (j : bytes) : Prop :=
  ∃ req, (C cid = Some (EvAccept (Some req)) ∨ C cid = Some (EvStream (Some req))) ∧
    p = TrimSpace (ar_PeerId req) ∧ j = ar_JobId req.

(** The terms are those that a quote request for the task was answered with. *)
Definition issued (out : list rout) (p : string) (j : bytes) (task : option Tasks.Task)
    (terms : ReqJobStore.PbTerms) : Prop :=
  ∃ cid, quote_call cid p task j ∧ RReturn cid (Ok (ReplyQuote p terms)) ∈ out.

Definition payable (out : list rout) (p : string) (j : bytes) (pr : string) : Prop :=
  ∃ task terms n info, quoted out p j task terms ∧ pr = ReqJobStore.pt_PaymentRequest terms ∧
    rpc_DecodePaymentRequest n pr = Ok info ∧ invoice_matches p terms info ∧ issued out p j task terms.

(** A verified outcome that came from [p] about job [j]. *)
Definition obtained_from (p : string) (j : bytes) (o : Waiter.ResultOutcome) : Prop :=
  result_routed Msg (Waiter.MkKey p j) o ∧ verified maxS maxJ o.

Definition result_paid (out : list rout) (cid : nat) (convert : Result → bytes → result Status PbResult)
    (res : PbResult) : Prop :=
  ∃ p j pr o terminal, RPay cid p j pr ∈ out ∧ obtained_from p j o ∧ Waiter.ro_Error o = None ∧
    Waiter.ro_Result o = Some terminal ∧ convert terminal (Waiter.ro_ResultBytes o) = Ok res.

(** ** The invariant *)

Definition live_chan (p : string) (j : bytes) (ch : nat) (w : Waiter.Waiter) : Prop :=
  routed Msg ch (Waiter.MkKey p j) w ∧ (ch < Waiter.w_nextChan w)%nat.

Definition wait_ok (p : string) (j : bytes) (w : Waiter.Waiter) (g : waitGo) : Prop :=
  match g with
  | WaitPending => True
  | WaitBlocked ch => live_chan p j ch w
  | WaitDone (Ok o) => obtained_from p j o
  | WaitDone (Err _) => True
  end.

Definition paid_in (out : list rout) (cid : nat) (p : string) (j : bytes) : Prop :=
  ∃ pr, RPay cid p j pr ∈ out.

Definition call_ok (out : list rout) (w : Waiter.Waiter) (cid : nat) (c : call) : Prop :=
  match c with
  | CallQuote p task j wt ins ch =>
      requested out p j task wt ins ∧ live_chan p j ch w ∧ quote_call cid p task j
  | CallPay p j terms _ => paid_in out cid p j
  | CallResult p j ch => paid_in out cid p j ∧ live_chan p j ch w
  | CallStream p j _ _ g | CallLeft p j g => paid_in out cid p j ∧ wait_ok p j w g
  end.

Definition out_ok (out : list rout) (o : rout) : Prop :=
  match o with
  | RPay cid p j pr => payable out p j pr ∧ exec_call cid p j
  | RReturn cid (Ok (ReplyQuote p terms)) =>
      ∃ task, quote_call cid p task (ReqJobStore.pt_JobId terms) ∧
        quoted out p (ReqJobStore.pt_JobId terms) task terms
  | RReturn cid (Ok (ReplyResult res)) => result_paid out cid protoResultFromTerminal res
  | RStream cid (RespResult res) _ =>
      result_paid out cid (λ r _, protoResultFromTerminalMetadataOnly r) res
  | _ => True
  end.

Record sound (s : RState) : Prop := {
  so_jobs : ∀ k task terms, ReqJobStore.remembered (s_jobs s) k task terms →
    quoted (s_out s) (ReqJobStore.k_peerID k) (ReqJobStore.k_jobID k) (Some task) terms ∧
    issued (s_out s) (ReqJobStore.k_peerID k) (ReqJobStore.k_jobID k) (Some task) terms;
  so_waiter : waiter_ok maxS maxJ (s_waiter s);
  so_fresh : ∀ c k, (Waiter.w_nextChan (s_waiter s) ≤ c)%nat → routed Msg c k (s_waiter s);
  so_calls : ∀ cid c, s_calls s !! cid = Some c → call_ok (s_out s) (s_waiter s) cid c;
  so_out : Forall (out_ok (s_out s)) (s_out s);
}.

(** ** The statements only grow *)

Lemma requested_mono out out' p j task wt ins :
  out `prefix_of` out' → requested out p j task wt ins → requested out' p j task wt ins.
Proof.
  intros [l ->] (H1 & H2 & payload & q & H3 & H4). split_and!; [done..|]. exists payload, q.
  split; [|done]. apply elem_of_app. by left.
Qed.

Lemma quoted_mono out out' p j task terms :
  out `prefix_of` out' → quoted out p j task terms → quoted out' p j task terms.
Proof. intros Hp (wt & ins & resp & H & ?). exists wt, ins, resp. split; [by eapply requested_mono|done]. Qed.

Lemma issued_mono out out' p j task terms :
  out `prefix_of` out' → issued out p j task terms → issued out' p j task terms.
Proof. intros Hp (cid & H & ?). exists cid. split; [done|by eapply prefix_elem]. Qed.

Lemma payable_mono out out' p j pr : out `prefix_of` out' → payable out p j pr → payable out' p j pr.
Proof.
  intros Hp (task & terms & n & info & H & ? & ? & ? & ?). exists task, terms, n, info.
  split_and!; [by eapply quoted_mono|done..|by eapply issued_mono].
Qed.

Lemma paid_in_mono out out' cid p j : out `prefix_of` out' → paid_in out cid p j → paid_in out' cid p j.
Proof. intros [l ->] [pr H]. exists pr. apply elem_of_app. by left. Qed.

Lemma result_paid_mono out out' cid conv res :
  out `prefix_of` out' → result_paid out cid conv res → result_paid out' cid conv res.
Proof.
  intros [l ->] (p & j & pr & o & t & H & ?). exists p, j, pr, o, t. split; [|done]. apply elem_of_app. by left.
Qed.

Lemma call_ok_mono out out' w cid c : out `prefix_of` out' → call_ok out w cid c → call_ok out' w cid c.
Proof. intros Hp. destruct c; simpl; intuition eauto using requested_mono, paid_in_mono. Qed.

Lemma out_ok_mono out out' o : out `prefix_of` out' → out_ok out o → out_ok out' o.
Proof.
  intros Hp. destruct o as [| |? []|? [[]|]]; simpl; eauto using result_paid_mono.
  - intros [? ?]. eauto using payable_mono.
  - intros (task & ? & ?). exists task. eauto using quoted_mono.
Qed.

(** *** What each change needs *)

Lemma sound_outs o s : sound s → out_ok (s_out s ++ [o]) o → sound (outs o s).
Proof.
  intros [Hj Hw Hf Hc Ho] Hok. assert (Hp : s_out s `prefix_of` s_out s ++ [o]) by by eexists.
  split; simpl; eauto using call_ok_mono.
  { intros k task terms Hr. destruct (Hj _ _ _ Hr). eauto using quoted_mono, issued_mono. }
  apply Forall_app. split; [|by constructor].
  eapply Forall_impl; [exact Ho|]. intros. by eapply out_ok_mono.
Qed.

Lemma live_chan_step p j ch w o :
  received Msg o → live_chan p j ch w → live_chan p j ch (Waiter.step w o).
Proof.
  intros Hm [Hr Hl]. pose proof (step_next w o). split; [by apply step_routed; auto|lia].
Qed.

(** Channels stay with their jobs. *)
Definition extends (s s' : RState) : Prop :=
  s_out s `prefix_of` s_out s' ∧ ∀ p j ch, live_chan p j ch (s_waiter s) → live_chan p j ch (s_waiter s').

Lemma extends_refl s : extends s s.
Proof. by split. Qed.
Lemma extends_trans s1 s2 s3 : extends s1 s2 → extends s2 s3 → extends s1 s3.
Proof. intros [H1 H2] [H3 H4]. split; [by etrans|auto]. Qed.

Definition frame : Frame :=
  {| fr_inv := sound; fr_ext := extends; fr_refl := extends_refl; fr_trans := extends_trans |}.

#[local] Instance sound_closed : Closed frame.
Proof.
  split.
  - intros s Hs. by destruct Hs.
  - intros p typ payload err s Hs. split; [by apply sound_outs|]. split; [by eexists|done].
  - intros now p j st s [Hj Hw Hf Hc Ho]. split; [|by split]. split; simpl; try done.
    intros k task terms Hr. by eapply Hj, ReqJobStore.mark_remembered.
Qed.

Lemma call_ok_step out w o cid c : received Msg o → call_ok out w cid c → call_ok out (Waiter.step w o) cid c.
Proof.
  intros Hm. destruct c; simpl; intuition eauto using live_chan_step;
    destruct wait as [| |[]]; simpl in *; eauto using live_chan_step.
Qed.

Lemma sound_waiter o s : sound s → received Msg o → sound (with_waiter (Waiter.step (s_waiter s) o) s).
Proof using L HmaxS HmaxJ Hbig.
  intros [Hj Hw Hf Hc Ho] Hm. split; simpl; try done.
  - by apply step_ok.
  - intros c k Hn. pose proof (step_next (s_waiter s) o). apply step_routed; [done|apply Hf; lia|by right].
  - intros cid c Hk. by apply call_ok_step; auto.
Qed.

Lemma sound_park cid c s :
  sound s → call_ok (s_out s) (s_waiter s) cid c → sound (with_calls (<[cid := c]> (s_calls s)) s).
Proof.
  intros [Hj Hw Hf Hc Ho] Hok. split; simpl; try done. intros cid' c'.
  destruct (decide (cid' = cid)) as [->|]; [rewrite lookup_insert_eq; by intros [= <-]|].
  rewrite lookup_insert_ne by done. apply Hc.
Qed.

Lemma sound_leave cid s : sound s → sound (with_calls (delete cid (s_calls s)) s).
Proof.
  intros [Hj Hw Hf Hc Ho]. split; simpl; try done. intros cid' c' [_ Hk]%lookup_delete_Some. by apply Hc.
Qed.

(** ** The methods keep the invariant *)

Abbreviation safe_ := (safe frame).
Abbreviation safeE_ := (safeE frame).

Lemma safe_outs o s (Q : unit → RState → Prop) :
  (sound s → out_ok (s_out s ++ [o]) o) → Q tt (outs o s) → safe_ (modify (outs o)) s Q.
Proof.
  intros Ho HQ. apply safe_modify; [|done]. intros Hs.
  split; [by apply sound_outs; auto|split; [by eexists|done]].
Qed.

Lemma safe_parked cid c s :
  (sound s → call_ok (s_out s) (s_waiter s) cid c) → safe_ (park cid c) s (λ _ _, True).
Proof.
  intros Hc. apply safe_modify; [|done]. intros Hs. split; [by apply sound_park; auto|done].
Qed.

(** A waiter call, as an operation of the waiter. *)
Lemma safe_waiting {A} (f : Waiter.Waiter → Waiter.Waiter * A) o s :
  (∀ w, (f w).1 = Waiter.step w o) → received Msg o →
  safe_ (waiting f) s (λ a s', sound s → a = (f (s_waiter s)).2 ∧ s_waiter s' = (f (s_waiter s)).1).
Proof using L HmaxS HmaxJ Hbig.
  intros Hf Hm Hs. unfold waiting. simpl. rewrite Hf. split_and!; [by apply sound_waiter| |done].
  split; [done|]. intros. by apply live_chan_step.
Qed.

Lemma safe_answer cid m s (Q : Reply → RState → Prop) :
  safeE_ m s Q →
  (∀ r s', extends s s' → Q r s' → out_ok (s_out s' ++ [RReturn cid (Ok r)]) (RReturn cid (Ok r))) →
  safe_ (answer cid m) s (λ _ _, True).
Proof.
  intros Hm HQ. unfold answer. eapply safe_bind; [exact Hm|]. intros r s1 Hg Hr.
  eapply safe_bind with (R := λ _ s2, s_out s2 = s_out s1).
  { apply safe_modify; [|done]. intros Hs. split; [by apply sound_leave|done]. }
  intros _ s2 Hg2 Heq. apply safe_outs; [|done]. intros _. rewrite Heq. destruct r as [r|e]; [|done]. eauto.
Qed.

(** A reply that is neither a quote nor a result. *)
Definition plain (r : Reply) : Prop :=
  match r with ReplyQuote _ _ | ReplyResult _ => False | _ => True end.

Lemma plain_ok out cid r : plain r → out_ok out (RReturn cid (Ok r)).
Proof. by destruct r. Qed.

Lemma safe_answer_plain cid m s : safeE_ m s (λ r _, plain r) → safe_ (answer cid m) s (λ _ _, True).
Proof. intros Hm. eapply safe_answer; [exact Hm|]. intros. by apply plain_ok. Qed.

(** *** Quotes *)

Lemma safeE_sendPeer p typ payload s :
  safeE_ (sendPeer p typ payload) s (λ _ s', RSent p typ payload None ∈ s_out s').
Proof.
  unfold sendPeer. eapply safe_bind with (R := λ err s', RSent p typ payload err ∈ s_out s').
  - intros Hs. destruct (calm_sent frame p typ payload s Hs) as (H1 & H2 & _). split_and!; [done..|].
    simpl. apply elem_of_app. right. by left.
  - intros [m|] s1 _ Hin; [|by apply safeE_ok]. eapply safe_bind; [apply calm_ctx; apply _|].
    intros. apply safeE_err.
Qed.

Lemma safeE_random what s : safeE_ (randomBytes what) s (λ b _, q_rand (s_tick s) = Some b).
Proof.
  intros Hs. destruct (calm_random frame what s Hs) as (H1 & H2 & _). split_and!; [done..|].
  unfold randomBytes. simpl. intros b. by destruct (q_rand (s_tick s)); [intros [= ->]|].
Qed.

Lemma ready_steady p : steady (requireReadyPeer p).
Proof.
  intros s. unfold requireReadyPeer, asks, mbind, RM_bind. cbn [fst snd].
  destruct (PeerDir.GetPeer p (s_peers s)) as [q|]; [|done].
  apply steady_try; [apply steady_check|]. intros []. destruct (PeerDir.p_RemoteManifest q); [|done].
  apply steady_try; [apply steady_check|]. intros []. by apply steady_try; [apply steady_check|].
Qed.

Lemma safeE_build task s :
  safeE_ (buildQuoteRequestPayload task) s (λ b _, let '(j, x, wt, ins, payload) := b in
    Tasks.ToWireQuoteRequestTask task = Ok wt ∧ Tasks.ToWireInputStream task = Ok ins ∧
    q_rand (s_tick s) = Some j ∧
    ∃ msgID, EncodeQuoteRequest {| qr_Envelope := envelope j msgID x; qr_TaskKind := Tasks.qt_TaskKind wt;
               qr_ParamsBytes := Some (Tasks.qt_ParamsBytes wt) |} = Ok payload).
Proof.
  unfold buildQuoteRequestPayload. unfold NewJobID, newMsgID.
  eapply safeE_try; [apply safeE_random|]. intros j s1 _ Hj.
  eapply safeE_try; [apply safeE_calm, calm_random; apply _|]. intros m s2 _ _.
  eapply safeE_try; [apply safeE_calm, calm_expiry; apply _|]. intros x s3 _ _.
  eapply safeE_try; [apply safeE_lifted|]. intros wt s4 _ Hwt.
  eapply safeE_try; [apply safeE_lifted|]. intros ins s5 _ Hins.
  eapply safeE_try; [apply safeE_lifted|]. intros payload s6 _ Hp.
  apply safeE_ok. split_and!; [done..|]. by exists m.
Qed.

Definition sent_request (cid : nat)
    (r : string * option Tasks.Task * bytes * Tasks.QuoteRequestTask * Tasks.InputStream) (s : RState) : Prop :=
  let '(p, task, j, wt, ins) := r in requested (s_out s) p j task wt ins ∧ quote_call cid p task j.

(** The call that starts in [s]. *)
Definition asks_quote (cid : nat) (req : option RequestQuoteRequest) (s : RState) : Prop :=
  C cid = Some (EvQuote req) ∧ J cid = q_rand (s_tick s).

Lemma safeE_requestQuoteSend cid req s :
  asks_quote cid req s → safeE_ (requestQuoteSend hasMessenger req) s (sent_request cid).
Proof.
  intros [HC HJ]. unfold requestQuoteSend. destruct req as [req|]; [|apply safeE_fail].
  eapply (safeE_try _ _ _ _ (λ _ s', s' = s)); [by apply safeE_validated|]. intros _ s1 _ ->. cbv zeta.
  eapply (safeE_try _ _ _ _ (λ _ s', s' = s)); [by apply safeE_lift|]. intros _ s2 _ ->.
  eapply safeE_try; [apply safeE_steady, ready_steady|]. intros m s3 _ ->.
  eapply safeE_try; [apply safeE_build|]. intros [[[[j x] wt] ins] payload] s4 _ (Hwt & Hins & Hj & mid & Hp).
  eapply safeE_try; [apply safeE_calm, calm_limits; apply _|]. intros _ s5 _ _.
  eapply safeE_try; [apply safeE_calm, calm_check|]. intros _ s6 _ _.
  eapply safeE_try; [apply safeE_sendPeer|]. intros u s7 _ Hsent.
  eapply safeE_try; [apply safeE_calm, calm_inputStream; apply _|]. intros _ s8 Hg _.
  apply safeE_ok. split; [|exists req; split_and!; congruence]. split_and!; [done..|]. eexists payload, _.
  split_and!; [by eapply prefix_elem; [apply Hg|]|exact Hp|done..].
Qed.

Lemma terms_job wt ins resp terms :
  termsFromQuoteResponse wt ins resp = Ok terms →
  ReqJobStore.pt_JobId terms = env_JobID (qs_Envelope resp).
Proof.
  unfold termsFromQuoteResponse. destruct (ComputeTermsHash _ _); [|done]. case_match; [done|].
  intros Ht. invert_ok. by subst terms.
Qed.

Lemma put_error now now' p task terms (st : JobStoreT) e :
  (ReqJobStore.PutQuote now now' p task terms st).2 = Err e →
  (ReqJobStore.PutQuote now now' p task terms st).1 = st.
Proof. unfold ReqJobStore.PutQuote. by case_match; [destruct a as [[[]]]|]. Qed.

(** The quote is stored and returned. *)
Lemma sound_quoted cid p task terms st s :
  sound s → quote_call cid p task (ReqJobStore.pt_JobId terms) →
  quoted (s_out s) p (ReqJobStore.pt_JobId terms) task terms →
  (∀ k t tm, ReqJobStore.remembered st k t tm → ReqJobStore.remembered (s_jobs s) k t tm ∨
     task = Some t ∧ Some terms = Some tm ∧ k = ReqJobStore.MkKey p (ReqJobStore.pt_JobId tm)) →
  sound (outs (RReturn cid (Ok (ReplyQuote p terms))) (with_jobs st s)).
Proof.
  intros Hs Hc Hq Hst. set (o := RReturn cid (Ok (ReplyQuote p terms))).
  assert (Hp : s_out s `prefix_of` s_out s ++ [o]) by by eexists.
  destruct (sound_outs o s Hs) as [Hj Hw Hf Hcs Ho]; [exists task; eauto using quoted_mono|].
  split; try done. simpl. intros k t tm Hr. destruct (Hst _ _ _ Hr) as [Hr'|(-> & [= <-] & ->)]; [by apply Hj|].
  split; [by eapply quoted_mono|]. exists cid. split; [done|]. apply elem_of_app. right. by left.
Qed.

Lemma safe_answer_quote cid p task terms s :
  quote_call cid p task (ReqJobStore.pt_JobId terms) →
  quoted (s_out s) p (ReqJobStore.pt_JobId terms) task terms →
  safe_ (answer cid (_ ←! putQuote p task terms; rok (ReplyQuote p terms))) s (λ _ _, True).
Proof.
  intros Hc Hq Hs. assert (H2 : sound (with_calls (delete cid (s_calls s)) (ticked (ticked s)))).
  { apply (sound_leave cid (ticked (ticked s))). by destruct Hs. }
  unfold answer, putQuote, clockRead, try, leave, reply, modify, mbind, RM_bind. cbn [fst snd].
  set (st := ReqJobStore.PutQuote _ _ _ _ _ _). destruct st.2 as [[]|e] eqn:Hres.
  - split_and!; [|split; [by eexists|done]|done].
    apply (sound_quoted cid p task terms st.1 _ H2); [done..|]. intros k t tm. apply ReqJobStore.put_remembered.
  - apply put_error in Hres. subst st. cbn [fst snd]. split_and!; [|split; [by eexists|done]|done].
    unfold fail, mret, RM_ret. cbn [fst snd]. rewrite Hres. by apply sound_outs.
Qed.

Lemma safe_requestQuoteFinish cid p task j wt ins waited s :
  requested (s_out s) p j task wt ins → quote_call cid p task j →
  (∀ o, waited = Ok o → quote_routed Msg (Waiter.MkKey p j) o) →
  safe_ (answer cid (requestQuoteFinish p task j wt ins waited)) s (λ _ _, True).
Proof.
  intros Hreq Hc Hw. unfold requestQuoteFinish. destruct waited as [o|e].
  2: { apply safe_answer_plain. eapply safe_bind; [apply calm_ctx; apply _|]. intros. apply safeE_err. }
  specialize (Hw _ eq_refl). unfold quote_routed in Hw.
  destruct (Waiter.qo_Error o).
  { apply safe_answer_plain. eapply safe_bind; [apply calm_mark; apply _|]. intros. apply safeE_err. }
  destruct (Waiter.qo_QuoteResponse o) as [resp|]; [|apply safe_answer_plain, safeE_fail].
  destruct (termsFromQuoteResponse wt ins resp) as [terms|e] eqn:Ht.
  2: { apply safe_answer_plain, safeE_err. }
  destruct Hw as [[Hj Hm] _]. simpl in Hj. pose proof (terms_job _ _ _ _ Ht) as Hid. rewrite Hj in Hid.
  apply (safe_answer_quote cid p task terms); rewrite Hid; [done|].
  exists wt, ins, resp. by split_and!.
Qed.

(** How a wait starts: with an outcome of which [P] holds, or on a channel of the job. *)
Definition started {O} (P : Waiter.key → O → Prop) (p : string) (j : bytes) (a : Waiter.wait_start O)
    (s : RState) : Prop :=
  match a with
  | Waiter.Returned out => P (Waiter.MkKey p j) out
  | Waiter.Failed _ => True
  | Waiter.Blocked ch => live_chan p j ch (s_waiter s)
  end.

Lemma safe_wait {O} (sl : Waiter.Slot O) P {RS : RoutedSlot Msg sl P} o p j s :
  (∀ w, (Waiter.waitOutcome sl p j w).1 = Waiter.step w o) → received Msg o →
  safe_ (waiting (Waiter.waitOutcome sl p j)) s (λ a s', started P p j a s').
Proof using L HmaxS HmaxJ Hbig.
  intros Hf Hm Hs. destruct (safe_waiting _ o s Hf Hm Hs) as (H1 & H2 & H3).
  split_and!; [done..|]. destruct (H3 Hs) as [Ha Hw]. rewrite Ha.
  destruct (Waiter.waitOutcome sl p j (s_waiter s)).2 as [out|e|ch] eqn:Ho; [|done|]; cbn [started].
  - eapply (waitOutcome_out Msg sl P); [|exact Ho]. by apply (so_fresh _ Hs).
  - pose proof (waitOutcome_blocked _ _ _ _ _ Ho) as Hch. rewrite Hw. split.
    + apply (waitOutcome_routed Msg sl P); [|done]. apply (so_fresh _ Hs). lia.
    + apply (waitOutcome_next Msg sl P) in Ho. rewrite Ho. lia.
Qed.

Lemma safe_RequestQuote cid req s :
  asks_quote cid req s → safe_ (RequestQuote hasMessenger cid req) s (λ _ _, True).
Proof using L HmaxS HmaxJ Hbig.
  intros Hcid. unfold RequestQuote. eapply safe_bind; [by apply (safeE_requestQuoteSend cid)|].
  intros [[[[[p task] j] wt] ins]|st] s1 _ Hsent.
  2: { apply safe_answer_plain, safeE_err. }
  destruct (Hsent _ eq_refl) as [Hreq0 Hcall].
  eapply safe_bind; [by apply (safe_wait _ (quote_routed Msg) (Waiter.OWaitQuote p j))|].
  intros [out|e|ch] s2 Hg Ha; assert (Hreq := requested_mono _ _ _ _ _ _ _ (proj1 Hg) Hreq0).
  - apply safe_requestQuoteFinish; [done..|]. by intros o [= <-].
  - by apply safe_requestQuoteFinish.
  - by apply safe_parked.
Qed.

(** *** Accepting *)

Ltac checked := eapply safeE_try; [apply safeE_checked|].

Lemma safeE_verify p terms s :
  safeE_ (verifyInvoiceBinding p terms) s (λ _ _, ∃ n info,
    rpc_DecodePaymentRequest n (ReqJobStore.pt_PaymentRequest terms) = Ok info ∧ invoice_matches p terms info).
Proof.
  unfold verifyInvoiceBinding. eapply safe_bind; [apply safe_lightning; apply _|].
  intros [info|e] s1 _ [n Hn]; [|eapply safe_bind; [apply calm_ctx; apply _|intros; apply safeE_err]].
  eapply safeE_try; [apply safeE_lifted|]. intros h s2 _ Hh. cbn beta in Hh.
  unfold toHash32 in Hh. case_match eqn:Hlen; [injection Hh as <-|done].
  checked. intros ? s3 _ H1. checked. intros ? s4 _ H2. cbv zeta. checked. intros ? s5 _ H3.
  checked. intros ? s6 _ H4. checked. intros ? s7 _ H5.
  eapply safeE_try; [apply safeE_lifted|]. intros x s8 _ H6. checked. intros ? s9 _ H7.
  checked. intros ? s10 _ H8. apply safeE_check. intros H9. exists n, info. split; [done|].
  cbn beta in *. unfold equal_fold in H2. invert_ok. bool_to_prop.
  split_and!; try done; [by unfold wf_hash, blen, Hash32Len in *; lia|]. exists x. fold skew in H9. done.
Qed.

Lemma quoted_prefix s s' p j task terms :
  extends s s' → quoted (s_out s) p j task terms → quoted (s_out s') p j task terms.
Proof. intros [H _]. by apply quoted_mono. Qed.

Lemma safeE_acceptTerms err req s :
  safeE_ (acceptTerms hasLightning err req) s
    (λ r s', let '(p, j, terms) := r in p = TrimSpace (ar_PeerId req) ∧ j = ar_JobId req ∧
       ∃ task, quoted (s_out s') p j (Some task) terms ∧ issued (s_out s') p j (Some task) terms).
Proof.
  unfold acceptTerms. eapply safeE_try; [apply safeE_calm, calm_validated|]. intros ? s1 _ _. cbv zeta.
  eapply safeE_try; [apply safeE_calm, calm_check|]. intros ? s2 _ _.
  eapply safeE_try; [apply safeE_lifted|]. intros j s3 _ Hjob.
  assert (j = ar_JobId req) as -> by (unfold toJobID in Hjob; case_match; [by injection Hjob as <-|done]).
  eapply safeE_try; [apply safeE_calm, calm_check|]. intros ? s4 _ _.
  eapply safe_bind; [apply calm_clock; apply _|]. intros now s5 _ _.
  eapply safe_bind with (R := λ r s', ∀ terms, r = Ok terms →
    ∃ task, quoted (s_out s') (TrimSpace (ar_PeerId req)) (ar_JobId req) (Some task) terms ∧
      issued (s_out s') (TrimSpace (ar_PeerId req)) (ar_JobId req) (Some task) terms).
  - intros [Hj Hw Hf Hc Ho]. split_and!; [|done|].
    + split; simpl; try done. intros k t tm Hr. by eapply Hj, ReqJobStore.get_remembered.
    + simpl. intros terms Ht. apply ReqJobStore.get_terms_remembered in Ht as [task Ht].
      exists task. by apply Hj in Ht.
  - intros r s6 _ Hr. eapply safeE_try; [apply safeE_lifted|]. intros terms s7 Hg Ht. apply safeE_ok.
    destruct (Hr terms Ht) as (task & Hq & Hi). split_and!; [done..|]. exists task.
    split; [by eapply quoted_prefix|by eapply issued_mono; [apply Hg|]].
Qed.

(** The deferred calls. *)
Lemma safe_acceptReturn cid p j sub m s (Q : Reply → RState → Prop) :
  safeE_ m s Q →
  (∀ r s' out', extends s s' → s_out s' `prefix_of` out' → Q r s' → out_ok out' (RReturn cid (Ok r))) →
  safe_ (acceptReturn cid p j sub m) s (λ _ _, True).
Proof using L HmaxS HmaxJ Hbig.
  intros Hm HQ. unfold acceptReturn.
  eapply (safe_answer _ _ _ (λ r s', ∀ out', s_out s' `prefix_of` out' → out_ok out' (RReturn cid (Ok r)))).
  2: { intros r s' _ H. apply H. by eexists. }
  eapply safe_bind; [exact Hm|]. intros r s1 Hg1 Hr.
  eapply safe_bind with (R := λ _ _, True).
  { destruct sub as [c|]; [|by apply safe_ret].
    eapply safe_mono; [by apply (safe_waiting _ (Waiter.OUnsubscribe (Waiter.MkKey p j) c))|done]. }
  intros _ s2 Hg2 _. destruct r as [rep|st].
  - apply safeE_ok. intros out' Hp. eapply HQ; [exact Hg1| |by apply Hr]. etrans; [apply Hg2|done].
  - eapply safe_bind; [apply calm_mark; apply _|]. intros. apply safeE_err.
Qed.

Lemma safe_acceptReturn_err cid p j sub m s :
  safeE_ m s (λ _ _, False) → safe_ (acceptReturn cid p j sub m) s (λ _ _, True).
Proof using L HmaxS HmaxJ Hbig. intros Hm. by eapply safe_acceptReturn. Qed.

Lemma safe_payInvoice cid p j terms sub s :
  payable (s_out s) p j (ReqJobStore.pt_PaymentRequest terms) → exec_call cid p j →
  safe_ (payInvoice cid p j terms sub) s (λ _ _, True).
Proof.
  intros Hp Hc. unfold payInvoice.
  eapply (safe_bind _ _ _ _ (λ _ s', s_out s' = s_out s ++ [RPay cid p j (ReqJobStore.pt_PaymentRequest terms)])).
  - apply safe_outs; [|done]. intros _. split; [|done]. eapply payable_mono; [|exact Hp]. by eexists.
  - intros _ s1 _ Heq. apply safe_parked. intros _. simpl. rewrite Heq. eexists. apply elem_of_app. right. by left.
Qed.

(** Both methods up to the payment. *)
Lemma safe_accepted err req (onErr : Status → RM unit) (pay : string → bytes → ReqJobStore.PbTerms → RM unit)
    (onBad : string → bytes → Status → RM unit) s :
  (∀ st s, safe_ (onErr st) s (λ _ _, True)) →
  (∀ p j st s, safe_ (onBad p j st) s (λ _ _, True)) →
  (∀ p j terms s, p = TrimSpace (ar_PeerId req) → j = ar_JobId req →
     payable (s_out s) p j (ReqJobStore.pt_PaymentRequest terms) → safe_ (pay p j terms) s (λ _ _, True)) →
  safe_ (found ← acceptTerms hasLightning err req;
         match found with
         | Err st => onErr st
         | Ok (p, j, terms) =>
           _ ← markJobState p j ReqJobStore.StatePaying;
           verified ← verifyInvoiceBinding p terms;
           match verified with Err st => onBad p j st | Ok _ => pay p j terms end
         end) s (λ _ _, True).
Proof.
  intros He Hb Hp. eapply safe_bind; [apply safeE_acceptTerms|].
  intros [[[p j] terms]|st] s1 _ Hq; [|apply He]. destruct (Hq _ eq_refl) as (Hp' & Hj' & task & Hq' & Hi).
  eapply safe_bind; [apply calm_mark; apply _|]. intros ? s2 Hg2 _.
  eapply safe_bind; [apply safeE_verify|]. intros [[]|st] s3 Hg3 Hv; [|apply Hb].
  destruct (Hv _ eq_refl) as (n & info & Hn & Hm). apply Hp; [done..|]. exists (Some task), terms, n, info.
  assert (Hg : extends s1 s3) by by eapply extends_trans.
  split_and!; [by eapply quoted_prefix|done..|by eapply issued_mono; [apply Hg|]].
Qed.

Lemma safe_AcceptAndExecute cid req s :
  C cid = Some (EvAccept req) → safe_ (AcceptAndExecute hasLightning cid req) s (λ _ _, True).
Proof using L HmaxS HmaxJ Hbig.
  intros HC. unfold AcceptAndExecute. destruct req as [req|].
  2: { apply safe_answer_plain, safeE_fail. }
  apply (safe_accepted _ _ (λ st, answer cid (mret (Err st)))
    (λ p j terms, payInvoice cid p j terms None)
    (λ p j st, acceptReturn cid p j None (acceptAndExecuteError p j st))).
  - intros st s'. apply safe_answer_plain, safeE_err.
  - intros p j st s'. apply safe_acceptReturn_err, safeE_acceptError. apply _.
  - intros p j terms s' Hp Hj Hpay. apply safe_payInvoice; [done|]. exists req. auto.
Qed.

Lemma safe_AcceptAndExecuteStream cid req s :
  C cid = Some (EvStream req) → safe_ (AcceptAndExecuteStream hasLightning cid req) s (λ _ _, True).
Proof using L HmaxS HmaxJ Hbig.
  intros HC. unfold AcceptAndExecuteStream. destruct req as [req|].
  2: { apply safe_answer_plain, safeE_fail. }
  apply (safe_accepted _ _ (λ st, answer cid (mret (Err st)))
    (λ p j terms,
        subscribed ← waiting (Waiter.SubscribeResultStream p j);
        match subscribed with
        | Err e => acceptReturn cid p j None (fail FailedPrecondition (subscribe_text e))
        | Ok events => payInvoice cid p j terms (Some events)
        end)
    (λ p j st, acceptReturn cid p j None (acceptAndExecuteError p j st))).
  - intros st s'. apply safe_answer_plain, safeE_err.
  - intros p j st s'. apply safe_acceptReturn_err, safeE_acceptError. apply _.
  - intros p j terms s' Hp' Hj Hp. eapply safe_bind; [by apply (safe_waiting _ (Waiter.OSubscribe p j))|].
    intros [events|e] s1 Hg _; [|apply safe_acceptReturn_err, safeE_fail].
    apply safe_payInvoice; [by eapply payable_mono; [apply Hg|]|]. exists req. auto.
Qed.

(** *** Results *)

Lemma safeE_waited p j waited s :
  (∀ o, waited = Ok o → obtained_from p j o) →
  safeE_ (acceptWaited p j waited) s (λ r _, ∃ o, obtained_from p j o ∧ Waiter.ro_Error o = None ∧
    Waiter.ro_Result o = Some r.1 ∧ r.2 = Waiter.ro_ResultBytes o).
Proof.
  intros Hw. unfold acceptWaited. destruct waited as [o|e]; [|apply safeE_waiterError; apply _].
  specialize (Hw _ eq_refl). destruct (Waiter.ro_Error o) eqn:He; [apply safeE_acceptError; apply _|].
  destruct (Waiter.ro_Result o) eqn:Hr; [|apply safeE_fail]. apply safeE_ok. by exists o.
Qed.

Lemma safe_acceptFinish cid p j waited s :
  paid_in (s_out s) cid p j → (∀ o, waited = Ok o → obtained_from p j o) →
  safe_ (acceptFinish cid p j waited) s (λ _ _, True).
Proof using L HmaxS HmaxJ Hbig.
  intros [pr Hp] Hw. unfold acceptFinish.
  eapply (safe_acceptReturn _ _ _ _ _ _ (λ r _, ∃ res o terminal, r = ReplyResult res ∧
    obtained_from p j o ∧ Waiter.ro_Error o = None ∧ Waiter.ro_Result o = Some terminal ∧
    protoResultFromTerminal terminal (Waiter.ro_ResultBytes o) = Ok res)).
  - eapply safeE_try; [by apply safeE_waited|]. intros [t b] s1 _ (o & Ho & He & Hr & Hb).
    simpl in Hr, Hb. subst b. eapply safeE_try; [apply safeE_lifted|]. intros res s2 _ Hres.
    eapply safe_bind; [apply calm_mark; apply _|]. intros ? s3 _ _. apply safeE_ok. by exists res, o, t.
  - intros r s' out' Hg Hpre (res & o & t & -> & Ho & He & Hr & Hres). exists p, j, pr, o, t.
    split_and!; try done. eapply prefix_elem; [exact Hpre|]. by eapply prefix_elem; [apply Hg|].
Qed.

(** The verified outcomes of the waiter. *)
Lemma safe_wait_result p j s :
  safe_ (waiting (Waiter.WaitResult p j)) s (λ a s', started (λ _ o, obtained_from p j o) p j a s').
Proof using L HmaxS HmaxJ Hbig.
  intros Hs. destruct (safe_wait Waiter.result_slot (result_routed Msg) (Waiter.OWaitResult p j) p j s
    (λ _, eq_refl) I Hs) as (H1 & H2 & H3). split_and!; [done..|]. revert H3. unfold waiting, started. simpl.
  fold (Waiter.WaitResult p j (s_waiter s)).
  destruct (Waiter.WaitResult p j (s_waiter s)).2 as [o|e|ch] eqn:Ho; [|done..]. intros Hr. split; [done|].
  eapply wait_verified; [exact (so_waiter _ Hs)|exact Ho].
Qed.

Lemma safe_afterPayment cid p j sub paid s :
  paid_in (s_out s) cid p j → safe_ (afterPayment cid p j sub paid) s (λ _ _, True).
Proof using L HmaxS HmaxJ Hbig.
  intros Hp. unfold afterPayment. destruct paid as [b|e].
  2: { apply safe_acceptReturn_err, safeE_lightningError. apply _. }
  eapply safe_bind; [apply calm_mark; apply _|]. intros ? s1 Hg1 _.
  assert (Hp1 := paid_in_mono _ _ _ _ _ (proj1 Hg1) Hp).
  destruct sub as [events|]; [by apply safe_parked|].
  eapply safe_bind; [apply safe_wait_result|]. intros [o|e|ch] s2 Hg2 Ha;
    assert (Hp2 := paid_in_mono _ _ _ _ _ (proj1 Hg2) Hp1).
  - apply safe_acceptFinish; [done|]. by intros ? [= <-].
  - by apply safe_acceptFinish.
  - by apply safe_parked.
Qed.

(** *** Streams *)

Lemma safeE_streamSend cid resp s :
  (∀ err, out_ok (s_out s ++ [RStream cid resp err]) (RStream cid resp err)) →
  safeE_ (streamSend cid resp) s (λ _ _, True).
Proof.
  intros Ho Hs. split_and!; [|split; [by eexists|done]|done]. apply sound_outs; [|apply Ho].
  by apply (cl_tick (F := frame)).
Qed.

Lemma safeE_streamEvent cid ev s : safeE_ (sendStreamEvent cid ev) s (λ _ _, True).
Proof. destruct ev as [|[]]; [|by apply safeE_ok|]; by apply safeE_streamSend. Qed.

Lemma safeE_drain cid evs s : safeE_ (drain cid evs) s (λ _ _, True).
Proof.
  revert s. induction evs as [|ev evs IH]; intros s; [by apply safeE_ok|]. simpl.
  eapply safeE_try; [apply safeE_streamEvent|]. intros. apply IH.
Qed.

Lemma wait_ok_extends p j s s' g : extends s s' → wait_ok p j (s_waiter s) g → wait_ok p j (s_waiter s') g.
Proof. intros [_ He]. destruct g as [| |[]]; simpl; auto. Qed.

Lemma paid_extends s s' cid p j : extends s s' → paid_in (s_out s) cid p j → paid_in (s_out s') cid p j.
Proof. intros [H _]. by apply paid_in_mono. Qed.

Lemma safe_streamReturn cid p j sub g m s :
  paid_in (s_out s) cid p j → wait_ok p j (s_waiter s) g → safeE_ m s (λ r _, r = ReplyStream) →
  safe_ (streamReturn cid p j sub g m) s (λ _ _, True).
Proof using L HmaxS HmaxJ Hbig.
  intros Hp Hg Hm. unfold streamReturn. eapply safe_bind; [eapply safe_acceptReturn; [exact Hm|]|].
  { by intros r s' out' _ _ ->. }
  intros _ s1 He _. assert (call_ok (s_out s1) (s_waiter s1) cid (CallLeft p j g)).
  { split; [by eapply paid_extends|by eapply wait_ok_extends]. }
  destruct g; [by apply safe_parked..|by apply safe_ret].
Qed.

Lemma safe_streamWaited cid p j sub n waited s :
  paid_in (s_out s) cid p j → (∀ o, waited = Ok o → obtained_from p j o) →
  safe_ (streamWaited cid p j sub n waited) s (λ _ _, True).
Proof using L HmaxS HmaxJ Hbig.
  intros Hp Hw. apply safe_streamReturn; [done|by destruct waited; simpl; auto|].
  eapply safeE_try; [by apply safeE_waited|]. intros [t b] s1 Hg1 (o & Ho & He & Hr & _). simpl in Hr.
  eapply safe_bind; [apply calm_asks|]. intros evs s2 Hg2 _.
  eapply safeE_try; [apply safeE_drain|]. intros ? s3 Hg3 _.
  eapply safeE_try; [apply safeE_lifted|]. intros res s4 Hg4 Hres. cbn beta in Hres.
  eapply safeE_try.
  { case_bool_decide; [by apply safeE_streamSend|]. by apply (safeE_ok _ _ _ (λ _ _, True)). }
  intros ? s5 Hg5 _. eapply safeE_try; [apply safeE_streamSend|].
  - intros err. simpl. destruct Hp as [pr Hp]. exists p, j, pr, o, t. split_and!; try done.
    apply elem_of_app. left.
    assert (Hext : extends s s5) by eauto using extends_trans.
    by eapply prefix_elem; [apply Hext|].
  - intros ? s6 _ _. eapply safe_bind; [apply calm_mark; apply _|]. intros. by apply safeE_ok.
Qed.

(** *** Blocked calls *)

Lemma safe_woken {O} (sl : Waiter.Slot O) (P : Waiter.key → O → Prop) {RS : RoutedSlot Msg sl P} o p j ch s :
  (∀ w, Waiter.step w o = match Waiter.waitReceive sl (waitKey p j) ch w with Some (w', _) => w' | None => w end) →
  received Msg o → live_chan p j ch (s_waiter s) →
  safe_ (waitWoken sl (waitKey p j) ch) s (λ r s', sound s → ∀ out, r = Some out → P (waitKey p j) out ∧
    ∃ w', Waiter.waitReceive sl (waitKey p j) ch (s_waiter s) = Some (w', out)).
Proof using L HmaxS HmaxJ Hbig.
  intros Hstep Hm [Hl _] Hs. unfold waitWoken.
  destruct (sound_waiter o s Hs Hm) as [H1 H2 H3 H4 H5]. rewrite Hstep in *.
  destruct (Waiter.waitReceive _ _ _ _) as [[w' out]|] eqn:Hr; simpl.
  - split_and!; [by split| |].
    + split; [done|]. simpl. intros p' j' ch' Hl'.
      pose proof (live_chan_step p' j' ch' (s_waiter s) o Hm Hl') as Hx. by rewrite Hstep, Hr in Hx.
    + intros _ ? [= <-]. split; [|by eexists]. by eapply (waitReceive_out Msg sl P).
  - split_and!; [done|apply extends_refl|done].
Qed.

Lemma safe_ended {O} (sl : Waiter.Slot O) o k ch s :
  (∀ w, Waiter.step w o = Waiter.waitCancel sl k ch w) → received Msg o →
  safe_ (waitEnded sl k ch) s (λ _ _, True).
Proof using L HmaxS HmaxJ Hbig.
  intros Hstep Hm. apply safe_modify; [|done]. intros Hs. rewrite <-Hstep.
  split; [by apply sound_waiter|]. split; [done|]. intros. by apply live_chan_step.
Qed.

Lemma safe_wake cid c s :
  call_ok (s_out s) (s_waiter s) cid c → safe_ (wake cid c) s (λ _ _, True).
Proof using L HmaxS HmaxJ Hbig.
  destruct c as [p task j wt ins ch| |p j ch| |]; cbn [call_ok wake]; try (by intros; apply safe_ret).
  - intros (Hreq & Hl & Hcall). apply safe_inv. intros Hs.
    eapply (safe_bind frame); [by apply (safe_woken _ (quote_routed Msg) (Waiter.OReceiveQuote (waitKey p j) ch))|].
    intros [out|] s1 Hg Ho; [|by apply safe_ret].
    apply safe_requestQuoteFinish; [by eapply requested_mono; [apply Hg|]|done|].
    intros ? [= <-]. by apply Ho.
  - intros [Hp Hl]. apply safe_inv. intros Hs.
    eapply (safe_bind frame); [by apply (safe_woken _ (result_routed Msg) (Waiter.OReceiveResult (waitKey p j) ch))|].
    intros [out|] s1 Hg Ho; [|by apply safe_ret].
    apply safe_acceptFinish; [by eapply paid_extends|]. intros ? [= <-].
    destruct (Ho Hs _ eq_refl) as [H1 [w' H2]]. split; [done|]. by eapply receive_verified; [apply so_waiter|].
Qed.

Lemma safe_ctxDone cid err c s :
  call_ok (s_out s) (s_waiter s) cid c → safe_ (ctxDone cid err c) s (λ _ _, True).
Proof using L HmaxS HmaxJ Hbig.
  destruct c as [p task j wt ins ch| |p j ch|p j sub n g|]; cbn [call_ok ctxDone]; try (by intros; apply safe_ret).
  - intros (Hreq & Hl & Hcall).
    eapply safe_bind; [by apply (safe_ended _ (Waiter.OCancelQuote (waitKey p j) ch))|]. intros ? s1 Hg _.
    apply safe_requestQuoteFinish; [|done..]. by eapply requested_mono; [apply Hg|].
  - intros [Hp Hl].
    eapply safe_bind; [by apply (safe_ended _ (Waiter.OCancelResult (waitKey p j) ch))|]. intros ? s1 Hg _.
    apply safe_acceptFinish; [by eapply paid_extends|done].
  - intros [Hp Hw]. apply safe_streamReturn; [done..|apply safeE_err].
Qed.

(** The goroutine of a streaming call. *)
Lemma goroutine_ok out w cid c k g :
  goroutine c = Some (k, g) → call_ok out w cid c →
  paid_in out cid (Waiter.k_peerID k) (Waiter.k_jobID k) ∧ wait_ok (Waiter.k_peerID k) (Waiter.k_jobID k) w g.
Proof. by destruct c; simpl; [..|intros [= <- <-]|intros [= <- <-]]. Qed.

Lemma safe_parkGo cid c k g g' s :
  goroutine c = Some (k, g) → paid_in (s_out s) cid (Waiter.k_peerID k) (Waiter.k_jobID k) →
  wait_ok (Waiter.k_peerID k) (Waiter.k_jobID k) (s_waiter s) g' → safe_ (parkGo cid c g') s (λ _ _, True).
Proof.
  destruct c as [| | |p j sub n g0|p j g0]; cbn [goroutine]; try done; intros [= <- _]; simpl; intros Hp Hw.
  - by apply safe_parked.
  - destruct g'; [by apply safe_parked..|]. apply safe_modify; [|done]. intros Hs.
    split; [by apply sound_leave|done].
Qed.

Lemma safe_goStart cid c s : call_ok (s_out s) (s_waiter s) cid c → safe_ (goStart cid c) s (λ _ _, True).
Proof using L HmaxS HmaxJ Hbig.
  intros Hc. unfold goStart. destruct (goroutine c) as [[[p j] []]|] eqn:Hg; try by apply safe_ret.
  destruct (goroutine_ok _ _ _ _ _ _ Hg Hc) as [Hp _]. simpl in Hp.
  eapply safe_bind; [apply safe_wait_result|]. intros [o|e|ch] s1 He Ha;
    (eapply safe_parkGo; [exact Hg|by eapply paid_extends|done]).
Qed.

Lemma safe_goWake cid c s : call_ok (s_out s) (s_waiter s) cid c → safe_ (goWake cid c) s (λ _ _, True).
Proof using L HmaxS HmaxJ Hbig.
  intros Hc. unfold goWake. destruct (goroutine c) as [[[p j] []]|] eqn:Hg; try by apply safe_ret.
  destruct (goroutine_ok _ _ _ _ _ _ Hg Hc) as [Hp Hl]. simpl in Hp, Hl.
  apply safe_inv. intros Hs.
  eapply (safe_bind frame); [by apply (safe_woken _ (result_routed Msg) (Waiter.OReceiveResult (waitKey p j) ch))|].
  intros [out|] s1 He Ho; [|by apply safe_ret].
  eapply safe_parkGo; [exact Hg|by eapply paid_extends|]. simpl.
  destruct (Ho Hs _ eq_refl) as [H1 [w' H2]]. split; [done|]. by eapply receive_verified; [apply so_waiter|].
Qed.

Lemma safe_goCtx cid c s : call_ok (s_out s) (s_waiter s) cid c → safe_ (goCtx cid c) s (λ _ _, True).
Proof using L HmaxS HmaxJ Hbig.
  intros Hc. unfold goCtx. destruct (goroutine c) as [[[p j] []]|] eqn:Hg; try by apply safe_ret.
  destruct (goroutine_ok _ _ _ _ _ _ Hg Hc) as [Hp _].
  eapply safe_bind; [by apply (safe_ended _ (Waiter.OCancelResult (waitKey p j) ch))|]. intros ? s1 He _.
  eapply safe_parkGo; [exact Hg|by eapply paid_extends|done].
Qed.

Lemma safe_streamNext cid c s : call_ok (s_out s) (s_waiter s) cid c → safe_ (streamNext cid c) s (λ _ _, True).
Proof using L HmaxS HmaxJ Hbig.
  destruct c as [| | |p j sub n g|]; cbn [streamNext call_ok]; try (by intros; apply safe_ret).
  intros [Hp Hw]. eapply safe_bind with (R := λ _ s', s' = s); [by apply safe_asks|].
  intros evs s1 _ ->. destruct evs as [|ev evs]; [by apply safe_ret|].
  eapply safe_bind; [apply safeE_streamEvent|]. intros [u|st] s1 He _.
  - apply safe_parked. intros _. split; [by eapply paid_extends|by eapply wait_ok_extends].
  - apply safe_streamReturn; [by eapply paid_extends|by eapply wait_ok_extends|apply safeE_err].
Qed.

Lemma safe_streamFinish cid c s : call_ok (s_out s) (s_waiter s) cid c → safe_ (streamFinish cid c) s (λ _ _, True).
Proof using L HmaxS HmaxJ Hbig.
  destruct c as [| | |p j sub n [| |waited]|]; cbn [streamFinish call_ok]; try (by intros; apply safe_ret).
  intros [Hp Hw]. apply safe_streamWaited; [done|]. by intros o ->.
Qed.

Lemma safe_paidCall cid paid c s : call_ok (s_out s) (s_waiter s) cid c → safe_ (paidCall cid paid c) s (λ _ _, True).
Proof using L HmaxS HmaxJ Hbig.
  destruct c; cbn [paidCall call_ok]; try (by intros; apply safe_ret). by apply safe_afterPayment.
Qed.

(** *** Every event *)

Lemma safe_starts f s :
  safe_ (f (s_next s)) (fresh_call s) (λ _ _, True) → safe_ (starts f) s (λ _ _, True).
Proof.
  intros Hf. unfold starts. eapply (safe_bind _ _ _ _ (λ cid s', cid = s_next s ∧ s' = fresh_call s)).
  - intros Hs. split; [by destruct Hs|done].
  - by intros cid s' _ [-> ->].
Qed.

Lemma safe_continues cid f s :
  (∀ c s, call_ok (s_out s) (s_waiter s) cid c → safe_ (f c) s (λ _ _, True)) →
  safe_ (continues cid f) s (λ _ _, True).
Proof.
  intros Hf. apply safe_inv. intros Hs. unfold continues.
  eapply safe_bind with (R := λ c s', c = s_calls s !! cid ∧ s' = s); [by apply safe_asks|].
  intros c s' _ [-> ->]. destruct (s_calls s !! cid) eqn:Hc; [|by apply safe_ret].
  apply Hf. by apply (so_calls _ Hs).
Qed.

Lemma safe_answered cid m (Q : Reply → Prop) s :
  returns frame m Q → (∀ r, Q r → plain r) → safe_ (answer cid m) s (λ _ _, True).
Proof. intros Hm HQ. eapply safe_answer; [apply Hm|]. intros. apply plain_ok. auto. Qed.

(** What [C] and [J] say of the call that the event starts. *)
Definition recorded (e : revent) (s : RState) : Prop :=
  match e with
  | EvQuote req => asks_quote (s_next s) req s
  | EvAccept _ | EvStream _ => C (s_next s) = Some e
  | _ => True
  end.

(** The messages of an event are messages received. *)
Definition event_received (e : revent) : Prop :=
  match e with EvMessage peer typ payload => Msg peer typ payload | _ => True end.

Lemma rpc_safe e s :
  event_received e → recorded e s → safe_ (rpc hasMessenger hasLightning localManifest e) s (λ _ _, True).
Proof using L HmaxS HmaxJ Hbig.
  intros He Hc. destruct e as [b|b|req|req|req|req|peer typ payload|o|cid paid|cid|cid err|cid|cid|cid|cid|cid];
    cbn [rpc].
  - apply safe_starts. intros. eapply safe_answered; [apply returns_list; apply _|]. by intros ? [? ->].
  - apply safe_starts. intros. eapply safe_answered; [apply returns_info; apply _|]. by intros ? (? & ? & ->).
  - by apply safe_starts, safe_RequestQuote.
  - by apply safe_starts, safe_AcceptAndExecute.
  - by apply safe_starts, safe_AcceptAndExecuteStream.
  - apply safe_starts. intros. eapply safe_answered; [apply returns_cancel; apply _|]. by intros ? ->.
  - apply safe_modify; [|done]. intros Hs. split; [by apply (sound_waiter (Waiter.OMessage peer typ payload))|].
    split; [done|]. intros. by apply (live_chan_step _ _ _ _ (Waiter.OMessage peer typ payload)).
  - apply safe_modify; [|done]. intros Hs. by destruct Hs.
  - apply safe_continues, safe_paidCall.
  - apply safe_continues, safe_wake.
  - apply safe_continues. intros. by apply safe_ctxDone.
  - apply safe_continues, safe_goStart.
  - apply safe_continues, safe_goWake.
  - apply safe_continues, safe_goCtx.
  - apply safe_continues, safe_streamNext.
  - apply safe_continues, safe_streamFinish.
Qed.

Lemma run_sound evs s :
  Forall event_received evs →
  (∀ pre e post, evs = pre ++ e :: post → recorded e (rrun hasMessenger hasLightning localManifest pre s)) →
  sound s → sound (rrun hasMessenger hasLightning localManifest evs s).
Proof using L HmaxS HmaxJ Hbig.
  intros He. unfold rrun. revert s. induction He as [|e evs He _ IH]; intros s Hc Hs; [done|]. simpl.
  apply IH; [|apply rpc_safe; [done|by apply (Hc [] e evs)|done]].
  intros pre e' post ->. by apply (Hc (e :: pre) e' post).
Qed.
End safety.
