(* ===== verification/RequesterTheorems.v ===== *)
(** * What the requester guarantees

    The theorems about runs of the requester: what it pays for, what it returns, and
    what verifying an invoice means. *)

From stdpp Require Import pretty.
From S2P Require Import Prelude GoStd TlvLib Wire WireProofs Stores PeerDir Terms Pricing Validation Lightning Tasks ReqJobStore Waiter WaiterProofs WaiterInv WaiterRoute Requester RequesterRun RequesterLogic RequesterCalls RequesterRequests RequesterSafety.

(** ** Times *)

Lemma wrap_i64_id v : is_i64 v → wrap_i64 v = v.
Proof. unfold is_i64, wrap_i64, max_i64. intros. rewrite Z.mod_small; lia. Qed.

Lemma wrap_i64_over v : max_i64 < v < 2 ^ 63 + 2 ^ 64 → wrap_i64 v = v - 2 ^ 64.
Proof.
  unfold wrap_i64, max_i64. intros. rewrite <-(Z.mod_unique (v + 2 ^ 63) (2 ^ 64) 1 (v - 2 ^ 63)); lia.
Qed.

(** A second that fits in an [int64] survives the timestamp. *)
Lemma timestamp_seconds sec ts :
  0 ≤ sec → timestampFromUnixSeconds sec = Ok ts → timestampSeconds ts = sec ∧ sec ≤ max_i64.
Proof.
  unfold timestampFromUnixSeconds, maxInt64. intros H0. case_match; [done|]. bool_to_prop.
  intros [= <-]. split; [|lia]. unfold timestampSeconds, goTimeUnix, time_unix.
  rewrite Z.div_mul by done.
  destruct (decide (sec + unixToInternal ≤ max_i64)) as [Hle|Hgt].
  - rewrite (wrap_i64_id (sec + unixToInternal)) by (unfold is_i64, unixToInternal, max_i64 in *; lia).
    rewrite wrap_i64_id; unfold is_i64, unixToInternal, max_i64 in *; lia.
  - rewrite (wrap_i64_over (sec + unixToInternal)) by (unfold unixToInternal, max_i64 in *; lia).
    unfold wrap_i64. replace (sec + unixToInternal - 2 ^ 64 - unixToInternal + 2 ^ 63)
      with (sec + 2 ^ 63 + (-1) * 2 ^ 64) by lia.
    rewrite Z.mod_add by lia. rewrite Z.mod_small; unfold max_i64 in *; lia.
Qed.

Lemma parse_int64_range bs v : parse_int64 bs = Some v → is_i64 v.
Proof.
  unfold parse_int64, is_i64. destruct bs as [|b rest]; [done|]. cbv zeta.
  destruct (if _ || _ then rest else b :: rest); [done|]. intros (x & _ & Hx)%bind_Some.
  case_match eqn:Hr; [|done]. injection Hx as <-. apply andb_true_iff in Hr as [H1 H2].
  apply Z.leb_le in H1, H2. done.
Qed.

Lemma skew_range `{Environ} : 0 ≤ skew ≤ max_i64.
Proof.
  unfold skew, envconfig_Int64, defaultAllowedClockSkewSeconds.
  destruct (env_raw _) as [|b l]; [unfold max_i64; lia|].
  destruct (parse_int64 (b :: l)) as [v|] eqn:Hp; simpl; [|unfold max_i64; lia].
  apply parse_int64_range in Hp. unfold is_i64, max_i64 in *. lia.
Qed.

(** ** Checking an invoice *)

Lemma try_check {A} (b : bool) code msg (k : unit → RE A) s :
  try (check b code msg) k s = if b then k tt s else (s, Err (MkStatus code msg)).
Proof. by destruct b. Qed.

Lemma try_lift {E A B} (a : A) (st : E → Status) (k : A → RE B) s : try (lift (Ok a) st) k s = k a s.
Proof. done. Qed.

Lemma check_ok (b : bool) code msg s : (check b code msg s).2 = Ok tt ↔ b = true.
Proof. by destruct b. Qed.

Lemma checked_ok {A} (b : bool) (x : RState * result Status A) e s a :
  (if b then x else (s, Err e)).2 = Ok a ↔ b = true ∧ x.2 = Ok a.
Proof. destruct b; simpl; split; [done|by intros []|done|by intros []]. Qed.

Section checking.
Context {E : RequesterEnv} {LN : LightningRPC} {LL : LightningLaws LN} {EN : Environ}.

(** Without overflow, the invoice must expire before the quote and the skew. *)
Lemma expiry_test ts ex x :
  0 ≤ ts ≤ max_i64 → 0 ≤ ex ≤ max_i64 → 0 ≤ x ≤ max_i64 →
  (ts ≤ wrap_i64 (maxInt64 - ex) ∧ wrap_i64 (ts + ex) ≤ wrap_i64 (x + skew)) ↔
  ts + ex ≤ x + skew ≤ max_i64.
Proof.
  intros Ht He Hx. pose proof skew_range as Hs. unfold maxInt64.
  rewrite (wrap_i64_id (max_i64 - ex)) by (unfold is_i64, max_i64 in *; lia).
  destruct (decide (x + skew ≤ max_i64)).
  - rewrite (wrap_i64_id (x + skew)) by (unfold is_i64, max_i64 in *; lia). split.
    + intros [H1 H2]. rewrite wrap_i64_id in H2 by (unfold is_i64, max_i64 in *; lia). lia.
    + intros H. rewrite wrap_i64_id by (unfold is_i64, max_i64 in *; lia). lia.
  - rewrite (wrap_i64_over (x + skew)) by (unfold max_i64 in *; lia). split; [|lia].
    intros [H1 H2]. rewrite wrap_i64_id in H2 by (unfold is_i64, max_i64 in *; lia).
    unfold max_i64 in *. lia.
Qed.

(** C23: an invoice that decodes passes [verifyInvoiceBinding] exactly when its
    description hash is the terms hash, it is payable to the peer, its amount is the
    quoted price and positive, and it expires no later than the quote and the allowed
    clock skew; when that sum exceeds the range of [int64] every invoice is refused,
    and no other overflow changes the answer. *)
Theorem verify_invoice_exact p terms info sec x s :
  rpc_DecodePaymentRequest (s_tick s) (ReqJobStore.pt_PaymentRequest terms) = Ok info →
  length (ReqJobStore.pt_TermsHash terms) = 32%nat → 0 ≤ sec →
  timestampFromUnixSeconds sec = Ok x → ReqJobStore.pt_QuoteExpiry terms = Some x →
  (verifyInvoiceBinding p terms s).2 = Ok tt ↔
    pi_DescriptionHash info = ReqJobStore.pt_TermsHash terms ∧
    to_lower (pi_PayeePubKey info) = to_lower p ∧
    pi_AmountMsat info = ReqJobStore.pt_PriceMsat terms ∧ 0 < ReqJobStore.pt_PriceMsat terms ∧
    pi_TimestampUnix info + pi_ExpirySeconds info ≤ sec + skew ≤ max_i64.
Proof using LL.
  intros Hdec Hlen Hsec Hexp Hx. destruct (timestamp_seconds _ _ Hsec Hexp) as [Hts Hmax].
  destruct (rpc_decode_wf _ _ _ Hdec) as (_ & _ & Ham & Ht & He).
  unfold verifyInvoiceBinding, lightningCall. unfold mbind, RM_bind. cbn [fst snd]. rewrite Hdec.
  unfold toHash32, blen. rewrite Hlen. change (Z.of_nat 32 =? Hash32Len) with true. cbn iota.
  rewrite try_lift, !try_check, !checked_ok, Hx. cbn [or_err].
  rewrite try_lift, !try_check, !checked_ok, check_ok, Hts. fold skew.
  unfold equal_fold. rewrite !bool_decide_eq_true, negb_true_iff, Z.eqb_neq, Z.ltb_lt, Z.eqb_eq, !Z.leb_le.
  pose proof (expiry_test (pi_TimestampUnix info) (pi_ExpirySeconds info) sec Ht He (conj Hsec Hmax)) as Hx'.
  split.
  - intros (? & ? & ? & ? & ? & ? & Hb). apply Hx' in Hb. split_and!; try done; lia.
  - intros (? & ? & ? & ? & Hb). apply Hx' in Hb as [? ?]. split_and!; try done; lia.
Qed.
End checking.

(** Checking an invoice changes nothing but the tick. *)
Lemma verify_frame `{RequesterEnv, LightningRPC, Environ} p terms s :
  ∃ n, (verifyInvoiceBinding p terms s).1 =
    MkRState (s_jobs s) (s_peers s) (s_waiter s) (s_calls s) (s_next s) n (s_out s).
Proof.
  unfold verifyInvoiceBinding, mbind, RM_bind, lightningCall. cbn [fst snd].
  destruct (rpc_DecodePaymentRequest _ _) as [info|e]; [|exists (S (S (s_tick s))); reflexivity].
  exists (S (s_tick s)).
  match goal with |- (?m _).1 = _ => assert (Hm : steady m); [|apply Hm] end.
  repeat first [apply steady_try; [|intros ?; cbv zeta]|apply steady_check|apply steady_lift].
Qed.

(** C37: [AcceptAndExecute] pays for a job in any state but quoted and expired, at
    any time: a cancelled, failed or done job whose invoice still verifies is paid,
    also after the expiry of its quote, and is marked paying. *)
Theorem accept_ignores_job_state
    `{TlvLib, RequesterEnv, Validator, LightningRPC, Environ, RQ : MapRange ReqJobStore.key JobEntryT}
    cid req p j e s (s' := (AcceptAndExecute true cid (Some req) s).1) :
  pv_accept req = None → ar_PayInvoice req = true → TrimSpace (ar_PeerId req) = p → ar_JobId req = j →
  length j = 32%nat → ReqJobStore.jobs (s_jobs s) !! ReqJobStore.MkKey p j = Some e →
  ReqJobStore.e_state e ≠ ReqJobStore.StateQuoted → ReqJobStore.e_state e ≠ ReqJobStore.StateExpired →
  (∀ s1, (verifyInvoiceBinding p (ReqJobStore.e_terms e) s1).2 = Ok tt) →
  s_out s' = s_out s ++ [RPay cid p j (ReqJobStore.pt_PaymentRequest (ReqJobStore.e_terms e))] ∧
  s_calls s' !! cid = Some (CallPay p j (ReqJobStore.e_terms e) None) ∧
  ∃ now, ReqJobStore.jobs (s_jobs s') !! ReqJobStore.MkKey p j =
    Some (ReqJobStore.with_state ReqJobStore.StatePaying now e).
Proof.
  intros Hv Hpay Hp Hj Hlen He Hq Hx Hver. subst s'.
  assert (Hget : ∀ now, ReqJobStore.GetTerms now p j (s_jobs s) = (s_jobs s, Ok (ReqJobStore.e_terms e))).
  { intros now. unfold ReqJobStore.GetTerms. rewrite He. unfold ReqJobStore.expiredAt.
    by rewrite (bool_decide_eq_false_2 _ Hq), (bool_decide_eq_false_2 _ Hx). }
  unfold AcceptAndExecute, acceptTerms. rewrite Hv, Hpay, Hp, Hj.
  unfold toJobID, blen. rewrite Hlen. change (Z.of_nat 32 =? Hash32Len) with true. cbn iota.
  unfold validated, check, try, mbind, RM_bind, rok, lift, mret, RM_ret, clockRead, markJobState, modify.
  cbn [fst snd]. cbn [s_jobs ticked with_jobs]. rewrite Hget. cbn [fst snd].
  unfold mbind, RM_bind, clockRead, ReqJobStore.MarkState.
  cbn [fst snd s_jobs ticked with_jobs ReqJobStore.isValidState]. rewrite He. cbn [fst snd].
  match goal with |- context [verifyInvoiceBinding p _ ?s1] =>
    destruct (verify_frame p (ReqJobStore.e_terms e) s1) as [n Hn]; rewrite (Hver s1), Hn end.
  unfold payInvoice, park, modify, mbind, RM_bind.
  cbn [fst snd outs with_calls with_jobs ticked s_out s_calls s_jobs ReqJobStore.jobs].
  split_and!; [done|by rewrite lookup_insert_eq|]. eexists. by rewrite lookup_insert_eq.
Qed.

(** ** Runs *)

Section runs.
Context {T : TlvLib} {L : TlvLaws T} {W : WireText} {TJ : Tasks.TaskJson} {TX : TermsText} {E : RequesterEnv}
        {V : Validator} {LN : LightningRPC} {LL : LightningLaws LN} {EN : Environ}
        {RQ : MapRange ReqJobStore.key JobEntryT} {RP : MapRange string PeerDir.Peer}
        {RZ : MapRange Z bytes}.
Context (hasMessenger hasLightning : bool) (localManifest : Manifest) (maxEntries : Z).

(** The service after the events [evs]. *)
Definition after_events (evs : list revent) : RState :=
  rrun hasMessenger hasLightning localManifest evs
    (New (ReqJobStore.NewWithClockAndMaxEntries maxEntries) localManifest).

Definition msgs (evs : list revent) (p : string) (typ : Z) (payload : bytes) : Prop :=
  EvMessage p typ payload ∈ evs.

Abbreviation maxS := (Waiter.w_maxStreamBytes (Waiter.New (Some localManifest))).
Abbreviation maxJ := (Waiter.w_maxJobBytes (Waiter.New (Some localManifest))).

(** The request of a call; the job id that a quote request draws. *)
Definition request_of (evs : list revent) (cid : nat) : option revent := snd <$> calls_of [] evs !! cid.
Definition job_of (evs : list revent) (cid : nat) : option bytes :=
  c ← calls_of [] evs !! cid;
  match c.2 with EvQuote _ => q_rand (s_tick (after_events c.1)) | _ => None end.

Lemma events_recorded evs pre e post :
  evs = pre ++ e :: post → recorded (request_of evs) (job_of evs) e (after_events pre).
Proof.
  intros ->. destruct (is_call e) eqn:He; [|by destruct e].
  assert (Hl : calls_of [] (pre ++ e :: post) !! s_next (after_events pre) = Some (pre, e))
    by by apply calls_of_lookup.
  unfold recorded, asks_quote, request_of, job_of. rewrite Hl. by destruct e.
Qed.

Abbreviation quote_call_ evs := (quote_call (request_of evs) (job_of evs)).
Abbreviation exec_call_ evs := (exec_call (request_of evs)).

Lemma events_sound evs :
  sane_limits (Some localManifest) →
  sound (msgs evs) (request_of evs) (job_of evs) maxS maxJ (after_events evs).
Proof using L.
  intros (H1 & H2 & H3). apply run_sound; [done..| | |].
  - apply Forall_forall. intros e He. by destruct e.
  - intros pre e post. apply events_recorded.
  - split; simpl; try done. by intros k task terms (e & He & _).
Qed.

(** What the trace says of an event of it. *)
Lemma events_out evs o :
  sane_limits (Some localManifest) → o ∈ s_out (after_events evs) →
  out_ok (msgs evs) (request_of evs) (job_of evs) maxS maxJ (s_out (after_events evs)) o.
Proof using L.
  intros Hl. pose proof (so_out _ _ _ _ _ _ (events_sound evs Hl)) as Ho. rewrite Forall_forall in Ho. apply Ho.
Qed.

Lemma payment_payable evs cid p j pr :
  sane_limits (Some localManifest) → RPay cid p j pr ∈ s_out (after_events evs) →
  payable (msgs evs) (request_of evs) (job_of evs) (s_out (after_events evs)) p j pr ∧ exec_call_ evs cid p j.
Proof using L. intros Hl Hin. exact (events_out _ _ Hl Hin). Qed.

(** The terms a quote response states, and what they commit to. *)
Definition response_terms (resp : QuoteResponse) : Terms :=
  {| tm_ProtocolVersion := env_ProtocolVersion (qs_Envelope resp); tm_JobID := env_JobID (qs_Envelope resp);
     tm_PriceMsat := qs_PriceMsat resp; tm_QuoteExpiry := qs_QuoteExpiry resp |}.
Definition request_commit (wireTask : Tasks.QuoteRequestTask) (inputStream : Tasks.InputStream) : TermsCommit :=
  {| cm_TaskKind := Tasks.qt_TaskKind wireTask; cm_Input := Tasks.in_DecodedBytes inputStream;
     cm_InputContentType := Tasks.in_ContentType inputStream;
     cm_InputContentEncoding := Tasks.in_ContentEncoding inputStream;
     cm_Params := Some (Tasks.qt_ParamsBytes wireTask) |}.

Lemma terms_from_response wt ins resp terms :
  termsFromQuoteResponse wt ins resp = Ok terms →
  ComputeTermsHash (response_terms resp) (request_commit wt ins) = Ok (qs_TermsHash resp) ∧
  ReqJobStore.pt_TermsHash terms = qs_TermsHash resp ∧ ReqJobStore.pt_PriceMsat terms = qs_PriceMsat resp ∧
  ReqJobStore.pt_PaymentRequest terms = qs_PaymentRequest resp ∧
  ∃ x, timestampFromUnixSeconds (qs_QuoteExpiry resp) = Ok x ∧ ReqJobStore.pt_QuoteExpiry terms = Some x.
Proof.
  unfold termsFromQuoteResponse. fold (response_terms resp). fold (request_commit wt ins).
  destruct (ComputeTermsHash _ _) as [h|]; [|done]. case_bool_decide; [|done]. cbn [negb]. intros Ht. invert_ok.
  subst. split_and!; try done. by eexists.
Qed.

(** What a payment is for. *)
Lemma payment_bound evs cid p j pr :
  sane_limits (Some localManifest) → RPay cid p j pr ∈ s_out (after_events evs) →
  ∃ task wireTask inputStream q request resp answer info n,
    (* the request *)
    Tasks.ToWireQuoteRequestTask task = Ok wireTask ∧ Tasks.ToWireInputStream task = Ok inputStream ∧
    RSent p MessageTypeQuoteRequest request None ∈ s_out (after_events evs) ∧
    EncodeQuoteRequest q = Ok request ∧ env_JobID (qr_Envelope q) = j ∧
    qr_TaskKind q = Tasks.qt_TaskKind wireTask ∧ qr_ParamsBytes q = Some (Tasks.qt_ParamsBytes wireTask) ∧
    (* the response *)
    EvMessage p MessageTypeQuoteResponse answer ∈ evs ∧ DecodeQuoteResponse answer = Ok resp ∧
    env_JobID (qs_Envelope resp) = j ∧ qs_PaymentRequest resp = pr ∧
    ComputeTermsHash (response_terms resp) (request_commit wireTask inputStream) = Ok (qs_TermsHash resp) ∧
    (* the invoice *)
    rpc_DecodePaymentRequest n pr = Ok info ∧ pi_DescriptionHash info = qs_TermsHash resp ∧
    pi_AmountMsat info = qs_PriceMsat resp ∧ 0 < qs_PriceMsat resp ∧
    to_lower (pi_PayeePubKey info) = to_lower p ∧
    pi_TimestampUnix info + pi_ExpirySeconds info ≤ qs_QuoteExpiry resp + skew ≤ max_i64.
Proof using L LL.
  intros Hl Hin. destruct (payment_payable evs cid p j pr Hl Hin) as [
    (task & terms & n & info & (wt & ins & resp & (Hwt & Hins & request & q & H1 & H2 & H3 & H4 & H5) &
     (Hj & answer & Hm & Hdec) & Hterms) & -> & Hinfo & Hmatch & _) _].
  destruct (terms_from_response _ _ _ _ Hterms) as (Hhash & Hth & Hpr & Hpay & x & Hts & Hx).
  destruct Hmatch as (Hd & _ & Hpayee & Ham & Hpos & x' & Hx' & Hsec & Ho1 & Ho2).
  rewrite Hx in Hx'. injection Hx' as <-.
  destruct (quote_response_wf _ _ Hdec) as (_ & _ & Hexp & _).
  destruct (timestamp_seconds _ _ (proj1 Hexp) Hts) as [Hsecs Hmax].
  destruct (rpc_decode_wf _ _ _ Hinfo) as (_ & _ & _ & Ht & He). rewrite Hsecs in *.
  exists task, wt, ins, q, request, resp, answer, info, n. rewrite <-Hth, <-Hpr, Hpay in *.
  assert (Hb : pi_TimestampUnix info + pi_ExpirySeconds info ≤ qs_QuoteExpiry resp + skew ≤ max_i64)
    by (apply expiry_test; split; done || lia).
  split_and!; try done; lia.
Qed.

(** C4: the requester pays an invoice only for a task it asked for.  Before every
    payment for a job, a quote request with the task was sent to the peer under that
    job id; the peer sent back a quote response for the job whose terms hash commits
    to the task, its params, its input, the price and the expiry; and the invoice
    that is paid, which is the one of that response, has the terms hash as its
    description hash, the price as its amount, the peer as its payee, and expires no
    later than the quote and the clock skew. *)
Theorem payment_is_bound evs cid p j pr :
  sane_limits (Some localManifest) → RPay cid p j pr ∈ s_out (after_events evs) →
  ∃ task wireTask inputStream q request resp answer info n,
    (* the request *)
    Tasks.ToWireQuoteRequestTask task = Ok wireTask ∧ Tasks.ToWireInputStream task = Ok inputStream ∧
    RSent p MessageTypeQuoteRequest request None ∈ s_out (after_events evs) ∧
    EncodeQuoteRequest q = Ok request ∧ env_JobID (qr_Envelope q) = j ∧
    qr_TaskKind q = Tasks.qt_TaskKind wireTask ∧ qr_ParamsBytes q = Some (Tasks.qt_ParamsBytes wireTask) ∧
    (* the response *)
    EvMessage p MessageTypeQuoteResponse answer ∈ evs ∧ DecodeQuoteResponse answer = Ok resp ∧
    env_JobID (qs_Envelope resp) = j ∧ qs_PaymentRequest resp = pr ∧
    ComputeTermsHash (response_terms resp) (request_commit wireTask inputStream) = Ok (qs_TermsHash resp) ∧
    (* the invoice *)
    rpc_DecodePaymentRequest n pr = Ok info ∧ pi_DescriptionHash info = qs_TermsHash resp ∧
    pi_AmountMsat info = qs_PriceMsat resp ∧ 0 < qs_PriceMsat resp ∧
    to_lower (pi_PayeePubKey info) = to_lower p ∧
    pi_TimestampUnix info + pi_ExpirySeconds info ≤ qs_QuoteExpiry resp + skew ≤ max_i64.
Proof using L LL. apply payment_bound. Qed.

(** What a result says, and that its bytes are the ones it says. *)
Definition result_faithful (res : PbResult) (terminal : Result) : Prop :=
  match pr_Status res with
  | STATUS_OK => rs_Status terminal = ResultStatusOK ∧
      ∃ ok, rs_OK terminal = Some ok ∧ pr_ResultHash res = ro_ResultHash ok ∧
        pr_ResultLen res = ro_ResultLen ok ∧ sha256_sum (pr_Result res) = pr_ResultHash res ∧
        blen (pr_Result res) = pr_ResultLen res ∧ blen (pr_Result res) ≤ maxS ∧ blen (pr_Result res) ≤ maxJ
  | STATUS_FAILED => rs_Status terminal = ResultStatusFailed ∧ pr_Result res = []
  | STATUS_CANCELLED => rs_Status terminal = ResultStatusCancelled ∧ pr_Result res = []
  end.

Lemma proto_faithful o terminal res :
  verified maxS maxJ o → Waiter.ro_Error o = None → Waiter.ro_Result o = Some terminal →
  protoResultFromTerminal terminal (Waiter.ro_ResultBytes o) = Ok res → result_faithful res terminal.
Proof.
  intros Hv He Hr. unfold verified in Hv. rewrite He, Hr in Hv.
  unfold protoResultFromTerminal, okResult, result_faithful.
  destruct (Z.eqb_spec (rs_Status terminal) ResultStatusOK) as [Hs|].
  { destruct (rs_OK terminal) as [ok|]; [|done]. intros [= <-]. simpl.
    destruct Hv as (_ & [H1 H2] & H3 & H4). split; [done|]. by exists ok. }
  destruct (Z.eqb_spec (rs_Status terminal) ResultStatusFailed); [by intros [= <-]|].
  destruct (Z.eqb_spec (rs_Status terminal) ResultStatusCancelled); [by intros [= <-]|done].
Qed.

(** C11: a result that [AcceptAndExecute] returns is the one that was paid for: the
    call paid an invoice of the peer for the job, the result is a terminal result the
    peer sent for that job, and when it is ok its bytes hash to the [result_hash],
    have the [result_len] and are within the local limits; otherwise it has no bytes. *)
Theorem accepted_result_verified evs cid res :
  sane_limits (Some localManifest) → RReturn cid (Ok (ReplyResult res)) ∈ s_out (after_events evs) →
  ∃ p j pr payload terminal,
    RPay cid p j pr ∈ s_out (after_events evs) ∧
    EvMessage p MessageTypeResult payload ∈ evs ∧ DecodeResult payload = Ok terminal ∧
    env_JobID (rs_Envelope terminal) = j ∧ result_faithful res terminal.
Proof using L.
  intros Hl Hin. destruct (events_out _ _ Hl Hin) as (p & j & pr & o & t & Hp & [Hr Hv] & He & Ht & Hres).
  unfold result_routed in Hr. rewrite Ht in Hr. destruct Hr as [[Hj (payload & Hm & Hdec)] _].
  exists p, j, pr, payload, t. split_and!; try done. by eapply proto_faithful.
Qed.
End runs.
