(* ===== verification/InputSend.v ===== *)
(** * The requester sends the whole task

    What [RequestQuote] sends: a quote request and an input stream that decode to
    the task, each message within the limit of the peer.  The chunk loop of the
    requester is the one of the provider's results. *)

From stdpp Require Import pretty.
From S2P Require Import Prelude GoStd TlvLib Wire WireProofs Stores PeerDir Terms Pricing Validation Provider ResultSend ResultProofs Lightning Tasks ReqJobStore Waiter Requester.

(** ** Methods that only send *)

Definition sent_state (s : RState) (n : nat) (evs : list rout) : RState :=
  MkRState (s_jobs s) (s_peers s) (s_waiter s) (s_calls s) (s_next s) n (s_out s ++ evs).

(** [m] changes nothing but the trace, and [Q] holds of the value it returns and of
    what it sent. *)
Definition emits {A} (m : RM A) (s : RState) (Q : A → list rout → Prop) : Prop :=
  ∃ n evs, (m s).1 = sent_state s n evs ∧ Q (m s).2 evs.
Definition emitsE {A} (m : RE A) (s : RState) (Q : A → list rout → Prop) : Prop :=
  emits m s (λ r evs, ∀ a, r = Ok a → Q a evs).

Lemma sent_state_self s : s = sent_state s (s_tick s) [].
Proof. unfold sent_state. rewrite app_nil_r. by destruct s. Qed.
Lemma sent_state_app s n1 e1 n2 e2 : sent_state (sent_state s n1 e1) n2 e2 = sent_state s n2 (e1 ++ e2).
Proof. unfold sent_state. simpl. by rewrite app_assoc. Qed.

Lemma emits_ret {A} (a : A) s (Q : A → list rout → Prop) : Q a [] → emits (mret a) s Q.
Proof. intros HQ. exists (s_tick s), []. split; [apply sent_state_self|done]. Qed.

Lemma emits_bind {A B} (m : RM A) (k : A → RM B) s (R : A → list rout → Prop) (Q : B → list rout → Prop) :
  emits m s R →
  (∀ a n e1, R a e1 → emits (k a) (sent_state s n e1) (λ b e2, Q b (e1 ++ e2))) → emits (m ≫= k) s Q.
Proof.
  intros (n & e1 & H1 & HR) Hk. destruct (Hk _ n _ HR) as (n' & e2 & H2 & HQ).
  exists n', (e1 ++ e2). unfold mbind, RM_bind. rewrite H1, H2. split; [apply sent_state_app|done].
Qed.

Lemma emits_mono {A} (m : RM A) s (Q Q' : A → list rout → Prop) :
  emits m s Q → (∀ a evs, Q a evs → Q' a evs) → emits m s Q'.
Proof. intros (n & evs & H1 & H2) HQ. exists n, evs. auto. Qed.

Lemma emitsE_ok {A} (a : A) s (Q : A → list rout → Prop) : Q a [] → emitsE (rok a) s Q.
Proof. intros HQ. apply emits_ret. by intros ? [= <-]. Qed.
Lemma emitsE_err {A} e s (Q : A → list rout → Prop) : emitsE (mret (Err e)) s Q.
Proof. by apply emits_ret. Qed.

Lemma emitsE_try {A B} (m : RE A) (k : A → RE B) s (R : A → list rout → Prop) (Q : B → list rout → Prop) :
  emitsE m s R →
  (∀ a n e1, R a e1 → emitsE (k a) (sent_state s n e1) (λ b e2, Q b (e1 ++ e2))) → emitsE (try m k) s Q.
Proof.
  intros Hm Hk. eapply emits_bind; [exact Hm|]. intros [a|e] n e1 HR; [by apply Hk, HR|].
  by apply emits_ret.
Qed.

(** A step that sends nothing. *)
Lemma emitsE_silent {A B} (m : RE A) (k : A → RE B) s (R : A → Prop) (Q : B → list rout → Prop) :
  emitsE m s (λ a evs, evs = [] ∧ R a) →
  (∀ a n, R a → emitsE (k a) (sent_state s n []) Q) → emitsE (try m k) s Q.
Proof. intros Hm Hk. eapply emitsE_try; [exact Hm|]. intros a n e1 [-> HR]. by apply Hk. Qed.

Lemma emitsE_lift {E A} (r : result E A) st s : emitsE (lift r st) s (λ a evs, evs = [] ∧ r = Ok a).
Proof. apply emits_ret. intros a Ha. split; [done|]. by destruct r; [injection Ha as ->|]. Qed.
Lemma emitsE_check b code msg s : emitsE (check b code msg) s (λ _ evs, evs = [] ∧ b = true).
Proof. unfold check. destruct b; [by apply emitsE_ok|apply emitsE_err]. Qed.

(** [rand.Read] fills the 32 bytes. *)
Class RandSizes (E : RequesterEnv) : Prop := q_rand_size : ∀ n b, q_rand n = Some b → wf_hash b.

Section input.
Context {T : TlvLib} {L : TlvLaws T} {W : WireText} {TJ : Tasks.TaskJson} {E : RequesterEnv} {ES : RandSizes E}
        {V : Validator}.

Lemma emits_tick {A} (f : nat → A) s (Q : A → list rout → Prop) :
  Q (f (s_tick s)) [] → emits (λ s, (ticked s, f (s_tick s))) s Q.
Proof.
  intros HQ. exists (S (s_tick s)), []. split; [|done]. unfold sent_state. by rewrite app_nil_r.
Qed.

Lemma emitsE_random what s : emitsE (randomBytes what) s (λ b evs, evs = [] ∧ wf_hash b).
Proof using ES.
  apply (emits_tick (λ n, match q_rand n with
    | Some b => Ok b | None => Err (MkStatus Internal ("generate " +:+ what +:+ " failed")) end)).
  intros b Hb. split; [done|]. destruct (q_rand (s_tick s)) eqn:Hr; [|done]. injection Hb as <-.
  by eapply q_rand_size.
Qed.

Lemma emitsE_expiry s : emitsE newEnvelopeExpiry s (λ x evs, evs = [] ∧ is_u64 x).
Proof.
  unfold newEnvelopeExpiry. eapply (emits_bind _ _ _ (λ _ evs, evs = [])); [by apply emits_tick|].
  intros now n e1 ->. cbv zeta. case_match eqn:H1; [apply emitsE_err|].
  case_match eqn:H2; [apply emitsE_err|]. apply emitsE_ok. split; [done|]. bool_to_prop.
  unfold max_u64, defaultEnvelopeTTLSeconds, is_uint in *. lia.
Qed.

Lemma emitsE_send p typ payload s :
  emitsE (sendPeer p typ payload) s (λ _ evs, evs = [RSent p typ payload None]).
Proof.
  unfold sendPeer. eapply (emits_bind _ _ _ (λ err evs, evs = [RSent p typ payload err])).
  { exists (S (s_tick s)), [RSent p typ payload (q_send (s_tick s))]. done. }
  intros [m|] n e1 ->; [|by apply emitsE_ok].
  eapply (emits_bind _ _ _ (λ _ _, True)); [by apply emits_tick|]. intros. apply emitsE_err.
Qed.

(** ** Chunks: the two loops are one *)

(** The envelope that both loops derive the chunk's from. *)
Definition job_envelope (jobID : bytes) : JobEnvelope := envelope jobID (zero_bytes 32) 0.

Definition fit_status (e : fit_err) : option (result Status (bytes * nat)) :=
  match e with
  | FitEncode e => Some (Err (invalidWire e))
  | FitCannot =>
    Some (Err (MkStatus ResourceExhausted "cannot fit input stream_chunk under peer max_payload_bytes"))
  | FitFuel => None
  end.

Lemma input_fit_loop_eq fuel j x sid seq data max n :
  input_fit_loop fuel j x sid seq data max n =
  match fit_loop fuel (job_envelope j) x sid seq data max n with
  | Ok r => Some (Ok r)
  | Err e => fit_status e
  end.
Proof.
  revert n. induction fuel as [|fuel IH]; intros n; [done|]. cbn [input_fit_loop fit_loop].
  change (input_chunk j x sid seq (take n data)) with (result_chunk (job_envelope j) x sid seq (take n data)).
  destruct (EncodeStreamChunk _) as [[payload mid]|e]; [|done].
  destruct (blen payload <=? max); [done|]. destruct (n <=? 1)%nat; [done|]. apply IH.
Qed.

(** C35: the requester's input chunks are cut exactly as the provider's result
    chunks: [encodeFittingInputStreamChunk] and [encodeFittingResultStreamChunk] give
    the same payload and the same length on every input and fail on the same ones;
    neither runs out of fuel. *)
Theorem input_chunk_equiv j x sid seq data max :
  encodeFittingInputStreamChunk j x sid seq data max =
  Some match encodeFittingResultStreamChunk (job_envelope j) x sid seq data max with
       | Ok r => Ok r
       | Err (FitEncode e) => Err (MkStatus InvalidArgument (wire_text e))
       | Err _ => Err (MkStatus ResourceExhausted "cannot fit input stream_chunk under peer max_payload_bytes")
       end.
Proof.
  unfold encodeFittingInputStreamChunk, encodeFittingResultStreamChunk. rewrite input_fit_loop_eq.
  set (n := Z.to_nat _).
  pose proof (fit_loop_fuel (job_envelope j) x sid max (S n) seq data n ltac:(lia)) as Hf.
  destruct (fit_loop _ _ _ _ _ _ _ _) as [r|[]]; done.
Qed.

(** ** The stream *)

Definition chunk_msgs (p : string) (cs : list bytes) : list rout :=
  (λ c, RSent p MessageTypeStreamChunk c None) <$> cs.
(** What a receiver of these chunks rebuilds. *)
Definition rebuilt (p : string) (jobID streamID : bytes) (seq : Z) (cs : list bytes) : option bytes :=
  reassemble jobID streamID seq ((λ c, OSent p MessageTypeStreamChunk c true) <$> cs).

Section stream.
Context (p : string) (j : bytes) (x : Z) (sid : bytes) (max : Z).
Context (Hj : wf_hash j) (Hx : is_u64 x) (Hsid : wf_hash sid) (Hmax : 0 < max ≤ max_record_size).

Definition within_max (b : bytes) : Prop := blen b ≤ max.

Lemma input_fitting seq data payload m :
  is_u32 seq → data ≠ [] → encodeFittingInputStreamChunk j x sid seq data max = Some (Ok (payload, m)) →
  (0 < m ≤ length data)%nat ∧ within_max payload ∧
  DecodeStreamChunk payload = Ok (sent_chunk (job_envelope j) x sid seq (take m data)).
Proof using Hj Hx Hsid Hmax L.
  intros Hseq Hne. unfold encodeFittingInputStreamChunk. rewrite input_fit_loop_eq.
  fold (encodeFittingResultStreamChunk (job_envelope j) x sid seq data max).
  destruct (encodeFittingResultStreamChunk _ _ _ _ _ _) as [[payload' m']|[]] eqn:Hfit; try done.
  intros [= -> ->]. by apply fitting_chunk in Hfit.
Qed.

Lemma input_total seq data : encodeFittingInputStreamChunk j x sid seq data max ≠ None.
Proof.
  unfold encodeFittingInputStreamChunk. rewrite input_fit_loop_eq. set (n := Z.to_nat _).
  pose proof (fit_loop_fuel (job_envelope j) x sid max (S n) seq data n ltac:(lia)) as Hf.
  destruct (fit_loop _ _ _ _ _ _ _ _) as [r|[]]; done.
Qed.

Lemma input_chunks_spec fuel rest seq s :
  is_u32 seq → (length rest ≤ fuel)%nat →
  emits (input_chunks_loop fuel p j x sid rest seq max) s (λ r evs, r ≠ None ∧
    (r = Some (Ok tt) → ∃ cs, evs = chunk_msgs p cs ∧ rebuilt p j sid seq cs = Some rest ∧ Forall within_max cs)).
Proof using Hj Hx Hsid Hmax L.
  revert rest seq s. induction fuel as [|fuel IH]; intros rest seq s Hseq Hfuel.
  { destruct rest; [|simpl in Hfuel; lia]. apply emits_ret. split; [done|]. intros _. by exists []. }
  destruct rest as [|b rest]; [apply emits_ret; split; [done|]; intros _; by exists []|].
  cbn [input_chunks_loop].
  destruct (encodeFittingInputStreamChunk _ _ _ _ _ _) as [[[payload m]|e]|] eqn:Hfit;
    [|by apply emits_ret|by destruct (input_total seq (b :: rest))].
  apply input_fitting in Hfit as (Hm & Hlen & Hdec); [|done..].
  eapply emits_bind; [apply emitsE_send|]. intros [[]|e] n e1 Hev; [|by apply emits_ret].
  specialize (Hev _ eq_refl). simpl in Hev. subst e1.
  eapply emits_mono; [apply IH|].
  - apply wrap_u32_range.
  - rewrite length_drop. simpl in *. lia.
  - intros r evs [H1 H2]. split; [done|]. intros Hr. destruct (H2 Hr) as (cs & -> & Hre & Hcs).
    exists (payload :: cs). split_and!; [done| |by constructor].
    rewrite <-(take_drop m (b :: rest)) at 1. by apply (reassemble_cons (job_envelope j) x).
Qed.

Lemma sendInputStreamChunks_spec data s :
  emitsE (sendInputStreamChunks p j x sid data max) s (λ _ evs,
    ∃ cs, evs = chunk_msgs p cs ∧ rebuilt p j sid 0 cs = Some data ∧ Forall within_max cs).
Proof using Hj Hx Hsid Hmax L.
  unfold sendInputStreamChunks. eapply emits_bind; [by apply input_chunks_spec|].
  intros r n e1 [Hn Hr]. apply emits_ret. intros u Hu. rewrite app_nil_r. apply Hr.
  destruct r as [r|]; [|done]. simpl in Hu. subst r. by destruct u.
Qed.

Lemma job_sendable msgID : wf_hash msgID → sendable (envelope j msgID x).
Proof using Hj Hx. intros Hm. split; [done|]. unfold wf_env. simpl. done. Qed.

(** The begin and the end of the stream of [data]. *)
Definition input_begin (msgID data : bytes) (ins : Tasks.InputStream) : StreamBegin :=
  {| sb_Envelope := envelope j msgID x; sb_StreamID := sid; sb_Kind := StreamKindInput;
     sb_TotalLen := Some (blen data); sb_SHA256 := Some (sha256_sum data);
     sb_ContentType := Tasks.in_ContentType ins; sb_ContentEncoding := Tasks.in_ContentEncoding ins |}.
Definition input_end (msgID data : bytes) : StreamEnd :=
  {| se_Envelope := envelope j msgID x; se_StreamID := sid; se_TotalLen := blen data; se_SHA256 := sha256_sum data |}.

Lemma sendInputStreamBegin_spec ins data s :
  wf_name (Tasks.in_ContentType ins) → wf_name (Tasks.in_ContentEncoding ins) → is_u64 (blen data) →
  emitsE (sendInputStreamBegin p j x ins sid (blen data) (sha256_sum data) max) s (λ _ evs,
    ∃ payload msgID, evs = [RSent p MessageTypeStreamBegin payload None] ∧ within_max payload ∧
      DecodeStreamBegin payload = Ok (input_begin msgID data ins)).
Proof using Hj Hx Hsid L ES.
  intros Hct Hce Hl. unfold sendInputStreamBegin, newMsgID.
  eapply emitsE_silent; [apply emitsE_random|]. intros msgID n Hm.
  destruct (stream_begin_rt (input_begin msgID data ins)) as (payload & Henc & Hdec).
  { by apply job_sendable. }
  { unfold wf_stream_begin, valid_kind. simpl. destruct (job_sendable msgID Hm) as [_ He].
    split_and!; try done. by left. }
  eapply emitsE_silent; [apply emitsE_lift|]. intros pl n1 Hpl.
  fold (input_begin msgID data ins) in Hpl. rewrite Henc in Hpl. injection Hpl as <-.
  eapply emitsE_silent; [apply emitsE_check|]. intros ? n2 Hb%Z.leb_le.
  eapply emits_mono; [apply emitsE_send|]. intros r evs Hev u ->. rewrite (Hev _ eq_refl). by exists payload, msgID.
Qed.

Lemma sendInputStreamEnd_spec data s :
  is_u64 (blen data) →
  emitsE (sendInputStreamEnd p j x sid (blen data) (sha256_sum data) max) s (λ _ evs,
    ∃ payload msgID, evs = [RSent p MessageTypeStreamEnd payload None] ∧ within_max payload ∧
      DecodeStreamEnd payload = Ok (input_end msgID data)).
Proof using Hj Hx Hsid L ES.
  intros Hl. unfold sendInputStreamEnd, newMsgID.
  eapply emitsE_silent; [apply emitsE_random|]. intros msgID n Hm.
  destruct (stream_end_rt (input_end msgID data)) as (payload & Henc & Hdec).
  { by apply job_sendable. }
  { unfold wf_stream_end. simpl. destruct (job_sendable msgID Hm) as [_ He].
    by split_and!. }
  eapply emitsE_silent; [apply emitsE_lift|]. intros pl n1 Hpl.
  fold (input_end msgID data) in Hpl. rewrite Henc in Hpl. injection Hpl as <-.
  eapply emitsE_silent; [apply emitsE_check|]. intros ? n2 Hb%Z.leb_le.
  eapply emits_mono; [apply emitsE_send|]. intros r evs Hev u ->. rewrite (Hev _ eq_refl). by exists payload, msgID.
Qed.
End stream.

(** ** A quote request and its input *)

Lemma input_stream_wf task ins :
  Tasks.ToWireInputStream task = Ok ins →
  wf_name (Tasks.in_ContentType ins) ∧ wf_name (Tasks.in_ContentEncoding ins).
Proof.
  unfold Tasks.ToWireInputStream. intros H. invert_ok. destruct (Tasks.task_spec task) as [[]|]; [..|done];
    injection H as <-; by vm_compute.
Qed.

Lemma wire_task_kind task wt :
  Tasks.ToWireQuoteRequestTask task = Ok wt →
  wf_name (Tasks.qt_TaskKind wt).
Proof.
  unfold Tasks.ToWireQuoteRequestTask. intros H. invert_ok.
  destruct (Tasks.task_spec task) as [[]|]; [..|done]; case_match; try done; injection H as <-; by vm_compute.
Qed.

(** The messages that carry a task: a quote request for it, and an input stream that
    announces and rebuilds its input. *)
Definition carries (p : string) (j : bytes) (wt : Tasks.QuoteRequestTask) (ins : Tasks.InputStream)
    (max : Z) (evs : list rout) : Prop :=
  let data := Tasks.in_DecodedBytes ins in
  ∃ pq pb pe cs x mq mb me sid,
    evs = [RSent p MessageTypeQuoteRequest pq None; RSent p MessageTypeStreamBegin pb None] ++
          chunk_msgs p cs ++ [RSent p MessageTypeStreamEnd pe None] ∧
    DecodeQuoteRequest pq = Ok {| qr_Envelope := envelope j mq x; qr_TaskKind := Tasks.qt_TaskKind wt;
                                  qr_ParamsBytes := Some (Tasks.qt_ParamsBytes wt) |} ∧
    DecodeStreamBegin pb = Ok (input_begin j x sid mb data ins) ∧
    rebuilt p j sid 0 cs = Some data ∧
    DecodeStreamEnd pe = Ok (input_end j x sid me data) ∧
    Forall (within_max max) (pq :: pb :: pe :: cs).

Lemma sendInputStream_spec hasMessenger p j x ins m s :
  wf_hash j → is_u64 x → 0 ≤ mf_MaxPayloadBytes m ≤ max_record_size →
  wf_name (Tasks.in_ContentType ins) → wf_name (Tasks.in_ContentEncoding ins) →
  is_u64 (blen (Tasks.in_DecodedBytes ins)) →
  emitsE (sendInputStream hasMessenger p j x ins m) s (λ _ evs, ∃ pb pe cs mb me sid,
    let data := Tasks.in_DecodedBytes ins in
    evs = RSent p MessageTypeStreamBegin pb None :: chunk_msgs p cs ++ [RSent p MessageTypeStreamEnd pe None] ∧
    DecodeStreamBegin pb = Ok (input_begin j x sid mb data ins) ∧ rebuilt p j sid 0 cs = Some data ∧
    DecodeStreamEnd pe = Ok (input_end j x sid me data) ∧
    Forall (within_max (mf_MaxPayloadBytes m)) (pb :: pe :: cs) ∧ mf_MaxPayloadBytes m ≠ 0).
Proof using L ES.
  intros Hj Hx Hmax Hct Hce Hl. unfold sendInputStream. cbv zeta.
  eapply emitsE_silent; [apply emitsE_check|]. intros ? n1 _.
  eapply emitsE_silent; [apply emitsE_check|]. intros ? n2 Hz. cbn beta in Hz.
  assert (Hmax' : 0 < mf_MaxPayloadBytes m ≤ max_record_size)
    by (destruct (Z.eqb_spec (mf_MaxPayloadBytes m) 0); [done|lia]).
  eapply emitsE_silent; [apply emitsE_random|]. intros sid n3 Hsid.
  eapply emitsE_try; [by apply sendInputStreamBegin_spec|]. intros ? n4 e1 (pb & mb & -> & Hb & Hdb).
  eapply emitsE_try; [by apply sendInputStreamChunks_spec|]. intros ? n5 e2 (cs & -> & Hcs & Hall).
  eapply emits_mono; [by apply sendInputStreamEnd_spec|]. intros r evs Hev u ->.
  destruct (Hev _ eq_refl) as (pe & me & -> & He & Hde). exists pb, pe, cs, mb, me, sid.
  split_and!; try done; [by repeat constructor|lia].
Qed.

Lemma quote_request_decodes task wt j mq x pq :
  Tasks.ToWireQuoteRequestTask task = Ok wt → wf_blob (Tasks.qt_ParamsBytes wt) →
  wf_hash j → is_u64 x → wf_hash mq →
  let q := {| qr_Envelope := envelope j mq x; qr_TaskKind := Tasks.qt_TaskKind wt;
              qr_ParamsBytes := Some (Tasks.qt_ParamsBytes wt) |} in
  EncodeQuoteRequest q = Ok pq → DecodeQuoteRequest pq = Ok q.
Proof using L.
  intros Hwt Hps Hj Hx Hmq q Henc. destruct (job_sendable j x Hj Hx mq Hmq) as [Hs He].
  destruct (quote_request_rt q) as (p & Hp & Hdec); [by split| |congruence].
  split_and!; [done|by eapply wire_task_kind|done].
Qed.

Lemma emitsE_ready p s :
  emitsE (requireReadyPeer p) s (λ m evs,
    evs = [] ∧ PeerDir.GetPeer p (s_peers s) ≫= PeerDir.p_RemoteManifest = Some m).
Proof.
  unfold requireReadyPeer.
  eapply (emits_bind _ _ _ (λ o evs, evs = [] ∧ o = PeerDir.GetPeer p (s_peers s))).
  { exists (s_tick s), []. split; [apply sent_state_self|done]. }
  intros o n e1 [-> ->]. destruct (PeerDir.GetPeer p (s_peers s)) as [peer|]; [|apply emitsE_err].
  eapply emitsE_silent; [apply emitsE_check|]. intros ? n1 _. simpl.
  destruct (PeerDir.p_RemoteManifest peer) as [m|]; [|apply emitsE_err].
  eapply emitsE_silent; [apply emitsE_check|]. intros ? n2 _.
  eapply emitsE_silent; [apply emitsE_check|]. intros ? n3 _. by apply emitsE_ok.
Qed.

Lemma emitsE_limits m payload ins s :
  emitsE (validateQuoteRequestRemoteLimits m payload ins) s (λ _ evs, evs = [] ∧
    (mf_MaxPayloadBytes m = 0 ∨ blen payload ≤ mf_MaxPayloadBytes m) ∧
    blen (Tasks.in_DecodedBytes ins) ≤ mf_MaxStreamBytes m ∧ blen (Tasks.in_DecodedBytes ins) ≤ mf_MaxJobBytes m).
Proof.
  unfold validateQuoteRequestRemoteLimits. case_match eqn:H1; [apply emitsE_err|]. cbv zeta.
  case_match eqn:H2; [apply emitsE_err|]. apply emitsE_ok. split; [done|].
  apply andb_false_iff in H1. apply orb_false_iff in H2 as [H2 H3]. apply Z.ltb_ge in H2, H3.
  split; [|done]. destruct H1 as [H1|H1]; [left|right; by apply Z.ltb_ge].
  by destruct (Z.eqb_spec (mf_MaxPayloadBytes m) 0).
Qed.

Lemma emitsE_validated err s : emitsE (validated err) s (λ _ evs, evs = [] ∧ True).
Proof. unfold validated. destruct err; [apply emitsE_err|by apply emitsE_ok]. Qed.

Lemma emitsE_build task s :
  emitsE (buildQuoteRequestPayload task) s (λ b evs, evs = [] ∧ let '(j, x, wt, ins, payload) := b in
    wf_hash j ∧ is_u64 x ∧ Tasks.ToWireQuoteRequestTask task = Ok wt ∧ Tasks.ToWireInputStream task = Ok ins ∧
    ∃ mq, wf_hash mq ∧ EncodeQuoteRequest {| qr_Envelope := envelope j mq x;
      qr_TaskKind := Tasks.qt_TaskKind wt; qr_ParamsBytes := Some (Tasks.qt_ParamsBytes wt) |} = Ok payload).
Proof using ES.
  unfold buildQuoteRequestPayload, NewJobID, newMsgID.
  eapply emitsE_silent; [apply emitsE_random|]. intros j n1 Hj.
  eapply emitsE_silent; [apply emitsE_random|]. intros mq n2 Hmq.
  eapply emitsE_silent; [apply emitsE_expiry|]. intros x n3 Hx.
  eapply emitsE_silent; [apply emitsE_lift|]. intros wt n4 Hwt.
  eapply emitsE_silent; [apply emitsE_lift|]. intros ins n5 Hins.
  eapply emitsE_silent; [apply emitsE_lift|]. intros payload n6 Hp.
  apply emitsE_ok. split_and!; try done. by exists mq.
Qed.

(** C22: when [RequestQuote] has sent its messages, they carry the task: the peer gets
    a quote request with the task kind and the params, and an input stream of the job
    that announces the input's length and SHA-256, whose chunks rebuild the input and
    whose end repeats both; every message is within the peer's max_payload_bytes,
    and the input within its stream and job limits. *)
Theorem quote_request_carries_task hasMessenger req s m r :
  PeerDir.GetPeer (TrimSpace (rq_PeerId req)) (s_peers s) ≫= PeerDir.p_RemoteManifest = Some m →
  0 ≤ mf_MaxPayloadBytes m ≤ max_record_size →
  (∀ wt, Tasks.ToWireQuoteRequestTask (rq_Task req) = Ok wt → wf_blob (Tasks.qt_ParamsBytes wt)) →
  (∀ ins, Tasks.ToWireInputStream (rq_Task req) = Ok ins → is_u64 (blen (Tasks.in_DecodedBytes ins))) →
  (requestQuoteSend hasMessenger (Some req) s).2 = Ok r →
  ∃ n evs p task j wt ins,
    (requestQuoteSend hasMessenger (Some req) s).1 = sent_state s n evs ∧
    r = (p, task, j, wt, ins) ∧ p = TrimSpace (rq_PeerId req) ∧ task = rq_Task req ∧
    Tasks.ToWireQuoteRequestTask task = Ok wt ∧ Tasks.ToWireInputStream task = Ok ins ∧
    carries p j wt ins (mf_MaxPayloadBytes m) evs ∧
    blen (Tasks.in_DecodedBytes ins) ≤ mf_MaxStreamBytes m ∧ blen (Tasks.in_DecodedBytes ins) ≤ mf_MaxJobBytes m.
Proof using L ES.
  intros Hm Hmax Hps Hin.
  enough (emitsE (requestQuoteSend hasMessenger (Some req)) s (λ r evs, ∃ p task j wt ins,
    r = (p, task, j, wt, ins) ∧ p = TrimSpace (rq_PeerId req) ∧ task = rq_Task req ∧
    Tasks.ToWireQuoteRequestTask task = Ok wt ∧ Tasks.ToWireInputStream task = Ok ins ∧
    carries p j wt ins (mf_MaxPayloadBytes m) evs ∧
    blen (Tasks.in_DecodedBytes ins) ≤ mf_MaxStreamBytes m ∧
    blen (Tasks.in_DecodedBytes ins) ≤ mf_MaxJobBytes m)) as (n & evs & H1 & H2).
  { intros Hok. destruct (H2 _ Hok) as (p & task & j & wt & ins & ?). by exists n, evs, p, task, j, wt, ins. }
  unfold requestQuoteSend.
  eapply emitsE_silent; [apply emitsE_validated|]. intros ? n1 _. cbv zeta.
  eapply emitsE_silent; [apply emitsE_lift|]. intros ? n2 _.
  eapply emitsE_silent; [apply emitsE_ready|]. intros m' n3 Hm'. cbn [s_peers sent_state] in Hm'.
  rewrite Hm in Hm'. injection Hm' as <-.
  eapply emitsE_silent; [apply emitsE_build|].
  intros [[[[j x] wt] ins] pq] n4 (Hj & Hx & Hwt & Hins & mq & Hmq & Hpq).
  eapply emitsE_silent; [apply emitsE_limits|]. intros ? n5 (Hlim & Hls & Hlj).
  eapply emitsE_silent; [apply emitsE_check|]. intros ? n6 _.
  pose proof (quote_request_decodes _ _ _ _ _ _ Hwt (Hps wt Hwt) Hj Hx Hmq Hpq) as Hdec.
  destruct (input_stream_wf _ _ Hins) as [Hct Hce].
  eapply emitsE_try; [apply emitsE_send|]. intros ? n7 e1 ->.
  eapply emitsE_try; [by apply sendInputStream_spec; auto|].
  intros ? n8 e2 (pb & pe & cs & mb & me & sid & -> & Hb & Hcs & He & Hall & Hnz).
  apply emitsE_ok. rewrite app_nil_r. exists (TrimSpace (rq_PeerId req)), (rq_Task req), j, wt, ins.
  split_and!; try done. exists pq, pb, pe, cs, x, mq, mb, me, sid. split_and!; try done.
  constructor; [|done]. by destruct Hlim.
Qed.
End input.
