(* ===== verification/Composition.v ===== *)
(** * Requester and provider together

    What the two guarantee when one pays the other: the task the provider executes
    for a payment is the task the requester asked for. *)

From stdpp Require Import pretty.
From S2P Require Import Prelude GoStd TlvLib Wire WireProofs Stores Replay JobStore PeerDir Terms Pricing Validation Tasks Lightning Provider ResultSend Runner ResultProofs ProviderInv ProviderSafety ReqJobStore Waiter WaiterInv WaiterRoute Requester RequesterRun RequesterSafety RequesterTheorems.

Import JobStore.

Section composition.
Context {T : TlvLib} {L : TlvLaws T} {W : WireText} {RZ : MapRange Z bytes} {EN : Environ}
        {RP : MapRange string PeerDir.Peer}.
(** The provider. *)
Context {J : JsonLib} {F : Fmt} {PE : ProviderEnv} {RJ : MapRange Key Job} {RR : MapRange ReplayStore.Key Z}
        {RM : MapRange string ModelConfig}.
Context (cfg : Config) (policy : ExecutionPolicy) (backendDisabled backendStreams : bool).
(** The requester. *)
Context {TJ : Tasks.TaskJson} {TX : TermsText} {E : RequesterEnv} {V : Validator} {LN : LightningRPC}
        {LL : LightningLaws LN} {RQ : MapRange ReqJobStore.key JobEntryT}.
Context (hasMessenger hasLightning : bool) (localManifest : Manifest) (maxEntries : Z).

Abbreviation reachable_ := (Runner.reachable cfg DefaultValidator policy backendDisabled backendStreams).
Abbreviation requester := (after_events hasMessenger hasLightning localManifest maxEntries).

(** A payment request decodes to the description hash of its invoice (BOLT #11). *)
Definition invoices_decode (ps : PState) : Prop :=
  ∀ ireq invoice n info, OInvoice ireq (Some invoice) ∈ p_out ps →
    rpc_DecodePaymentRequest n (iv_PaymentRequest invoice) = Ok info →
    pi_DescriptionHash info = ir_DescriptionHash ireq.

(** What the provider committed to. *)
Definition executed_terms (req : QuoteRequest) (key : Key) (quote : QuoteResponse) : Terms :=
  {| tm_ProtocolVersion := env_ProtocolVersion (qr_Envelope req); tm_JobID := k_JobID key;
     tm_PriceMsat := qs_PriceMsat quote; tm_QuoteExpiry := qs_QuoteExpiry quote |}.
Definition executed_commit (req : QuoteRequest) (task : Task) (input : InputStreamState) : TermsCommit :=
  {| cm_TaskKind := t_TaskKind task; cm_Input := t_InputBytes task;
     cm_InputContentType := is_ContentType input; cm_InputContentEncoding := is_ContentEncoding input;
     cm_Params := qr_ParamsBytes req |}.

(** What the two sides hashed, and the three pairs that may collide. *)
Definition collides (t1 t2 : Terms) (c1 c2 : TermsCommit) : Prop :=
  collision (terms_preimage t1 c1) (terms_preimage t2 c2) ∨ collision (cm_Input c1) (cm_Input c2) ∨
  collision (default [] (cm_Params c1)) (default [] (cm_Params c2)).

(** The executed task is the one of the quote, or hashes collide. *)
Definition same_task (key : Key) (task : Task) (input : InputStreamState) (req : QuoteRequest) (ireq : InvoiceRequest)
    (j : bytes) (wireTask : Tasks.QuoteRequestTask) (inputStream : Tasks.InputStream) (resp : QuoteResponse) : Prop :=
  k_JobID key = j ∧ t_TaskKind task = Tasks.qt_TaskKind wireTask ∧
  t_InputBytes task = Tasks.in_DecodedBytes inputStream ∧
  is_ContentType input = Tasks.in_ContentType inputStream ∧
  default [] (qr_ParamsBytes req) = Tasks.qt_ParamsBytes wireTask ∧
  ir_PriceMsat ireq = qs_PriceMsat resp.

Lemma executed_for_quote ps l1 rid key task streaming l2 Msg p j wt ins resp terms n info :
  reachable_ ps → p_out ps = l1 ++ OExec rid key task streaming :: l2 → invoices_decode ps →
  quote_from Msg (Waiter.MkKey p j) resp → termsFromQuoteResponse wt ins resp = Ok terms →
  rpc_DecodePaymentRequest n (ReqJobStore.pt_PaymentRequest terms) = Ok info →
  pi_DescriptionHash info = ReqJobStore.pt_TermsHash terms →
  ∃ ireq invoice req input quote,
    let xterms := executed_terms req key quote in
    let commit := executed_commit req task input in
    OInvoice ireq (Some invoice) ∈ l1 ∧ OSettled rid (iv_PaymentHash invoice) ∈ l1 ∧
    ComputeTermsHash xterms commit = Ok (ir_DescriptionHash ireq) ∧ ir_PriceMsat ireq = qs_PriceMsat quote ∧
    (iv_PaymentRequest invoice = ReqJobStore.pt_PaymentRequest terms → wf_terms xterms → wf_commit commit →
     wf_commit (request_commit wt ins) →
     same_task key task input req ireq j wt ins resp ∨
     collides xterms (response_terms resp) commit (request_commit wt ins)).
Proof using L.
  intros Hr Hout Hdec (Hj & answer & _ & Hrdec) Ht Hinfo Hdesc.
  pose proof (Inv_reachable cfg policy backendDisabled backendStreams ps Hr) as Hinv.
  destruct (inv_trace _ _ _ Hinv _ _ _ Hout) as
    (req & input & quote & invoice & pol & model & want & _ & Hset & (Hwf & Hval & Hid & Hpr & Hterms & _ & x & Hin) & Hplan).
  pose proof (planTask_ok _ _ _ _ _ Hplan) as (_ & Hkind & _ & Hinp & _).
  destruct (terms_from_response _ _ _ _ Ht) as (Hhash & Hth & _).
  assert (Hex : ComputeTermsHash (executed_terms req key quote) (executed_commit req task input)
    = Ok (qs_TermsHash quote)).
  { unfold executed_terms, executed_commit. rewrite Hkind, Hinp, <-Hid. exact Hterms. }
  eexists _, invoice, req, input, quote. cbv zeta. split_and!; [exact Hin|done|exact Hex|done..|].
  intros Hsame Hw1 Hc1 Hc2.
  assert (Heq : qs_TermsHash quote = qs_TermsHash resp).
  { rewrite <-Hth, <-Hdesc.
    assert (Hin' : OInvoice {| ir_DescriptionHash := qs_TermsHash quote; ir_PriceMsat := qs_PriceMsat quote;
      ir_ExpirySeconds := x |} (Some invoice) ∈ p_out ps) by (rewrite Hout; apply elem_of_app; by left).
    rewrite <-Hsame in Hinfo. by rewrite (Hdec _ _ _ _ Hin' Hinfo). }
  destruct (quote_response_wf _ _ Hrdec) as ((Hv & Hjw & _) & Hpw & Hxw & _).
  assert (Hw2 : wf_terms (response_terms resp)) by done.
  rewrite Heq in Hex. destruct (terms_agree _ _ _ _ _ Hw1 Hw2 Hc1 Hc2 Hex Hhash) as
    [(Hts & H1 & H2 & H3 & _ & H5)|Hc]; [left|by right].
  injection Hts as _ H6 H7 _. simpl in *. split_and!; simpl; congruence.
Qed.

End composition.
