(* ===== verification/Backend.v ===== *)
(** * Package [computebackend]: what executes a task

    The interface of the backends and its three implementations: the disabled one, the
    deterministic one, and the client of an OpenAI-compatible server
    ([computebackend/openai]).  The HTTP transport is a parameter: what parsing a URL
    and sending a request answer.  A response body is an [io.Reader], the list of what
    its reads return. *)

From stdpp Require Import pretty.
From S2P Require Import Prelude GoStd TlvLib Wire Stores Replay JobStore PeerDir Terms Pricing Validation Provider ResultSend Runner ResultProofs.

(** ** Standard library *)

(** *** encoding/base64: [StdEncoding.DecodeString] *)

Definition base64_value (b : byte) : option Z :=
  let c := Z_of_byte b in
  if in_range 65 90 b then Some (c - 65)
  else if in_range 97 122 b then Some (c - 71)
  else if in_range 48 57 b then Some (c + 4)
  else if c =? 43 then Some 62
  else if c =? 47 then Some 63
  else None.

Definition is_pad (b : byte) : bool := Z_of_byte b =? 61.
Definition is_newline (b : byte) : bool := (Z_of_byte b =? 10) || (Z_of_byte b =? 13).

(** Groups of four digits; the last may end in padding, whose spare bits are ignored. *)
Fixpoint base64_groups (bs : bytes) : option bytes :=
  match bs with
  | [] => Some []
  | a :: b :: c :: d :: rest =>
    x ← base64_value a; y ← base64_value b;
    if is_pad d then
      match rest with
      | [] =>
        if is_pad c then Some [byte_of_Z (x * 4 + y / 16)]
        else z ← base64_value c; Some [byte_of_Z (x * 4 + y / 16); byte_of_Z (y * 16 + z / 4)]
      | _ => None
      end
    else
      z ← base64_value c; w ← base64_value d;
      tail ← base64_groups rest;
      Some (byte_of_Z (x * 4 + y / 16) :: byte_of_Z (y * 16 + z / 4) :: byte_of_Z (z * 64 + w) :: tail)
  | _ => None
  end.

(** New lines are skipped wherever they are. *)
Definition base64_decode (s : string) : option bytes :=
  base64_groups (filter (λ b, is_newline b = false) (bytes_of_string s)).

(** *** strings *)

Definition drop_slashes (bs : bytes) : bytes :=
  (fix go l := match l with b :: l' => if Z_of_byte b =? 47 then go l' else l | [] => [] end) bs.
(** [strings.TrimRight(s, "/")]. *)
Definition TrimRightSlash (s : string) : string :=
  string_of_bytes (reverse (drop_slashes (reverse (bytes_of_string s)))).
(** [strings.HasSuffix]. *)
Definition HasSuffix (s suffix : string) : bool :=
  bool_decide (drop (length (bytes_of_string s) - length (bytes_of_string suffix)) (bytes_of_string s)
    = bytes_of_string suffix).

(** *** net/http *)

Record Request := {
  hq_Method : string;
  hq_URL : string;
  hq_Header : list (string * string);
  hq_Body : bytes;
}.

Record Response := { hp_StatusCode : Z; hp_Body : list read }.

(** [http.NewRequestWithContext] fails with the error of parsing the URL; [Do] answers
    with an error text or a response. *)
Class Http := {
  url_error : string → option string;
  http_Do : Request → result string Response;
}.

Definition status_texts : list (Z * string) := [
  (100, "Continue"); (101, "Switching Protocols"); (102, "Processing"); (103, "Early Hints");
  (200, "OK"); (201, "Created"); (202, "Accepted"); (203, "Non-Authoritative Information");
  (204, "No Content"); (205, "Reset Content"); (206, "Partial Content"); (207, "Multi-Status");
  (208, "Already Reported"); (226, "IM Used"); (300, "Multiple Choices"); (301, "Moved Permanently");
  (302, "Found"); (303, "See Other"); (304, "Not Modified"); (305, "Use Proxy");
  (307, "Temporary Redirect"); (308, "Permanent Redirect"); (400, "Bad Request"); (401, "Unauthorized");
  (402, "Payment Required"); (403, "Forbidden"); (404, "Not Found"); (405, "Method Not Allowed");
  (406, "Not Acceptable"); (407, "Proxy Authentication Required"); (408, "Request Timeout");
  (409, "Conflict"); (410, "Gone"); (411, "Length Required"); (412, "Precondition Failed");
  (413, "Request Entity Too Large"); (414, "Request URI Too Long"); (415, "Unsupported Media Type");
  (416, "Requested Range Not Satisfiable"); (417, "Expectation Failed"); (418, "I'm a teapot");
  (421, "Misdirected Request"); (422, "Unprocessable Entity"); (423, "Locked"); (424, "Failed Dependency");
  (425, "Too Early"); (426, "Upgrade Required"); (428, "Precondition Required"); (429, "Too Many Requests");
  (431, "Request Header Fields Too Large"); (451, "Unavailable For Legal Reasons");
  (500, "Internal Server Error"); (501, "Not Implemented"); (502, "Bad Gateway");
  (503, "Service Unavailable"); (504, "Gateway Timeout"); (505, "HTTP Version Not Supported");
  (506, "Variant Also Negotiates"); (507, "Insufficient Storage"); (508, "Loop Detected");
  (510, "Not Extended"); (511, "Network Authentication Required")]%string.

(** [http.StatusText]: empty for an unknown status. *)
Definition StatusText (code : Z) : string :=
  default ""%string (snd <$> head (filter (λ p, p.1 = code) status_texts)).

(** *** io *)

(** [io.ReadAll(io.LimitReader(r, n))]. *)
Fixpoint ReadAllLimited (n : Z) (reads : list read) : result string bytes :=
  match reads with
  | [] => Ok []
  | r :: rest =>
    if n <=? 0 then Ok []
    else if n <? blen (rd_data r) then Ok (take (Z.to_nat n) (rd_data r))
    else match rd_err r with
         | Some ReadEOF => Ok (rd_data r)
         | Some (ReadErr m) => Err m
         | None => tail ← ReadAllLimited (n - blen (rd_data r)) rest; Ok (rd_data r ++ tail)
         end
  end.

(** ** computebackend/backend.go: the interface *)

Record Usage := { us_InputUnits : Z; us_OutputUnits : Z; us_TotalUnits : Z }.
Definition no_usage : Usage := {| us_InputUnits := 0; us_OutputUnits := 0; us_TotalUnits := 0 |}.
Record ExecutionResult := { xr_OutputBytes : bytes; xr_Usage : Usage }.
Record StreamingExecutionResult := { sr_Output : list read; sr_Usage : Usage }.

(** The two interfaces; every backend implements both. *)
Class Backend (B : Type) := {
  Execute : B → Task → result task_err ExecutionResult;
  ExecuteStreaming : B → Task → result task_err StreamingExecutionResult;
}.

Inductive Disabled := NewDisabled.

#[export] Instance Disabled_backend : Backend Disabled := {|
  Execute _ _ := Err (ErrBackendUnavailable "compute backend is disabled");
  ExecuteStreaming _ _ := Err (ErrBackendUnavailable "compute backend is disabled");
|}.

(** ** computebackend/deterministic.go *)

Record Deterministic := NewDeterministic { dt_Output : bytes }.

Definition NewDeterministicFromBase64 (decode_error : string → string) (b64 : string) :
    result string Deterministic :=
  let trimmed := TrimSpace b64 in
  _ ← ensure (negb (bool_decide (trimmed = ""%string))) "deterministic output base64 is empty"%string;
  decoded ← or_err (base64_decode trimmed) ("decode deterministic output: " +:+ decode_error trimmed);
  _ ← ensure (negb (blen decoded =? 0)) "deterministic output decoded to empty"%string;
  Ok (NewDeterministic decoded).

(** [bytes.NewReader]: the bytes, then [io.EOF]. *)
Definition bytes_reader (b : bytes) : list read := [MkRead b None].

#[export] Instance Deterministic_backend : Backend Deterministic := {|
  Execute b _ := Ok {| xr_OutputBytes := dt_Output b; xr_Usage := no_usage |};
  ExecuteStreaming b _ := Ok {| sr_Output := bytes_reader (dt_Output b); sr_Usage := no_usage |};
|}.

(** ** computebackend/openai/backend.go *)

Definition defaultBaseURL : string := "https://api.openai.com/v1".
Definition maxPassthroughResponseBytes : Z := 16 * 1024 * 1024.
Definition maxUpstreamErrorMessageBytes : Z := 1024.

Record BackendConfig := { bc_APIKey : string; bc_BaseURL : string }.
Record OpenAI := { ob_apiKey : string; ob_baseURL : string }.

Definition normalizeBaseURL (url : string) : string :=
  let baseURL := TrimSpace url in
  let baseURL := if bool_decide (baseURL = ""%string) then defaultBaseURL else baseURL in
  let baseURL := TrimRightSlash baseURL in
  if HasSuffix baseURL "/v1" then baseURL else baseURL +:+ "/v1".

(** The HTTP client is the parameter [Http]; its timeout is part of what it answers. *)
Definition NewOpenAI (cfg : BackendConfig) : result task_err OpenAI :=
  let apiKey := TrimSpace (bc_APIKey cfg) in
  if bool_decide (apiKey = ""%string) then Err (ErrUnauthenticated "api key is required")
  else Ok {| ob_apiKey := apiKey; ob_baseURL := normalizeBaseURL (bc_BaseURL cfg) |}.

Definition validatePassthroughTask (task : Task) : result task_err unit :=
  _ ← ensure (negb (bool_decide (TrimSpace (t_Model task) = ""%string))) (ErrInvalidTask "model is required");
  _ ← ensure (negb (blen (t_InputBytes task) =? 0)) (ErrInvalidTask "input_bytes is required");
  ensure (blen (default [] (t_ParamsBytes task)) =? 0)
    (ErrInvalidTask "params_bytes must be empty for openai.chat_completions.v1").

Definition readLimitedBody (r : list read) (limitBytes : Z) : result task_err bytes :=
  match ReadAllLimited (limitBytes + 1) r with
  | Err m => Err (ErrBackendUnavailable ("read response: " +:+ m))
  | Ok body =>
    if limitBytes <? blen body then Err (ErrBackendUnavailable "response too large") else Ok body
  end.

Section openai.
Context {H : Http} {F : Fmt}.

Definition errorFromPassthroughHTTPResponse (statusCode : Z) (body : bytes) : task_err :=
  let msg := TrimSpace (string_of_bytes body) in
  let msg := if bool_decide (msg = ""%string) then StatusText statusCode else msg in
  let msg := if maxUpstreamErrorMessageBytes <? blen (bytes_of_string msg)
             then string_of_bytes (take (Z.to_nat maxUpstreamErrorMessageBytes) (bytes_of_string msg)) +:+ "…"
             else msg in
  let text := "http " +:+ pretty statusCode +:+ ": " +:+ msg in
  if bool_decide (statusCode ∈ [401; 403]) then ErrUnauthenticated text
  else if bool_decide (statusCode ∈ [400]) then ErrInvalidTask text
  else if bool_decide (statusCode ∈ [429; 500; 502; 503; 504]) then ErrBackendUnavailable text
  else ErrBackendUnavailable text.

Definition newPassthroughRequest (b : OpenAI) (path : string) (body : bytes) : result task_err Request :=
  let url := ob_baseURL b +:+ path in
  match url_error url with
  | Some m => Err (ErrBackendUnavailable ("build request: " +:+ m))
  | None =>
    Ok {| hq_Method := "POST"; hq_URL := url; hq_Body := body;
          hq_Header := [("Authorization", "Bearer " +:+ ob_apiKey b);
                        ("Content-Type", "application/json; charset=utf-8"); ("Accept", "*/*")]%string |}
  end.

Definition url_path (taskKind : string) : option string :=
  if bool_decide (taskKind = "openai.chat_completions.v1"%string) then Some "/chat/completions"%string
  else if bool_decide (taskKind = "openai.responses.v1"%string) then Some "/responses"%string
  else None.

Definition OpenAI_ExecuteStreaming (b : OpenAI) (task : Task) : result task_err StreamingExecutionResult :=
  urlPath ← or_err (url_path (t_TaskKind task)) (ErrUnsupportedTaskKind (fmt_q (t_TaskKind task)));
  _ ← validatePassthroughTask task;
  req ← newPassthroughRequest b urlPath (t_InputBytes task);
  match http_Do req with
  | Err m => Err (ErrBackendUnavailable ("request failed: " +:+ m))
  | Ok resp =>
    if (hp_StatusCode resp <? 200) || (300 <=? hp_StatusCode resp) then
      body ← readLimitedBody (hp_Body resp) maxUpstreamErrorMessageBytes;
      Err (errorFromPassthroughHTTPResponse (hp_StatusCode resp) body)
    else Ok {| sr_Output := hp_Body resp; sr_Usage := no_usage |}
  end.

Definition OpenAI_Execute (b : OpenAI) (task : Task) : result task_err ExecutionResult :=
  streaming ← OpenAI_ExecuteStreaming b task;
  body ← readLimitedBody (sr_Output streaming) maxPassthroughResponseBytes;
  _ ← ensure (negb (blen body =? 0)) (ErrBackendUnavailable "empty response");
  Ok {| xr_OutputBytes := body; xr_Usage := sr_Usage streaming |}.

#[export] Instance OpenAI_backend : Backend OpenAI :=
  {| Execute := OpenAI_Execute; ExecuteStreaming := OpenAI_ExecuteStreaming |}.
End openai.

(** ** Reading a body *)

(** [io.ReadAll]. *)
Fixpoint ReadAll (reads : list read) : result string bytes :=
  match reads with
  | [] => Ok []
  | r :: rest =>
    match rd_err r with
    | Some ReadEOF => Ok (rd_data r)
    | Some (ReadErr m) => Err m
    | None => tail ← ReadAll rest; Ok (rd_data r ++ tail)
    end
  end.

Lemma read_all_limited reads : ∀ n body,
  blen body < n → ReadAllLimited n reads = Ok body ↔ ReadAll reads = Ok body.
Proof.
  induction reads as [|r reads IH]; intros n body Hn; [done|]. simpl.
  pose proof (blen_nonneg body) as Hb. rewrite (proj2 (Z.leb_gt n 0)) by lia.
  destruct (Z.ltb_spec n (blen (rd_data r))) as [Hlt|Hle].
  - assert (Hne : Ok (take (Z.to_nat n) (rd_data r)) ≠ Ok (E := string) body).
    { intros [= <-]. unfold blen in *. rewrite length_take in Hn. lia. }
    destruct (rd_err r) as [[|m]|]; [|done|]; split; try done.
    + intros [= <-]. lia.
    + intros H. invert_ok. subst body. rewrite blen_app in Hn. pose proof (blen_nonneg x). lia.
  - destruct (rd_err r) as [[|m]|]; [done..|]. split; intros H; invert_ok; subst body; rewrite blen_app in Hn;
      apply (IH (n - blen (rd_data r)) x) in Hx; try lia; by rewrite Hx.
Qed.

(** The limit is exact: what fits is read whole, and nothing is cut off. *)
Lemma readLimitedBody_spec r limit body :
  0 ≤ limit → readLimitedBody r limit = Ok body ↔ ReadAll r = Ok body ∧ blen body ≤ limit.
Proof.
  intros Hl. unfold readLimitedBody. split.
  - destruct (ReadAllLimited _ r) as [b|] eqn:Hr; [|done]. destruct (Z.ltb_spec limit (blen b)); [done|].
    intros [= <-]. split; [|done]. by apply (read_all_limited r (limit + 1)); [lia|].
  - intros [Hr Hb]. apply (read_all_limited r (limit + 1)) in Hr; [|lia]. rewrite Hr.
    by rewrite (proj2 (Z.ltb_ge _ _) Hb).
Qed.

(** ** The OpenAI backend *)

Section theorems.
Context {H : Http} {F : Fmt}.

(** The two ways of executing a task agree: [Execute] succeeds with an output
    exactly when [ExecuteStreaming] succeeds with a reader that ends without an error
    after exactly those bytes, and they are not empty and at most 16 MiB; nothing is
    cut off. *)
Theorem execute_is_streaming (b : OpenAI) task out usage :
  Execute b task = Ok {| xr_OutputBytes := out; xr_Usage := usage |} ↔
  ∃ output, ExecuteStreaming b task = Ok {| sr_Output := output; sr_Usage := usage |} ∧
    ReadAll output = Ok out ∧ 0 < blen out ≤ maxPassthroughResponseBytes.
Proof.
  change (Execute b task) with (OpenAI_Execute b task).
  change (ExecuteStreaming b task) with (OpenAI_ExecuteStreaming b task). unfold OpenAI_Execute. split.
  - intros Hrun. invert_ok. subst.
    match goal with H : readLimitedBody _ _ = Ok _ |- _ => apply readLimitedBody_spec in H as [Hr Hl]; [|done] end.
    destruct x as [output u]. exists output. split_and!; try done.
    bool_to_prop. pose proof (blen_nonneg out). lia.
  - intros (output & -> & Hr & Hpos & Hmax). simpl.
    assert (Hread : readLimitedBody output maxPassthroughResponseBytes = Ok out)
      by (by apply readLimitedBody_spec). rewrite Hread. simpl.
    by rewrite (proj2 (Z.eqb_neq _ _)) by lia.
Qed.

(** *** Errors of the server *)

(** What a status means. *)
Definition upstream_error (statusCode : Z) (text : string) : task_err :=
  if bool_decide (statusCode ∈ [401; 403]) then ErrUnauthenticated text
  else if bool_decide (statusCode = 400) then ErrInvalidTask text
  else ErrBackendUnavailable text.

Definition upstream_text (statusCode : Z) (body : bytes) : string :=
  let msg := TrimSpace (string_of_bytes body) in
  "http " +:+ pretty statusCode +:+ ": " +:+
    if bool_decide (msg = ""%string) then StatusText statusCode else msg.

Lemma trim_length s : blen (bytes_of_string (TrimSpace s)) ≤ blen (bytes_of_string s).
Proof.
  unfold TrimSpace, trim_space, trim_right, trim_left, blen. rewrite bytes_of_string_of_bytes, length_rev.
  pose proof (strip_length is_space2 is_space3 (bytes_of_string s)).
  match goal with |- context [strip ?p ?q (rev ?l)] => pose proof (strip_length p q (rev l)) end.
  rewrite length_rev in *. lia.
Qed.

Lemma status_text_length code : blen (bytes_of_string (StatusText code)) ≤ maxUpstreamErrorMessageBytes.
Proof.
  unfold StatusText. destruct (filter _ _) as [|p l] eqn:Hf; [by vm_compute|].
  assert (Hp : p ∈ filter (λ p, p.1 = code) status_texts) by (rewrite Hf; by left).
  apply list_elem_of_filter in Hp as [_ Hp].
  assert (Hall : Forall (λ p, blen (bytes_of_string p.2) ≤ maxUpstreamErrorMessageBytes) status_texts)
    by (by apply (bool_decide_unpack _); vm_compute).
  rewrite Forall_forall in Hall. by apply Hall.
Qed.

(** A body within the limit is quoted whole: the truncation is never used. *)
Lemma error_from_short code body :
  blen body ≤ maxUpstreamErrorMessageBytes →
  errorFromPassthroughHTTPResponse code body = upstream_error code (upstream_text code body).
Proof.
  intros Hb. unfold errorFromPassthroughHTTPResponse, upstream_error, upstream_text. cbv zeta.
  set (msg := if bool_decide (TrimSpace (string_of_bytes body) = ""%string) then _ else _).
  assert (Hm : blen (bytes_of_string msg) ≤ maxUpstreamErrorMessageBytes).
  { unfold msg. case_bool_decide; [apply status_text_length|]. etrans; [apply trim_length|].
    by rewrite bytes_of_string_of_bytes. }
  rewrite (proj2 (Z.ltb_ge _ _) Hm). case_bool_decide as H1; [done|].
  rewrite (bool_decide_ext (code ∈ [400]) (code = 400)) by apply list_elem_of_singleton.
  case_bool_decide; [done|]. by case_bool_decide.
Qed.

Lemma readLimitedBody_err r limit e :
  readLimitedBody r limit = Err e → ∃ m, e = ErrBackendUnavailable m.
Proof.
  unfold readLimitedBody. destruct (ReadAllLimited _ r); [destruct (_ <? _)|]; intros [= <-]; by eexists.
Qed.

(** An answer of the server outside 200 to 299 becomes an error, and its class is
    the one of its status, with the whole message, exactly while the message has at
    most 1024 bytes; a longer message, like one that cannot be read, hides the status:
    a refused key (401, 403) or a bad request (400) is then reported as a backend that
    is not available. *)
Theorem upstream_error_class (b : OpenAI) task path req resp :
  url_path (t_TaskKind task) = Some path → validatePassthroughTask task = Ok tt →
  newPassthroughRequest b path (t_InputBytes task) = Ok req → http_Do req = Ok resp →
  hp_StatusCode resp < 200 ∨ 300 ≤ hp_StatusCode resp →
  (∀ body, ReadAll (hp_Body resp) = Ok body → blen body ≤ maxUpstreamErrorMessageBytes →
     ExecuteStreaming b task = Err (upstream_error (hp_StatusCode resp) (upstream_text (hp_StatusCode resp) body))) ∧
  ((∀ body, ReadAll (hp_Body resp) = Ok body → maxUpstreamErrorMessageBytes < blen body) →
     ∃ m, ExecuteStreaming b task = Err (ErrBackendUnavailable m)).
Proof.
  intros Hp Hv Hr Hd Hs. change (ExecuteStreaming b task) with (OpenAI_ExecuteStreaming b task).
  unfold OpenAI_ExecuteStreaming. rewrite Hp, Hv. simpl. rewrite Hr. simpl. rewrite Hd.
  assert (Hout : (hp_StatusCode resp <? 200) || (300 <=? hp_StatusCode resp) = true)
    by (apply orb_true_iff; rewrite Z.ltb_lt, Z.leb_le; lia).
  rewrite Hout. split.
  - intros body Hb Hl.
    assert (Hread : readLimitedBody (hp_Body resp) maxUpstreamErrorMessageBytes = Ok body)
      by (by apply readLimitedBody_spec). rewrite Hread. simpl. by rewrite error_from_short.
  - intros Hlong. destruct (readLimitedBody _ _) as [body|e] eqn:Hread; simpl.
    + apply readLimitedBody_spec in Hread as [Ha Hb]; [|done]. apply Hlong in Ha. lia.
    + destruct (readLimitedBody_err _ _ _ Hread) as [m ->]. by exists m.
Qed.
End theorems.

(** ** Planned tasks *)

(** [json.Unmarshal] refuses empty input. *)
Class JsonEmpty (J : JsonLib) : Prop := {
  empty_chat r : parseOpenAIChatCompletionsRequest [] ≠ Ok r;
  empty_responses r : parseOpenAIResponsesRequest [] ≠ Ok r;
}.

(** A task the provider planned (and was paid for) passes the checks of the backend
    unless its model is blank, and its input is the body of the request. *)
Theorem planned_task_forwarded `{TlvLib, J : JsonLib, !JsonEmpty J, Fmt, WireText, Http} cfg policy
    (b : OpenAI) req input task pol model want :
  planTask cfg policy req input = Ok (task, pol, model, want) → TrimSpace model ≠ ""%string →
  validatePassthroughTask task = Ok tt ∧
  ∃ path, url_path (t_TaskKind task) = Some path ∧
    ∀ hreq, newPassthroughRequest b path (t_InputBytes task) = Ok hreq →
      hq_Body hreq = input ∧ hq_URL hreq = ob_baseURL b +:+ path.
Proof.
  intros Hplan Hm. pose proof (planTask_ok _ _ _ _ _ Hplan) as (_ & Hk & Hmod & Hin & _).
  assert (Hparams : t_ParamsBytes task = None ∧ input ≠ [] ∧ is_Some (url_path (t_TaskKind task))).
  { rewrite Hk. unfold planTask in Hplan.
    case_bool_decide as Hk1; [|case_bool_decide as Hk2; [|done]].
    - unfold planOpenAIChatCompletionsV1Task in Hplan. invert_ok.
      destruct (parseOpenAIChatCompletionsRequest input) as [r|] eqn:Hr; [|done].
      split_and!; [by rewrite <-Hplan| |by rewrite Hk1; eexists].
      intros ->. by apply empty_chat in Hr.
    - unfold planOpenAIResponsesV1Task in Hplan. invert_ok.
      destruct (parseOpenAIResponsesRequest input) as [r|] eqn:Hr; [|done].
      split_and!; [by rewrite <-Hplan| |by rewrite Hk2; eexists].
      intros ->. by apply empty_responses in Hr. }
  destruct Hparams as (Hps & Hne & path & Hpath). split.
  - assert (Hl : (blen input =? 0) = false)
      by (destruct input; [done|]; apply Z.eqb_neq; unfold blen; simpl; lia).
    unfold validatePassthroughTask. by rewrite Hmod, bool_decide_eq_false_2, Hps, Hin, Hl by done.
  - exists path. split; [done|]. intros hreq. unfold newPassthroughRequest. destruct (url_error _); [done|].
    intros [= <-]. by rewrite Hin.
Qed.

(** ** Examples *)

Module BackendExamples.
Example base64_hello : base64_decode "aGVsbG8=" = Some (bytes_of_string "hello").
Proof. vm_compute. reflexivity. Qed.
Example base64_refused :
  base64_decode "aGVsbG8" = None ∧ base64_decode "aGV=bG8=" = None ∧ base64_decode "aG!s" = None.
Proof. vm_compute. split_and!; reflexivity. Qed.
Example base_urls :
  normalizeBaseURL "" = "https://api.openai.com/v1"%string ∧
  normalizeBaseURL " http://h:1/v1// " = "http://h:1/v1"%string ∧ normalizeBaseURL "http://h" = "http://h/v1"%string.
Proof. vm_compute. split_and!; reflexivity. Qed.

(** A server that refuses the key, with a long explanation. *)
Definition refusal : Response := {| hp_StatusCode := 401; hp_Body := [MkRead (repeat Byte.x61 1025) None] |}.
#[local] Instance server : Http := {| url_error _ := None; http_Do _ := Ok refusal |}.
#[local] Instance fmt : Fmt := {| fmt_q := id |}.
Definition backend : OpenAI := {| ob_apiKey := "key"; ob_baseURL := "http://h/v1" |}.
Definition task : Task :=
  {| t_TaskKind := "openai.responses.v1"; t_Model := "gpt-5.2"; t_InputBytes := bytes_of_string "{}";
     t_ParamsBytes := None |}.

Lemma upstream_error_class_witness :
  hp_StatusCode refusal = 401 ∧ ∃ m, ExecuteStreaming backend task = Err (ErrBackendUnavailable m).
Proof.
  split; [reflexivity|].
  refine (proj2 (upstream_error_class backend task "/responses"
    {| hq_Method := "POST"; hq_URL := "http://h/v1/responses"; hq_Body := bytes_of_string "{}";
       hq_Header := [("Authorization", "Bearer key"); ("Content-Type", "application/json; charset=utf-8");
                     ("Accept", "*/*")]%string |} refusal _ _ _ _ _) _).
  - reflexivity.
  - vm_compute. reflexivity.
  - vm_compute. reflexivity.
  - reflexivity.
  - right. vm_compute. discriminate.
  - intros body Hb. vm_compute in Hb. injection Hb as <-. vm_compute. reflexivity.
Defined.
End BackendExamples.
