(* ===== verification/Daemon.v ===== *)
(** * The daemon's configuration: [tools/lcpd-grpcd] and [lndpeermsg/config.go]

    How the YAML file and the environment become the provider's configuration, its
    backend, its token policy, its manifest and the connection to lnd.  Reading and
    parsing the file, and the process environment, are parameters. *)

From stdpp Require Import pretty.
From S2P Require Import Prelude GoStd TlvLib Wire WireProofs Stores Replay JobStore PeerDir Terms Pricing Validation Tasks Provider ResultSend Runner ResultProofs Backend.

(** ** The YAML file *)

Record priceTableEntryYAML := {
  yp_InputMsatPerMTok : Z;
  yp_CachedInputMsatPerMTok : option Z;
  yp_OutputMsatPerMTok : Z;
}.

Record modelYAMLConfig := {
  ym_Model : string;
  ym_Profile : string;
  ym_MaxOutputTokens : option Z;
  ym_Price : option priceTableEntryYAML;
}.

Record llmYAMLConfig := {
  yl_MaxOutputTokens : option Z;
  yl_PriceTable : gmap string priceTableEntryYAML;
  yl_Models : gmap string modelYAMLConfig;
  yl_ChatProfiles : gmap string modelYAMLConfig;
}.

(** The surge section has the fields of [InFlightSurgeConfig]. *)
Record providerYAMLConfig := {
  yc_Enabled : option bool;
  yc_QuoteTTLSeconds : option Z;
  yc_SupportedModels : list string;
  yc_SupportedLegacyModels : list string;
  yc_InFlightSurge : InFlightSurgeConfig;
  yc_LLM : llmYAMLConfig;
}.

Definition empty_yaml : providerYAMLConfig :=
  {| yc_Enabled := None; yc_QuoteTTLSeconds := None; yc_SupportedModels := []; yc_SupportedLegacyModels := [];
     yc_InFlightSurge := {| sg_Threshold := 0; sg_PerJobBps := 0; sg_MaxMultiplierBps := 0 |};
     yc_LLM := {| yl_MaxOutputTokens := None; yl_PriceTable := ∅; yl_Models := ∅; yl_ChatProfiles := ∅ |} |}.

(** [os.ReadFile] and [yaml.Unmarshal], with the text of their error; [os.Stat] finds
    a regular file. *)
Class YamlFile := {
  read_yaml : string → result string providerYAMLConfig;
  is_file : string → bool;
}.

(** [for _, x := range xs { s, err = f(s, x) }]. *)
Fixpoint fold_result {E S A} (f : S → A → result E S) (s : S) (xs : list A) : result E S :=
  match xs with
  | [] => Ok s
  | x :: xs' => s' ← f s x; fold_result f s' xs'
  end.

Section config.
Context {Y : YamlFile} {F : Fmt} {RP : MapRange string priceTableEntryYAML}
        {RM : MapRange string modelYAMLConfig} {RC : MapRange string ModelConfig}.

Definition loadProviderYAML (path : string) : result string providerYAMLConfig :=
  if bool_decide (TrimSpace path = ""%string) then Ok empty_yaml else read_yaml path.

Definition priced (model : string) (e : priceTableEntryYAML) : PriceTableEntry :=
  {| pe_Model := model; pe_InputMsatPerMTok := yp_InputMsatPerMTok e;
     pe_CachedInputMsatPerMTok := yp_CachedInputMsatPerMTok e; pe_OutputMsatPerMTok := yp_OutputMsatPerMTok e |}.

(** Both prices are set. *)
Definition has_prices (e : priceTableEntryYAML) : bool :=
  negb ((yp_InputMsatPerMTok e =? 0) || (yp_OutputMsatPerMTok e =? 0)).

(** [(providerYAMLConfig).priceTable]. *)
Definition yamlPriceTable (c : providerYAMLConfig) : result string PriceTable :=
  let prices := yl_PriceTable (yc_LLM c) in
  if bool_decide (prices = ∅) then Ok ∅ else
  fold_result (λ table '(model, entry),
    _ ← ensure (has_prices entry) ("llm.price_table[" +:+ model +:+ "] must set input/output prices");
    Ok (<[model := priced model entry]> table)) ∅ (map_range prices).

Definition resolveModelPrice (model : string) (explicit : option priceTableEntryYAML)
    (legacyPriceTable defaultPriceTable : PriceTable) : result string PriceTableEntry :=
  match explicit with
  | Some e =>
    _ ← ensure (has_prices e) ("llm.models[" +:+ model +:+ "].price must set input/output prices");
    Ok (priced model e)
  | None =>
    match legacyPriceTable !! model, defaultPriceTable !! model with
    | Some entry, _ => Ok entry
    | None, Some entry => Ok entry
    | None, None =>
      Err ("no price configured for model " +:+ fmt_q model +:+ " (set llm.models." +:+ model +:+ ".price)")
    end
  end.

(** The name of a model: its [model], its [profile] or its key. *)
Definition modelName (key : string) (p : modelYAMLConfig) : string :=
  let model := TrimSpace (ym_Model p) in
  let model := if bool_decide (model = ""%string) then TrimSpace (ym_Profile p) else model in
  if bool_decide (model = ""%string) then TrimSpace key else model.

Definition modelsFromYAML (cfg : gmap string modelYAMLConfig) (legacyPriceTable defaultPriceTable : PriceTable) :
    result string (gmap string ModelConfig) :=
  fold_result (λ models '(key, p),
    let model := modelName key p in
    _ ← ensure (negb (bool_decide (model = ""%string))) "llm.models key/model must be non-empty"%string;
    _ ← ensure (bool_decide (models !! model = None))
          ("llm.models defines duplicate model " +:+ fmt_q model);
    _ ← ensure (negb (bool_decide (ym_MaxOutputTokens p = Some 0)))
          ("llm.models[" +:+ model +:+ "].max_output_tokens must be > 0");
    price ← resolveModelPrice model (ym_Price p) legacyPriceTable defaultPriceTable;
    Ok (<[model := {| mc_MaxOutputTokens := ym_MaxOutputTokens p; mc_Price := price |}]> models))
    ∅ (map_range cfg).

Definition modelsFromLegacy (supportedModels : list string) (legacyPriceTable defaultPriceTable : PriceTable) :
    result string (gmap string ModelConfig) :=
  fold_result (λ models raw,
    let model := TrimSpace raw in
    _ ← ensure (negb (bool_decide (model = ""%string))) "supported_models contains an empty model"%string;
    _ ← ensure (bool_decide (models !! model = None))
          ("supported_models contains duplicate model " +:+ fmt_q model);
    price ← resolveModelPrice model None legacyPriceTable defaultPriceTable;
    Ok (<[model := {| mc_MaxOutputTokens := None; mc_Price := price |}]> models))
    ∅ supportedModels.

Definition resolveProviderModels (cfg : providerYAMLConfig) : result string (gmap string ModelConfig) :=
  let models := yl_Models (yc_LLM cfg) in
  let profiles := yl_ChatProfiles (yc_LLM cfg) in
  if negb (bool_decide (models = ∅)) then
    legacy ← yamlPriceTable cfg; modelsFromYAML models legacy DefaultPriceTable
  else if negb (bool_decide (profiles = ∅)) then
    legacy ← yamlPriceTable cfg; modelsFromYAML profiles legacy DefaultPriceTable
  else
    let supported := match yc_SupportedModels cfg with [] => yc_SupportedLegacyModels cfg | ms => ms end in
    match supported with
    | [] =>
      if bool_decide (yl_PriceTable (yc_LLM cfg) = ∅) then Ok ∅
      else Err "llm.price_table is set but no supported models are configured; migrate to llm.models"%string
    | _ => legacy ← yamlPriceTable cfg; modelsFromLegacy supported legacy DefaultPriceTable
    end.

Definition resolveProviderEnabled (enabled : option bool) : bool := default false enabled.
Definition resolveQuoteTTL (ttl : option Z) : Z := default 0 ttl.

Definition llmPolicyFromConfig (maxOutputTokens : Z) : result task_err ExecutionPolicy :=
  NewFixedExecutionPolicy (if maxOutputTokens =? 0 then DefaultMaxOutputTokens else maxOutputTokens).

(** ** Backends *)

Record envConfig := {
  ec_Backend : string;
  ec_OpenAIAPIKey : string;
  ec_OpenAIAPIKeyV0 : string;
  ec_OpenAIBaseURL : string;
  ec_DeterministicB64 : string;
  ec_ProviderConfigPath : string;
}.

(** [strings.ToLower], as far as the result is ASCII: of the other letters only the
    dotted capital I and the Kelvin sign have an ASCII lower case. *)
Fixpoint lower_word (bs : bytes) : bytes :=
  match bs with
  | [] => []
  | Byte.xc4 :: Byte.xb0 :: rest => Byte.x69 :: lower_word rest
  | Byte.xe2 :: Byte.x84 :: Byte.xaa :: rest => Byte.x6b :: lower_word rest
  | b :: rest => lower b :: lower_word rest
  end.

(** A [computebackend.Backend] of one of the three types. *)
Inductive AnyBackend :=
| BackendDisabled (b : Disabled)
| BackendDeterministic (b : Deterministic)
| BackendOpenAI (b : OpenAI).

Definition is_disabled (b : AnyBackend) : bool := match b with BackendDisabled _ => true | _ => false end.

Definition computeBackendFromEnvConfig (decode_error : string → string) (env : envConfig) :
    result string AnyBackend :=
  let kind := string_of_bytes (lower_word (bytes_of_string (TrimSpace (ec_Backend env)))) in
  if bool_decide (kind ∈ [""; "none"; "disabled"]%string) then Ok (BackendDisabled NewDisabled)
  else if bool_decide (kind = "openai"%string) then
    let apiKey := TrimSpace (ec_OpenAIAPIKey env) in
    let apiKey := if bool_decide (apiKey = ""%string) then TrimSpace (ec_OpenAIAPIKeyV0 env) else apiKey in
    match NewOpenAI {| bc_APIKey := apiKey; bc_BaseURL := TrimSpace (ec_OpenAIBaseURL env) |} with
    | Ok b => Ok (BackendOpenAI b)
    | Err e => Err (err_text e)
    end
  else if bool_decide (kind = "deterministic"%string) then
    if bool_decide (ec_DeterministicB64 env = ""%string)
    then Ok (BackendDeterministic (NewDeterministic (bytes_of_string "deterministic-output")))
    else BackendDeterministic <$> NewDeterministicFromBase64 decode_error (ec_DeterministicB64 env)
  else Err ("unknown LCPD_BACKEND: " +:+ fmt_q (ec_Backend env) +:+
            " (supported: disabled, deterministic, openai)").

(** [parseEnvConfig]: the variables are trimmed; without a path, ./config.yaml is
    taken if it is there.  The log level is left out. *)
Definition parseEnvConfig {EN : Environ} : envConfig :=
  let var name := TrimSpace (getenv name) in
  let path := var "LCPD_PROVIDER_CONFIG_PATH"%string in
  {| ec_Backend := var "LCPD_BACKEND"%string; ec_OpenAIAPIKey := var "LCPD_OPENAI_API_KEY"%string;
     ec_OpenAIAPIKeyV0 := var "OPENAI_API_KEY"%string; ec_OpenAIBaseURL := var "LCPD_OPENAI_BASE_URL"%string;
     ec_DeterministicB64 := var "LCPD_DETERMINISTIC_OUTPUT_BASE64"%string;
     ec_ProviderConfigPath :=
       if bool_decide (path = ""%string) && is_file "config.yaml" then "config.yaml"%string else path |}.

(** ** The connection to lnd *)

(** The resend interval is in nanoseconds. *)
Record LndConfig := {
  lc_RPCAddr : string;
  lc_TLSCertPath : string;
  lc_AdminMacaroonPath : string;
  lc_ManifestResendInterval : option Z;
}.

Inductive lnd_err := ErrLNDConnectionNotConfigured | ErrLnd (msg : string).

(** [NewConfigFromEnv]; [interval] is what [envconfig] makes of
    LCPD_LND_MANIFEST_RESEND_INTERVAL. *)
Definition NewConfigFromEnv {EN : Environ} (interval : result string (option Z)) : result lnd_err LndConfig :=
  match interval with
  | Err m => Err (ErrLnd ("process env: " +:+ m))
  | Ok interval =>
    let rpcAddr := TrimSpace (getenv "LCPD_LND_RPC_ADDR") in
    if bool_decide (rpcAddr = ""%string) then Err ErrLNDConnectionNotConfigured else
    let macaroonPath := TrimSpace (getenv "LCPD_LND_ADMIN_MACAROON_PATH") in
    Ok {| lc_RPCAddr := rpcAddr; lc_TLSCertPath := TrimSpace (getenv "LCPD_LND_TLS_CERT_PATH");
          lc_AdminMacaroonPath := if bool_decide (macaroonPath = ""%string)
                                  then TrimSpace (getenv "LCPD_LND_MACAROON_PATH") else macaroonPath;
          lc_ManifestResendInterval := interval |}
  end.

Definition lndConfigFromFlagsOrEnv {EN : Environ} (interval : result string (option Z))
    (lndRPCAddr lndTLSCertPath lndAdminMacaroonPath lndMacaroonPath : string) : result lnd_err LndConfig :=
  let rpcAddr := TrimSpace lndRPCAddr in
  let tlsCertPath := TrimSpace lndTLSCertPath in
  let admin := TrimSpace lndAdminMacaroonPath in
  let macaroonPath := TrimSpace lndMacaroonPath in
  if bool_decide (rpcAddr = ""%string ∧ tlsCertPath = ""%string ∧ admin = ""%string ∧ macaroonPath = ""%string)
  then NewConfigFromEnv interval else
  let admin := if bool_decide (admin = ""%string ∧ macaroonPath ≠ ""%string) then macaroonPath else admin in
  if bool_decide (rpcAddr = ""%string) then Err (ErrLnd "lnd_rpc_addr is required when lnd flags are set")
  else Ok {| lc_RPCAddr := rpcAddr; lc_TLSCertPath := tlsCertPath; lc_AdminMacaroonPath := admin;
             lc_ManifestResendInterval := None |}.

(** ** The provider *)

Definition validateProviderConfig (providerCfg : Config) (backend : AnyBackend) (lndCfg : option LndConfig) :
    result string unit :=
  if negb (cfg_Enabled providerCfg) then Ok tt else
  let surge := cfg_InFlightSurge providerCfg in
  _ ← ensure (bool_decide (is_Some lndCfg))
        "provider enabled but lnd connection is not configured (set LCPD_LND_RPC_ADDR)"%string;
  _ ← ensure (negb (is_disabled backend))
        "provider enabled but compute backend is disabled (set LCPD_BACKEND or disable provider via LCPD_PROVIDER_ENABLED=0)"%string;
  ensure (negb ((0 <? sg_PerJobBps surge) && negb (sg_MaxMultiplierBps surge =? 0) &&
                (sg_MaxMultiplierBps surge <? 10000)))
    ("pricing.in_flight_surge.max_multiplier_bps must be >= 10000, got " +:+ pretty (sg_MaxMultiplierBps surge)).

Section manifest.
Context {T : TlvLib}.

(** The templates of one model; one that cannot be encoded is left out. *)
Definition modelTemplates (modelKey : string) : list TaskTemplate :=
  let model := TrimSpace modelKey in
  if bool_decide (model = ""%string) then [] else
  match EncodeOpenAIChatCompletionsV1Params {| oa_Model := model; oa_Unknown := ∅ |} with
  | Ok ps => [{| tt_TaskKind := "openai.chat_completions.v1"; tt_ParamsBytes := Some ps |}]
  | Err _ => []
  end ++
  match EncodeOpenAIResponsesV1Params {| oa_Model := model; oa_Unknown := ∅ |} with
  | Ok ps => [{| tt_TaskKind := "openai.responses.v1"; tt_ParamsBytes := Some ps |}]
  | Err _ => []
  end.

(** [slices.Sort] of the keys. *)
Definition modelKeys (models : gmap string ModelConfig) : list string :=
  merge_sort PeerDir.string_le (map_range models).*1.

Definition localManifestForProvider (providerCfg : Config) : Manifest :=
  {| mf_ProtocolVersion := ProtocolVersionV02; mf_MaxPayloadBytes := 16384; mf_MaxStreamBytes := 4194304;
     mf_MaxJobBytes := 8388608; mf_MaxInflightJobs := None;
     mf_SupportedTasks :=
       if negb (cfg_Enabled providerCfg) || bool_decide (cfg_Models providerCfg = ∅) then []
       else modelKeys (cfg_Models providerCfg) ≫= modelTemplates |}.

Definition providerRuntime (env : envConfig) (backend : AnyBackend) (lndCfg : option LndConfig) :
    result string (Config * ExecutionPolicy * Manifest) :=
  yaml ← loadProviderYAML (ec_ProviderConfigPath env);
  policy ← match llmPolicyFromConfig (default DefaultMaxOutputTokens (yl_MaxOutputTokens (yc_LLM yaml))) with
           | Ok p => Ok p
           | Err e => Err (err_text e)
           end;
  models ← resolveProviderModels yaml;
  let providerCfg :=
    {| cfg_Enabled := resolveProviderEnabled (yc_Enabled yaml);
       cfg_QuoteTTLSeconds := resolveQuoteTTL (yc_QuoteTTLSeconds yaml);
       cfg_InFlightSurge := yc_InFlightSurge yaml; cfg_Models := models |} in
  _ ← validateProviderConfig providerCfg backend lndCfg;
  Ok (providerCfg, policy, localManifestForProvider providerCfg).
End manifest.
End config.

(** ** Models *)

Section theorems.
Context {F : Fmt}.
Implicit Types (legacy dflt : PriceTable) (models : gmap string ModelConfig).

(** What one entry of the file defines. *)
Definition resolvedModel legacy dflt (x : string * modelYAMLConfig) : option (string * ModelConfig) :=
  let model := modelName x.1 x.2 in
  if bool_decide (model = ""%string) || bool_decide (ym_MaxOutputTokens x.2 = Some 0) then None else
  match resolveModelPrice model (ym_Price x.2) legacy dflt with
  | Ok price => Some (model, {| mc_MaxOutputTokens := ym_MaxOutputTokens x.2; mc_Price := price |})
  | Err _ => None
  end.

(** A loop that inserts distinct entries, or fails. *)
Lemma insert_loop {A} (f : gmap string ModelConfig → A → result string (gmap string ModelConfig))
    (g : A → option (string * ModelConfig)) xs acc models :
  (∀ acc x m, f acc x = Ok m ↔ ∃ e, g x = Some e ∧ acc !! e.1 = None ∧ m = <[e.1 := e.2]> acc) →
  fold_result f acc xs = Ok models ↔
  ∃ es, mapM g xs = Some es ∧ NoDup es.*1 ∧ Forall (λ e, acc !! e.1 = None) es ∧ models = list_to_map es ∪ acc.
Proof.
  intros Hf. revert acc. induction xs as [|x xs IH]; intros acc; cbn [fold_result].
  - split.
    + intros [= <-]. exists []. split_and!; [done|by apply NoDup_nil|done|]. symmetry. apply (left_id_L ∅ (∪)).
    + intros (es & [= <-] & _ & _ & ->). f_equal. symmetry. apply (left_id_L ∅ (∪)).
  - split.
    + intros H. apply bind_ok_inv in H as (acc' & H1 & H). apply Hf in H1 as (e & He & Hnone & ->).
      apply IH in H as (es & Hes & Hnd & Hacc & ->). exists (e :: es). rewrite Forall_forall in Hacc.
      assert (Hfresh : e.1 ∉ es.*1).
      { intros (e' & Heq & Hin)%list_elem_of_fmap. specialize (Hacc e' Hin). by rewrite Heq, lookup_insert_eq in Hacc. }
      split_and!.
      * cbn. by rewrite He, Hes.
      * by apply NoDup_cons.
      * constructor; [done|]. apply Forall_forall. intros e' Hin. specialize (Hacc e' Hin).
        rewrite lookup_insert_ne in Hacc; [done|]. intros Heq. apply Hfresh. rewrite Heq. by apply list_elem_of_fmap_2.
      * destruct e as [k v]. cbn [list_to_map fst snd]. rewrite <-insert_union_r, insert_union_l; [done|].
        by apply not_elem_of_list_to_map.
    + intros (es & Hes & Hnd & Hacc & ->). cbn in Hes. apply bind_Some in Hes as (e & He & Hes).
      apply bind_Some in Hes as (es' & Hes' & [= <-]). apply NoDup_cons in Hnd as [Hfresh Hnd'].
      apply Forall_cons in Hacc as [Hnone Hacc'].
      assert (Hstep : f acc x = Ok (<[e.1 := e.2]> acc)) by (apply Hf; eauto). rewrite Hstep. cbn.
      apply IH. exists es'. split_and!; [done..| |].
      * rewrite Forall_forall in Hacc' |- *. intros e' Hin. rewrite lookup_insert_ne; [by apply Hacc'|].
        intros Heq. apply Hfresh. rewrite Heq. by apply list_elem_of_fmap_2.
      * destruct e as [k v]. cbn [list_to_map fst snd]. rewrite <-insert_union_r, insert_union_l; [done|].
        by apply not_elem_of_list_to_map.
Qed.

Lemma yaml_models {RM : MapRange string modelYAMLConfig} cfg legacy dflt models :
  modelsFromYAML cfg legacy dflt = Ok models ↔
  ∃ es, mapM (resolvedModel legacy dflt) (map_range cfg) = Some es ∧ NoDup es.*1 ∧ models = list_to_map es.
Proof.
  unfold modelsFromYAML. rewrite (insert_loop _ (resolvedModel legacy dflt)).
  - split; intros (es & H1 & H2 & H3); exists es; split_and!; try done.
    + destruct H3 as [_ ->]. apply (right_id_L ∅ (∪)).
    + apply Forall_forall. intros. apply lookup_empty.
    + by rewrite (right_id_L ∅ (∪)).
  - intros acc [key p] m. unfold resolvedModel. cbn [fst snd]. split.
    + intros H. invert_ok. bool_to_prop. rewrite !bool_decide_eq_false_2 by done. cbn [orb].
      match goal with H : resolveModelPrice _ _ _ _ = Ok _ |- _ => rewrite H end. by eexists.
    + destruct (bool_decide (modelName key p = ""%string)); [by intros (? & ? & _)|].
      destruct (bool_decide (ym_MaxOutputTokens p = Some 0)); [by intros (? & ? & _)|].
      destruct (resolveModelPrice _ _ _ _) as [price|]; [|by intros (? & ? & _)].
      intros (e & [= <-] & Hnone & ->). cbn in *. by rewrite bool_decide_eq_true_2.
Qed.

Lemma mapM_perm {A B} (g : A → option B) xs ys es :
  xs ≡ₚ ys → mapM g xs = Some es → ∃ es', mapM g ys = Some es' ∧ es ≡ₚ es'.
Proof.
  intros Hp Hm. apply mapM_Some in Hm. destruct (Permutation_Forall2 Hp Hm) as (es' & Hp' & Hm').
  exists es'. split; [by apply mapM_Some|done].
Qed.

(** The models do not depend on the order in which Go ranges over the map of the
    file: with any two orders [modelsFromYAML] succeeds with the same models, or fails
    with both. *)
Theorem models_order_independent (R1 R2 : MapRange string modelYAMLConfig) cfg legacy dflt models :
  @modelsFromYAML F R1 cfg legacy dflt = Ok models ↔ @modelsFromYAML F R2 cfg legacy dflt = Ok models.
Proof.
  assert (Himp : ∀ (R1 R2 : MapRange string modelYAMLConfig),
    @modelsFromYAML F R1 cfg legacy dflt = Ok models → @modelsFromYAML F R2 cfg legacy dflt = Ok models);
    [|split; apply Himp].
  intros Ra Rb (es & Hm & Hnd & ->)%yaml_models. apply yaml_models.
  assert (Hp : @map_range _ _ _ _ Ra cfg ≡ₚ @map_range _ _ _ _ Rb cfg)
    by (etrans; [apply map_range_perm|symmetry; apply map_range_perm]).
  destruct (mapM_perm _ _ _ _ Hp Hm) as (es' & Hm' & Hp'). exists es'.
  assert (Hkeys : es.*1 ≡ₚ es'.*1) by by rewrite Hp'.
  split_and!; [done|by rewrite <-Hkeys|by apply list_to_map_proper].
Qed.

(** *** What is configured *)

(** The widths of the file's fields. *)
Definition wf_price (e : priceTableEntryYAML) : Prop :=
  is_u64 (yp_InputMsatPerMTok e) ∧ is_u64 (yp_OutputMsatPerMTok e) ∧ wf_opt is_u64 (yp_CachedInputMsatPerMTok e).
Definition wf_model (p : modelYAMLConfig) : Prop :=
  wf_opt is_u32 (ym_MaxOutputTokens p) ∧ wf_opt wf_price (ym_Price p).
Definition wf_yaml (y : providerYAMLConfig) : Prop :=
  wf_opt is_u32 (yl_MaxOutputTokens (yc_LLM y)) ∧ map_Forall (λ _, wf_price) (yl_PriceTable (yc_LLM y)) ∧
  map_Forall (λ _, wf_model) (yl_Models (yc_LLM y)) ∧ map_Forall (λ _, wf_model) (yl_ChatProfiles (yc_LLM y)).
Class YamlWidths (Y : YamlFile) : Prop := yaml_widths path y : read_yaml path = Ok y → wf_yaml y.

(** A price that is set. *)
Definition price_ok (model : string) (e : PriceTableEntry) : Prop :=
  pe_Model e = model ∧ 0 < pe_InputMsatPerMTok e ∧ 0 < pe_OutputMsatPerMTok e ∧
  0 ≤ default (pe_InputMsatPerMTok e) (pe_CachedInputMsatPerMTok e).
(** A model with a trimmed name, a limit that is not zero and a price. *)
Definition model_ok (model : string) (c : ModelConfig) : Prop :=
  model ≠ ""%string ∧ TrimSpace model = model ∧ mc_MaxOutputTokens c ≠ Some 0 ∧
  wf_opt is_u32 (mc_MaxOutputTokens c) ∧ price_ok model (mc_Price c).

Lemma fold_result_inv {E S A} (P : S → Prop) (f : S → A → result E S) xs s s' :
  (∀ s x s', x ∈ xs → P s → f s x = Ok s' → P s') → P s → fold_result f s xs = Ok s' → P s'.
Proof.
  revert s. induction xs as [|x xs IH]; intros s Hf Hs H; cbn in H; [by injection H as <-|].
  apply bind_ok_inv in H as (s1 & H1 & H). eapply IH; [|by eapply Hf; [left|..]|done].
  intros ? ? ? Hx. apply Hf. by right.
Qed.

Lemma priced_ok model e : wf_price e → has_prices e = true → price_ok model (priced model e).
Proof.
  intros (H1 & H2 & H3) [Hi Ho]%negb_true_iff%orb_false_iff. apply Z.eqb_neq in Hi, Ho.
  unfold is_u64, is_uint in *. unfold price_ok, priced. cbn.
  destruct (yp_CachedInputMsatPerMTok e); cbn in *; unfold is_u64, is_uint in *; split_and!; lia || done.
Qed.

Lemma elem_of_range {V} {R : MapRange string V} (m : gmap string V) k v : (k, v) ∈ map_range m → m !! k = Some v.
Proof. rewrite map_range_perm. apply elem_of_map_to_list. Qed.

Lemma default_prices_ok : map_Forall price_ok DefaultPriceTable.
Proof. apply map_Forall_singleton. by vm_compute. Qed.

Lemma yaml_prices_ok {RP : MapRange string priceTableEntryYAML} c table :
  map_Forall (λ _, wf_price) (yl_PriceTable (yc_LLM c)) → yamlPriceTable c = Ok table → map_Forall price_ok table.
Proof.
  intros Hw. unfold yamlPriceTable. case_bool_decide; [by intros [= <-]|].
  apply fold_result_inv; [|done]. intros s [model e] s' Hin Hs Hstep. invert_ok. subst s'.
  apply map_Forall_insert_2; [|done]. apply priced_ok; [|done]. by eapply (Hw model), elem_of_range.
Qed.

Lemma resolved_price_ok model explicit legacy price :
  wf_opt wf_price explicit → map_Forall price_ok legacy →
  resolveModelPrice model explicit legacy DefaultPriceTable = Ok price → price_ok model price.
Proof.
  intros He Hl. unfold resolveModelPrice. destruct explicit as [e|].
  - intros H. invert_ok. subst price. by apply priced_ok.
  - destruct (legacy !! model) as [entry|] eqn:Hm; [intros [= <-]; by apply Hl|].
    destruct (DefaultPriceTable !! model) as [entry|] eqn:Hd; [|done]. intros [= <-].
    by apply default_prices_ok.
Qed.

Lemma modelName_trimmed key p : TrimSpace (modelName key p) = modelName key p.
Proof. unfold modelName. repeat case_bool_decide; apply TrimSpace_idemp. Qed.

Lemma yaml_models_ok {RM : MapRange string modelYAMLConfig} cfg legacy models :
  map_Forall (λ _, wf_model) cfg → map_Forall price_ok legacy →
  modelsFromYAML cfg legacy DefaultPriceTable = Ok models → map_Forall model_ok models.
Proof.
  intros Hw Hl. apply fold_result_inv; [|done]. intros s [key p] s' Hin Hs Hstep. cbv zeta in Hstep. invert_ok. subst s'.
  apply elem_of_range, Hw in Hin as [Hmax Hprice]. bool_to_prop.
  apply map_Forall_insert_2; [|done]. split_and!; cbn; try done; [apply modelName_trimmed|].
  by eapply resolved_price_ok.
Qed.

Lemma legacy_models_ok supported legacy models :
  map_Forall price_ok legacy →
  modelsFromLegacy supported legacy DefaultPriceTable = Ok models → map_Forall model_ok models.
Proof.
  intros Hl. apply fold_result_inv; [|done]. intros s raw s' Hin Hs Hstep. cbv zeta in Hstep. invert_ok. subst s'. bool_to_prop.
  apply map_Forall_insert_2; [|done]. split_and!; cbn; try done; [apply TrimSpace_idemp|].
  by eapply (resolved_price_ok _ None).
Qed.

Lemma provider_models_ok {RP : MapRange string priceTableEntryYAML} {RM : MapRange string modelYAMLConfig} y models :
  wf_yaml y → resolveProviderModels y = Ok models → map_Forall model_ok models.
Proof.
  intros (_ & Hp & Hm & Hc). unfold resolveProviderModels.
  destruct (bool_decide (yl_Models _ = ∅)); cbn [negb].
  - destruct (bool_decide (yl_ChatProfiles _ = ∅)); cbn [negb].
    + destruct (match yc_SupportedModels y with [] => _ | _ => _ end).
      * case_bool_decide; [by intros [= <-]|done].
      * intros H. invert_ok. eapply legacy_models_ok; [by eapply yaml_prices_ok|done].
    + intros H. invert_ok. exact (yaml_models_ok _ _ _ Hc (yaml_prices_ok _ _ Hp Hx) H).
  - intros H. invert_ok. exact (yaml_models_ok _ _ _ Hm (yaml_prices_ok _ _ Hp Hx) H).
Qed.

(** ** The running provider *)

Section runtime.
Context {T : TlvLib} {Y : YamlFile} {YW : YamlWidths Y} {RP : MapRange string priceTableEntryYAML}
        {RM : MapRange string modelYAMLConfig} {RC : MapRange string ModelConfig}.

Lemma runtime_inv env backend lnd cfg policy m :
  providerRuntime env backend lnd = Ok (cfg, policy, m) →
  ∃ y, wf_yaml y ∧ resolveProviderModels y = Ok (cfg_Models cfg) ∧
    llmPolicyFromConfig (default DefaultMaxOutputTokens (yl_MaxOutputTokens (yc_LLM y))) = Ok policy ∧
    validateProviderConfig cfg backend lnd = Ok tt ∧ m = localManifestForProvider cfg.
Proof using YW.
  unfold providerRuntime. intros H. invert_ok. subst.
  match goal with H : match ?p with Ok _ => _ | Err _ => _ end = Ok _ |- _ =>
    destruct p as [pol|] eqn:Hpol; [injection H as ->|done] end.
  match goal with H : validateProviderConfig _ _ _ = Ok ?u |- _ => destruct u end.
  match goal with H : loadProviderYAML _ = Ok ?y |- _ => exists y; unfold loadProviderYAML in H end.
  split_and!; try done. case_bool_decide; [|by eapply yaml_widths]. simplify_eq.
  split_and!; [done|apply map_Forall_empty..].
Qed.

Lemma models_priced cfg :
  map_Forall model_ok (cfg_Models cfg) → map_Forall price_ok (priceTable cfg).
Proof.
  intros Hm. unfold priceTable. case_bool_decide; [apply default_prices_ok|].
  intros model e He. rewrite map_lookup_imap in He. apply bind_Some in He as (c & Hc & [= <-]).
  destruct (Hm _ _ Hc) as (_ & _ & _ & _ & Hp & Hrest). by split.
Qed.

(** A provider that starts is well configured: the connection to lnd and a backend
    are there when it is enabled, the surge multiplier is not capped below 1, the
    policy allows output, every model has a trimmed name, a limit that is not zero and
    positive prices under its own name, and hence the configuration has the widths
    that pricing relies on. *)
Theorem started_config_ok env backend lnd cfg policy m :
  providerRuntime env backend lnd = Ok (cfg, policy, m) →
  (cfg_Enabled cfg = true → is_Some lnd ∧ is_disabled backend = false ∧
     (0 < sg_PerJobBps (cfg_InFlightSurge cfg) →
      sg_MaxMultiplierBps (cfg_InFlightSurge cfg) = 0 ∨ 10000 ≤ sg_MaxMultiplierBps (cfg_InFlightSurge cfg))) ∧
  map_Forall model_ok (cfg_Models cfg) ∧ 0 < ep_MaxOutputTokens policy ∧ wf_config cfg policy.
Proof using YW.
  intros (y & Hw & Hmods & Hpol & Hval & _)%runtime_inv.
  pose proof (provider_models_ok y _ Hw Hmods) as Hm.
  assert (Hp : is_u32 (ep_MaxOutputTokens policy) ∧ 0 < ep_MaxOutputTokens policy).
  { destruct Hw as [Hmax _]. unfold llmPolicyFromConfig, NewFixedExecutionPolicy in Hpol. invert_ok. subst policy.
    cbn. destruct (yl_MaxOutputTokens (yc_LLM y)) as [n|]; cbn in *; [|by vm_compute].
    destruct (Z.eqb_spec n 0); [by vm_compute|]. unfold is_uint in *. split; lia. }
  split_and!; [|done|apply Hp|].
  - intros Hen. unfold validateProviderConfig in Hval. rewrite Hen in Hval. cbn [negb] in Hval. cbv zeta in Hval.
    invert_ok. bool_to_prop. split_and!; [done..|]. intros Hpos. rewrite (proj2 (Z.ltb_lt _ _) Hpos) in Hval.
    cbn [andb] in Hval. destruct (Z.eqb_spec (sg_MaxMultiplierBps (cfg_InFlightSurge cfg)) 0); [by left|right].
    cbn in Hval. destruct (Z.ltb_spec (sg_MaxMultiplierBps (cfg_InFlightSurge cfg)) 10000); [done|lia].
  - split_and!; [apply Hp| |].
    + intros model c Hc. destruct (Hm _ _ Hc) as (_ & _ & _ & Hmax & _). by destruct (mc_MaxOutputTokens c).
    + intros model e He. destruct (models_priced _ Hm _ _ He) as (_ & Hi & Ho & Hcache). split_and!; lia.
Qed.

(** *** The manifest *)

Context {L : TlvLaws T} {W : WireText} {E : ProviderEnv}.

Lemma modelTemplates_inv t model :
  TrimSpace model = model → t ∈ modelTemplates model →
  ∃ ps, EncodeOpenAIParams {| oa_Model := model; oa_Unknown := ∅ |} = Ok ps ∧
    tt_ParamsBytes t = Some ps ∧ openai_kind (tt_TaskKind t).
Proof.
  intros Htrim. unfold modelTemplates. rewrite Htrim. cbv zeta. case_bool_decide; [by intros ?%not_elem_of_nil|].
  unfold EncodeOpenAIChatCompletionsV1Params, EncodeOpenAIResponsesV1Params.
  destruct (EncodeOpenAIParams _) as [ps|]; [|by intros ?%not_elem_of_nil]. cbn [app]. rewrite !elem_of_cons.
  intros [->|[->|[]%not_elem_of_nil]]; exists ps; (split; [done|]); (split; [done|]); [by left|by right].
Qed.

Lemma encoded_params_decode model ps :
  blen (bytes_of_string model) ≤ max_record_size →
  EncodeOpenAIParams {| oa_Model := model; oa_Unknown := ∅ |} = Ok ps →
  DecodeOpenAIParams ps = Ok {| oa_Model := model; oa_Unknown := ∅ |}.
Proof using L.
  intros Hl Henc. pose proof Henc as Hval. unfold EncodeOpenAIParams, validateUTF8String in Hval. cbn in Hval.
  invert_ok. bool_to_prop. by apply Tasks.params_decode.
Qed.

(** A valid request for a configured model. *)
Lemma configured_request_accepted cfg req ps model c peer s :
  openai_kind (qr_TaskKind req) → qr_ParamsBytes req = Some ps →
  DecodeOpenAIParams ps = Ok {| oa_Model := model; oa_Unknown := ∅ |} → cfg_Models cfg !! model = Some c →
  env_ProtocolVersion (qr_Envelope req) = ProtocolVersionV02 →
  ValidateQuoteRequest DefaultValidator req None = None ∧
  rejectQuoteRequestIfUnsupportedModel cfg peer req s = (s, false).
Proof.
  intros Hk Hps Hdec Hc Hv. split.
  - unfold ValidateQuoteRequest, validateTaskParams, DecodeOpenAIChatCompletionsV1Params, DecodeOpenAIResponsesV1Params.
    rewrite Hv, Hps, Hdec. by destruct Hk as [-> | ->]; vm_compute.
  - unfold rejectQuoteRequestIfUnsupportedModel, DecodeOpenAIChatCompletionsV1Params, DecodeOpenAIResponsesV1Params.
    rewrite Hps, Hdec. cbv zeta.
    rewrite (bool_decide_eq_false_2 (cfg_Models cfg = ∅)) by (intros He; by rewrite He, lookup_empty in Hc).
    set (chat := bool_decide (qr_TaskKind req = _)). set (resp := bool_decide (qr_TaskKind req = _)).
    assert (Hor : chat || resp = true)
      by (apply orb_true_iff; unfold chat, resp; rewrite !bool_decide_eq_true; done).
    rewrite Hor. cbn [negb]. destruct chat; cbn [oa_Model]; by rewrite Hc.
Qed.

(** What a provider that starts advertises it also accepts: every template of its
    manifest is for a configured model, and a quote request with the kind and the
    params of the template passes the validation of requests, is not rejected for its
    model, and has a positive price per token.  (Model names have at most 65535 bytes.) *)
Theorem advertised_is_accepted env backend lnd cfg policy m t req peer s :
  providerRuntime env backend lnd = Ok (cfg, policy, m) →
  (∀ model, is_Some (cfg_Models cfg !! model) → blen (bytes_of_string model) ≤ max_record_size) →
  t ∈ mf_SupportedTasks m →
  qr_TaskKind req = tt_TaskKind t → qr_ParamsBytes req = tt_ParamsBytes t →
  env_ProtocolVersion (qr_Envelope req) = ProtocolVersionV02 →
  cfg_Enabled cfg = true ∧ is_Some (cfg_Models cfg !! modelFromRequest req) ∧
  ValidateQuoteRequest DefaultValidator req None = None ∧
  rejectQuoteRequestIfUnsupportedModel cfg peer req s = (s, false) ∧
  ∃ price, priceTable cfg !! modelFromRequest req = Some price ∧
    0 < pe_InputMsatPerMTok price ∧ 0 < pe_OutputMsatPerMTok price.
Proof using YW L.
  intros (y & Hw & Hmods & _ & _ & ->)%runtime_inv Hsize Ht Hk Hps Hv.
  pose proof (provider_models_ok y _ Hw Hmods) as Hm. cbn [mf_SupportedTasks localManifestForProvider] in Ht.
  destruct (cfg_Enabled cfg); cbn [negb orb] in Ht; [|by apply not_elem_of_nil in Ht].
  case_bool_decide as Hne; [by apply not_elem_of_nil in Ht|].
  apply list_elem_of_bind in Ht as (model & Ht & Hin). unfold modelKeys in Hin. rewrite merge_sort_Permutation in Hin.
  apply list_elem_of_fmap in Hin as ([k c] & Hmodel & Hin). cbn in Hmodel. subst k.
  apply elem_of_range in Hin. destruct (Hm _ _ Hin) as (Hnonempty & Htrim & _ & _ & _ & Hi & Ho & _).
  destruct (modelTemplates_inv t model Htrim Ht) as (ps & Henc & Htps & Htk).
  rewrite Htps in Hps. rewrite <-Hk in Htk.
  pose proof (encoded_params_decode _ _ (Hsize model (mk_is_Some _ _ Hin)) Henc) as Hdec.
  assert (Hmr : modelFromRequest req = model).
  { unfold modelFromRequest, DecodeOpenAIChatCompletionsV1Params, DecodeOpenAIResponsesV1Params. rewrite Hps, Hdec.
    by destruct Htk as [-> | ->]. }
  rewrite Hmr. split_and!; [done|by eexists| | |].
  - eapply (configured_request_accepted cfg req ps model c peer s); done.
  - eapply (configured_request_accepted cfg req ps model c peer s); done.
  - unfold priceTable. rewrite bool_decide_eq_false_2 by done. rewrite map_lookup_imap, Hin.
    eexists. split; [done|]. cbn. done.
Qed.
End runtime.

(** Without configured models only the model of the default price table is quoted. *)
Theorem unconfigured_models_unpriced {T : TlvLib} {J : JsonLib} {W : WireText} cfg policy inFlight req input p :
  cfg_Models cfg = ∅ → quotePrice cfg policy inFlight req input = Ok p → modelFromRequest req = "gpt-5.2"%string.
Proof.
  intros Hne H. unfold quotePrice in H. apply bind_ok_inv in H as ([[[task pol] model] want] & Hplan & H).
  pose proof (planTask_ok _ _ _ _ _ Hplan) as (_ & _ & _ & _ & -> & _).
  invert_ok. unfold QuotePrice, priceFromTokens, priceTable in *. rewrite bool_decide_eq_true_2 in * by done.
  invert_ok.
  match goal with H : DefaultPriceTable !! _ = Some _ |- _ =>
    unfold DefaultPriceTable in H; apply lookup_singleton_Some in H as [<- _] end. done.
Qed.
End theorems.

(** ** Examples *)

Module DaemonExamples.
#[local] Instance tlv : TlvLib := bolt_tlv.
#[local] Instance text : WireText := λ _, "wire error"%string.
#[local] Instance fmt : Fmt := {| fmt_q := id |}.
#[local] Instance rp : MapRange string priceTableEntryYAML := canonical_range.
#[local] Instance rm : MapRange string modelYAMLConfig := canonical_range.
#[local] Instance rc : MapRange string ModelConfig := canonical_range.
#[local] Instance no_environ : Environ := λ _, ""%string.
#[local] Instance world : ProviderEnv :=
  {| env_clock _ := 0; env_rand _ := None; env_send _ := false; env_invoice _ _ := None |}.

(** Two models, one of them with the default price. *)
Definition price : priceTableEntryYAML :=
  {| yp_InputMsatPerMTok := 5; yp_CachedInputMsatPerMTok := None; yp_OutputMsatPerMTok := 7 |}.
Definition yaml : providerYAMLConfig :=
  {| yc_Enabled := Some true; yc_QuoteTTLSeconds := Some 60; yc_SupportedModels := [];
     yc_SupportedLegacyModels := [];
     yc_InFlightSurge := {| sg_Threshold := 1; sg_PerJobBps := 500; sg_MaxMultiplierBps := 20000 |};
     yc_LLM := {| yl_MaxOutputTokens := Some 0; yl_PriceTable := ∅; yl_ChatProfiles := ∅;
       yl_Models := <["gpt-5.2" := {| ym_Model := ""; ym_Profile := ""; ym_MaxOutputTokens := Some 100; ym_Price := None |}]>
         {["x" := {| ym_Model := " llama "; ym_Profile := ""; ym_MaxOutputTokens := None; ym_Price := Some price |}]} |} |}%string.
#[local] Instance file : YamlFile := {| read_yaml _ := Ok yaml; is_file _ := true |}.
#[local] Instance file_widths : YamlWidths file.
Proof.
  intros path y [= <-]. split_and!; [by vm_compute|apply map_Forall_empty| |apply map_Forall_empty].
  cbn. repeat apply map_Forall_insert_2; [by vm_compute|by vm_compute|apply map_Forall_empty].
Qed.

Definition env : envConfig :=
  {| ec_Backend := "deterministic"; ec_OpenAIAPIKey := ""; ec_OpenAIAPIKeyV0 := ""; ec_OpenAIBaseURL := "";
     ec_DeterministicB64 := ""; ec_ProviderConfigPath := "config.yaml" |}.
Definition backend : AnyBackend := BackendDeterministic (NewDeterministic (bytes_of_string "deterministic-output")).
Definition lnd : LndConfig :=
  {| lc_RPCAddr := "h:1"; lc_TLSCertPath := ""; lc_AdminMacaroonPath := ""; lc_ManifestResendInterval := None |}.

Example env_backend : computeBackendFromEnvConfig (λ _, ""%string) env = Ok backend.
Proof. vm_compute. reflexivity. Qed.
Example unknown_backend : ∃ e, computeBackendFromEnvConfig (λ _, ""%string)
  {| ec_Backend := "gpu"; ec_OpenAIAPIKey := ""; ec_OpenAIAPIKeyV0 := ""; ec_OpenAIBaseURL := "";
     ec_DeterministicB64 := ""; ec_ProviderConfigPath := "" |} = Err e.
Proof. eexists. vm_compute. reflexivity. Qed.

Definition no_config : Config * ExecutionPolicy * Manifest :=
  ({| cfg_Enabled := false; cfg_QuoteTTLSeconds := 0; cfg_InFlightSurge := yc_InFlightSurge yaml; cfg_Models := ∅ |},
   {| ep_MaxOutputTokens := 0 |},
   {| mf_ProtocolVersion := 0; mf_MaxPayloadBytes := 0; mf_MaxStreamBytes := 0; mf_MaxJobBytes := 0;
      mf_MaxInflightJobs := None; mf_SupportedTasks := [] |}).
Definition started : Config * ExecutionPolicy * Manifest := Eval vm_compute in
  match providerRuntime env backend (Some lnd) with Ok r => r | Err _ => no_config end.
Definition cfg : Config := started.1.1.
Definition policy : ExecutionPolicy := started.1.2.
Definition manifest : Manifest := started.2.

Lemma it_starts : providerRuntime env backend (Some lnd) = Ok (cfg, policy, manifest).
Proof. vm_compute. reflexivity. Qed.

Lemma started_config_ok_witness :
  (cfg_Enabled cfg = true → is_Some (Some lnd) ∧ is_disabled backend = false ∧
     (0 < sg_PerJobBps (cfg_InFlightSurge cfg) →
      sg_MaxMultiplierBps (cfg_InFlightSurge cfg) = 0 ∨ 10000 ≤ sg_MaxMultiplierBps (cfg_InFlightSurge cfg))) ∧
  map_Forall model_ok (cfg_Models cfg) ∧ 0 < ep_MaxOutputTokens policy ∧ wf_config cfg policy.
Proof. apply (started_config_ok env backend (Some lnd) cfg policy manifest it_starts). Defined.

(** The request for the responses of "llama", as its template says. *)
Definition template : TaskTemplate := Eval vm_compute in
  default {| tt_TaskKind := ""; tt_ParamsBytes := None |} (mf_SupportedTasks manifest !! 3%nat).
Definition request : QuoteRequest :=
  {| qr_Envelope := {| env_ProtocolVersion := 2; env_JobID := []; env_MsgID := []; env_Expiry := 0 |};
     qr_TaskKind := tt_TaskKind template; qr_ParamsBytes := tt_ParamsBytes template |}.

Lemma advertised_is_accepted_witness :
  modelFromRequest request = "llama"%string ∧
  cfg_Enabled cfg = true ∧ is_Some (cfg_Models cfg !! modelFromRequest request) ∧
  ValidateQuoteRequest DefaultValidator request None = None ∧
  rejectQuoteRequestIfUnsupportedModel cfg "02aa" request (initial 0) = (initial 0, false) ∧
  ∃ p, priceTable cfg !! modelFromRequest request = Some p ∧
    0 < pe_InputMsatPerMTok p ∧ 0 < pe_OutputMsatPerMTok p.
Proof.
  split; [vm_compute; reflexivity|].
  apply (advertised_is_accepted env backend (Some lnd) cfg policy manifest template request "02aa" (initial 0) it_starts).
  - intros model [c Hc]. assert (Hin : (model, c) ∈ map_to_list (cfg_Models cfg)) by by apply elem_of_map_to_list.
    vm_compute in Hin. repeat (apply elem_of_cons in Hin as [Hin|Hin]; [injection Hin as -> _; vm_compute; discriminate|]).
    by apply not_elem_of_nil in Hin.
  - apply list_elem_of_lookup. exists 3%nat. vm_compute. reflexivity.
  - reflexivity.
  - reflexivity.
  - reflexivity.
Defined.
End DaemonExamples.
