(* ===== verification/PeerLoops.v ===== *)
(** * [lndpeermsg/peermsg.go]: the loops of [PeerMessaging] and their lifecycle

    The start hook, the two subscription loops, the periodic resend and the stop hook
    run concurrently and share the connection, the client and the context of the run.
    Each is a program counter; an event lets one of them take its next step, with lnd's
    answer to the call it makes.  The handlers of [PeerMsg.v] are one step. *)

From S2P Require Import Prelude GoStd TlvLib Wire PeerDir PeerMsg Daemon.

Module PeerLoops.

(** ** State *)

Inductive subscription := PeerEvents | CustomMessages.
#[export] Instance subscription_eq_dec : EqDecision subscription.
Proof. solve_decision. Defined.

(** A subscription loop: at the test of its context, at the call of [Subscribe], in the
    back-off, in [Recv], returned; a call through a nil client panics. *)
Inductive loop_pc := LNone | LTop | LSubscribe | LSleep | LRecv | LDone | LPanic.
#[export] Instance loop_pc_eq_dec : EqDecision loop_pc.
Proof. solve_decision. Defined.

(** The start hook: not called, connected, waiting for the two subscriptions, returned. *)
Inductive start_pc := SNone | SRefresh | SWaitPeerEvents | SWaitCustomMessages | SReturned (ok : bool).
#[export] Instance start_pc_eq_dec : EqDecision start_pc.
Proof. solve_decision. Defined.

(** The stop hook: not called, in its [select], returned. *)
Inductive stop_pc := TNone | TWait | TReturned (ok : bool).
#[export] Instance stop_pc_eq_dec : EqDecision stop_pc.
Proof. solve_decision. Defined.

(** [runCancel] and [client] are nil or not; [ctxCancelled] and [connOpen] are the state
    of the context and of the connection behind [runCancel] and [conn]. *)
Record Messaging := MkMessaging {
  ms_runCancel : bool;
  ms_ctxCancelled : bool;
  ms_client : bool;
  ms_connOpen : bool;
  ms_peerEventsReady : bool;
  ms_customMessagesReady : bool;
  ms_start : start_pc;
  ms_stop : stop_pc;
  ms_peerEvents : loop_pc;
  ms_customMessages : loop_pc;
  ms_resend : loop_pc;
  ms_pm : PeerMessaging;
  ms_acts : list action;
}.

Definition init (pm : PeerMessaging) : Messaging :=
  MkMessaging false false false false false false SNone TNone LNone LNone LNone pm [].

Definition loop (w : subscription) (s : Messaging) : loop_pc :=
  match w with PeerEvents => ms_peerEvents s | CustomMessages => ms_customMessages s end.
Definition ready (w : subscription) (s : Messaging) : bool :=
  match w with PeerEvents => ms_peerEventsReady s | CustomMessages => ms_customMessagesReady s end.

Definition set_loop (w : subscription) (pc : loop_pc) (s : Messaging) : Messaging :=
  let 'MkMessaging rc cc cl co pr cr st sp pe cm rs pm acts := s in
  match w with
  | PeerEvents => MkMessaging rc cc cl co pr cr st sp pc cm rs pm acts
  | CustomMessages => MkMessaging rc cc cl co pr cr st sp pe pc rs pm acts
  end.
Definition set_resend (pc : loop_pc) (s : Messaging) : Messaging :=
  let 'MkMessaging rc cc cl co pr cr st sp pe cm _ pm acts := s in
  MkMessaging rc cc cl co pr cr st sp pe cm pc pm acts.
Definition set_start (pc : start_pc) (s : Messaging) : Messaging :=
  let 'MkMessaging rc cc cl co pr cr _ sp pe cm rs pm acts := s in
  MkMessaging rc cc cl co pr cr pc sp pe cm rs pm acts.
Definition set_stop (pc : stop_pc) (s : Messaging) : Messaging :=
  let 'MkMessaging rc cc cl co pr cr st _ pe cm rs pm acts := s in
  MkMessaging rc cc cl co pr cr st pc pe cm rs pm acts.
Definition set_ready (w : subscription) (s : Messaging) : Messaging :=
  let 'MkMessaging rc cc cl co pr cr st sp pe cm rs pm acts := s in
  match w with
  | PeerEvents => MkMessaging rc cc cl co true cr st sp pe cm rs pm acts
  | CustomMessages => MkMessaging rc cc cl co pr true st sp pe cm rs pm acts
  end.
(** The connection, the context and the client are set, and closed and unset. *)
Definition connected (s : Messaging) : Messaging :=
  let 'MkMessaging _ _ _ _ pr cr st sp pe cm rs pm acts := s in
  MkMessaging true false true true pr cr st sp pe cm rs pm acts.
Definition cancelled (s : Messaging) : Messaging :=
  let 'MkMessaging rc _ cl co pr cr st sp pe cm rs pm acts := s in
  MkMessaging rc true cl co pr cr st sp pe cm rs pm acts.
Definition unset (s : Messaging) : Messaging :=
  let 'MkMessaging _ cc _ _ pr cr st sp pe cm rs pm acts := s in
  MkMessaging false cc false false pr cr st sp pe cm rs pm acts.
(** A handler ran. *)
Definition handled (r : PeerMessaging * list action) (s : Messaging) : Messaging :=
  let 'MkMessaging rc cc cl co pr cr st sp pe cm rs _ acts := s in
  MkMessaging rc cc cl co pr cr st sp pe cm rs r.1 (acts ++ r.2).

(** ** The calls *)

(** An error of [Recv]. *)
Inductive recv_err := RecvCanceled | RecvEOF | RecvOther.
Definition isStreamTerminalError (err : option recv_err) : bool :=
  match err with Some RecvCanceled | Some RecvEOF => true | Some RecvOther | None => false end.

(** lnd's answers: to [dial], to a subscription, and what [Recv] returns. *)
Inductive received :=
| GotEvent (lnd : Lnd) (ev : option PeerEvent)
| GotMessage (lnd : Lnd) (msg : option LndMessage)
| GotError (err : recv_err).

Inductive levent :=
| EvStart (dialed : bool)
| EvRefresh (lnd : Lnd)
| EvReady
| EvStartCtx
| EvLoop (w : subscription)
| EvSubscribe (w : subscription) (ok : bool)
| EvRecv (w : subscription) (r : received)
| EvTick (lnd : Lnd)
| EvTickDone
| EvStop
| EvStopped
| EvStopCtx.

(** The calls on the client that an event of a loop makes. *)
Definition calls_lnd (a : action) : bool :=
  match a with ASend _ _ _ _ _ | ADisconnect _ => true | ADispatch _ => false end.
Definition refreshes (ev : option PeerEvent) : bool :=
  match ev with
  | Some e => negb (bool_decide (stringsTrim (ev_PubKey e) = ""%string)) &&
              match ev_Type e with PEER_ONLINE => true | PEER_OFFLINE => false end
  | None => false
  end.

Section lifecycle.
Context {T : TlvLib} {RA : MapRange string string} {RP : MapRange string PeerDir.Peer}.
(** [p.cfg]. *)
Context (cfg : option LndConfig).

Definition disabled : bool :=
  match cfg with Some c => bool_decide (stringsTrim (lc_RPCAddr c) = ""%string) | None => true end.

(** No interval, and a negative one, disable the resend. *)
Definition manifestResendInterval : Z :=
  Z.max 0 (default 0 (c ← cfg; lc_ManifestResendInterval c)).

(** [p.cleanupConn(cancel, conn)]. *)
Definition cleanupConn (s : Messaging) : Messaging := unset (cancelled s).

(** The start hook after the refresh: the goroutines. *)
Definition spawn (s : Messaging) : Messaging :=
  let s := if 0 <? manifestResendInterval then set_resend LTop s else s in
  set_loop CustomMessages LTop (set_loop PeerEvents LTop s).

Definition startStep (e : levent) (s : Messaging) : Messaging :=
  match ms_start s, e with
  | SNone, EvStart dialed =>
    if disabled then set_start (SReturned true) s
    else if dialed then set_start SRefresh (connected s)
    else set_start (SReturned false) s
  | SRefresh, EvRefresh lnd =>
    let r := refreshPeers lnd (ms_pm s) in
    if r.2 then
      set_start SWaitPeerEvents (spawn (handled (sendManifestToConnectedPeersOnce lnd r.1) s))
    else set_start (SReturned false) (cleanupConn (handled (r.1, []) s))
  | SWaitPeerEvents, EvReady =>
    if ms_peerEventsReady s then set_start SWaitCustomMessages s else s
  | SWaitCustomMessages, EvReady =>
    if ms_customMessagesReady s then set_start (SReturned true) s else s
  | SWaitPeerEvents, EvStartCtx | SWaitCustomMessages, EvStartCtx =>
    set_start (SReturned false) (cleanupConn s)
  | _, _ => s
  end.

(** One handler call, unless it needs a client that is nil. *)
Definition handleOne (w : subscription) (needs : bool) (r : PeerMessaging * list action) (s : Messaging) : Messaging :=
  if (needs || existsb calls_lnd r.2) && negb (ms_client s) then set_loop w LPanic s else handled r s.

(** [peerEventsLoop] and [customMessagesLoop]. *)
Definition loopStep (w : subscription) (e : levent) (s : Messaging) : Messaging :=
  match loop w s, e with
  | LTop, EvLoop _ => set_loop w (if ms_ctxCancelled s then LDone else LSubscribe) s
  | LSubscribe, EvSubscribe _ ok =>
    if negb (ms_client s) then set_loop w LPanic s
    else if ok then set_loop w LRecv (set_ready w s) else set_loop w LSleep s
  | LSleep, EvLoop _ => set_loop w LTop s
  | LRecv, EvRecv _ (GotError err) =>
    set_loop w (if isStreamTerminalError (Some err) || ms_ctxCancelled s then LDone else LTop) s
  | LRecv, EvRecv PeerEvents (GotEvent lnd ev) =>
    handleOne w (refreshes ev) (HandlePeerEvent lnd ev (ms_pm s)) s
  | LRecv, EvRecv CustomMessages (GotMessage lnd msg) =>
    handleOne w false (HandleCustomMessage lnd msg (ms_pm s)) s
  | _, _ => s
  end.

(** [manifestResendLoopWithTicks]. *)
Definition resendStep (e : levent) (s : Messaging) : Messaging :=
  match ms_resend s, e with
  | LTop, EvTick lnd =>
    let r := sendManifestToConnectedPeers lnd (ms_pm s) in
    if existsb calls_lnd r.2 && negb (ms_client s) then set_resend LPanic s else handled r s
  | LTop, EvTickDone => if ms_ctxCancelled s then set_resend LDone s else s
  | _, _ => s
  end.

(** [p.wg.Wait()] returns when every goroutine that was started has. *)
Definition ended (pc : loop_pc) : bool := match pc with LNone | LDone => true | _ => false end.
Definition waited (s : Messaging) : bool :=
  ended (ms_peerEvents s) && ended (ms_customMessages s) && ended (ms_resend s).

(** fx calls the stop hook only if the start hook succeeded. *)
Definition stopStep (e : levent) (s : Messaging) : Messaging :=
  match ms_stop s, e with
  | TNone, EvStop =>
    if bool_decide (ms_start s = SReturned true)
    then set_stop TWait (if ms_runCancel s then cancelled s else s) else s
  | TWait, EvStopped => if waited s then set_stop (TReturned true) (unset s) else s
  | TWait, EvStopCtx => set_stop (TReturned false) s
  | _, _ => s
  end.

Definition lstep (s : Messaging) (e : levent) : Messaging :=
  match e with
  | EvStart _ | EvRefresh _ | EvReady | EvStartCtx => startStep e s
  | EvLoop w | EvSubscribe w _ | EvRecv w _ => loopStep w e s
  | EvTick _ | EvTickDone => resendStep e s
  | EvStop | EvStopped | EvStopCtx => stopStep e s
  end.
Definition lrun (evs : list levent) (s : Messaging) : Messaging := fold_left lstep evs s.

(** ** The invariant *)

Definition loops (s : Messaging) : list loop_pc := [ms_peerEvents s; ms_customMessages s; ms_resend s].
Definition idle (s : Messaging) : Prop := Forall (λ pc, pc = LNone) (loops s).
Definition no_panic (s : Messaging) : Prop := Forall (λ pc, pc ≠ LPanic) (loops s).

(** The connection is up, is being given up, is closed. *)
Definition up (s : Messaging) : Prop :=
  ms_runCancel s = true ∧ ms_client s = true ∧ ms_connOpen s = true ∧ ms_ctxCancelled s = false.
Definition stopping (s : Messaging) : Prop :=
  ms_runCancel s = true ∧ ms_client s = true ∧ ms_connOpen s = true ∧ ms_ctxCancelled s = true.
Definition down (s : Messaging) : Prop :=
  ms_runCancel s = false ∧ ms_client s = false ∧ ms_connOpen s = false.

Definition inv (s : Messaging) : Prop :=
  match ms_start s with
  | SNone => down s ∧ ms_ctxCancelled s = false ∧ idle s ∧ ms_stop s = TNone
  | SRefresh => disabled = false ∧ up s ∧ idle s ∧ ms_stop s = TNone
  | SWaitPeerEvents => disabled = false ∧ up s ∧ no_panic s ∧ ms_stop s = TNone
  | SWaitCustomMessages => disabled = false ∧ up s ∧ no_panic s ∧ ms_peerEventsReady s = true ∧ ms_stop s = TNone
  | SReturned true =>
    if disabled then down s ∧ idle s else
    no_panic s ∧ ms_peerEventsReady s = true ∧ ms_customMessagesReady s = true ∧
    match ms_stop s with
    | TNone => up s
    | TWait | TReturned false => stopping s
    | TReturned true => down s ∧ waited s = true
    end
  | SReturned false => down s ∧ ms_stop s = TNone ∧ (idle s ∨ ms_ctxCancelled s = true)
  end.

(** What a loop may change. *)
Record loop_frame (s s' : Messaging) : Prop := {
  lf_runCancel : ms_runCancel s' = ms_runCancel s;
  lf_ctx : ms_ctxCancelled s' = ms_ctxCancelled s;
  lf_client : ms_client s' = ms_client s;
  lf_conn : ms_connOpen s' = ms_connOpen s;
  lf_start : ms_start s' = ms_start s;
  lf_stop : ms_stop s' = ms_stop s;
  lf_peerReady : ms_peerEventsReady s = true → ms_peerEventsReady s' = true;
  lf_msgReady : ms_customMessagesReady s = true → ms_customMessagesReady s' = true;
  lf_idle : idle s → idle s';
  lf_waited : waited s = true → waited s' = true;
  lf_panic : ms_client s = true → no_panic s → no_panic s';
}.

Lemma frame_id s : loop_frame s s.
Proof. by split. Qed.
Lemma frame_handled r s : loop_frame s (handled r s).
Proof. by destruct s; split. Qed.
Lemma frame_loop w pc s :
  loop w s ≠ LNone → ended (loop w s) = false → (pc = LPanic → ms_client s = false) → loop_frame s (set_loop w pc s).
Proof.
  destruct s, w; cbn; intros H1 H2 H3; split; unfold idle, waited, no_panic, loops; cbn; try done;
    rewrite ?Forall_cons, ?andb_true_iff; naive_solver congruence.
Qed.
Lemma frame_resend pc s :
  ms_resend s = LTop → (pc = LPanic → ms_client s = false) → loop_frame s (set_resend pc s).
Proof.
  destruct s; cbn; intros -> H; split; unfold idle, waited, no_panic, loops; cbn; try done;
    rewrite ?Forall_cons, ?andb_true_iff; naive_solver congruence.
Qed.
Lemma frame_ready w pc s :
  loop w s ≠ LNone → ended (loop w s) = false → pc ≠ LPanic → loop_frame s (set_loop w pc (set_ready w s)).
Proof.
  destruct s, w; cbn; intros H1 H2 H3; split; unfold idle, waited, no_panic, loops; cbn; try done;
    rewrite ?Forall_cons, ?andb_true_iff; naive_solver congruence.
Qed.

Lemma frame_handleOne w needs r s :
  loop w s = LRecv → loop_frame s (handleOne w needs r s).
Proof.
  intros Hw. unfold handleOne. destruct (_ && _) eqn:Hb; [|apply frame_handled].
  apply andb_true_iff in Hb as [_ Hc]. apply frame_loop; try by rewrite Hw. intros _. by destruct (ms_client s).
Qed.

Lemma loopStep_frame w e s : loop_frame s (loopStep w e s).
Proof.
  unfold loopStep. destruct (loop w s) eqn:Hw; try apply frame_id.
  - destruct e; try apply frame_id. apply frame_loop; rewrite ?Hw; try done. by case_match.
  - destruct e; try apply frame_id. destruct (negb (ms_client s)) eqn:Hc.
    + apply frame_loop; rewrite ?Hw; try done. by destruct (ms_client s).
    + destruct ok; [by apply frame_ready; rewrite ?Hw|by apply frame_loop; rewrite ?Hw].
  - destruct e; try apply frame_id. by apply frame_loop; rewrite ?Hw.
  - destruct e as [| | | | | |w' []| | | | |]; try apply frame_id.
    + destruct w'; [by apply frame_handleOne|apply frame_id].
    + destruct w'; [apply frame_id|by apply frame_handleOne].
    + destruct w'; (apply frame_loop; rewrite ?Hw; [done..|]); by case_match.
Qed.

Lemma resendStep_frame e s : loop_frame s (resendStep e s).
Proof.
  unfold resendStep. destruct (ms_resend s) eqn:Hr; try apply frame_id. destruct e; try apply frame_id.
  - cbv zeta. destruct (_ && _) eqn:Hb; [|apply frame_handled]. apply andb_true_iff in Hb as [_ Hc].
    apply frame_resend; [done|]. by destruct (ms_client s).
  - case_match; [|apply frame_id]. by apply frame_resend.
Qed.

Lemma waited_no_panic s : waited s = true → no_panic s.
Proof.
  unfold waited, no_panic, loops. rewrite !andb_true_iff, !Forall_cons.
  destruct (ms_peerEvents s), (ms_customMessages s), (ms_resend s); naive_solver.
Qed.

Lemma inv_frame s s' : loop_frame s s' → inv s → inv s'.
Proof.
  intros [H1 H2 H3 H4 H5 H6 H7 H8 H9 H10 H11]. unfold inv, up, stopping, down. rewrite H5, H1, H2, H3, H4, H6.
  destruct (ms_start s) as [| | | |[]].
  - intros (? & ? & ? & ?). auto.
  - intros (? & ? & ? & ?). auto.
  - intros (? & (? & ? & ? & ?) & ? & ?). auto 10.
  - intros (? & (? & ? & ? & ?) & ? & ? & ?). auto 10.
  - destruct disabled; [intros [? ?]; auto|]. intros (Hn & Hp & Hm & Hs).
    destruct (ms_stop s) as [| |[]]; [destruct Hs as (? & ? & ?); auto 10..| |destruct Hs as (? & ? & ?); auto 10].
    destruct Hs as [? Hw%H10]. pose proof (waited_no_panic _ Hw). auto 10.
  - intros (? & ? & [?|?]); auto.
Qed.

Lemma inv_start e s : inv s → inv (startStep e s).
Proof.
  intros Hi. unfold startStep. destruct (ms_start s) as [| | | |b] eqn:Hs; try done.
  - destruct e; try done. unfold inv in *. rewrite Hs in Hi. destruct s; cbn in *.
    destruct disabled eqn:Hd; cbn; rewrite ?Hd; [naive_solver|]. destruct dialed; cbn; unfold up, down in *; naive_solver.
  - destruct e; try done. unfold inv in Hi. rewrite Hs in Hi. cbv zeta.
    destruct (refreshPeers lnd (ms_pm s)).2; destruct s; unfold spawn; cbn in *; unfold up, down, idle, loops in *; cbn in *.
    + destruct (0 <? manifestResendInterval); cbn; unfold inv, up, no_panic, loops; cbn;
        rewrite !Forall_cons in *; naive_solver.
    + unfold inv, down; cbn. naive_solver.
  - destruct e; try done; unfold inv in *; rewrite ?Hs in *.
    + destruct (ms_peerEventsReady s) eqn:Hp; [|by rewrite Hs]. destruct s; cbn in *. naive_solver.
    + destruct s; cbn in *. unfold down. cbn. naive_solver.
  - destruct e; try done; unfold inv in *; rewrite ?Hs in *.
    + destruct (ms_customMessagesReady s) eqn:Hp; [|by rewrite Hs]. destruct s; cbn in *.
      destruct disabled eqn:Hd; naive_solver.
    + destruct s; cbn in *. unfold down. cbn. naive_solver.
Qed.

Lemma inv_stop e s : inv s → inv (stopStep e s).
Proof.
  intros Hi. unfold stopStep. destruct (ms_stop s) as [| |b] eqn:Ht; try done; destruct e; try done.
  - case_bool_decide as Hs; [|done]. unfold inv in *. rewrite Hs, Ht in Hi. destruct s; cbn in *. subst.
    destruct disabled eqn:Hd.
    + destruct Hi as [(Hr & ? & ?) ?]. cbn in *. subst. done.
    + destruct Hi as (? & ? & ? & Hu). pose proof Hu as (Hr & ? & ? & ?). cbn in *. subst. done.
  - destruct (waited s) eqn:Hw; [|done]. unfold inv in *. rewrite Ht in Hi.
    destruct s as [? ? ? ? ? ? st]; cbn in *. destruct st as [| | | |[]]; try naive_solver.
    destruct disabled; [by destruct Hi|]. destruct Hi as (? & ? & ? & _). by split_and!.
  - unfold inv in *. rewrite Ht in Hi. destruct s as [? ? ? ? ? ? st]; cbn in *.
    destruct st as [| | | |[]]; naive_solver.
Qed.

Lemma inv_step e s : inv s → inv (lstep s e).
Proof.
  intros Hi. destruct e; cbn [lstep]; try (by apply inv_start); try (by apply inv_stop);
    (eapply inv_frame; [|exact Hi]; first [apply loopStep_frame|apply resendStep_frame]).
Qed.

Lemma inv_run evs s : inv s → inv (lrun evs s).
Proof. unfold lrun. revert s. induction evs as [|e evs IH]; intros s Hs; [done|]. by apply IH, inv_step. Qed.

Lemma inv_init pm : inv (init pm).
Proof. unfold inv, down, idle, loops. cbn. by rewrite !Forall_cons. Qed.

(** ** After the loops *)

Lemma ended_fixed w e s : ended (loop w s) = true → loopStep w e s = s.
Proof. unfold loopStep. by destruct (loop w s). Qed.

Lemma stopped_fixed s e :
  ms_start s = SReturned true → ms_stop s = TReturned true → waited s = true → lstep s e = s.
Proof.
  intros Hs Ht Hw. unfold waited in Hw. rewrite !andb_true_iff in Hw. destruct Hw as [[H1 H2] H3].
  destruct e; cbn [lstep]; try (unfold startStep; by rewrite Hs); try (unfold stopStep; by rewrite Ht);
    try (apply ended_fixed; by destruct w); unfold resendStep; by destruct (ms_resend s).
Qed.

Lemma stopped_run s evs :
  ms_start s = SReturned true → ms_stop s = TReturned true → waited s = true → lrun evs s = s.
Proof.
  intros Hs Ht Hw. induction evs as [|e evs IH]; [done|]. cbn. by rewrite stopped_fixed.
Qed.

(** ** Theorems *)

(** C31: the lifecycle of the peer messaging is sound, in every interleaving of its
    hooks, its loops and lnd's answers: as long as the start hook has not failed, no
    loop calls lnd through a nil client; when the start hook returns successfully (and
    lnd is configured) both subscriptions have been established, and until the stop hook
    is called the connection is open and the context of the loops alive; when the stop
    hook returns successfully the loops have returned and the connection is closed, and
    whatever happens afterwards, no handler runs any more. *)
Theorem lifecycle_sound evs pm (s := lrun evs (init pm)) :
  (ms_start s ≠ SReturned false → no_panic s) ∧
  (ms_start s = SReturned true → disabled = false →
     ms_peerEventsReady s = true ∧ ms_customMessagesReady s = true ∧ (ms_stop s = TNone → up s)) ∧
  (ms_stop s = TReturned true → ms_connOpen s = false ∧ waited s = true ∧ ∀ evs', lrun evs' s = s).
Proof.
  assert (Hi : inv s) by apply inv_run, inv_init. unfold inv in Hi.
  assert (Hidle : idle s → no_panic s ∧ waited s = true).
  { unfold idle, no_panic, waited, loops. rewrite !Forall_cons. intros (-> & -> & -> & _). by split; [repeat constructor|]. }
  split_and!.
  - intros Hs. destruct (ms_start s) as [| | | |[]]; [by apply Hidle, Hi..|by apply Hi|by apply Hi| |done].
    destruct disabled; [by apply Hidle, Hi|apply Hi].
  - intros Hs Hd. rewrite Hs, Hd in Hi. destruct Hi as (_ & ? & ? & Hstop). split_and!; try done.
    intros Ht. by rewrite Ht in Hstop.
  - intros Ht. rewrite Ht in Hi.
    assert (Hs : ms_start s = SReturned true) by (destruct (ms_start s) as [| | | |[]]; naive_solver).
    rewrite Hs in Hi. assert (Hw : down s ∧ waited s = true).
    { destruct disabled; [|by apply Hi]. destruct Hi as [? ?%Hidle]. naive_solver. }
    split_and!; [apply Hw|apply Hw|]. intros evs'. apply stopped_run; [done..|apply Hw].
Qed.

(** How far a loop is from its end once its context is cancelled. *)
Definition distance (pc : loop_pc) : nat :=
  match pc with LSubscribe => 3 | LSleep => 2 | LTop | LRecv => 1 | LNone | LDone | LPanic => 0 end.

(** The next step of a loop, with lnd's answer: a subscription made or refused, an error
    of the stream. *)
Definition own_step (w : subscription) (s : Messaging) (e : levent) : Prop :=
  match loop w s with
  | LTop | LSleep => e = EvLoop w
  | LSubscribe => ∃ ok, e = EvSubscribe w ok
  | LRecv => ∃ err, e = EvRecv w (GotError err)
  | LNone | LDone | LPanic => False
  end.

Lemma loop_set w w' pc s : loop w' (set_loop w pc s) = if decide (w' = w) then pc else loop w' s.
Proof. by destruct s, w, w'. Qed.
Lemma loop_ready w w' s : loop w' (set_ready w s) = loop w' s.
Proof. by destruct s, w, w'. Qed.
Lemma loop_handled w r s : loop w (handled r s) = loop w s.
Proof. by destruct s, w. Qed.

Lemma other_loop w w' e s : w' ≠ w → loop w' (loopStep w e s) = loop w' s.
Proof.
  intros Hne. unfold loopStep, handleOne. repeat case_match; rewrite ?loop_set, ?loop_ready, ?loop_handled;
    rewrite ?decide_False by done; done.
Qed.

Lemma resend_loop w e s : loop w (resendStep e s) = loop w s.
Proof. unfold resendStep. destruct s, w; cbn; repeat case_match; done. Qed.

(** The loop an event belongs to. *)
Definition event_loop (e : levent) : option subscription :=
  match e with EvLoop w | EvSubscribe w _ | EvRecv w _ => Some w | _ => None end.

Lemma other_step w e s :
  ms_start s = SReturned true → event_loop e ≠ Some w → loop w (lstep s e) = loop w s.
Proof.
  intros Hs He. destruct e; cbn [lstep event_loop] in *; try (apply other_loop; congruence);
    try apply resend_loop; try (unfold startStep; by rewrite Hs);
    unfold stopStep; destruct s, w; cbn; repeat case_match; done.
Qed.

Lemma step_started s e : ms_start s = SReturned true → ms_start (lstep s e) = SReturned true.
Proof.
  intros Hs. destruct e; cbn [lstep]; try (by rewrite (lf_start _ _ (loopStep_frame _ _ _)));
    try (by rewrite (lf_start _ _ (resendStep_frame _ _))); try (unfold startStep; by rewrite Hs).
  all: unfold stopStep; destruct s; cbn in *; repeat case_match; done.
Qed.

(** A started loop has not panicked, and has a client until it has ended. *)
Lemma started_loops s w :
  inv s → ms_start s = SReturned true →
  loop w s ≠ LPanic ∧ (ended (loop w s) = false → ms_client s = true).
Proof.
  intros Hi Hs. unfold inv in Hi. rewrite Hs in Hi.
  assert (Hp : no_panic s → loop w s ≠ LPanic) by (unfold no_panic, loops; rewrite !Forall_cons; destruct w; naive_solver).
  destruct disabled.
  - destruct Hi as [_ Hi]. unfold idle, loops in Hi. rewrite !Forall_cons in Hi.
    destruct Hi as (H1 & H2 & _). destruct w; cbn; rewrite ?H1, ?H2; done.
  - destruct Hi as (Hn & _ & _ & Hi). split; [auto|]. destruct (ms_stop s) as [| |[]]; try (by intros; apply Hi).
    destruct Hi as [_ Hi]. unfold waited in Hi. rewrite !andb_true_iff in Hi. destruct w; cbn; naive_solver congruence.
Qed.

Lemma loopStep_closer w e s :
  event_loop e = Some w → ms_ctxCancelled s = true → loop w s ≠ LPanic → (ended (loop w s) = false → ms_client s = true) →
  (distance (loop w (lstep s e)) ≤ distance (loop w s))%nat ∧
  (own_step w s e → (distance (loop w (lstep s e)) < distance (loop w s))%nat).
Proof.
  intros He Hc Hnp Hcl. assert (Hl : lstep s e = loopStep w e s) by (destruct e; try done; by injection He as ->).
  rewrite Hl. clear Hl. unfold own_step, loopStep. rewrite Hc.
  destruct (loop w s) eqn:Hw; rewrite ?(Hcl eq_refl); clear Hcl;
    destruct e as [| | | |w'|w' ok|w' r| | | | |]; try done; injection He as ->;
    try (rewrite Hw; split; [done|naive_solver]).
  - rewrite loop_set, decide_True by done. split; simpl; lia.
  - cbn [negb]. destruct ok; rewrite !loop_set, decide_True by done; split; simpl; lia.
  - rewrite loop_set, decide_True by done. split; simpl; lia.
  - assert (Hh : ∀ needs x, (distance (loop w (handleOne w needs x s)) ≤ 1)%nat).
    { intros needs x. unfold handleOne. case_match; rewrite ?loop_set, ?loop_handled, ?Hw; simpl; [|lia]. case_match; simpl; lia. }
    destruct r as [lnd ev|lnd msg|err].
    + split; [|naive_solver]. destruct w; [apply Hh|by rewrite Hw].
    + split; [|naive_solver]. destruct w; [by rewrite Hw|apply Hh].
    + rewrite orb_true_r. destruct w; rewrite loop_set, decide_True by done; split; simpl; lia.
Qed.


(** A stream that lnd ends is not opened again.  After an [io.EOF] of one of its
    streams the loop has returned: nothing that happens later makes it subscribe again,
    and what lnd would send is not handled any more, although the start hook succeeded
    and the connection is open; any other error makes it subscribe again. *)
Theorem ended_stream_is_final evs pm w (s := lrun evs (init pm)) :
  ms_start s = SReturned true → ms_ctxCancelled s = false → loop w s = LRecv →
  let s' := lstep s (EvRecv w (GotError RecvEOF)) in
  loop w s' = LDone ∧
  (∀ evs', loop w (lrun evs' s') = LDone ∧ ∀ r, lstep (lrun evs' s') (EvRecv w r) = lrun evs' s') ∧
  loop w (lstep s (EvRecv w (GotError RecvOther))) = LTop.
Proof.
  intros Hs Hc Hw s'.
  assert (Hd : loop w s' = LDone).
  { subst s'. cbn [lstep]. unfold loopStep. rewrite Hw. destruct w; by rewrite loop_set, decide_True. }
  assert (Hs' : ms_start s' = SReturned true) by (subst s'; cbn [lstep]; by rewrite (lf_start _ _ (loopStep_frame _ _ _))).
  split_and!; [done| |].
  - intros evs'. assert (Hl : loop w (lrun evs' s') = LDone).
    { revert Hd Hs'. generalize s'. clear. unfold lrun. induction evs' as [|e evs' IH]; intros s Hd Hs; [done|]. cbn.
      apply IH; [|by rewrite step_started]. destruct (decide (event_loop e = Some w)) as [He|He];
        [|by rewrite other_step]. destruct e; try done; injection He as ->; cbn [lstep]; by rewrite ended_fixed by by rewrite Hd. }
    split; [done|]. intros r. cbn [lstep]. apply ended_fixed. by rewrite Hl.
  - cbn [lstep]. unfold loopStep. rewrite Hw, Hc. destruct w; by rewrite loop_set, decide_True.
Qed.

(** A loop is about to subscribe when the context of the start hook ends. *)
Definition race (lnd : Lnd) : list levent :=
  [EvStart true; EvRefresh lnd; EvLoop PeerEvents; EvStartCtx; EvSubscribe PeerEvents true].

(** A failed start can crash the daemon.  [cleanupConn] sets the client to nil
    without waiting for the loops: when the context of the start hook ends between a
    loop's test of its own context and its call of [Subscribe], that call goes through a
    nil client. *)
Theorem failed_start_race pm lnd ps :
  disabled = false → lnd_ListPeers lnd = Some ps →
  let s := lrun (race lnd) (init pm) in
  ms_start s = SReturned false ∧ loop PeerEvents s = LPanic.
Proof.
  intros Hd Hl. cbn zeta.
  assert (H1 : lstep (init pm) (EvStart true) = set_start SRefresh (connected (init pm))).
  { unfold lstep, startStep. cbn [init ms_start]. by rewrite Hd. }
  assert (H2 : ∃ r, lstep (set_start SRefresh (connected (init pm))) (EvRefresh lnd) =
    set_start SWaitPeerEvents (spawn (handled r (set_start SRefresh (connected (init pm)))))).
  { eexists. unfold lstep, startStep. cbn [init set_start connected ms_start ms_pm]. unfold refreshPeers. by rewrite Hl. }
  destruct H2 as [r H2]. unfold race, lrun. cbn [fold_left]. rewrite H1, H2.
  unfold spawn. by destruct (0 <? manifestResendInterval).
Qed.
End lifecycle.

(** ** A daemon that is started and stopped *)

Module PeerLoopsExamples.
Import PeerMsgExamples.
#[local] Instance tlv : TlvLib := bolt_tlv.
#[local] Instance ra : MapRange string string := canonical_range.
#[local] Instance rp : MapRange string PeerDir.Peer := canonical_range.

Definition cfg : option LndConfig :=
  Some {| lc_RPCAddr := "127.0.0.1:10009"; lc_TLSCertPath := ""; lc_AdminMacaroonPath := "";
          lc_ManifestResendInterval := Some 30 |}.

(** Both loops subscribe, a manifest arrives, the daemon is stopped. *)
Definition started : list levent :=
  [EvStart true; EvRefresh lnd; EvLoop CustomMessages; EvLoop PeerEvents; EvSubscribe PeerEvents false;
   EvSubscribe CustomMessages true; EvRecv CustomMessages (GotMessage lnd (Some greet)); EvLoop PeerEvents;
   EvLoop PeerEvents; EvSubscribe PeerEvents true; EvReady; EvReady].
Definition stopped : list levent :=
  started ++ [EvStop; EvRecv PeerEvents (GotError RecvOther); EvStopped;
              EvRecv CustomMessages (GotError RecvCanceled); EvTick lnd; EvTickDone; EvStopped].

Example greeted : length (ms_acts (lrun cfg started (init pm0))) = 1%nat ∧
  ms_stop (lrun cfg stopped (init pm0)) = TReturned true.
Proof. vm_compute. done. Qed.

Lemma lifecycle_sound_witness :
  no_panic (lrun cfg started (init pm0)) ∧ up (lrun cfg started (init pm0)) ∧
  ∀ evs', lrun cfg evs' (lrun cfg stopped (init pm0)) = lrun cfg stopped (init pm0).
Proof.
  destruct (lifecycle_sound cfg started pm0) as (H1 & H2 & _).
  destruct (lifecycle_sound cfg stopped pm0) as (_ & _ & H3).
  split_and!; [apply H1; vm_compute; discriminate|apply H2; vm_compute; reflexivity|apply H3; vm_compute; reflexivity].
Defined.

Definition stopping_events : list levent := started ++ [EvStop].

Lemma ended_stream_is_final_witness :
  let s := lrun cfg started (init pm0) in
  let s' := lstep cfg s (EvRecv CustomMessages (GotError RecvEOF)) in
  loop CustomMessages s' = LDone ∧
  (∀ evs', loop CustomMessages (lrun cfg evs' s') = LDone ∧
     ∀ r, lstep cfg (lrun cfg evs' s') (EvRecv CustomMessages r) = lrun cfg evs' s') ∧
  loop CustomMessages (lstep cfg s (EvRecv CustomMessages (GotError RecvOther))) = LTop.
Proof. apply (ended_stream_is_final cfg started pm0 CustomMessages); vm_compute; reflexivity. Defined.

Lemma failed_start_race_witness :
  let s := lrun cfg (race lnd) (init pm0) in ms_start s = SReturned false ∧ loop PeerEvents s = LPanic.
Proof. apply (failed_start_race cfg pm0 lnd []); vm_compute; reflexivity. Defined.
End PeerLoopsExamples.
End PeerLoops.
