(* ===== verification/RequesterExamples.v ===== *)
(** * A complete exchange

    The requester runs against the run of the provider in [ProviderExamples]: it gets
    the provider's quote, pays it and receives the provider's result.  The witnesses
    of the theorems about the requester are taken from this run. *)

From S2P Require Import Prelude GoStd TlvLib Wire WireProofs Stores Replay JobStore PeerDir Terms Pricing Validation Tasks Lightning Provider ResultSend Runner ResultProofs ProviderInv ProviderSafety ProviderTheorems ReqJobStore Waiter WaiterInv WaiterRoute Requester RequesterRun RequesterLogic RequesterSafety RequesterTheorems RequesterCalls InputSend Composition.

Module RequesterExamples.
Import ProviderExamples.

#[local] Instance tlv : TlvLib := bolt_tlv.
#[local] Instance no_environ : Environ := λ _, ""%string.
#[local] Instance rq : MapRange ReqJobStore.key JobEntryT := canonical_range.
#[local] Instance rp : MapRange string PeerDir.Peer := canonical_range.
#[local] Instance rz : MapRange Z bytes := canonical_range.
#[local] Instance text : WireText := λ _, "wire error"%string.
#[local] Instance terms_error : TermsText := λ _, "terms error"%string.
#[local] Instance task_json : Tasks.TaskJson :=
  {| Tasks.json_chat _ := Ok ("gpt-5.2", [[Byte.x7b; Byte.x7d]])%string;
     Tasks.json_responses _ := Err "unused"%string |}.
#[local] Instance no_validator : Validator :=
  {| pv_list := None; pv_info := None; pv_quote _ := None; pv_accept _ := None; pv_stream _ := None;
     pv_cancel _ := None |}.
#[local] Instance world : RequesterEnv :=
  {| q_clock _ := now * ns_per_sec; q_rand _ := Some jobID; q_send _ := None; q_ctx _ := None;
     q_stream _ := None |}.

Definition provider : string := "03bb".

(** The provider's messages. *)
Definition sent (n : nat) : bytes :=
  match events !! n with Some (OSent _ _ payload _) => payload | _ => [] end.
Definition quote_payload : bytes := Eval vm_compute in sent 1.
Definition result_payloads : list (Z * bytes) := Eval vm_compute in
  [(MessageTypeStreamBegin, sent 4); (MessageTypeStreamChunk, sent 5); (MessageTypeStreamEnd, sent 6);
   (MessageTypeResult, sent 7)].
Definition quote : QuoteResponse := Eval vm_compute in
  match DecodeQuoteResponse quote_payload with
  | Ok q => q
  | Err _ => {| qs_Envelope := ProviderExamples.envelope Byte.x00; qs_PriceMsat := 0; qs_QuoteExpiry := 0;
                qs_TermsHash := []; qs_PaymentRequest := "" |}
  end.

Definition invoice_info : PaymentRequestInfo :=
  {| pi_DescriptionHash := qs_TermsHash quote; pi_PayeePubKey := "03BB"; pi_AmountMsat := qs_PriceMsat quote;
     pi_TimestampUnix := now; pi_ExpirySeconds := 300 |}.
#[local] Instance lightning : LightningRPC :=
  {| rpc_GetInfo _ := Ok {| i_IdentityPubKey := "02aa" |}; rpc_DecodePaymentRequest _ _ := Ok invoice_info |}.
#[local] Instance lightning_laws : LightningLaws lightning.
Proof. intros n pr i [= <-]. unfold wf_info. vm_compute. repeat split; discriminate. Qed.
#[local] Instance rand_sizes : RandSizes world.
Proof. intros n b [= <-]. by vm_compute. Qed.

Definition asked : Tasks.Task :=
  {| Tasks.tk_Spec := Some (Tasks.OpenaiChatCompletionsV1
       (Some {| Tasks.ts_RequestJson := input; Tasks.ts_Params := Some "gpt-5.2"%string |})) |}.
Definition quote_req : RequestQuoteRequest := {| rq_PeerId := " 03bb "; rq_Task := Some asked |}.
Definition accept_req : AcceptRequest := {| ar_PeerId := "03bb"; ar_JobId := jobID; ar_PayInvoice := true |}.

Definition peer_events : list revent :=
  EvPeer <$> [PeerDir.OMarkConnected provider; PeerDir.OMarkCustomMsgEnabled provider true;
              PeerDir.OMarkManifestSent provider; PeerDir.OMarkLCPReady provider manifest].
Definition quote_events : list revent :=
  peer_events ++ [EvQuote (Some quote_req); EvMessage provider MessageTypeQuoteResponse quote_payload; EvWake 0].
Definition pay_events : list revent := quote_events ++ [EvAccept (Some accept_req)].
Definition result_events : list revent :=
  pay_events ++ EvPaid 1 (Ok (id32 Byte.x77)) ::
  ((λ m, EvMessage provider m.1 m.2) <$> result_payloads) ++ [EvWake 1].

Abbreviation after_ evs := (after_events true true manifest 16 evs).

Definition quote_out := Eval vm_compute in s_out (after_ quote_events).
Definition paid_out := Eval vm_compute in s_out (after_ pay_events).
Definition result_out := Eval vm_compute in s_out (after_ result_events).

Lemma paid_trace : s_out (after_ pay_events) = paid_out.
Proof. vm_compute. reflexivity. Qed.
Lemma result_trace : s_out (after_ result_events) = result_out.
Proof. vm_compute. reflexivity. Qed.

Definition the_result : PbResult := Eval vm_compute in
  match last result_out with
  | Some (RReturn _ (Ok (ReplyResult r))) => r
  | _ => {| pr_Status := STATUS_FAILED; pr_Message := ""; pr_Result := []; pr_ResultHash := []; pr_ResultLen := 0;
            pr_ContentType := ""; pr_ContentEncoding := "" |}
  end.

Lemma manifest_limits : sane_limits (Some manifest).
Proof. vm_compute. repeat split; discriminate. Qed.

Lemma pays : RPay 1 provider jobID "lnbc1" ∈ s_out (after_ pay_events).
Proof. rewrite paid_trace. apply list_elem_of_lookup. exists 5%nat. vm_compute. reflexivity. Qed.

Lemma payment_is_bound_witness :
  ∃ task wireTask inputStream q request resp answer info n,
    Tasks.ToWireQuoteRequestTask task = Ok wireTask ∧ Tasks.ToWireInputStream task = Ok inputStream ∧
    RSent provider MessageTypeQuoteRequest request None ∈ s_out (after_ pay_events) ∧
    EncodeQuoteRequest q = Ok request ∧ env_JobID (qr_Envelope q) = jobID ∧
    qr_TaskKind q = Tasks.qt_TaskKind wireTask ∧ qr_ParamsBytes q = Some (Tasks.qt_ParamsBytes wireTask) ∧
    EvMessage provider MessageTypeQuoteResponse answer ∈ pay_events ∧ DecodeQuoteResponse answer = Ok resp ∧
    env_JobID (qs_Envelope resp) = jobID ∧ qs_PaymentRequest resp = "lnbc1"%string ∧
    ComputeTermsHash (response_terms resp) (request_commit wireTask inputStream) = Ok (qs_TermsHash resp) ∧
    rpc_DecodePaymentRequest n "lnbc1" = Ok info ∧ pi_DescriptionHash info = qs_TermsHash resp ∧
    pi_AmountMsat info = qs_PriceMsat resp ∧ 0 < qs_PriceMsat resp ∧
    to_lower (pi_PayeePubKey info) = to_lower provider ∧
    pi_TimestampUnix info + pi_ExpirySeconds info ≤ qs_QuoteExpiry resp + skew ≤ max_i64.
Proof.
  apply (payment_is_bound true true manifest 16 pay_events 1 provider jobID "lnbc1" manifest_limits pays).
Defined.

Lemma accepted_result_verified_witness :
  pr_Status the_result = STATUS_OK ∧ pr_Result the_result = bytes_of_string "world" ∧
  ∃ p j pr payload terminal,
    RPay 1 p j pr ∈ s_out (after_ result_events) ∧
    EvMessage p MessageTypeResult payload ∈ result_events ∧ DecodeResult payload = Ok terminal ∧
    env_JobID (rs_Envelope terminal) = j ∧ result_faithful manifest the_result terminal.
Proof.
  split; [reflexivity|]. split; [reflexivity|].
  apply (accepted_result_verified true true manifest 16 result_events 1 the_result manifest_limits).
  rewrite result_trace. apply list_elem_of_lookup. exists 6%nat. vm_compute. reflexivity.
Defined.


Definition the_terms : ReqJobStore.PbTerms := Eval vm_compute in
  {| ReqJobStore.pt_ProtocolVersion := 2; ReqJobStore.pt_JobId := jobID;
     ReqJobStore.pt_PriceMsat := qs_PriceMsat quote;
     ReqJobStore.pt_QuoteExpiry :=
       match timestampFromUnixSeconds (qs_QuoteExpiry quote) with Ok x => Some x | Err _ => None end;
     ReqJobStore.pt_TermsHash := qs_TermsHash quote; ReqJobStore.pt_PaymentRequest := "lnbc1" |}.

Definition no_state : RState :=
  Eval cbv [New] in New (ReqJobStore.NewWithClockAndMaxEntries 16) manifest.

Lemma verify_invoice_exact_witness :
  (verifyInvoiceBinding provider the_terms no_state).2 = Ok tt ↔
    pi_DescriptionHash invoice_info = ReqJobStore.pt_TermsHash the_terms ∧
    to_lower (pi_PayeePubKey invoice_info) = to_lower provider ∧
    pi_AmountMsat invoice_info = ReqJobStore.pt_PriceMsat the_terms ∧ 0 < ReqJobStore.pt_PriceMsat the_terms ∧
    pi_TimestampUnix invoice_info + pi_ExpirySeconds invoice_info ≤ qs_QuoteExpiry quote + skew ≤ max_i64.
Proof.
  apply (verify_invoice_exact provider the_terms invoice_info (qs_QuoteExpiry quote)
           (default 0 (ReqJobStore.pt_QuoteExpiry the_terms)) no_state).
  - reflexivity.
  - reflexivity.
  - vm_compute. discriminate.
  - vm_compute. reflexivity.
  - reflexivity.
Defined.

(** The job is quoted and cancelled; then it is accepted. *)
Definition cancel_events : list revent :=
  quote_events ++ [EvCancel (Some {| cj_PeerId := "03bb"; cj_JobId := jobID; cj_Reason := "" |})].
Definition cancelled_entry : JobEntryT := Eval vm_compute in
  default (ReqJobStore.MkEntry provider jobID asked the_terms ReqJobStore.StateQuoted 0 0 0)
    (ReqJobStore.jobs (s_jobs (after_ cancel_events)) !! ReqJobStore.MkKey provider jobID).

Lemma accept_ignores_job_state_witness :
  let s := after_ cancel_events in
  let s' := (AcceptAndExecute true 2 (Some accept_req) s).1 in
  ReqJobStore.e_state cancelled_entry = ReqJobStore.StateCancelled ∧
  s_out s' = s_out s ++
    [RPay 2 provider jobID (ReqJobStore.pt_PaymentRequest (ReqJobStore.e_terms cancelled_entry))] ∧
  s_calls s' !! 2%nat = Some (CallPay provider jobID (ReqJobStore.e_terms cancelled_entry) None) ∧
  ∃ now, ReqJobStore.jobs (s_jobs s') !! ReqJobStore.MkKey provider jobID =
    Some (ReqJobStore.with_state ReqJobStore.StatePaying now cancelled_entry).
Proof.
  intros s s'. split; [reflexivity|].
  apply (accept_ignores_job_state 2 accept_req provider jobID cancelled_entry s).
  - reflexivity.
  - reflexivity.
  - vm_compute. reflexivity.
  - reflexivity.
  - reflexivity.
  - subst s. vm_compute. reflexivity.
  - discriminate.
  - discriminate.
  - intros s1. vm_compute. reflexivity.
Defined.

(** The requester waits for the quote. *)
Definition waiting_events : list revent := peer_events ++ [EvQuote (Some quote_req)].
Definition waiting_call : call := Eval vm_compute in
  default (CallLeft "" [] WaitPending) (s_calls (after_ waiting_events) !! 0%nat).

Lemma blocked_call_ends_witness :
  let s := rstep true true manifest (after_ waiting_events) (EvCtx 0 CtxCanceled) in
  (∃ st, replies 0 s = [Err st]) ∧ (∀ c', s_calls s !! 0%nat = Some c' → blocked c' = false).
Proof.
  apply (blocked_call_ends true true manifest (ReqJobStore.NewWithClockAndMaxEntries 16) waiting_events 0
           waiting_call CtxCanceled ErrNotConfigured).
  - vm_compute. reflexivity.
  - reflexivity.
Defined.

Definition ready_state : RState := after_ peer_events.
Definition sent_result : string * option Tasks.Task * bytes * Tasks.QuoteRequestTask * Tasks.InputStream :=
  Eval vm_compute in
  match (requestQuoteSend true (Some quote_req) ready_state).2 with
  | Ok r => r
  | Err _ => ("", None, [], {| Tasks.qt_TaskKind := ""; Tasks.qt_ParamsBytes := [] |},
              {| Tasks.in_DecodedBytes := []; Tasks.in_ContentType := ""; Tasks.in_ContentEncoding := "" |})%string
  end.

Lemma quote_request_carries_task_witness :
  ∃ n evs p task j wt ins,
    (requestQuoteSend true (Some quote_req) ready_state).1 = sent_state ready_state n evs ∧
    sent_result = (p, task, j, wt, ins) ∧ p = TrimSpace (rq_PeerId quote_req) ∧ task = rq_Task quote_req ∧
    Tasks.ToWireQuoteRequestTask task = Ok wt ∧ Tasks.ToWireInputStream task = Ok ins ∧
    carries p j wt ins (mf_MaxPayloadBytes manifest) evs ∧
    blen (Tasks.in_DecodedBytes ins) ≤ mf_MaxStreamBytes manifest ∧
    blen (Tasks.in_DecodedBytes ins) ≤ mf_MaxJobBytes manifest.
Proof.
  apply (quote_request_carries_task true quote_req ready_state manifest sent_result).
  - vm_compute. reflexivity.
  - vm_compute. split; discriminate.
  - intros wt Hwt. assert (Hw : Ok wt = Ok sent_result.1.2) by (rewrite <-Hwt; vm_compute; reflexivity).
    injection Hw as ->. vm_compute. discriminate.
  - intros ins Hins. assert (Hi : Ok ins = Ok sent_result.2) by (rewrite <-Hins; vm_compute; reflexivity).
    injection Hi as ->. vm_compute. split; [discriminate|reflexivity].
  - vm_compute. reflexivity.
Defined.

#[local] Instance json_agrees : Tasks.JsonAgree task_json ProviderExamples.json.
Proof. split; [by intros b r [= <-]|done]. Qed.
#[local] Existing Instance ProviderExamples.json.
#[local] Existing Instance ProviderExamples.fmt.

Definition asked_wire : Tasks.QuoteRequestTask := Eval vm_compute in sent_result.1.2.
Definition asked_input : Tasks.InputStream := Eval vm_compute in sent_result.2.

Lemma validated_task_accepted_witness :
  let q := {| qr_Envelope := ProviderExamples.envelope Byte.x01; qr_TaskKind := Tasks.qt_TaskKind asked_wire;
              qr_ParamsBytes := Some (Tasks.qt_ParamsBytes asked_wire) |} in
  ValidateQuoteRequest DefaultValidator q None = None ∧
  Tasks.in_ContentType asked_input = inputContentTypeForTaskKind (qr_TaskKind q) ∧
  Tasks.in_ContentEncoding asked_input = contentEncodingIdentity ∧
  (validateInputStream q (Tasks.in_DecodedBytes asked_input) = None ↔
   Tasks.provider_parses (qr_TaskKind q) (Tasks.in_DecodedBytes asked_input)).
Proof.
  apply (Tasks.validated_task_accepted (Some asked) asked_wire asked_input (ProviderExamples.envelope Byte.x01)).
  - reflexivity.
  - vm_compute. discriminate.
  - vm_compute. reflexivity.
  - vm_compute. reflexivity.
Defined.

(** A node that decodes an invoice of 21 satoshis. *)
Definition node : Node :=
  {| nd_GetInfo := None; nd_SendPaymentV2 := None; nd_hex_error _ := ""%string;
     nd_DecodePayReq := Some (λ _ _, Ok
       {| pq_DescriptionHash := hex_encode jobID; pq_Destination := "03bb"; pq_NumMsat := 0;
          pq_NumSatoshis := 21; pq_Timestamp := now; pq_Expiry := 300 |}) |}.

Lemma client_keeps_contract_witness :
  wf_info {| pi_DescriptionHash := jobID; pi_PayeePubKey := "03bb"; pi_AmountMsat := 21000;
             pi_TimestampUnix := now; pi_ExpirySeconds := 300 |}.
Proof.
  apply (client_keeps_contract node) with (n := 0%nat) (pr := "lnbc1"%string).
  - intros decode n pr r [= <-] [= <-]. vm_compute. repeat split; discriminate.
  - vm_compute. reflexivity.
Defined.
End RequesterExamples.
