(* ===== verification/Application.v ===== *)
(** * lcpd-grpcd as a whole

    What [tools/lcpd-grpcd] puts together ([baseFXOptions]): the peer messaging with its
    loops, one peer directory, and behind the dispatcher the provider's handler and the
    requester's waiter; the gRPC service on top of the requester.  A run of the daemon is
    a run of each part: what is proved of the provider ([Runner.reachable]) and of the
    requester ([rrun]) holds inside the daemon. *)

From stdpp Require Import pretty.
From S2P Require Import Prelude GoStd TlvLib Wire Stores Replay JobStore PeerDir PeerMsg Terms Pricing Validation Tasks Lightning Provider ResultSend Runner ReqJobStore Waiter WaiterInv WaiterRoute Requester RequesterRun RequesterRequests RequesterSafety RequesterTheorems Daemon PeerLoops ProviderTheorems ProviderProgress RequesterExamples.

Module Application.
Import PeerLoops.

(** ** How the messaging changes the directory *)

Section directory.
Context {T : TlvLib} {RA : MapRange string string} {RP : MapRange string PeerDir.Peer}.

(** By operations of the directory. *)
Definition dir_steps (d d' : PeerDir.Directory) : Prop := ∃ ops, d' = fold_left PeerDir.step ops d.

Lemma steps_refl d : dir_steps d d.
Proof. by exists []. Qed.
Lemma steps_trans d1 d2 d3 : dir_steps d1 d2 → dir_steps d2 d3 → dir_steps d1 d3.
Proof. intros [o1 ->] [o2 ->]. exists (o1 ++ o2). by rewrite fold_left_app. Qed.
Lemma steps_op d o : dir_steps d (PeerDir.step d o).
Proof. by exists [o]. Qed.

Lemma steps_fold {A} (f : PeerDir.Directory → A → PeerDir.Directory) l d :
  (∀ d a, dir_steps d (f d a)) → dir_steps d (fold_left f l d).
Proof.
  intros Hf. revert d. induction l as [|a l IH]; intros d; [apply steps_refl|]. cbn.
  eapply steps_trans; [apply Hf|apply IH].
Qed.

Abbreviation dir := pm_peerDirectory.

Lemma steps_connect k addr d :
  dir_steps d (PeerDir.MarkCustomMsgEnabled k true (PeerDir.MarkConnected k
    (if bool_decide (addr = ""%string) then d else PeerDir.UpsertPeer k addr d))).
Proof.
  eapply steps_trans; [|apply (steps_op _ (PeerDir.OMarkCustomMsgEnabled k true))].
  eapply steps_trans; [|apply (steps_op _ (PeerDir.OMarkConnected k))].
  case_bool_decide; [apply steps_refl|apply (steps_op _ (PeerDir.OUpsertPeer k addr))].
Qed.

Lemma steps_markPeerConnected k pm : dir_steps (dir pm) (dir (markPeerConnected k pm)).
Proof. apply steps_connect. Qed.

Lemma steps_refresh lnd pm : dir_steps (dir pm) (dir (refreshPeers lnd pm).1).
Proof.
  unfold refreshPeers. destruct (lnd_ListPeers lnd) as [ps|]; [|apply steps_refl]. cbn [fst dir].
  apply steps_fold. intros d [k a]. apply steps_connect.
Qed.

Lemma steps_sendAndMark lnd k pm : dir_steps (dir pm) (dir (sendManifestAndMarkSent lnd k pm).1).
Proof.
  unfold sendManifestAndMarkSent. case_bool_decide; [apply steps_refl|].
  destruct (sendManifest lnd k pm) as [acts []]; [apply (steps_op _ (PeerDir.OMarkManifestSent k))|apply steps_refl].
Qed.

Lemma steps_sendIfNot lnd k pm : dir_steps (dir pm) (dir (sendManifestIfNotSent lnd k pm).1).
Proof.
  unfold sendManifestIfNotSent. case_bool_decide; [apply steps_refl|]. cbv zeta. case_match; [apply steps_refl|].
  destruct (sendManifest lnd k pm) as [acts []]; [apply (steps_op _ (PeerDir.OMarkManifestSent k))|apply steps_refl].
Qed.

Lemma steps_sendToAll send lnd ids pm :
  (∀ k pm, dir_steps (dir pm) (dir (send k pm).1)) → dir_steps (dir pm) (dir (sendToAll send lnd ids pm).1).
Proof.
  intros Hs. revert pm. induction ids as [|k ids IH]; intros pm; [apply steps_refl|]. cbn.
  case_match; [apply steps_refl|]. specialize (Hs k pm). destruct (send k pm) as [pm1 acts].
  specialize (IH pm1). destruct (sendToAll send lnd ids pm1) as [pm2 acts']. by eapply steps_trans.
Qed.

Lemma steps_peer_event lnd ev pm : dir_steps (dir pm) (dir (HandlePeerEvent lnd ev pm).1).
Proof.
  unfold HandlePeerEvent. destruct ev as [ev|]; [|apply steps_refl]. cbv zeta.
  case_bool_decide; [apply steps_refl|]. destruct (ev_Type ev).
  - pose proof (steps_refresh lnd pm) as H1. destruct (refreshPeers lnd pm) as [pm1 b].
    eapply steps_trans; [exact H1|]. eapply steps_trans; [apply steps_markPeerConnected|apply steps_sendIfNot].
  - apply (steps_op _ (PeerDir.OMarkDisconnected _)).
Qed.

Lemma steps_message lnd msg pm : dir_steps (dir pm) (dir (HandleCustomMessage lnd msg pm).1).
Proof.
  unfold HandleCustomMessage. destruct msg as [msg|]; [|apply steps_refl].
  destruct (blen (lm_Peer msg) =? 0); [apply steps_refl|]. cbv zeta.
  destruct (65535 <? lm_Type msg); [apply steps_refl|].
  set (k := hex_encode (lm_Peer msg)). pose proof (steps_markPeerConnected k pm) as H1.
  destruct (rd_Action _); try exact H1. destruct (DecodeManifest _) as [m|]; [|exact H1].
  eapply steps_trans; [exact H1|].
  eapply steps_trans; [apply (steps_op _ (PeerDir.OMarkLCPReady k m))|].
  destruct (negb _); [apply (steps_sendAndMark lnd k (with_dir _ _))|apply (steps_sendIfNot lnd k (with_dir _ _))].
Qed.

(** What [dispatchInbound] is called with. *)
Definition dispatched (acts : list action) : list CustomMessage :=
  omap (λ a, match a with ADispatch msg => Some msg | _ => None end) acts.

Lemma dispatched_app l l' : dispatched (l ++ l') = dispatched l ++ dispatched l'.
Proof. apply omap_app. Qed.

Lemma no_dispatch_send lnd k pm : dispatched (sendManifest lnd k pm).1 = [].
Proof. unfold sendManifest. by destruct (hex_decode k). Qed.
Lemma no_dispatch_mark lnd k pm : dispatched (sendManifestAndMarkSent lnd k pm).2 = [].
Proof.
  unfold sendManifestAndMarkSent. case_bool_decide; [done|]. pose proof (no_dispatch_send lnd k pm) as H1.
  by destruct (sendManifest lnd k pm) as [acts []].
Qed.
Lemma no_dispatch_once lnd k pm : dispatched (sendManifestIfNotSent lnd k pm).2 = [].
Proof.
  unfold sendManifestIfNotSent. case_bool_decide; [done|]. cbv zeta. case_match; [done|].
  pose proof (no_dispatch_send lnd k pm) as H1. by destruct (sendManifest lnd k pm) as [acts []].
Qed.
Lemma no_dispatch_all send lnd ids pm :
  (∀ k pm, dispatched (send k pm).2 = []) → dispatched (sendToAll send lnd ids pm).2 = [].
Proof.
  intros Hs. revert pm. induction ids as [|k ids IH]; intros pm; [done|]. cbn. case_match; [done|].
  specialize (Hs k pm). destruct (send k pm) as [pm1 acts]. specialize (IH pm1).
  destruct (sendToAll send lnd ids pm1) as [pm2 acts']. cbn [snd] in *. by rewrite dispatched_app, Hs, IH.
Qed.
Lemma no_dispatch_event lnd ev pm : dispatched (HandlePeerEvent lnd ev pm).2 = [].
Proof.
  unfold HandlePeerEvent. destruct ev as [ev|]; [|done]. cbv zeta. case_bool_decide; [done|].
  destruct (ev_Type ev); [|done]. destruct (refreshPeers lnd pm). apply no_dispatch_once.
Qed.

Definition as_dispatched (m : LndMessage) : CustomMessage := MkMessage (hex_encode (lm_Peer m)) (lm_Type m) (lm_Data m).

Lemma dispatch_message lnd msg pm :
  let l := dispatched (HandleCustomMessage lnd msg pm).2 in l = [] ∨ ∃ m, msg = Some m ∧ l = [as_dispatched m].
Proof.
  cbv zeta. unfold HandleCustomMessage. destruct msg as [msg|]; [|by left].
  destruct (_ =? 0); [by left|]. destruct (65535 <? _); [by left|]. cbv zeta.
  destruct (rd_Action _); try (by left); try (right; by eexists). destruct (DecodeManifest _); [|by left].
  left. destruct (negb _); [apply no_dispatch_mark|apply no_dispatch_once].
Qed.

(** What a step of the messaging leaves behind. *)
Definition seen (s : Messaging) : PeerMessaging * list action := (ms_pm s, ms_acts s).

Lemma seen_set_loop w pc s : seen (set_loop w pc s) = seen s.
Proof. by destruct s, w. Qed.
Lemma seen_set_ready w s : seen (set_ready w s) = seen s.
Proof. by destruct s, w. Qed.
Lemma seen_set_resend pc s : seen (set_resend pc s) = seen s.
Proof. by destruct s. Qed.
Lemma seen_set_start pc s : seen (set_start pc s) = seen s.
Proof. by destruct s. Qed.
Lemma seen_set_stop pc s : seen (set_stop pc s) = seen s.
Proof. by destruct s. Qed.
Lemma seen_connected s : seen (connected s) = seen s.
Proof. by destruct s. Qed.
Lemma seen_cancelled s : seen (cancelled s) = seen s.
Proof. by destruct s. Qed.
Lemma seen_unset s : seen (unset s) = seen s.
Proof. by destruct s. Qed.
Lemma seen_handled r s : seen (handled r s) = (r.1, ms_acts s ++ r.2).
Proof. by destruct s. Qed.
Lemma seen_spawn cfg s : seen (spawn cfg s) = seen s.
Proof. unfold spawn. destruct (0 <? _); by rewrite !seen_set_loop, ?seen_set_resend. Qed.

Create Rewrite HintDb seen.
#[local] Hint Rewrite seen_set_loop seen_set_ready seen_set_resend seen_set_start seen_set_stop seen_connected
  seen_cancelled seen_unset seen_handled seen_spawn : seen.

(** It operates on the directory, and dispatches nothing but the message it receives. *)
Definition brings (e : levent) (msgs : list CustomMessage) : Prop :=
  msgs = [] ∨ ∃ lnd m, e = EvRecv CustomMessages (GotMessage lnd (Some m)) ∧ msgs = [as_dispatched m].

Definition effect (e : levent) (s s' : Messaging) : Prop :=
  dir_steps (dir (ms_pm s)) (dir (ms_pm s')) ∧
  ∃ new, ms_acts s' = ms_acts s ++ new ∧ brings e (dispatched new).

Lemma effect_same e s s' : seen s' = seen s → effect e s s'.
Proof.
  intros [= Hp Ha]. unfold effect. rewrite Hp. split; [apply steps_refl|].
  exists []. rewrite app_nil_r. split; [done|by left].
Qed.

Lemma effect_handled e (r : PeerMessaging * list action) s s' :
  seen s' = (r.1, ms_acts s ++ r.2) → dir_steps (dir (ms_pm s)) (dir r.1) → brings e (dispatched r.2) →
  effect e s s'.
Proof. intros [= Hp Ha] Hd Hb. unfold effect. rewrite Hp. split; [done|]. by exists r.2. Qed.

Lemma effect_handleOne e w needs r s :
  dir_steps (dir (ms_pm s)) (dir r.1) → brings e (dispatched r.2) → effect e s (handleOne w needs r s).
Proof.
  intros Hd Hb. unfold handleOne. destruct (_ && _); [apply effect_same, seen_set_loop|].
  eapply effect_handled; [apply seen_handled|done..].
Qed.

Lemma effect_refresh lnd cfg s e :
  let r := refreshPeers lnd (ms_pm s) in
  effect e s (if r.2 then set_start SWaitPeerEvents (spawn cfg (handled (sendManifestToConnectedPeersOnce lnd r.1) s))
              else set_start (SReturned false) (cleanupConn (handled (r.1, []) s))).
Proof.
  cbv zeta. pose proof (steps_refresh lnd (ms_pm s)) as Hd. unfold cleanupConn. case_match.
  - eapply effect_handled; [by autorewrite with seen| |].
    + eapply steps_trans; [exact Hd|]. apply steps_sendToAll. intros. apply steps_sendIfNot.
    + left. apply no_dispatch_all. intros. apply no_dispatch_once.
  - eapply (effect_handled _ (_, [])); [by autorewrite with seen|done|by left].
Qed.

Lemma lstep_effect cfg s e : effect e s (lstep cfg s e).
Proof.
  destruct e; cbn [lstep]; unfold startStep, loopStep, resendStep, stopStep, cleanupConn;
    try (repeat case_match; apply effect_same; by autorewrite with seen).
  - destruct (ms_start s); try by apply effect_same. apply effect_refresh.
  - destruct (loop w s), w, r; try (apply effect_same; by autorewrite with seen).
    + apply effect_handleOne; [apply steps_peer_event|]. left. apply no_dispatch_event.
    + apply effect_handleOne; [apply steps_message|].
      destruct (dispatch_message lnd msg (ms_pm s)) as [->|(m & -> & ->)]; [by left|]. right. by eexists _, _.
  - destruct (ms_resend s); try by apply effect_same. cbv zeta.
    destruct (_ && _); [apply effect_same; by autorewrite with seen|].
    eapply effect_handled; [by autorewrite with seen| |].
    + apply steps_sendToAll. intros. apply steps_sendAndMark.
    + left. apply no_dispatch_all. intros. apply no_dispatch_mark.
Qed.
End directory.

(** ** The daemon *)

(** The peer directory is the one of the messaging; the provider and the requester hold
    it too. *)
Record App := MkApp {
  ap_messaging : Messaging;
  ap_provider : PState;
  ap_requester : RState;
}.

Definition set_peers (d : PeerDir.Directory) (ps : PState) : PState :=
  MkState (p_jobs ps) (p_replay ps) d (p_cancels ps) (p_inFlight ps) (p_runners ps) (p_nextRunner ps)
    (p_tick ps) (p_out ps).

(** An event of the daemon: a step of the messaging; a step of one of the provider's
    runners; an RPC, or a blocked call that goes on. *)
Inductive app_event :=
| AMessaging (e : levent)
| ARunner (e : Runner.event)
| ARpc (e : revent).

Section app.
Context {T : TlvLib} {J : JsonLib} {F : Fmt} {W : WireText} {PE : ProviderEnv} {EN : Environ}
        {RJ : MapRange JobStore.Key JobStore.Job} {RR : MapRange ReplayStore.Key Z} {RZ : MapRange Z bytes}
        {RM : MapRange string ModelConfig} {RA : MapRange string string} {RP : MapRange string PeerDir.Peer}
        {TJ : Tasks.TaskJson} {TX : TermsText} {E : RequesterEnv} {V : Validator} {LN : LightningRPC}
        {RQ : MapRange ReqJobStore.key JobEntryT}.
Context (lndCfg : option LndConfig) (cfg : Validation.Config) (policy : ExecutionPolicy)
        (backendDisabled backendStreams : bool) (localManifest : Manifest).

(** Without a configuration of lnd the service has no messenger and no Lightning client,
    and inbound messages are dropped. *)
Definition configured : bool := bool_decide (is_Some lndCfg).

Abbreviation phandle e ps := (Runner.handle cfg DefaultValidator policy backendDisabled backendStreams e ps).1.
Abbreviation rstep_ := (rstep configured configured localManifest).

(** The two subsystems behind the dispatcher. *)
Definition provider_handler (msg : CustomMessage) (s : PState * RState) : PState * RState :=
  (phandle (Runner.EMessage (cmsg_PeerPubKey msg) (cmsg_MsgType msg) (cmsg_Payload msg)) s.1, s.2).
Definition requester_handler (msg : CustomMessage) (s : PState * RState) : PState * RState :=
  (s.1, rstep_ s.2 (EvMessage (cmsg_PeerPubKey msg) (cmsg_MsgType msg) (cmsg_Payload msg))).

Definition inbound (msg : CustomMessage) (s : PState * RState) : PState * RState :=
  if configured then
    PeerMsg.HandleInboundCustomMessage (Some provider_handler) (Some requester_handler) msg s
  else s.

Definition deliver (acts : list action) (s : PState * RState) : PState * RState :=
  fold_left (λ s msg, inbound msg s) (dispatched acts) s.

(** The events of the runners and of the service that do not come from the messaging. *)
Definition runner_event (e : Runner.event) : bool :=
  match e with Runner.EMessage _ _ _ | Runner.EPeers _ => false | _ => true end.
Definition service_event (e : revent) : bool :=
  match e with EvMessage _ _ _ | EvPeer _ => false | _ => true end.

Definition app_step (s : App) (e : app_event) : App :=
  match e with
  | AMessaging e =>
    let m := lstep lndCfg (ap_messaging s) e in
    let d := pm_peerDirectory (ms_pm m) in
    let r := deliver (drop (length (ms_acts (ap_messaging s))) (ms_acts m))
               (set_peers d (ap_provider s), with_peers d (ap_requester s)) in
    MkApp m r.1 r.2
  | ARunner e => if runner_event e then MkApp (ap_messaging s) (phandle e (ap_provider s)) (ap_requester s) else s
  | ARpc e => if service_event e then MkApp (ap_messaging s) (ap_provider s) (rstep_ (ap_requester s) e) else s
  end.

(** The constructors [baseFXOptions] provides. *)
Definition app_init : wres App :=
  pm ← PeerMsg.New PeerDir.New (Some localManifest);
  Ok (MkApp (init pm) (Runner.initial 0) (Requester.New ReqJobStore.NewWithClock localManifest)).

Definition app_run (es : list app_event) (s : App) : App := fold_left app_step es s.

(** ** A run of the daemon is a run of each part *)

(** The events of each part. *)
Definition messaging_events (es : list app_event) : list levent :=
  omap (λ e, match e with AMessaging e => Some e | _ => None end) es.
Definition runner_events (es : list app_event) : list Runner.event :=
  filter (λ e, runner_event e) (omap (λ e, match e with ARunner e => Some e | _ => None end) es).
Definition rpc_events (es : list app_event) : list revent :=
  filter (λ e, service_event e) (omap (λ e, match e with ARpc e => Some e | _ => None end) es).

#[local] Instance target_eq_dec : EqDecision target.
Proof. solve_decision. Defined.

(** The messages of the dispatcher for a subsystem, and those in the events of it. *)
Definition messages_for (tgt : target) (msgs : list CustomMessage) : list CustomMessage :=
  if configured then filter (λ msg, tgt ∈ targets (cmsg_MsgType msg)) msgs else [].
Definition provider_messages (pevs : list Runner.event) : list CustomMessage :=
  omap (λ e, match e with Runner.EMessage p t x => Some (MkMessage p t x) | _ => None end) pevs.
Definition requester_messages (revs : list revent) : list CustomMessage :=
  omap (λ e, match e with EvMessage p t x => Some (MkMessage p t x) | _ => None end) revs.

Abbreviation prun := (Runner.run cfg DefaultValidator policy backendDisabled backendStreams).
Abbreviation rrun_ := (rrun configured configured localManifest).

Definition to_provider (msg : CustomMessage) : Runner.event :=
  Runner.EMessage (cmsg_PeerPubKey msg) (cmsg_MsgType msg) (cmsg_Payload msg).
Definition to_requester (msg : CustomMessage) : revent :=
  EvMessage (cmsg_PeerPubKey msg) (cmsg_MsgType msg) (cmsg_Payload msg).

Lemma inbound_targets msg s :
  inbound msg s = (prun (to_provider <$> messages_for ToProvider [msg]) s.1,
                   rrun_ (to_requester <$> messages_for ToRequester [msg]) s.2).
Proof.
  unfold inbound, messages_for. destruct s as [ps rs], configured; [|done]. rewrite !filter_cons, !filter_nil.
  unfold PeerMsg.HandleInboundCustomMessage, targets. repeat (case_decide || case_match); try done; set_solver.
Qed.

Lemma messages_for_cons tgt msg msgs : messages_for tgt (msg :: msgs) = messages_for tgt [msg] ++ messages_for tgt msgs.
Proof. unfold messages_for. destruct configured; [|done]. apply (filter_app _ [msg]). Qed.
Lemma messages_for_app tgt msgs msgs' :
  messages_for tgt (msgs ++ msgs') = messages_for tgt msgs ++ messages_for tgt msgs'.
Proof. unfold messages_for. destruct configured; [apply filter_app|done]. Qed.

Lemma deliver_runs acts s :
  deliver acts s = (prun (to_provider <$> messages_for ToProvider (dispatched acts)) s.1,
                    rrun_ (to_requester <$> messages_for ToRequester (dispatched acts)) s.2).
Proof.
  unfold deliver. revert s. induction (dispatched acts) as [|msg msgs IH]; intros s.
  - unfold messages_for. by destruct s, configured.
  - cbn [fold_left]. rewrite IH, inbound_targets, !(messages_for_cons _ msg msgs), !fmap_app. cbn [fst snd].
    unfold Runner.run, rrun. by rewrite !fold_left_app.
Qed.

Lemma rrun_peers revs rs : Forall (λ e, is_peer e = false) revs → s_peers (rrun_ revs rs) = s_peers rs.
Proof.
  revert rs. induction revs as [|e revs IH]; intros rs; [done|]. intros [He Hr]%Forall_cons.
  etrans; [apply (IH _ Hr)|]. by apply rstep_peers.
Qed.

Lemma prun_peers pevs ps :
  Forall (λ e, ∀ d, e ≠ Runner.EPeers d) pevs → p_peers (prun pevs ps) = p_peers ps.
Proof.
  revert ps. induction pevs as [|e pevs IH]; intros ps; [done|]. intros [He Hr]%Forall_cons.
  etrans; [apply (IH _ Hr)|]. rewrite (handle_peers cfg policy backendDisabled backendStreams e ps).
  destruct e; try done. by destruct (He d).
Qed.

(** The directory the messaging leaves is the requester's after events of the directory. *)
Lemma with_peers_run d rs :
  dir_steps (s_peers rs) d → ∃ ops, with_peers d rs = rrun_ (EvPeer <$> ops) rs.
Proof.
  intros [ops ->]. exists ops. revert rs. induction ops as [|o ops IH]; intros rs; [by destruct rs|].
  etrans; [|apply (IH (with_peers (PeerDir.step (s_peers rs) o) rs))]. by destruct rs.
Qed.

(** lnd's subscription delivered the message. *)
Definition received_from_lnd (es : list app_event) (msg : CustomMessage) : Prop :=
  ∃ lnd m, AMessaging (EvRecv CustomMessages (GotMessage lnd (Some m))) ∈ es ∧ msg = as_dispatched m.

Lemma received_later es e msg : received_from_lnd es msg → received_from_lnd (es ++ [e]) msg.
Proof. intros (lnd & m & Hin & ->). exists lnd, m. split; [|done]. apply elem_of_app. by left. Qed.

(** Runs of the parts that agree with a run of the daemon. *)
Record parts (s0 : App) (es : list app_event) (s : App) (revs : list revent) (pevs : list Runner.event) : Prop := {
  pa_messaging : ap_messaging s = lrun lndCfg (messaging_events es) (ap_messaging s0);
  pa_requester : ap_requester s = rrun_ revs (ap_requester s0);
  pa_provider : ap_provider s = prun pevs (ap_provider s0);
  pa_requester_dir : s_peers (ap_requester s) = pm_peerDirectory (ms_pm (ap_messaging s));
  pa_provider_dir : p_peers (ap_provider s) = pm_peerDirectory (ms_pm (ap_messaging s));
  pa_rpcs : filter (λ e, service_event e) revs = rpc_events es;
  pa_runners : filter (λ e, runner_event e) pevs = runner_events es;
  pa_to_requester : requester_messages revs = messages_for ToRequester (dispatched (ms_acts (ap_messaging s)));
  pa_to_provider : provider_messages pevs = messages_for ToProvider (dispatched (ms_acts (ap_messaging s)));
  pa_received msg : msg ∈ dispatched (ms_acts (ap_messaging s)) → received_from_lnd es msg;
}.

Lemma messaging_snoc es e :
  messaging_events (es ++ [e]) = messaging_events es ++ match e with AMessaging e => [e] | _ => [] end.
Proof. unfold messaging_events. rewrite omap_app. by destruct e. Qed.
Lemma rpc_snoc es e :
  rpc_events (es ++ [e]) = rpc_events es ++ match e with ARpc e => if service_event e then [e] else [] | _ => [] end.
Proof.
  unfold rpc_events. rewrite omap_app, filter_app. f_equal. destruct e as [| |e]; try done. cbn. by destruct (service_event e).
Qed.
Lemma runner_snoc es e :
  runner_events (es ++ [e]) =
  runner_events es ++ match e with ARunner e => if runner_event e then [e] else [] | _ => [] end.
Proof.
  unfold runner_events. rewrite omap_app, filter_app. f_equal. destruct e as [|e|]; try done. cbn. by destruct (runner_event e).
Qed.

Lemma of_requester msgs :
  filter (λ e, service_event e) (to_requester <$> msgs) = [] ∧ requester_messages (to_requester <$> msgs) = msgs ∧
  Forall (λ e, is_peer e = false) (to_requester <$> msgs).
Proof. induction msgs as [|[p t x] msgs (H1 & H2 & H3)]; [done|]. cbn. split_and!; [done|by f_equal|by constructor]. Qed.

Lemma of_provider msgs :
  filter (λ e, runner_event e) (to_provider <$> msgs) = [] ∧ provider_messages (to_provider <$> msgs) = msgs ∧
  Forall (λ e, ∀ d, e ≠ Runner.EPeers d) (to_provider <$> msgs).
Proof. induction msgs as [|[p t x] msgs (H1 & H2 & H3)]; [done|]. cbn. split_and!; [done|by f_equal|by constructor]. Qed.

Lemma of_directory ops :
  filter (λ e, service_event e) (EvPeer <$> ops) = [] ∧ requester_messages (EvPeer <$> ops) = [].
Proof. by induction ops as [|o ops [IH1 IH2]]. Qed.

Lemma parts_messaging s0 es s revs pevs e :
  parts s0 es s revs pevs → ∃ revs' pevs', parts s0 (es ++ [AMessaging e]) (app_step s (AMessaging e)) revs' pevs'.
Proof.
  intros P. destruct (lstep_effect lndCfg (ap_messaging s) e) as (Hd & new & Ha & Hb).
  rewrite <-(pa_requester_dir _ _ _ _ _ P) in Hd. destruct (with_peers_run _ _ Hd) as [ops Hops].
  destruct (of_directory ops) as [Hd1 Hd2].
  destruct (of_requester (messages_for ToRequester (dispatched new))) as (Hr1 & Hr2 & Hr3).
  destruct (of_provider (messages_for ToProvider (dispatched new))) as (Hp1 & Hp2 & Hp3).
  exists (revs ++ (EvPeer <$> ops) ++ (to_requester <$> messages_for ToRequester (dispatched new))).
  exists (pevs ++ Runner.EPeers (pm_peerDirectory (ms_pm (lstep lndCfg (ap_messaging s) e))) ::
          (to_provider <$> messages_for ToProvider (dispatched new))).
  cbn [app_step]. cbv zeta. rewrite deliver_runs, Ha, drop_app_length. cbn [fst snd].
  rewrite Hops at 1. destruct P as [P1 P2 P3 P4 P5 P6 P7 P8 P9 P10].
  split; cbn [ap_messaging ap_requester ap_provider].
  - rewrite messaging_snoc. unfold lrun. by rewrite fold_left_app, P1.
  - rewrite P2. unfold rrun. by rewrite !fold_left_app.
  - rewrite P3. unfold Runner.run. by rewrite fold_left_app.
  - rewrite <-Hops. by rewrite rrun_peers.
  - by rewrite prun_peers.
  - by rewrite rpc_snoc, !filter_app, P6, Hd1, Hr1.
  - rewrite runner_snoc, filter_app, P7. f_equal. by rewrite filter_cons.
  - unfold requester_messages in *. by rewrite !omap_app, P8, Hd2, Hr2, Ha, dispatched_app, messages_for_app.
  - unfold provider_messages in *. rewrite !omap_app, P9, Ha, dispatched_app, messages_for_app. by f_equal.
  - rewrite Ha, dispatched_app. intros msg [Hm|Hm]%elem_of_app.
    + by apply received_later, P10.
    + destruct Hb as [Hb|(lnd & m & -> & Hb)]; rewrite Hb in Hm; [by apply elem_of_nil in Hm|].
      apply list_elem_of_singleton in Hm as ->. exists lnd, m. split; [|done]. apply elem_of_app. right. by left.
Qed.

Lemma parts_idle s0 es s revs pevs e :
  match e with AMessaging _ => False | ARunner e => runner_event e = false | ARpc e => service_event e = false end →
  parts s0 es s revs pevs → parts s0 (es ++ [e]) s revs pevs.
Proof.
  intros He []. split; try done; rewrite ?messaging_snoc, ?rpc_snoc, ?runner_snoc.
  1-3: destruct e; try done; by rewrite ?He, app_nil_r.
  intros msg Hm. by apply received_later, pa_received0.
Qed.

Lemma parts_runner s0 es s revs pevs e :
  runner_event e = true → parts s0 es s revs pevs →
  parts s0 (es ++ [ARunner e]) (app_step s (ARunner e)) revs (pevs ++ [e]).
Proof.
  intros He []. cbn [app_step]. rewrite He. split; cbn [ap_messaging ap_requester ap_provider]; try done.
  - by rewrite messaging_snoc, app_nil_r.
  - rewrite pa_provider0. unfold Runner.run. by rewrite fold_left_app.
  - rewrite (handle_peers cfg policy backendDisabled backendStreams). by destruct e.
  - by rewrite rpc_snoc, app_nil_r.
  - by rewrite runner_snoc, filter_app, pa_runners0, He, filter_cons, He.
  - unfold provider_messages in *. rewrite omap_app, pa_to_provider0. destruct e; try done; apply app_nil_r.
  - intros msg Hm. by apply received_later, pa_received0.
Qed.

Lemma parts_rpc s0 es s revs pevs e :
  service_event e = true → parts s0 es s revs pevs →
  parts s0 (es ++ [ARpc e]) (app_step s (ARpc e)) (revs ++ [e]) pevs.
Proof.
  intros He []. cbn [app_step]. rewrite He. split; cbn [ap_messaging ap_requester ap_provider]; try done.
  - by rewrite messaging_snoc, app_nil_r.
  - rewrite pa_requester0. unfold rrun. by rewrite fold_left_app.
  - rewrite rstep_peers; [done|]. by destruct e.
  - by rewrite rpc_snoc, filter_app, pa_rpcs0, He, filter_cons, He.
  - by rewrite runner_snoc, app_nil_r.
  - unfold requester_messages in *. rewrite omap_app, pa_to_requester0. destruct e; try done; apply app_nil_r.
  - intros msg Hm. by apply received_later, pa_received0.
Qed.

Lemma parts_run es s0 :
  app_init = Ok s0 → ∃ revs pevs, parts s0 es (app_run es s0) revs pevs.
Proof.
  intros Hi. induction es as [|e es (revs & pevs & IH)] using rev_ind.
  - exists [], []. unfold app_init in Hi. destruct (PeerMsg.New _ _) as [pm|] eqn:Hpm; [|done]. injection Hi as <-.
    unfold PeerMsg.New in Hpm. destruct (EncodeManifest _); [|done]. injection Hpm as <-.
    split; try done; unfold messages_for; cbn; try by destruct configured. by intros msg ?%elem_of_nil.
  - unfold app_run. rewrite fold_left_app. cbn [fold_left]. fold (app_run es s0). destruct e as [e|e|e].
    + by apply (parts_messaging _ _ _ revs pevs).
    + destruct (runner_event e) eqn:He; [by eexists _, _; apply parts_runner|].
      exists revs, pevs. cbn [app_step]. rewrite He. by apply parts_idle.
    + destruct (service_event e) eqn:He; [by eexists _, _; apply parts_rpc|].
      exists revs, pevs. cbn [app_step]. rewrite He. by apply parts_idle.
Qed.

(** C9: the daemon is its parts.  Whatever lnd, the peers, the backend and the clients do,
    after a run of the daemon the messaging, the requester and the provider are in states
    that runs of their own reach, so that what is proved of those holds inside the daemon;
    the three agree on the peer directory; the RPCs and the runners' steps of these runs
    are those of the daemon's run, and the messages in them are, in order, those the
    messaging dispatched that are meant for the part, each of which lnd delivered. *)
Theorem daemon_is_its_parts es s0 :
  app_init = Ok s0 →
  let s := app_run es s0 in
  Runner.reachable cfg DefaultValidator policy backendDisabled backendStreams (ap_provider s) ∧
  ∃ revs pevs, parts s0 es s revs pevs.
Proof.
  intros Hi s. destruct (parts_run es s0 Hi) as (revs & pevs & P). split; [|by exists revs, pevs].
  exists 0, pevs. etrans; [apply (pa_provider _ _ _ _ _ P)|]. f_equal. unfold app_init in Hi.
  destruct (PeerMsg.New _ _) as [pm|]; [|done]. by injection Hi as <-.
Qed.

(** C10: the daemon pays only for quotes its peers sent.  When the daemon pays an invoice,
    lnd's subscription delivered, from the peer of the payment, a quote response with the
    invoice; the daemon had sent that peer a request for a task under the job id; the terms
    hash of the response commits to the task, and the invoice to the terms hash, the price
    and the peer. *)
Theorem daemon_pays_received_quotes {L : TlvLaws T} {LL : LightningLaws LN} es s0 cid p j pr :
  app_init = Ok s0 → sane_limits (Some localManifest) →
  let out := s_out (ap_requester (app_run es s0)) in
  RPay cid p j pr ∈ out →
  ∃ task wireTask inputStream q request resp answer info n,
    Tasks.ToWireQuoteRequestTask task = Ok wireTask ∧ Tasks.ToWireInputStream task = Ok inputStream ∧
    RSent p MessageTypeQuoteRequest request None ∈ out ∧ EncodeQuoteRequest q = Ok request ∧
    env_JobID (qr_Envelope q) = j ∧ qr_TaskKind q = Tasks.qt_TaskKind wireTask ∧
    received_from_lnd es (MkMessage p MessageTypeQuoteResponse answer) ∧ DecodeQuoteResponse answer = Ok resp ∧
    env_JobID (qs_Envelope resp) = j ∧ qs_PaymentRequest resp = pr ∧
    ComputeTermsHash (response_terms resp) (request_commit wireTask inputStream) = Ok (qs_TermsHash resp) ∧
    rpc_DecodePaymentRequest n pr = Ok info ∧ pi_DescriptionHash info = qs_TermsHash resp ∧
    pi_AmountMsat info = qs_PriceMsat resp ∧ to_lower (pi_PayeePubKey info) = to_lower p.
Proof.
  intros Hi Hl out Hin. destruct (parts_run es s0 Hi) as (revs & pevs & P).
  pose proof (pa_requester _ _ _ _ _ P) as Hr.
  assert (H0 : ap_requester s0 = Requester.New ReqJobStore.NewWithClock localManifest).
  { unfold app_init in Hi. destruct (PeerMsg.New _ _) as [pm|]; [|done]. by injection Hi as <-. }
  subst out. rewrite H0 in Hr. rewrite Hr in Hin |- *.
  destruct (payment_bound configured configured localManifest _ revs cid p j pr Hl Hin) as
    (task & wt & ins & q & request & resp & answer & info & n & H1 & H2 & H3 & H4 & H5 & H6 & _ & Hm & H7 & H8 & H9 &
     H10 & H11 & H12 & H13 & _ & H14 & _).
  exists task, wt, ins, q, request, resp, answer, info, n. split_and!; try done.
  apply (pa_received _ _ _ _ _ P). assert (Hm' : MkMessage p MessageTypeQuoteResponse answer ∈ requester_messages revs).
  { apply list_elem_of_omap. by eexists. }
  rewrite (pa_to_requester _ _ _ _ _ P) in Hm'. unfold messages_for in Hm'. destruct configured; [|by apply elem_of_nil in Hm'].
  by apply list_elem_of_filter in Hm' as [_ ?].
Qed.
End app.
End Application.

(** ** A run of the daemon *)

Module ApplicationExamples.
Import PeerLoops Application.
#[local] Existing Instances RequesterExamples.tlv RequesterExamples.no_environ RequesterExamples.rq
  RequesterExamples.rp RequesterExamples.rz RequesterExamples.text RequesterExamples.terms_error
  RequesterExamples.task_json RequesterExamples.no_validator RequesterExamples.world
  RequesterExamples.lightning RequesterExamples.lightning_laws
  ProviderExamples.fmt ProviderExamples.rj ProviderExamples.rr ProviderExamples.rm ProviderExamples.json
  ProviderExamples.world.
#[local] Instance ra : MapRange string string := canonical_range.
Import RequesterExamples(provider, quote_req, accept_req, quote_payload, manifest_limits).
Import ProviderExamples(jobID, manifest, cfg, policy).

Definition lnd : Lnd := {| lnd_ListPeers := Some []; lnd_SendOK _ := true; lnd_ctxDone _ := false |}.
Definition lnd_config : option LndConfig :=
  Some {| lc_RPCAddr := "127.0.0.1:10009"; lc_TLSCertPath := ""; lc_AdminMacaroonPath := "";
          lc_ManifestResendInterval := None |}.

(** The provider's node greets, a client asks for a quote, the provider answers, the
    client accepts. *)
Definition from_provider (typ : Z) (data : bytes) : app_event :=
  AMessaging (EvRecv CustomMessages (GotMessage lnd
    (Some {| lm_Peer := [Byte.x03; Byte.xbb]; lm_Type := typ; lm_Data := data |}))).
Definition manifest_payload : bytes := Eval vm_compute in
  match EncodeManifest manifest with Ok p => p | Err _ => [] end.
Definition daemon_events : list app_event :=
  [AMessaging (EvStart true); AMessaging (EvRefresh lnd); AMessaging (EvLoop CustomMessages);
   AMessaging (EvSubscribe CustomMessages true); from_provider MessageTypeManifest manifest_payload;
   ARpc (EvQuote (Some quote_req)); from_provider MessageTypeQuoteResponse quote_payload; ARpc (EvWake 0);
   ARpc (EvAccept (Some accept_req))].

Definition daemon : App := Eval vm_compute in
  match app_init manifest with
  | Ok s => s
  | Err _ => MkApp (init {| pm_peerDirectory := ∅; pm_peerAddr := ∅; pm_localManifestPayload := [] |})
               (Runner.initial 0) (Requester.New ReqJobStore.NewWithClock manifest)
  end.
Lemma daemon_starts : app_init manifest = Ok daemon.
Proof. vm_compute. reflexivity. Qed.

Abbreviation daemon_run := (app_run lnd_config cfg policy false false manifest daemon_events daemon).

Lemma daemon_is_its_parts_witness :
  Runner.reachable cfg DefaultValidator policy false false (ap_provider daemon_run) ∧
  ∃ revs pevs, parts lnd_config cfg policy false false manifest daemon daemon_events daemon_run revs pevs.
Proof.
  apply (daemon_is_its_parts lnd_config cfg policy false false manifest daemon_events daemon daemon_starts).
Defined.

Lemma daemon_pays : RPay 1 provider jobID "lnbc1" ∈ s_out (ap_requester daemon_run).
Proof. apply list_elem_of_lookup. exists 5%nat. vm_compute. reflexivity. Qed.

Lemma daemon_pays_received_quotes_witness :
  ∃ task wireTask inputStream q request resp answer info n,
    Tasks.ToWireQuoteRequestTask task = Ok wireTask ∧ Tasks.ToWireInputStream task = Ok inputStream ∧
    RSent provider MessageTypeQuoteRequest request None ∈ s_out (ap_requester daemon_run) ∧
    EncodeQuoteRequest q = Ok request ∧
    env_JobID (qr_Envelope q) = jobID ∧ qr_TaskKind q = Tasks.qt_TaskKind wireTask ∧
    received_from_lnd daemon_events (MkMessage provider MessageTypeQuoteResponse answer) ∧
    DecodeQuoteResponse answer = Ok resp ∧
    env_JobID (qs_Envelope resp) = jobID ∧ qs_PaymentRequest resp = "lnbc1"%string ∧
    ComputeTermsHash (response_terms resp) (request_commit wireTask inputStream) = Ok (qs_TermsHash resp) ∧
    rpc_DecodePaymentRequest n "lnbc1" = Ok info ∧ pi_DescriptionHash info = qs_TermsHash resp ∧
    pi_AmountMsat info = qs_PriceMsat resp ∧ to_lower (pi_PayeePubKey info) = to_lower provider.
Proof.
  apply (daemon_pays_received_quotes lnd_config cfg policy false false manifest daemon_events daemon 1 provider jobID
           "lnbc1" daemon_starts manifest_limits daemon_pays).
Defined.
End ApplicationExamples.
