(* ===== verification/Gateway.v ===== *)
(** * openai-serve: the HTTP gateway in front of the requester

    [apps/openai-serve]: its configuration ([internal/config]) and its handlers
    ([internal/httpapi]).  The lcpd client, the JSON decoder, the request's context
    and the HTTP connection are parameters; a handler leaves a trace of the calls it
    made and of what it wrote. *)

From stdpp Require Import pretty.
From S2P Require Import Prelude GoStd TlvLib Wire Stores Replay JobStore PeerDir Terms Pricing Validation Provider ResultSend Runner ResultProofs Lightning Tasks ReqJobStore Waiter Requester Backend Daemon.

Module Gateway.

(** ** Standard library: strings *)

Definition byte_is (c : Z) (b : byte) : bool := Z_of_byte b =? c.

(** [strings.Split] on one byte. *)
Fixpoint split_bytes (c : Z) (bs : bytes) : list bytes :=
  match bs with
  | [] => [[]]
  | b :: rest =>
    if byte_is c b then [] :: split_bytes c rest
    else match split_bytes c rest with
         | part :: parts => (b :: part) :: parts
         | [] => [[b]]
         end
  end.
Definition Split (s : string) (c : Z) : list string := string_of_bytes <$> split_bytes c (bytes_of_string s).

(** [strings.Cut] at the first occurrence of a byte. *)
Fixpoint cut_bytes (c : Z) (bs : bytes) : option (bytes * bytes) :=
  match bs with
  | [] => None
  | b :: rest => if byte_is c b then Some ([], rest) else (λ p, (b :: p.1, p.2)) <$> cut_bytes c rest
  end.
Definition Cut (s : string) (c : Z) : option (string * string) :=
  (λ p, (string_of_bytes p.1, string_of_bytes p.2)) <$> cut_bytes c (bytes_of_string s).

(** [strings.TrimPrefix]. *)
Definition TrimPrefix (s prefix : string) : string :=
  let bs := bytes_of_string s in
  let n := length (bytes_of_string prefix) in
  if bool_decide (take n bs = bytes_of_string prefix) then string_of_bytes (drop n bs) else s.

(** ** internal/config *)

Record Config := {
  g_HTTPAddr : string;
  g_LCPDGRPCAddr : string;
  g_APIKeys : gset string;
  g_DefaultPeerID : string;
  g_ModelMap : gmap string string;
  g_ModelAllowlist : gset string;
  g_AllowUnlistedModels : bool;
  g_MaxPriceMsat : Z;
  g_TimeoutQuote : Z;
  g_TimeoutExecute : Z;
  g_LogLevel : string;
}.

(** What [envconfig] reads; durations are in nanoseconds. *)
Record envConfig := {
  ev_HTTPAddr : string;
  ev_LCPDGRPCAddr : string;
  ev_APIKeys : string;
  ev_DefaultPeerID : string;
  ev_ModelMap : string;
  ev_ModelAllowlist : string;
  ev_AllowUnlistedModels : bool;
  ev_MaxPriceMsat : Z;
  ev_TimeoutQuote : Z;
  ev_TimeoutExecute : Z;
  ev_LogLevel : string;
}.

Definition defaultHTTPAddr : string := "127.0.0.1:8080".
Definition defaultLCPDGRPCAddr : string := "127.0.0.1:50051".
Definition defaultLogLevel : string := "info".
Definition defaultTimeoutQuote : Z := 5 * ns_per_sec.
Definition defaultTimeoutExecute : Z := 120 * ns_per_sec.
Definition peerIDHexLen : Z := 66.
Definition peerIDByteLen : Z := 33.

Definition parseCSVSet (s : string) : gset string :=
  list_to_set (filter (λ v, v ≠ ""%string) (TrimSpace <$> Split s 44)).

Definition validatePeerID (peerID : string) : result string unit :=
  let peerID := TrimSpace peerID in
  let len := blen (bytes_of_string peerID) in
  _ ← ensure (negb (bool_decide (peerID = ""%string))) "peer_id is empty"%string;
  _ ← ensure (len =? peerIDHexLen)
        ("peer_id must be " +:+ pretty peerIDHexLen +:+ " hex chars (got " +:+ pretty len +:+ ")");
  decoded ← or_err (hex_decode peerID) "peer_id must be hex"%string;
  ensure (blen decoded =? peerIDByteLen)
    ("peer_id must be " +:+ pretty peerIDByteLen +:+ " bytes (got " +:+ pretty (blen decoded) +:+ ")").

Section config.
Context {F : Fmt}.

(** One entry of the map; an empty one is skipped. *)
Definition modelMapEntry (out : gmap string string) (part : string) : result string (gmap string string) :=
  let part := TrimSpace part in
  if bool_decide (part = ""%string) then Ok out else
  match Cut part 61 with
  | None => Err ("expected 'model=peer_id' entries separated by ';': " +:+ fmt_q part)
  | Some (model, peer) =>
    let model := TrimSpace model in
    let peer := TrimSpace peer in
    if bool_decide (model = ""%string) then Err ("empty model in entry " +:+ fmt_q part) else
    match validatePeerID peer with
    | Err e => Err ("peer_id for model " +:+ fmt_q model +:+ ": " +:+ e)
    | Ok _ => Ok (<[model := peer]> out)
    end
  end.
Definition parseModelMap (s : string) : result string (gmap string string) :=
  fold_result modelMapEntry ∅ (Split s 59).

(** [net.SplitHostPort], whose error is a text. *)
Context (splitHostPort : string → option string).

Definition validateConfig (cfg : Config) : result string unit :=
  _ ← ensure (negb (bool_decide (TrimSpace (g_HTTPAddr cfg) = ""%string))) "OPENAI_SERVE_HTTP_ADDR is required"%string;
  _ ← ensure (negb (bool_decide (TrimSpace (g_LCPDGRPCAddr cfg) = ""%string)))
        "OPENAI_SERVE_LCPD_GRPC_ADDR is required"%string;
  _ ← match splitHostPort (g_HTTPAddr cfg) with
      | Some e => Err ("OPENAI_SERVE_HTTP_ADDR must be host:port: " +:+ e)
      | None => Ok tt
      end;
  _ ← ensure (0 <? g_TimeoutQuote cfg) "OPENAI_SERVE_TIMEOUT_QUOTE must be > 0"%string;
  ensure (0 <? g_TimeoutExecute cfg) "OPENAI_SERVE_TIMEOUT_EXECUTE must be > 0"%string.

Definition or_default (v dflt : string) : string := if bool_decide (TrimSpace v = ""%string) then dflt else TrimSpace v.

(** [processed] is what [envconfig.Process] answers. *)
Definition LoadFromEnv (processed : result string envConfig) : result string Config :=
  env ← match processed with Ok env => Ok env | Err e => Err ("process env: " +:+ e) end;
  let set v := if bool_decide (TrimSpace v = ""%string) then ∅ else parseCSVSet (TrimSpace v) in
  let peer := TrimSpace (ev_DefaultPeerID env) in
  _ ← (if bool_decide (peer = ""%string) then Ok tt else
       match validatePeerID peer with
       | Ok _ => Ok tt
       | Err e => Err ("OPENAI_SERVE_DEFAULT_PEER_ID: " +:+ e)
       end);
  modelMap ← (if bool_decide (TrimSpace (ev_ModelMap env) = ""%string) then Ok ∅ else
              match parseModelMap (TrimSpace (ev_ModelMap env)) with
              | Ok m => Ok m
              | Err e => Err ("OPENAI_SERVE_MODEL_MAP: " +:+ e)
              end);
  let cfg :=
    {| g_HTTPAddr := or_default (ev_HTTPAddr env) defaultHTTPAddr;
       g_LCPDGRPCAddr := or_default (ev_LCPDGRPCAddr env) defaultLCPDGRPCAddr;
       g_APIKeys := set (ev_APIKeys env); g_DefaultPeerID := peer; g_ModelMap := modelMap;
       g_ModelAllowlist := set (ev_ModelAllowlist env);
       g_AllowUnlistedModels := ev_AllowUnlistedModels env; g_MaxPriceMsat := ev_MaxPriceMsat env;
       g_TimeoutQuote := if 0 <? ev_TimeoutQuote env then ev_TimeoutQuote env else defaultTimeoutQuote;
       g_TimeoutExecute := if 0 <? ev_TimeoutExecute env then ev_TimeoutExecute env else defaultTimeoutExecute;
       g_LogLevel := or_default (ev_LogLevel env) defaultLogLevel |} in
  _ ← validateConfig cfg;
  Ok cfg.

(** ** cmd/openai-serve: the log level *)

Inductive LogLevel := LevelDebug | LevelInfo | LevelWarn | LevelError.

Definition parseLogLevel (s : string) : result string LogLevel :=
  let level := string_of_bytes (lower_word (bytes_of_string (TrimSpace s))) in
  if bool_decide (level ∈ [""; "info"]%string) then Ok LevelInfo
  else if bool_decide (level = "debug"%string) then Ok LevelDebug
  else if bool_decide (level ∈ ["warn"; "warning"]%string) then Ok LevelWarn
  else if bool_decide (level = "error"%string) then Ok LevelError
  else Err ("unsupported log level: " +:+ fmt_q s).
End config.
End Gateway.
