(* ===== verification/Httpapi.v ===== *)
(** * openai-serve: routing and handlers

    [apps/openai-serve/internal/httpapi].  A handler is a function in a monad that
    counts its effects and collects what it did: the calls of the daemon's RPCs with
    their answers, and what was given to the HTTP connection.  The answers of the
    daemon, the context of the request, the outcome of a write and the clock are
    parameters ([GatewayEnv]), a different one for every effect; the JSON decoder is
    one as well ([GatewayJson]).  Logging is left out. *)

From stdpp Require Import pretty.
From S2P Require Import Prelude GoStd TlvLib Wire Stores Replay JobStore PeerDir Terms Pricing Validation Provider ResultSend Lightning Tasks ReqJobStore Waiter Requester Backend Daemon Gateway Trace.

Module Httpapi.
Import Gateway.

(** ** What the daemon answers *)

(** An [error] of a gRPC call: a status, [io.EOF] of [Recv], or another error. *)
Inductive gerr := EStatus (st : Status) | EEOF | EPlain (msg : string).

(** The oneof of [LCPTaskTemplate]. *)
Inductive ParamsTemplate := ParamsChat (model : string) | ParamsResponses (model : string) | ParamsNone.
(** [gt_Kind] is [None] for an unspecified kind. *)
Record Template := { gt_Kind : option LCPTaskKind; gt_Params : ParamsTemplate }.
(** A peer with the tasks of its manifest. *)
Record Peer := { gp_PeerId : string; gp_SupportedTasks : list Template }.

#[export] Instance LCPTaskKind_eq_dec : EqDecision LCPTaskKind.
Proof. solve_decision. Defined.

(** The messages of [AcceptAndExecuteStream] (without an event in the default case) and
    the error that ends them: every stream ends, at the latest with its context. *)
Record Stream := { rv_msgs : list (option StreamResponse); rv_end : gerr }.

(** The answer to a quote request is its terms. *)
Class GatewayEnv := {
  l_ListLCPPeers : nat → result gerr (list Peer);
  l_RequestQuote : nat → RequestQuoteRequest → result gerr (option ReqJobStore.PbTerms);
  l_AcceptAndExecute : nat → AcceptRequest → result gerr (option PbResult);
  l_AcceptAndExecuteStream : nat → AcceptRequest → result gerr Stream;
  h_ctx : nat → option ctx_err;
  h_write : nat → bytes → Z * option string;
  h_clock : nat → Z;
}.

(** The order of a range over a set. *)
Class SetRange := {
  set_range : gset string → list string;
  set_range_perm : ∀ X, set_range X ≡ₚ elements X;
}.

(** ** openai/types.go *)

Record ChatMessage := { cm_Role : string; cm_Content : string; cm_Name : string }.
(** The fields the gateway reads; the others only have to decode. *)
Record ChatCompletionsRequest := {
  cr_Model : string;
  cr_Messages : list ChatMessage;
  cr_Stream : option bool;
}.
Record ResponsesRequest := { gr_Model : string; gr_Input : bytes; gr_Stream : option bool }.

Class GatewayJson := {
  gj_chat : bytes → result string ChatCompletionsRequest;
  gj_responses : bytes → result string ResponsesRequest;
}.

Record ModelInfo := { mi_ID : string; mi_Object : string; mi_Created : Z; mi_OwnedBy : string }.

Inductive JsonBody :=
| ErrorResponse (message typ : string)
| ModelsResponse (object : string) (data : list ModelInfo).

(** ** The request and the trace *)

Record HttpRequest := {
  hr_Method : string;
  hr_Path : string;
  hr_Authorization : string;
  hr_ContentEncoding : string;
  hr_Body : list read;
}.

Inductive gev :=
| GListPeers (ans : result gerr (list Peer))
| GQuote (req : RequestQuoteRequest) (ans : result gerr (option ReqJobStore.PbTerms))
| GExecute (req : AcceptRequest) (ans : result gerr (option PbResult))
| GExecuteStream (req : AcceptRequest) (ans : result gerr Stream)
| GCancel (req : CancelJobRequest)
| GHeader (name value : string)
| GStatus (status : Z)
| GJSON (status : Z) (body : JsonBody)
| GData (status : Z) (contentType : string) (data : bytes)
| GText (status : Z) (text : string)
| GWrite (data : bytes) (n : Z) (err : option string)
| GFlush
| GNoRoute.

(** The handlers' monad: [Trace.v] over these events. *)
Abbreviation GM := (TM gev).

(** ** constants.go and the constants of the handlers *)

Definition contentEncodingIdentity : string := "identity".
Definition maxRequestBodyBytes : Z := 2 ^ 20.
Definition defaultSSEContentType : string := "text/event-stream; charset=utf-8".
Definition cancelReasonRequestCanceled : string := "request canceled".
Definition providerReturnedNoResultMessage : string := "provider returned no result".
Definition providerReturnedNonOKStatusMessage : string := "provider returned non-ok status".

(** ** respond.go *)

Definition writeOpenAIError (status : Z) (typ message : string) : GM unit :=
  emit (GJSON status (ErrorResponse message typ)).
(** The error is written and the caller returns. *)
Definition reject {A} (status : Z) (typ message : string) : GM (option A) :=
  _ ← writeOpenAIError status typ message; mret None.

Definition httpStatusFromCode (code : Code) : Z :=
  match code with
  | CodeOK => 200
  | Canceled => 408
  | Unknown => 500
  | InvalidArgument | NotFound => 400
  | AlreadyExists => 409
  | PermissionDenied => 403
  | FailedPrecondition => 400
  | Aborted => 409
  | OutOfRange => 400
  | Unimplemented => 501
  | Internal | DataLoss => 500
  | Unauthenticated => 401
  | ResourceExhausted => 429
  | DeadlineExceeded => 504
  | Unavailable => 502
  end.
Definition httpStatusFromGRPC (err : gerr) : Z :=
  match err with EStatus st => httpStatusFromCode (st_Code st) | EEOF | EPlain _ => 500 end.

(** [codes.Code.String]. *)
Definition code_text (code : Code) : string :=
  match code with
  | CodeOK => "OK" | Canceled => "Canceled" | Unknown => "Unknown" | InvalidArgument => "InvalidArgument"
  | DeadlineExceeded => "DeadlineExceeded" | NotFound => "NotFound" | AlreadyExists => "AlreadyExists"
  | PermissionDenied => "PermissionDenied" | ResourceExhausted => "ResourceExhausted"
  | FailedPrecondition => "FailedPrecondition" | Aborted => "Aborted" | OutOfRange => "OutOfRange"
  | Unimplemented => "Unimplemented" | Internal => "Internal" | Unavailable => "Unavailable"
  | DataLoss => "DataLoss" | Unauthenticated => "Unauthenticated"
  end.
(** [Error()]. *)
Definition gerr_text (err : gerr) : string :=
  match err with
  | EStatus st => "rpc error: code = " +:+ code_text (st_Code st) +:+ " desc = " +:+ st_Message st
  | EEOF => "EOF"
  | EPlain m => m
  end.
Definition grpcErrMessage (err : gerr) : string :=
  match err with
  | EStatus st => if bool_decide (st_Message st = ""%string) then gerr_text err else st_Message st
  | EEOF | EPlain _ => gerr_text err
  end.
Definition write_grpc_error (err : gerr) : GM unit :=
  writeOpenAIError (httpStatusFromGRPC err) "server_error" (grpcErrMessage err).

(** ** middleware_auth.go *)

Definition bearerToken (headerValue : string) : option string :=
  let v := TrimSpace headerValue in
  if bool_decide (v = ""%string) then None else
  if bool_decide (take 7 (Daemon.lower_word (bytes_of_string v)) = bytes_of_string "bearer ") then
    let token := TrimSpace (string_of_bytes (drop 7 (bytes_of_string v))) in
    if bool_decide (token = ""%string) then None else Some token
  else None.

(** ** request_decode.go *)

Inductive body_err := BodyTooLarge | BodyRead (msg : string).
Definition body_text (e : body_err) : string :=
  match e with BodyTooLarge => "request body too large" | BodyRead m => m end.

(** [io.ReadAll(http.MaxBytesReader(w, r, n))]: a read past the limit is an error. *)
Fixpoint ReadAllMaxBytes (n : Z) (reads : list read) : result body_err bytes :=
  match reads with
  | [] => Ok []
  | r :: rest =>
    if n <? blen (rd_data r) then Err BodyTooLarge
    else match rd_err r with
         | Some ReadEOF => Ok (rd_data r)
         | Some (ReadErr m) => Err (BodyRead m)
         | None => tail ← ReadAllMaxBytes (n - blen (rd_data r)) rest; Ok (rd_data r ++ tail)
         end
  end.
Definition readRequestBodyBytes (q : HttpRequest) : result body_err bytes :=
  ReadAllMaxBytes maxRequestBodyBytes (hr_Body q).

(** ** routing.go *)

Definition modelFromTaskTemplate (kind : LCPTaskKind) (tmpl : Template) : string :=
  match kind, gt_Params tmpl with
  | KIND_OPENAI_CHAT_COMPLETIONS_V1, ParamsChat m => m
  | KIND_OPENAI_RESPONSES_V1, ParamsResponses m => m
  | _, _ => ""
  end.

(** The templates of a kind: the [continue] of the loops. *)
Definition templates_of (kind : LCPTaskKind) (p : Peer) : list Template :=
  filter (λ t, gt_Kind t = Some kind) (gp_SupportedTasks p).

Definition collectModelsFromPeersForKind (peers : list Peer) (kind : LCPTaskKind) : gset string :=
  list_to_set (filter (λ m, m ≠ ""%string)
    (p ← peers; (λ t, TrimSpace (modelFromTaskTemplate kind t)) <$> templates_of kind p)).
Definition collectModelsFromPeersForKinds (peers : list Peer) (kinds : list LCPTaskKind) : gset string :=
  ⋃ (collectModelsFromPeersForKind peers <$> kinds).

Definition peerInList (peers : list Peer) (peerID : string) : bool :=
  let peerID := TrimSpace peerID in
  negb (bool_decide (peerID = ""%string)) && existsb (λ p, bool_decide (gp_PeerId p = peerID)) peers.

Definition resolvePeerIDFromSupportedTasks (peers : list Peer) (kind : LCPTaskKind) (model : string) :
    option string :=
  gp_PeerId <$> List.find (λ p,
    existsb (λ t, bool_decide (TrimSpace (modelFromTaskTemplate kind t) = model)) (templates_of kind p)) peers.
Definition resolvePeerIDFromAnyPeer (peers : list Peer) : option string := gp_PeerId <$> head peers.

Section server.
Context {F : Fmt} {GE : GatewayEnv} {GJ : GatewayJson} {SR : SetRange}.
Context (cfg : Config).

Definition validateModelForTaskKind (model : string) (kind : LCPTaskKind) (peers : list Peer) :
    result string unit :=
  let model := TrimSpace model in
  if bool_decide (model = ""%string) then Err "model is required"%string
  else if negb (bool_decide (g_ModelAllowlist cfg = ∅)) then
    if bool_decide (model ∈ g_ModelAllowlist cfg) || g_AllowUnlistedModels cfg then Ok tt
    else Err ("model is not allowed: " +:+ fmt_q model +:+
              " (set OPENAI_SERVE_MODEL_ALLOWLIST or OPENAI_SERVE_ALLOW_UNLISTED_MODELS=true)")
  else
    let discovered := collectModelsFromPeersForKind peers kind in
    if bool_decide (discovered = ∅) then Ok tt
    else if bool_decide (model ∈ discovered) || g_AllowUnlistedModels cfg then Ok tt
    else Err ("model is not advertised by any connected LCP peer: " +:+ fmt_q model).

(** [None] when there is nothing in the map: the code's [ok == false]. *)
Definition resolvePeerIDFromModelMap (model : string) (peers : list Peer) : option (result string string) :=
  peerID ← g_ModelMap cfg !! model;
  Some (if peerInList peers peerID then Ok peerID
        else Err ("peer_id for model " +:+ fmt_q model +:+ " is not connected/LCP-ready: " +:+ peerID)).

Definition resolvePeerIDFromDefaultPeer (peers : list Peer) : option (result string string) :=
  let defaultPeerID := TrimSpace (g_DefaultPeerID cfg) in
  if bool_decide (defaultPeerID = ""%string) then None
  else Some (if peerInList peers defaultPeerID then Ok defaultPeerID
             else Err ("OPENAI_SERVE_DEFAULT_PEER_ID is not connected/LCP-ready: " +:+ defaultPeerID)).

Definition resolvePeerIDForTaskKind (model : string) (kind : LCPTaskKind) (peers : list Peer) :
    result string string :=
  let model := TrimSpace model in
  match resolvePeerIDFromModelMap model peers with
  | Some r => r
  | None =>
    match resolvePeerIDFromDefaultPeer peers with
    | Some r => r
    | None =>
      match resolvePeerIDFromSupportedTasks peers kind model with
      | Some peerID => Ok peerID
      | None => or_err (resolvePeerIDFromAnyPeer peers) "no connected LCP peers available"%string
      end
    end
  end.

(** ** The daemon's RPCs *)

Definition listPeers : GM (result gerr (list Peer)) := rpc GListPeers l_ListLCPPeers.
Definition requestQuote (peerID : string) (task : Tasks.Task) : GM (result gerr (option ReqJobStore.PbTerms)) :=
  let req := {| rq_PeerId := peerID; rq_Task := Some task |} in
  rpc (GQuote req) (λ t, l_RequestQuote t req).
Definition accept_req (peerID : string) (jobID : bytes) : AcceptRequest :=
  {| ar_PeerId := peerID; ar_JobId := jobID; ar_PayInvoice := true |}.
Definition acceptAndExecute (peerID : string) (jobID : bytes) : GM (result gerr (option PbResult)) :=
  let req := accept_req peerID jobID in rpc (GExecute req) (λ t, l_AcceptAndExecute t req).
Definition acceptAndExecuteStream (peerID : string) (jobID : bytes) : GM (result gerr Stream) :=
  let req := accept_req peerID jobID in rpc (GExecuteStream req) (λ t, l_AcceptAndExecuteStream t req).

(** The goroutine is started; its answer is only logged. *)
Definition cancelJobAsync (peerID : string) (jobID : bytes) : GM unit :=
  emit (GCancel {| cj_PeerId := peerID; cj_JobId := jobID; cj_Reason := cancelReasonRequestCanceled |}).

Definition shouldCancelAfterExecuteError (err : gerr) : GM bool :=
  ctx ← ask h_ctx;
  match ctx with
  | Some CtxCanceled => mret true
  | _ =>
    ctx ← ask h_ctx;
    mret match ctx, err with
         | Some CtxDeadlineExceeded, _ => true
         | _, EStatus st => bool_decide (st_Code st ∈ [Canceled; DeadlineExceeded])
         | _, _ => false
         end
  end.
Definition cancelJobIfRequestCanceled (peerID : string) (jobID : bytes) (err : gerr) : GM unit :=
  b ← shouldCancelAfterExecuteError err;
  if b : bool then cancelJobAsync peerID jobID else mret tt.

(** The getters on nil terms return zero values. *)
Definition quote_price (quote : option ReqJobStore.PbTerms) : Z := default 0 (ReqJobStore.pt_PriceMsat <$> quote).
Definition quote_job (quote : option ReqJobStore.PbTerms) : bytes := default [] (ReqJobStore.pt_JobId <$> quote).
Definition quote_hash (quote : option ReqJobStore.PbTerms) : bytes :=
  default [] (ReqJobStore.pt_TermsHash <$> quote).

Definition writeLCPHeaders (peerID : string) (jobID : bytes) (quote : option ReqJobStore.PbTerms) : GM unit :=
  _ ← emit (GHeader "X-Lcp-Peer-Id" peerID);
  _ ← emit (GHeader "X-Lcp-Job-Id" (hex_encode jobID));
  _ ← emit (GHeader "X-Lcp-Price-Msat" (pretty (quote_price quote)));
  emit (GHeader "X-Lcp-Terms-Hash" (hex_encode (quote_hash quote))).

Definition resolvePeerForTaskKindAndModel (kind : LCPTaskKind) (model : string) : GM (option string) :=
  peers ← listPeers;
  match peers with
  | Err e => _ ← write_grpc_error e; mret None
  | Ok peers =>
    match validateModelForTaskKind model kind peers with
    | Err m => reject 400 "invalid_request_error" m
    | Ok _ =>
      match resolvePeerIDForTaskKind model kind peers with
      | Err m => reject 503 "server_error" m
      | Ok peerID => mret (Some peerID)
      end
    end
  end.

Definition requestQuoteAndValidatePrice (peerID : string) (task : Tasks.Task) :
    GM (option (option ReqJobStore.PbTerms)) :=
  quote ← requestQuote peerID task;
  match quote with
  | Err e => _ ← write_grpc_error e; mret None
  | Ok quote =>
    let price := quote_price quote in
    if (0 <? g_MaxPriceMsat cfg) && (g_MaxPriceMsat cfg <? price) then
      reject 400 "invalid_request_error"
        ("quote price exceeds limit: price_msat=" +:+ pretty price +:+
         " limit_msat=" +:+ pretty (g_MaxPriceMsat cfg))
    else mret (Some quote)
  end.

(** ** handler_stream.go *)

Record streamWriteResult := {
  sw_bytesWritten : Z;
  sw_wroteBody : bool;
  sw_contentType : string;
  sw_contentEncoding : string;
  sw_terminalResult : option PbResult;
}.

Definition newStreamWriteResult : streamWriteResult :=
  {| sw_bytesWritten := 0; sw_wroteBody := false; sw_contentType := defaultSSEContentType;
     sw_contentEncoding := contentEncodingIdentity; sw_terminalResult := None |}.

Definition finishStreamWrite (out : streamWriteResult) (err : gerr) : option gerr :=
  match err with
  | EEOF =>
    match sw_terminalResult out with
    | None => Some (EPlain "stream ended without a terminal result")
    | Some _ => None
    end
  | _ => Some err
  end.

Definition or_kept (v kept : string) : string := if bool_decide (TrimSpace v = ""%string) then kept else TrimSpace v.
Definition applyStreamBegin (out : streamWriteResult) (contentType contentEncoding : string) : streamWriteResult :=
  {| sw_bytesWritten := sw_bytesWritten out; sw_wroteBody := sw_wroteBody out;
     sw_contentType := or_kept contentType (sw_contentType out);
     sw_contentEncoding := or_kept contentEncoding (sw_contentEncoding out);
     sw_terminalResult := sw_terminalResult out |}.

Definition writeSSEHeaders (contentType : string) : GM unit :=
  _ ← emit (GHeader "Content-Type" (or_kept contentType defaultSSEContentType));
  _ ← emit (GHeader "Cache-Control" "no-cache");
  emit (GHeader "X-Accel-Buffering" "no").

(** An encoding other than identity is refused. *)
Definition unsupported_encoding (contentEncoding : string) : option string :=
  let enc := TrimSpace contentEncoding in
  if bool_decide (enc = ""%string) || bool_decide (enc = contentEncodingIdentity) then None
  else Some ("unsupported content encoding: " +:+ fmt_q enc).

Definition ensureStreamWriteReady (out : streamWriteResult) : GM (option gerr) :=
  if sw_wroteBody out then mret None else
  match unsupported_encoding (sw_contentEncoding out) with
  | Some m => mret (Some (EPlain m))
  | None => _ ← writeSSEHeaders (sw_contentType out); _ ← emit (GStatus 200); mret None
  end.

(** [c.Writer.Write]. *)
Definition httpWrite (data : bytes) : GM (Z * option string) :=
  rpc (λ a, GWrite data a.1 a.2) (λ t, h_write t data).

Definition writeStreamChunk (out : streamWriteResult) (data : bytes) : GM (streamWriteResult * option gerr) :=
  if blen data =? 0 then mret (out, None) else
  err ← ensureStreamWriteReady out;
  match err with
  | Some e => mret (out, Some e)
  | None =>
    w ← httpWrite data;
    let out := {| sw_bytesWritten := sw_bytesWritten out + w.1; sw_wroteBody := true;
                  sw_contentType := sw_contentType out; sw_contentEncoding := sw_contentEncoding out;
                  sw_terminalResult := sw_terminalResult out |} in
    _ ← emit GFlush;
    mret (out, EPlain <$> w.2)
  end.

Definition with_terminal (out : streamWriteResult) (res : PbResult) : streamWriteResult :=
  {| sw_bytesWritten := sw_bytesWritten out; sw_wroteBody := sw_wroteBody out;
     sw_contentType := sw_contentType out; sw_contentEncoding := sw_contentEncoding out;
     sw_terminalResult := Some res |}.

(** The new state, and whether the stream is done or the error. *)
Definition handleStreamMessage (out : streamWriteResult) (msg : option StreamResponse) :
    GM (streamWriteResult * result gerr bool) :=
  match msg with
  | Some (RespBegin ct ce) => mret (applyStreamBegin out ct ce, Ok false)
  | Some (RespChunk data) =>
    r ← writeStreamChunk out data;
    mret (r.1, match r.2 with Some e => Err e | None => Ok false end)
  | Some (RespResult res) => mret (with_terminal out res, Ok true)
  | Some (RespEnd _ _) | None => mret (out, Ok false)
  end.

(** The loop over [stream.Recv()]. *)
Fixpoint stream_loop (out : streamWriteResult) (msgs : list (option StreamResponse)) (ended : gerr) :
    GM (streamWriteResult * option gerr) :=
  match msgs with
  | [] => mret (out, finishStreamWrite out ended)
  | msg :: rest =>
    r ← handleStreamMessage out msg;
    match r.2 with
    | Err e => mret (r.1, Some e)
    | Ok true => mret (r.1, None)
    | Ok false => stream_loop r.1 rest ended
    end
  end.
Definition writeLCPStreamToHTTP (stream : Stream) : GM (streamWriteResult * option gerr) :=
  stream_loop newStreamWriteResult (rv_msgs stream) (rv_end stream).

(** ** handler_chat.go *)

Definition writeOpenAIErrorIfNoBody (wroteBody : bool) (status : Z) (message : string) : GM unit :=
  if wroteBody then mret tt else writeOpenAIError status "server_error" message.

(** The message of a result that is not ok. *)
Definition non_ok_message (res : PbResult) : string := or_kept (pr_Message res) providerReturnedNonOKStatusMessage.

Definition validateStreamedTerminalResult (streamed : streamWriteResult) : GM (option PbResult) :=
  match sw_terminalResult streamed with
  | None =>
    _ ← writeOpenAIErrorIfNoBody (sw_wroteBody streamed) 502 providerReturnedNoResultMessage; mret None
  | Some res =>
    if bool_decide (pr_Status res = STATUS_OK) then mret (Some res)
    else _ ← writeOpenAIErrorIfNoBody (sw_wroteBody streamed) 502 (non_ok_message res); mret None
  end.

Definition handleOpenAIStreaming (peerID : string) (jobID : bytes) (quote : option ReqJobStore.PbTerms) : GM unit :=
  stream ← acceptAndExecuteStream peerID jobID;
  match stream with
  | Err e => _ ← cancelJobIfRequestCanceled peerID jobID e; write_grpc_error e
  | Ok stream =>
    _ ← writeLCPHeaders peerID jobID quote;
    streamed ← writeLCPStreamToHTTP stream;
    match streamed.2 with
    | Some e =>
      _ ← cancelJobIfRequestCanceled peerID jobID e;
      if sw_wroteBody streamed.1 then mret tt else write_grpc_error e
    | None => _ ← validateStreamedTerminalResult streamed.1; mret tt
    end
  end.

Definition acceptAndExecuteWithCancelOnFailure (peerID : string) (jobID : bytes) :
    GM (option (option PbResult)) :=
  r ← acceptAndExecute peerID jobID;
  match r with
  | Err e => _ ← cancelJobIfRequestCanceled peerID jobID e; _ ← write_grpc_error e; mret None
  | Ok res => mret (Some res)
  end.

Definition validateResult (res : option PbResult) : GM (option PbResult) :=
  match res with
  | None => reject 502 "server_error" providerReturnedNoResultMessage
  | Some res =>
    if bool_decide (pr_Status res = STATUS_OK) then mret (Some res)
    else reject 502 "server_error" (non_ok_message res)
  end.

Definition logAndWriteResult (peerID : string) (jobID : bytes) (quote : option ReqJobStore.PbTerms)
    (res : PbResult) : GM unit :=
  _ ← writeLCPHeaders peerID jobID quote;
  match unsupported_encoding (pr_ContentEncoding res) with
  | Some m => writeOpenAIError 502 "server_error" m
  | None => emit (GData 200 (or_kept (pr_ContentType res) "application/json; charset=utf-8") (pr_Result res))
  end.

Definition handleOpenAINonStreaming (peerID : string) (jobID : bytes) (quote : option ReqJobStore.PbTerms) : GM unit :=
  execResp ←? acceptAndExecuteWithCancelOnFailure peerID jobID;
  res ←? validateResult execResp;
  logAndWriteResult peerID jobID quote res.

Definition handleOpenAIPassthrough (kind : LCPTaskKind) (model : string) (reqBytes : bytes) (streaming : bool)
    (buildTask : string → bytes → GM (option Tasks.Task)) : GM unit :=
  peerID ←? resolvePeerForTaskKindAndModel kind model;
  task ←? buildTask model reqBytes;
  quote ←? requestQuoteAndValidatePrice peerID task;
  let jobID := quote_job quote in
  if streaming then handleOpenAIStreaming peerID jobID quote
  else handleOpenAINonStreaming peerID jobID quote.

(** Both builders check the same. *)
Definition built (spec : option Tasks.TaskSpec → Tasks.Spec) (model : string) (requestJSON : bytes) :
    result string Tasks.Task :=
  _ ← ensure (negb (bool_decide (TrimSpace model = ""%string))) "model is required"%string;
  _ ← ensure (negb (blen requestJSON =? 0)) "request body is required"%string;
  Ok {| Tasks.tk_Spec :=
          Some (spec (Some {| Tasks.ts_RequestJson := requestJSON; Tasks.ts_Params := Some model |})) |}.
Definition buildLCPOpenAIChatCompletionsV1Task : string → bytes → result string Tasks.Task :=
  built Tasks.OpenaiChatCompletionsV1.
Definition buildLCPOpenAIResponsesV1Task : string → bytes → result string Tasks.Task :=
  built Tasks.OpenaiResponsesV1.
(** The methods of the same names. *)
Definition buildTask_or_reject (build : string → bytes → result string Tasks.Task) (model : string)
    (reqBytes : bytes) : GM (option Tasks.Task) :=
  match build model reqBytes with
  | Err m => reject 400 "invalid_request_error" m
  | Ok task => mret (Some task)
  end.

(** ** request_json.go *)

Definition decodeJSONRequest {A} (unmarshal : bytes → result string A) (q : HttpRequest) : GM (option (bytes * A)) :=
  let enc := TrimSpace (hr_ContentEncoding q) in
  if negb (bool_decide (enc = ""%string)) && negb (equal_fold enc contentEncodingIdentity) then
    reject 415 "invalid_request_error"
      ("unsupported Content-Encoding: " +:+ fmt_q enc +:+ " (only " +:+ fmt_q contentEncodingIdentity +:+
       " is supported)")
  else
    match readRequestBodyBytes q with
    | Err BodyTooLarge => reject 413 "invalid_request_error" (body_text BodyTooLarge)
    | Err e => reject 400 "invalid_request_error" (body_text e)
    | Ok body =>
      match unmarshal body with
      | Err m => reject 400 "invalid_request_error" (TrimPrefix m "json: ")
      | Ok parsed => mret (Some (body, parsed))
      end
    end.

Definition validateModelField (model : string) : GM (option unit) :=
  let trimmed := TrimSpace model in
  if bool_decide (trimmed = ""%string) then reject 400 "invalid_request_error" "model is required"
  else if negb (bool_decide (trimmed = model)) then
    reject 400 "invalid_request_error" "model must not have leading/trailing whitespace"
  else mret (Some tt).

Definition decodeAndValidateChatRequest (q : HttpRequest) : GM (option (bytes * ChatCompletionsRequest)) :=
  decoded ← decodeJSONRequest gj_chat q;
  match decoded with
  | None => mret None
  | Some (body, parsed) =>
    valid ← validateModelField (cr_Model parsed);
    match valid with
    | None => mret None
    | Some _ =>
      if blen (cr_Messages parsed) =? 0 then reject 400 "invalid_request_error" "messages is required"
      else mret (Some (body, parsed))
    end
  end.

Definition decodeAndValidateResponsesRequest (q : HttpRequest) : GM (option (bytes * ResponsesRequest)) :=
  decoded ← decodeJSONRequest gj_responses q;
  match decoded with
  | None => mret None
  | Some (body, parsed) =>
    valid ← validateModelField (gr_Model parsed);
    match valid with
    | None => mret None
    | Some _ =>
      if input_missing (gr_Input parsed) then reject 400 "invalid_request_error" "input is required"
      else mret (Some (body, parsed))
    end
  end.

(** ** Handlers *)

Definition method_not_allowed : GM unit := writeOpenAIError 405 "invalid_request_error" "method not allowed".

Definition handleChatCompletions (q : HttpRequest) : GM unit :=
  if negb (bool_decide (hr_Method q = "POST"%string)) then method_not_allowed else
  req ←? decodeAndValidateChatRequest q;
  handleOpenAIPassthrough KIND_OPENAI_CHAT_COMPLETIONS_V1 (TrimSpace (cr_Model req.2)) req.1
    (default false (cr_Stream req.2)) (buildTask_or_reject buildLCPOpenAIChatCompletionsV1Task).

Definition handleResponses (q : HttpRequest) : GM unit :=
  if negb (bool_decide (hr_Method q = "POST"%string)) then method_not_allowed else
  req ←? decodeAndValidateResponsesRequest q;
  handleOpenAIPassthrough KIND_OPENAI_RESPONSES_V1 (TrimSpace (gr_Model req.2)) req.1
    (default false (gr_Stream req.2)) (buildTask_or_reject buildLCPOpenAIResponsesV1Task).

Definition discoverModels : GM (result gerr (gset string)) :=
  if negb (bool_decide (g_ModelAllowlist cfg = ∅)) then mret (Ok (g_ModelAllowlist cfg)) else
  peers ← listPeers;
  mret match peers with
       | Err e => Err e
       | Ok peers => Ok (collectModelsFromPeersForKinds peers
                           [KIND_OPENAI_CHAT_COMPLETIONS_V1; KIND_OPENAI_RESPONSES_V1])
       end.

Definition is_get_or_head (q : HttpRequest) : bool := bool_decide (hr_Method q ∈ ["GET"; "HEAD"]%string).

Definition handleModels (q : HttpRequest) : GM unit :=
  if negb (is_get_or_head q) then method_not_allowed else
  models ← discoverModels;
  match models with
  | Err e => writeOpenAIError (httpStatusFromGRPC e) "server_error" "failed to list models"
  | Ok models =>
    let ids := merge_sort PeerDir.string_le (set_range models) in
    created ← ask h_clock;
    emit (GJSON 200 (ModelsResponse "list"
      ((λ id, {| mi_ID := id; mi_Object := "model"; mi_Created := time_unix created; mi_OwnedBy := "lcp" |}) <$> ids)))
  end.

Definition handleHealthz (q : HttpRequest) : GM unit :=
  if negb (is_get_or_head q) then emit (GStatus 405) else
  _ ← emit (GHeader "Content-Type" "text/plain; charset=utf-8");
  emit (GText 200 (string_of_bytes (bytes_of_string "ok" ++ [Byte.x0a]))).

(** ** server.go *)

Definition authMiddleware (q : HttpRequest) (next : GM unit) : GM unit :=
  let deny message :=
    _ ← emit (GHeader "WWW-Authenticate"
                (string_of_bytes (bytes_of_string "Bearer realm=" ++ [Byte.x22] ++
                                  bytes_of_string "openai-serve" ++ [Byte.x22])));
    writeOpenAIError 401 "invalid_request_error" message in
  if bool_decide (g_APIKeys cfg = ∅) then next else
  match bearerToken (hr_Authorization q) with
  | None => deny "missing bearer token"%string
  | Some token => if bool_decide (token ∈ g_APIKeys cfg) then next else deny "invalid api key"%string
  end.

(** The routes of [newRouter]; what has none is answered by gin. *)
Definition serve (q : HttpRequest) : GM unit :=
  let route method path := bool_decide (hr_Method q = method) && bool_decide (hr_Path q = path) in
  if route "GET" "/healthz" || route "HEAD" "/healthz" then handleHealthz q
  else if route "GET" "/v1/models" || route "HEAD" "/v1/models" then authMiddleware q (handleModels q)
  else if route "POST" "/v1/chat/completions" then authMiddleware q (handleChatCompletions q)
  else if route "POST" "/v1/responses" then authMiddleware q (handleResponses q)
  else emit GNoRoute.
End server.
End Httpapi.
