(* ===== verification/HttpapiProofs.v ===== *)
(** * openai-serve: proofs

    With the program logic of [Trace.v]: what the gateway pays for, whom it
    serves, how often it answers, what it streams, where it routes. *)

From stdpp Require Import pretty.
From S2P Require Import Prelude GoStd TlvLib Wire Stores Replay JobStore PeerDir Terms Pricing Validation Provider ResultSend Lightning Tasks ReqJobStore Waiter Requester Backend Daemon Gateway Httpapi Trace.

Module HttpapiProofs.
Import Gateway Httpapi.

(** ** Kinds of events *)

Definition executes (e : gev) : option AcceptRequest :=
  match e with GExecute r _ => Some r | GExecuteStream r _ => Some r | _ => None end.
(** The events that are calls of the daemon. *)
Definition calls_daemon (e : gev) : bool :=
  match e with GListPeers _ | GQuote _ _ | GExecute _ _ | GExecuteStream _ _ | GCancel _ => true | _ => false end.
Definition no_exec (e : gev) : Prop := executes e = None.

Section proofs.
Context {F : Fmt} {GE : GatewayEnv} {GJ : GatewayJson} {SR : SetRange}.
Context (cfg : Config).

(** The token of the request is one of the keys, if there are keys. *)
Definition authorized (q : HttpRequest) : Prop :=
  g_APIKeys cfg = ∅ ∨ ∃ token, bearerToken (hr_Authorization q) = Some token ∧ token ∈ g_APIKeys cfg.

#[export] Instance authorized_dec q : Decision (authorized q).
Proof.
  unfold authorized. destruct (bearerToken (hr_Authorization q)) as [tok|].
  - destruct (decide (g_APIKeys cfg = ∅)); [left; by left|].
    destruct (decide (tok ∈ g_APIKeys cfg)); [left; right; eauto|].
    right. intros [?|(tok' & [= <-] & ?)]; done.
  - destruct (decide (g_APIKeys cfg = ∅)); [left; by left|]. right. intros [?|(? & ? & ?)]; done.
Defined.

(** ** What is paid for *)

(** The kind, the model and the request bytes of a task. *)
Definition task_view (task : Tasks.Task) : option (LCPTaskKind * string * bytes) :=
  match Tasks.tk_Spec task with
  | Some (Tasks.OpenaiChatCompletionsV1 (Some {| Tasks.ts_RequestJson := b; Tasks.ts_Params := Some m |})) =>
    Some (KIND_OPENAI_CHAT_COMPLETIONS_V1, m, b)
  | Some (Tasks.OpenaiResponsesV1 (Some {| Tasks.ts_RequestJson := b; Tasks.ts_Params := Some m |})) =>
    Some (KIND_OPENAI_RESPONSES_V1, m, b)
  | _ => None
  end.

(** The facts about an execution [r]: the events before it and what was checked. *)
Definition justified (kind : LCPTaskKind) (model : string) (body : bytes) (pre : list gev) (r : AcceptRequest) : Prop :=
  ∃ peers task terms,
    pre = [GListPeers (Ok peers); GQuote {| rq_PeerId := ar_PeerId r; rq_Task := Some task |} (Ok terms)] ∧
    validateModelForTaskKind cfg model kind peers = Ok tt ∧
    resolvePeerIDForTaskKind cfg model kind peers = Ok (ar_PeerId r) ∧
    task_view task = Some (kind, model, body) ∧
    ar_JobId r = quote_job terms ∧
    ar_PayInvoice r = true ∧
    (0 < g_MaxPriceMsat cfg → quote_price terms ≤ g_MaxPriceMsat cfg).

(** Nothing is executed, or one thing is and it is justified. *)
Definition paid_shape (kind : LCPTaskKind) (model : string) (body : bytes) (evs : list gev) : Prop :=
  Forall no_exec evs ∨
  ∃ pre e r rest, evs = pre ++ e :: rest ∧ executes e = Some r ∧ justified kind model body pre r ∧
    Forall no_exec rest.

(** What is written without answering the request. *)
Definition http_event (e : gev) : bool :=
  match e with GHeader _ _ | GStatus _ | GWrite _ _ _ | GFlush => true | _ => false end.

Lemma cancel_events (R : gev → Prop) peerID jobID err :
  (∀ c, R (GCancel c)) → all_events R (cancelJobIfRequestCanceled peerID jobID err).
Proof.
  intros HR. unfold cancelJobIfRequestCanceled, shouldCancelAfterExecuteError, cancelJobAsync.
  repeat all_events_step. apply HR.
Qed.

Lemma headers_events (R : gev → Prop) peerID jobID quote :
  (∀ e, http_event e = true → R e) → all_events R (writeLCPHeaders peerID jobID quote).
Proof. intros HR. unfold writeLCPHeaders. repeat all_events_step; by apply HR. Qed.

Lemma loop_events (R : gev → Prop) msgs : (∀ e, http_event e = true → R e) →
  ∀ out ended, all_events R (stream_loop out msgs ended).
Proof.
  intros HR. induction msgs as [|msg msgs IH]; intros out ended; cbn [stream_loop]; [apply all_ret|].
  unfold handleStreamMessage, writeStreamChunk, ensureStreamWriteReady, writeSSEHeaders, httpWrite.
  repeat first [all_events_step | apply IH]; by apply HR.
Qed.

(** After the call that executes, nothing else does. *)
Lemma streaming_executes_once peerID jobID quote :
  gpost (handleOpenAIStreaming peerID jobID quote) (λ evs _,
    ∃ ans rest, evs = GExecuteStream (accept_req peerID jobID) ans :: rest ∧ Forall no_exec rest).
Proof.
  unfold handleOpenAIStreaming, acceptAndExecuteStream.
  eapply gpost_bind; [apply (gpost_rpc _ _ (λ evs a, evs = [GExecuteStream (accept_req peerID jobID) a])); done|].
  intros evs ans ->. apply (gpost_all no_exec).
  - unfold validateStreamedTerminalResult, writeOpenAIErrorIfNoBody, write_grpc_error, writeOpenAIError.
    repeat first [all_events_step | apply cancel_events | apply headers_events | apply loop_events]; try done; by intros [].
  - intros rest _ H. by exists ans, rest.
Qed.

Lemma non_streaming_executes_once peerID jobID quote :
  gpost (handleOpenAINonStreaming peerID jobID quote) (λ evs _,
    ∃ ans rest, evs = GExecute (accept_req peerID jobID) ans :: rest ∧ Forall no_exec rest).
Proof.
  unfold handleOpenAINonStreaming, acceptAndExecuteWithCancelOnFailure, acceptAndExecute.
  eapply (gpost_and_then _ _ (λ evs _, ∃ ans rest,
    evs = GExecute (accept_req peerID jobID) ans :: rest ∧ Forall no_exec rest)); [|done|].
  - eapply gpost_bind; [apply (gpost_rpc _ _ (λ evs a, evs = [GExecute (accept_req peerID jobID) a])); done|].
    intros evs ans ->. apply (gpost_all no_exec); [|intros rest _ H; by exists ans, rest].
    unfold write_grpc_error, writeOpenAIError. repeat first [all_events_step | apply cancel_events]; done.
  - intros evs res (ans & rest & -> & Hrest). apply (gpost_all no_exec).
    + unfold validateResult, logAndWriteResult, reject, writeOpenAIError.
      repeat first [all_events_step | apply headers_events]; try done; by intros [].
    + intros rest' _ H. exists ans, (rest ++ rest'). split; [done|by apply Forall_app].
Qed.

(** The first step: the peers are listed, the model is checked and the peer resolved. *)
Lemma resolve_post kind model :
  gpost (resolvePeerForTaskKindAndModel cfg kind model) (λ evs p,
    Forall no_exec evs ∧ ∀ peerID, p = Some peerID → ∃ peers, evs = [GListPeers (Ok peers)] ∧
      validateModelForTaskKind cfg model kind peers = Ok tt ∧
      resolvePeerIDForTaskKind cfg model kind peers = Ok peerID).
Proof.
  intros t. unfold resolvePeerForTaskKindAndModel, listPeers, rpc, reject, write_grpc_error, writeOpenAIError, emit.
  cbv [mbind TM_bind mret TM_ret]. cbn. destruct (l_ListLCPPeers t) as [peers|e]; cbn; [|by split; [repeat constructor|]].
  destruct (validateModelForTaskKind cfg model kind peers) as [[]|m] eqn:Hv; cbn; [|by split; [repeat constructor|]].
  destruct (resolvePeerIDForTaskKind cfg model kind peers) as [p|m] eqn:Hp; cbn; split; try (by repeat constructor).
  intros peerID [= ->]. by exists peers.
Qed.

Lemma quote_post peerID task :
  gpost (requestQuoteAndValidatePrice cfg peerID task) (λ evs quote,
    Forall no_exec evs ∧ ∀ terms, quote = Some terms →
      evs = [GQuote {| rq_PeerId := peerID; rq_Task := Some task |} (Ok terms)] ∧
      (0 < g_MaxPriceMsat cfg → quote_price terms ≤ g_MaxPriceMsat cfg)).
Proof.
  intros t. unfold requestQuoteAndValidatePrice, requestQuote, rpc, reject, write_grpc_error, writeOpenAIError, emit.
  cbv [mbind TM_bind mret TM_ret]. cbn. destruct (l_RequestQuote t _) as [terms|e]; cbn; [|by split; [repeat constructor|]].
  destruct ((0 <? g_MaxPriceMsat cfg) && (g_MaxPriceMsat cfg <? quote_price terms)) eqn:Hmax; cbn;
    (split; [by repeat constructor|]); [done|].
  intros terms' [= <-]. split; [done|]. lia.
Qed.

Lemma built_view kind spec model body task :
  (∀ s, task_view {| Tasks.tk_Spec := Some (spec (Some s)) |} = (λ m, (kind, m, Tasks.ts_RequestJson s)) <$> Tasks.ts_Params s) →
  built spec model body = Ok task → task_view task = Some (kind, model, body).
Proof. intros Hs H. unfold built in H. invert_ok. subst task. by rewrite Hs. Qed.

Lemma build_post kind build model body :
  (∀ task, build model body = Ok task → task_view task = Some (kind, model, body)) →
  gpost (buildTask_or_reject build model body) (λ evs o,
    Forall no_exec evs ∧ ∀ task, o = Some task → evs = [] ∧ task_view task = Some (kind, model, body)).
Proof.
  intros Hb t. unfold buildTask_or_reject. destruct (build model body) as [task|m]; cbn.
  - split; [constructor|]. intros ? [= <-]. split; [done|by apply Hb].
  - split; [by repeat constructor|done].
Qed.

Lemma passthrough_paid kind model body streaming build :
  (∀ task, build model body = Ok task → task_view task = Some (kind, model, body)) →
  gpost (handleOpenAIPassthrough cfg kind model body streaming (buildTask_or_reject build))
    (λ evs _, paid_shape kind model body evs).
Proof.
  intros Hb. unfold handleOpenAIPassthrough.
  eapply gpost_and_then; [apply resolve_post|intros evs [? _]; by left|].
  intros evs1 peerID [_ H1]. destruct (H1 _ eq_refl) as (peers & -> & Hv & Hr).
  eapply gpost_and_then; [by apply build_post|intros evs [? _]; left; by constructor|].
  intros evs2 task [_ H2]. destruct (H2 _ eq_refl) as [-> Hview].
  eapply gpost_and_then; [apply quote_post|intros evs [? _]; left; by constructor|].
  intros evs3 terms [_ H3]. destruct (H3 _ eq_refl) as [-> Hprice].
  assert (Hj : justified kind model body
    [GListPeers (Ok peers); GQuote {| rq_PeerId := peerID; rq_Task := Some task |} (Ok terms)]
    (accept_req peerID (quote_job terms))) by (exists peers, task, terms; by split_and!).
  destruct streaming.
  - eapply gpost_conseq; [apply streaming_executes_once|]. intros evs _ (ans & rest & -> & Hrest).
    right. eexists _, _, _, rest. split_and!; [|..|exact Hj|done]; done.
  - eapply gpost_conseq; [apply non_streaming_executes_once|]. intros evs _ (ans & rest & -> & Hrest).
    right. eexists _, _, _, rest. split_and!; [|..|exact Hj|done]; done.
Qed.

(** ** Requests *)

(** The request asks for a task of this kind: what its body decodes to. *)
Definition requested (q : HttpRequest) (kind : LCPTaskKind) (model : string) (body : bytes) : Prop :=
  readRequestBodyBytes q = Ok body ∧ TrimSpace model = model ∧ model ≠ ""%string ∧
  match kind with
  | KIND_OPENAI_CHAT_COMPLETIONS_V1 =>
    ∃ parsed, gj_chat body = Ok parsed ∧ cr_Model parsed = model ∧ cr_Messages parsed ≠ []
  | KIND_OPENAI_RESPONSES_V1 =>
    ∃ parsed, gj_responses body = Ok parsed ∧ gr_Model parsed = model ∧ input_missing (gr_Input parsed) = false
  end.

(** A step either refuses the request with one JSON error or leaves nothing. *)
Definition refuses {A} (m : GM (option A)) (P : A → Prop) : Prop :=
  gpost m (λ evs o, match o with
    | None => ∃ status message typ, evs = [GJSON status (ErrorResponse message typ)]
    | Some a => evs = [] ∧ P a
    end).

Lemma refuses_reject {A} status typ message (P : A → Prop) : refuses (reject status typ message) P.
Proof. intros t. by exists status, message, typ. Qed.

Lemma refuses_ret {A} (a : A) (P : A → Prop) : P a → refuses (mret (Some a)) P.
Proof. by intros H t. Qed.

Lemma refuses_bind {A B} (m : GM (option A)) (k : A → GM (option B)) P Q :
  refuses m P → (∀ a, P a → refuses (k a) Q) →
  refuses (r ← m; match r with None => mret None | Some a => k a end) Q.
Proof.
  intros Hm Hk. eapply gpost_bind; [exact Hm|]. intros evs [a|].
  - intros [-> Ha]. apply (Hk a Ha).
  - intros H. apply gpost_ret. by rewrite app_nil_r.
Qed.

Lemma decode_refuses {A} (unmarshal : bytes → result string A) q :
  refuses (decodeJSONRequest unmarshal q) (λ '(body, parsed),
    readRequestBodyBytes q = Ok body ∧ unmarshal body = Ok parsed).
Proof.
  unfold decodeJSONRequest. destruct (_ && _); [apply refuses_reject|].
  destruct (readRequestBodyBytes q) as [body|[|m]]; try apply refuses_reject.
  destruct (unmarshal body) as [parsed|m] eqn:Hu; [by apply refuses_ret|apply refuses_reject].
Qed.

Lemma model_refuses model : refuses (validateModelField model) (λ _, TrimSpace model = model ∧ model ≠ ""%string).
Proof.
  unfold validateModelField. case_bool_decide as H1; [apply refuses_reject|].
  case_bool_decide as H2; cbn; [|apply refuses_reject]. apply refuses_ret. split; congruence.
Qed.

Lemma chat_request_refuses q :
  refuses (decodeAndValidateChatRequest q) (λ '(body, parsed),
    requested q KIND_OPENAI_CHAT_COMPLETIONS_V1 (cr_Model parsed) body).
Proof.
  unfold decodeAndValidateChatRequest. eapply (refuses_bind _ (λ '(body, parsed), _)); [apply decode_refuses|].
  intros [body parsed] [Hb Hp]. eapply (refuses_bind _ (λ _, _)); [apply model_refuses|].
  intros _ [Hm Hne]. destruct (Z.eqb_spec (blen (cr_Messages parsed)) 0) as [H|H]; [apply refuses_reject|].
  apply refuses_ret. split_and!; try done. exists parsed. split_and!; try done.
  intros He. by rewrite He in H.
Qed.

Lemma responses_request_refuses q :
  refuses (decodeAndValidateResponsesRequest q) (λ '(body, parsed),
    requested q KIND_OPENAI_RESPONSES_V1 (gr_Model parsed) body).
Proof.
  unfold decodeAndValidateResponsesRequest. eapply (refuses_bind _ (λ '(body, parsed), _)); [apply decode_refuses|].
  intros [body parsed] [Hb Hp]. eapply (refuses_bind _ (λ _, _)); [apply model_refuses|].
  intros _ [Hm Hne]. destruct (input_missing (gr_Input parsed)) eqn:Hi; [apply refuses_reject|].
  apply refuses_ret. split_and!; try done. by exists parsed.
Qed.

(** A handler whose request was refused made no call; otherwise it goes on. *)
Lemma refuses_then {A} (m : GM (option A)) (k : A → GM unit) P (Q : list gev → Prop) :
  refuses m P →
  (∀ status message typ, Q [GJSON status (ErrorResponse message typ)]) →
  (∀ a, P a → gpost (k a) (λ evs _, Q evs)) →
  gpost (and_then m k) (λ evs _, Q evs).
Proof.
  intros Hm Hn Hs. eapply gpost_and_then; [exact Hm| |].
  - intros evs (? & ? & ? & ->). apply Hn.
  - intros evs a [-> Ha]. by apply Hs.
Qed.

Lemma requested_trimmed q kind model body : requested q kind model body → TrimSpace model = model.
Proof. by intros (_ & ? & _). Qed.

(** What the handlers of the two endpoints share: a request is refused, or the
    passthrough runs on what it asks for. *)
Lemma chat_handler q (Q : list gev → Prop) :
  (∀ status message typ, Q [GJSON status (ErrorResponse message typ)]) →
  (∀ model body streaming, requested q KIND_OPENAI_CHAT_COMPLETIONS_V1 model body →
    gpost (handleOpenAIPassthrough cfg KIND_OPENAI_CHAT_COMPLETIONS_V1 model body streaming
             (buildTask_or_reject buildLCPOpenAIChatCompletionsV1Task)) (λ evs _, Q evs)) →
  gpost (handleChatCompletions cfg q) (λ evs _, Q evs).
Proof.
  intros Hn Hs. unfold handleChatCompletions, method_not_allowed, writeOpenAIError.
  destruct (negb _); [apply gpost_emit, Hn|]. eapply refuses_then; [apply chat_request_refuses|done|].
  intros [body parsed] Hr. cbn. rewrite (requested_trimmed _ _ _ _ Hr). by apply Hs.
Qed.

Lemma responses_handler q (Q : list gev → Prop) :
  (∀ status message typ, Q [GJSON status (ErrorResponse message typ)]) →
  (∀ model body streaming, requested q KIND_OPENAI_RESPONSES_V1 model body →
    gpost (handleOpenAIPassthrough cfg KIND_OPENAI_RESPONSES_V1 model body streaming
             (buildTask_or_reject buildLCPOpenAIResponsesV1Task)) (λ evs _, Q evs)) →
  gpost (handleResponses cfg q) (λ evs _, Q evs).
Proof.
  intros Hn Hs. unfold handleResponses, method_not_allowed, writeOpenAIError.
  destruct (negb _); [apply gpost_emit, Hn|]. eapply refuses_then; [apply responses_request_refuses|done|].
  intros [body parsed] Hr. cbn. rewrite (requested_trimmed _ _ _ _ Hr). by apply Hs.
Qed.

Lemma chat_task_view model body task :
  buildLCPOpenAIChatCompletionsV1Task model body = Ok task →
  task_view task = Some (KIND_OPENAI_CHAT_COMPLETIONS_V1, model, body).
Proof. apply built_view. by intros [b [m|]]. Qed.

Lemma responses_task_view model body task :
  buildLCPOpenAIResponsesV1Task model body = Ok task →
  task_view task = Some (KIND_OPENAI_RESPONSES_V1, model, body).
Proof. apply built_view. by intros [b [m|]]. Qed.

(** ** The server *)

Definition deny_trace (message : string) : list gev :=
  [GHeader "WWW-Authenticate"
     (string_of_bytes (bytes_of_string "Bearer realm=" ++ [Byte.x22] ++ bytes_of_string "openai-serve" ++ [Byte.x22]));
   GJSON 401 (ErrorResponse message "invalid_request_error")].

Lemma auth_post q next (Q : list gev → Prop) :
  (∀ message, Q (deny_trace message)) → (authorized q → gpost next (λ evs _, Q evs)) →
  gpost (authMiddleware cfg q next) (λ evs _, Q evs).
Proof.
  intros Hd Hn. unfold authMiddleware. case_bool_decide as Hk; [apply Hn; by left|].
  destruct (bearerToken (hr_Authorization q)) as [tok|] eqn:Hb; [|intros t; apply (Hd _)].
  case_bool_decide; [apply Hn; right; eauto|intros t; apply (Hd _)].
Qed.

(** Case analysis on the route. *)
Lemma serve_post q (Q : list gev → Prop) :
  Q [GNoRoute] → (is_get_or_head q = true → gpost (handleHealthz q) (λ evs _, Q evs)) →
  (∀ message, Q (deny_trace message)) →
  (authorized q → gpost (handleModels cfg q) (λ evs _, Q evs)) →
  (authorized q → gpost (handleChatCompletions cfg q) (λ evs _, Q evs)) →
  (authorized q → gpost (handleResponses cfg q) (λ evs _, Q evs)) →
  gpost (serve cfg q) (λ evs _, Q evs).
Proof.
  intros Hnone Hhealth Hd Hm Hc Hr. unfold serve.
  destruct (bool_decide (hr_Method q = "GET"%string) && bool_decide (hr_Path q = "/healthz"%string)
    || bool_decide (hr_Method q = "HEAD"%string) && bool_decide (hr_Path q = "/healthz"%string)) eqn:Hroute.
  { apply Hhealth. apply bool_decide_eq_true. apply orb_true_iff in Hroute as [?|?]; bool_to_prop; set_solver. }
  clear Hroute. destruct (_ || _); [by apply auth_post|].
  destruct (_ && _); [by apply auth_post|]. destruct (_ && _); [by apply auth_post|by apply gpost_emit].
Qed.

Lemma models_events (R : gev → Prop) q :
  (∀ ans, R (GListPeers ans)) → (∀ status body, R (GJSON status body)) → all_events R (handleModels cfg q).
Proof.
  intros. unfold handleModels, method_not_allowed, discoverModels, listPeers, writeOpenAIError.
  repeat all_events_step; auto.
Qed.

Lemma health_events R q :
  (∀ name v, R (GHeader name v)) → (∀ st, R (GStatus st)) → (∀ st text, R (GText st text)) →
  all_events R (handleHealthz q).
Proof. intros. unfold handleHealthz. repeat all_events_step; auto. Qed.

(** What the server executes is what an authorized request asked for. *)
Lemma serve_paid q :
  gpost (serve cfg q) (λ evs _, Forall no_exec evs ∨
    authorized q ∧ ∃ kind model body, requested q kind model body ∧ paid_shape kind model body evs).
Proof.
  apply (serve_post q (λ evs, Forall no_exec evs ∨ authorized q ∧ _)).
  - left. by repeat constructor.
  - intros _. eapply gpost_all; [by apply (health_events no_exec)|by left].
  - left. by repeat constructor.
  - intros _. eapply gpost_all; [by apply (models_events no_exec)|by left].
  - intros Ha. apply (chat_handler q (λ evs, Forall no_exec evs ∨ authorized q ∧ _));
      [left; by repeat constructor|].
    intros model body streaming Hr. eapply gpost_conseq; [apply passthrough_paid, chat_task_view|].
    right. eauto 10.
  - intros Ha. apply (responses_handler q (λ evs, Forall no_exec evs ∨ authorized q ∧ _));
      [left; by repeat constructor|].
    intros model body streaming Hr. eapply gpost_conseq; [apply passthrough_paid, responses_task_view|].
    right. eauto 10.
Qed.

Lemma exec_absurd pre e rest r : Forall no_exec (pre ++ e :: rest) → executes e = Some r → False.
Proof. rewrite Forall_app, Forall_cons. unfold no_exec. intros (_ & ? & _). congruence. Qed.

(** The event that executes splits the trace in one way. *)
Lemma exec_split pre e rest pre' e' rest' :
  pre ++ e :: rest = pre' ++ e' :: rest' → executes e ≠ None → Forall no_exec pre' → Forall no_exec rest' →
  pre = pre' ∧ e = e' ∧ rest = rest'.
Proof.
  revert pre'. induction pre as [|x pre IH]; intros [|x' pre'] Heq He Hp Hr; simplify_eq/=; try done.
  - by inv Hp.
  - apply Forall_app in Hr as [_ Hr]. by inv Hr.
  - inv Hp. destruct (IH pre') as (-> & -> & ->); done.
Qed.

Lemma execution_justified q pre e rest r :
  trace (serve cfg q) = pre ++ e :: rest → executes e = Some r →
  authorized q ∧
  (∃ kind model body, requested q kind model body ∧ justified kind model body pre r) ∧
  Forall no_exec pre ∧ Forall no_exec rest.
Proof.
  intros Ht He. destruct (serve_paid q 0%nat) as [Hall|(Ha & kind & model & body & Hreq & Hs)].
  - unfold trace in Ht. rewrite Ht in Hall. by destruct (exec_absurd _ _ _ _ Hall He).
  - unfold trace in Ht. rewrite Ht in Hs. destruct Hs as [Hall|(pre' & e' & r' & rest' & Heq & He' & Hj & Hrest)].
    + by destruct (exec_absurd _ _ _ _ Hall He).
    + assert (Forall no_exec pre') by (destruct Hj as (? & ? & ? & -> & _); by repeat constructor).
      apply exec_split in Heq as (-> & -> & ->); [|by rewrite He|done..]. rewrite He in He'.
      injection He' as <-. by split_and!; eauto.
Qed.

(** Whatever the daemon answers: when the gateway has a job executed (and paid),
    the request carried an accepted key (if keys are configured), its body is the
    request of the task byte for byte, the peers were listed and the job was quoted
    just before by the peer it is routed to, at a price within the configured limit;
    nothing else is executed for the request. *)
Theorem gateway_execution_justified q pre e rest r :
  trace (serve cfg q) = pre ++ e :: rest → executes e = Some r →
  authorized q ∧
  (∃ kind model body, requested q kind model body ∧ justified kind model body pre r) ∧
  Forall no_exec pre ∧ Forall no_exec rest.
Proof. apply execution_justified. Qed.
End proofs.
End HttpapiProofs.
