(* ===== verification/HttpapiStream.v ===== *)
(** * openai-serve: what the client receives

    A streamed body is the concatenation of the chunks the daemon sent, and every
    request is answered once: by one complete response, or by a streamed body that no
    error is appended to. *)

From stdpp Require Import pretty.
From S2P Require Import Prelude GoStd TlvLib Wire Stores Replay JobStore PeerDir Terms Pricing Validation Provider ResultSend Lightning Tasks ReqJobStore Waiter Requester Backend Daemon Gateway Httpapi HttpapiProofs Trace.

Module HttpapiStream.
Import Gateway Httpapi HttpapiProofs.

(** ** Reference definitions *)

(** The bytes and the result of a stream, up to its first result. *)
Fixpoint chunk_data (msgs : list (option StreamResponse)) : bytes :=
  match msgs with
  | [] => []
  | Some (RespResult _) :: _ => []
  | Some (RespChunk data) :: rest => data ++ chunk_data rest
  | _ :: rest => chunk_data rest
  end.
Fixpoint terminal_of (msgs : list (option StreamResponse)) : option PbResult :=
  match msgs with
  | [] => None
  | Some (RespResult res) :: _ => Some res
  | _ :: rest => terminal_of rest
  end.

(** The bytes given to the connection, and how many of them it took. *)
Definition written (evs : list gev) : bytes :=
  evs ≫= λ e, match e with GWrite data _ _ => data | _ => [] end.
Fixpoint taken (evs : list gev) : Z :=
  match evs with
  | [] => 0
  | GWrite _ n _ :: rest => n + taken rest
  | _ :: rest => taken rest
  end.

Definition is_write (e : gev) : bool := match e with GWrite _ _ _ => true | _ => false end.
(** The events that are a whole response. *)
Definition is_reply (e : gev) : bool :=
  match e with GJSON _ _ | GData _ _ _ | GText _ _ | GNoRoute => true | _ => false end.
Definition has_write (evs : list gev) : bool := existsb is_write evs.

Lemma written_app evs evs' : written (evs ++ evs') = written evs ++ written evs'.
Proof. apply bind_app. Qed.
Lemma taken_app evs evs' : taken (evs ++ evs') = taken evs + taken evs'.
Proof. induction evs as [|[] evs IH]; simpl; lia. Qed.
Lemma has_write_app evs evs' : has_write (evs ++ evs') = has_write evs || has_write evs'.
Proof. apply existsb_app. Qed.

Section stream.
Context {F : Fmt} {GE : GatewayEnv}.

Definition no_reply (e : gev) : Prop := is_reply e = false.

(** What a chunk leaves: it is written, or it is empty, or the encoding is refused. *)
Lemma chunk_post out data :
  gpost (writeStreamChunk out data) (λ evs r,
    Forall no_reply evs ∧
    sw_wroteBody r.1 = sw_wroteBody out || has_write evs ∧
    sw_bytesWritten r.1 = sw_bytesWritten out + taken evs ∧
    sw_terminalResult r.1 = sw_terminalResult out ∧
    sw_contentEncoding r.1 = sw_contentEncoding out ∧
    (written evs = data ∨ written evs = [] ∧ r.2 ≠ None)).
Proof.
  intros t. unfold writeStreamChunk, ensureStreamWriteReady, writeSSEHeaders, httpWrite.
  destruct (Z.eqb_spec (blen data) 0) as [H0|H0].
  - apply blen_zero in H0 as ->. cbn. rewrite orb_false_r, Z.add_0_r. by split_and!; auto; left.
  - destruct (sw_wroteBody out) eqn:Hw; [|destruct (unsupported_encoding _)]; gm_run; rewrite ?app_nil_r, ?Z.add_0_r.
    all: split_and!; try (by repeat constructor); auto; by right.
Qed.

Definition msg_data (msg : option StreamResponse) : bytes :=
  match msg with Some (RespChunk data) => data | _ => [] end.
Definition msg_result (msg : option StreamResponse) : option PbResult :=
  match msg with Some (RespResult res) => Some res | _ => None end.

Lemma chunk_data_cons msg msgs : msg_result msg = None → chunk_data (msg :: msgs) = msg_data msg ++ chunk_data msgs.
Proof. by destruct msg as [[]|]. Qed.
Lemma terminal_of_cons msg msgs : msg_result msg = None → terminal_of (msg :: msgs) = terminal_of msgs.
Proof. by destruct msg as [[]|]. Qed.

Lemma message_post out msg :
  gpost (handleStreamMessage out msg) (λ evs r,
    Forall no_reply evs ∧
    sw_wroteBody r.1 = sw_wroteBody out || has_write evs ∧
    sw_bytesWritten r.1 = sw_bytesWritten out + taken evs ∧
    match r.2 with
    | Ok true => is_Some (msg_result msg) ∧ written evs = [] ∧ sw_terminalResult r.1 = msg_result msg
    | Ok false => msg_result msg = None ∧ written evs = msg_data msg ∧ sw_terminalResult r.1 = sw_terminalResult out
    | Err _ => msg_result msg = None ∧ written evs `prefix_of` msg_data msg
    end).
Proof.
  unfold handleStreamMessage. destruct msg as [[ct ce|data|h l|res]|];
    try (apply gpost_ret; cbn; rewrite orb_false_r, Z.add_0_r; by split_and!).
  eapply gpost_bind; [apply chunk_post|]. intros evs [out' [e|]] (H1 & H2 & H3 & H4 & _ & H5); apply gpost_ret;
    rewrite app_nil_r; cbn in *; split_and!; try done.
  - destruct H5 as [->|[-> _]]; [done|apply prefix_nil].
  - by destruct H5 as [->|[_ ?]].
Qed.

(** The loop, from any state without a result. *)
Lemma loop_post msgs : ∀ out ended, sw_terminalResult out = None →
  gpost (stream_loop out msgs ended) (λ evs r,
    Forall no_reply evs ∧
    sw_wroteBody r.1 = sw_wroteBody out || has_write evs ∧
    sw_bytesWritten r.1 = sw_bytesWritten out + taken evs ∧
    written evs `prefix_of` chunk_data msgs ∧
    (r.2 = None → written evs = chunk_data msgs ∧ is_Some (terminal_of msgs) ∧
                  sw_terminalResult r.1 = terminal_of msgs)).
Proof.
  induction msgs as [|msg msgs IH]; intros out ended Hout; cbn [stream_loop].
  - apply gpost_ret. cbn. rewrite orb_false_r, Z.add_0_r. split_and!; try done.
    unfold finishStreamWrite. rewrite Hout. by destruct ended.
  - eapply gpost_bind; [apply message_post|]. intros evs [out' [[]|e]] (H1 & H2 & H3 & H4); cbn [fst snd] in *.
    + destruct H4 as ([res Hres] & Hw & Ht). destruct msg as [[]|]; try done. apply gpost_ret. cbn in *.
      rewrite app_nil_r, Hw. by split_and!.
    + destruct H4 as (Hm & Hw & Ht). eapply gpost_conseq; [apply IH; congruence|].
      intros evs' r (K1 & K2 & K3 & K4 & K5).
      rewrite has_write_app, taken_app, written_app, orb_assoc, <-H2, Forall_app, chunk_data_cons, terminal_of_cons, Hw
        by done.
      split_and!; try done; [lia|by apply prefix_app|]. intros Hr. by destruct (K5 Hr) as (-> & ? & ?).
    + destruct H4 as [Hm Hw]. apply gpost_ret. rewrite app_nil_r, chunk_data_cons by done.
      split_and!; try done. by apply prefix_app_r.
Qed.

(** ** Streams that succeed *)

(** No message announces another encoding than identity. *)
Definition encodings_ok (msgs : list (option StreamResponse)) : Prop :=
  ∀ ct ce, Some (RespBegin ct ce) ∈ msgs → unsupported_encoding ce = None.

Lemma unsupported_or_kept ce kept :
  unsupported_encoding ce = None → unsupported_encoding kept = None → unsupported_encoding (or_kept ce kept) = None.
Proof.
  intros Hce Hk. unfold or_kept. case_bool_decide; [done|]. unfold unsupported_encoding in *. by rewrite TrimSpace_idemp.
Qed.

Context (Hwrite : ∀ t data, (h_write t data).2 = None).

Lemma chunk_succeeds out data :
  unsupported_encoding (sw_contentEncoding out) = None →
  gpost (writeStreamChunk out data) (λ _ r, r.2 = None ∧ sw_contentEncoding r.1 = sw_contentEncoding out).
Proof.
  intros He t. unfold writeStreamChunk, ensureStreamWriteReady, writeSSEHeaders, httpWrite. rewrite He.
  destruct (blen data =? 0); [done|]. destruct (sw_wroteBody out); gm_run; by rewrite Hwrite.
Qed.

Lemma loop_succeeds msgs : ∀ out ended,
  unsupported_encoding (sw_contentEncoding out) = None → encodings_ok msgs → is_Some (terminal_of msgs) →
  gpost (stream_loop out msgs ended) (λ _ r, r.2 = None).
Proof.
  induction msgs as [|msg msgs IH]; intros out ended He Hall Ht; cbn [stream_loop]; [by destruct Ht|].
  assert (Hall' : encodings_ok msgs) by (intros ct ce Hin; apply (Hall ct ce); by constructor).
  destruct msg as [[ct ce|data|h l|res]|]; cbn [handleStreamMessage].
  - eapply (gpost_bind _ _ (λ _ r, r = (applyStreamBegin out ct ce, Ok false))); [by apply gpost_ret|].
    intros _ r ->. apply IH; [|done..]. apply unsupported_or_kept; [|done]. apply (Hall ct ce). constructor.
  - eapply (gpost_bind _ _ (λ _ r, r.2 = Ok false ∧ sw_contentEncoding r.1 = sw_contentEncoding out)).
    + eapply gpost_bind; [by apply chunk_succeeds|]. intros evs [r o] [-> ?]. by apply gpost_ret.
    + intros _ [r o] [-> Hr]. cbn in *. apply IH; [congruence|done..].
  - eapply (gpost_bind _ _ (λ _ r, r = (out, Ok false))); [by apply gpost_ret|]. intros _ r ->. by apply IH.
  - eapply (gpost_bind _ _ (λ _ r, r.2 = Ok true)); [by apply gpost_ret|]. intros _ [r o] ->. by apply gpost_ret.
  - eapply (gpost_bind _ _ (λ _ r, r = (out, Ok false))); [by apply gpost_ret|]. intros _ r ->. by apply IH.
Qed.
End stream.

(** C27: What the gateway writes for a stream of the daemon is, in order and byte for
    byte, a prefix of the chunks before the stream's result; all of them when it
    reports no error, with that result; and it reports no error when the connection
    takes every write, no encoding but identity is announced and the stream has a
    result. *)
Theorem stream_passthrough {F : Fmt} {GE : GatewayEnv} s t :
  let r := writeLCPStreamToHTTP s t in
  written r.1.2 `prefix_of` chunk_data (rv_msgs s) ∧
  sw_bytesWritten r.2.1 = taken r.1.2 ∧
  sw_wroteBody r.2.1 = has_write r.1.2 ∧
  (r.2.2 = None → written r.1.2 = chunk_data (rv_msgs s) ∧ is_Some (terminal_of (rv_msgs s)) ∧
                  sw_terminalResult r.2.1 = terminal_of (rv_msgs s)) ∧
  ((∀ t' data, (h_write t' data).2 = None) → encodings_ok (rv_msgs s) → is_Some (terminal_of (rv_msgs s)) →
   r.2.2 = None).
Proof.
  unfold writeLCPStreamToHTTP. destruct (loop_post (rv_msgs s) newStreamWriteResult (rv_end s) eq_refl t)
    as (_ & H2 & H3 & H4 & H5). split_and!; try done.
  intros Hw He Ht. by apply (loop_succeeds Hw (rv_msgs s) newStreamWriteResult).
Qed.

(** ** Every request is answered once *)

Definition quiet (e : gev) : Prop := is_reply e = false ∧ is_write e = false.

(** A reply with a result carries the bytes of an executed job. *)
Definition reply_justified (pre : list gev) (e : gev) : Prop :=
  ∀ status ct data, e = GData status ct data →
    status = 200 ∧ ∃ r res, GExecute r (Ok (Some res)) ∈ pre ∧ pr_Status res = STATUS_OK ∧ data = pr_Result res.

(** The request got one whole response; or a streamed body, a prefix of what the daemon
    streamed for the job; or, when an ok result was streamed without data, nothing but
    the headers. *)
Inductive outcome (evs : list gev) : Prop :=
| Replied pre e post
    (_ : evs = pre ++ e :: post) (_ : is_reply e = true) (_ : reply_justified pre e)
    (_ : Forall quiet pre) (_ : Forall quiet post)
| Streamed r s
    (_ : GExecuteStream r (Ok s) ∈ evs) (_ : has_write evs = true) (_ : Forall no_reply evs)
    (_ : written evs `prefix_of` chunk_data (rv_msgs s))
| Silent r s res
    (_ : GExecuteStream r (Ok s) ∈ evs) (_ : Forall quiet evs)
    (_ : chunk_data (rv_msgs s) = []) (_ : terminal_of (rv_msgs s) = Some res) (_ : pr_Status res = STATUS_OK).

Lemma quiet_no_reply evs : Forall quiet evs → Forall no_reply evs.
Proof. intros H. eapply Forall_impl; [exact H|]. by intros e []. Qed.
Lemma quiet_has_write evs : Forall quiet evs → has_write evs = false.
Proof. induction 1 as [|e evs [_ He] _ IH]; [done|]. simpl. by rewrite He. Qed.
Lemma quiet_written evs : Forall quiet evs → written evs = [].
Proof. induction 1 as [|e evs [_ He] _ IH]; [done|]. unfold written in *. rewrite bind_cons, IH. by destruct e. Qed.
Lemma unwritten_quiet evs : Forall no_reply evs → has_write evs = false → Forall quiet evs.
Proof.
  induction 1 as [|e evs He _ IH]; simpl; [constructor|]. intros [? ?]%orb_false_iff. constructor; [done|by apply IH].
Qed.

Lemma outcome_after evs evs' : Forall quiet evs → outcome evs' → outcome (evs ++ evs').
Proof.
  intros Hq [pre e post -> He Hj Hpre Hpost|r s Hin Hw Hr Hp|r s res Hin Hq' Hd Ht Hs].
  - apply (Replied _ (evs ++ pre) e post); try done; [by rewrite <-app_assoc| |by apply Forall_app].
    intros st ct data ->. destruct (Hj _ _ _ eq_refl) as (-> & r & res & Hin & ? & ?).
    split; [done|]. exists r, res. split; [set_solver|done].
  - apply (Streamed _ r s); [set_solver|by rewrite has_write_app, Hw, orb_true_r| |].
    + apply Forall_app. split; [by apply quiet_no_reply|done].
    + by rewrite written_app, quiet_written.
  - apply (Silent _ r s res); try done; [set_solver|by apply Forall_app].
Qed.

Lemma outcome_json status body : outcome [GJSON status body].
Proof. by apply (Replied _ [] (GJSON status body) []). Qed.

Section outcomes.
Context {F : Fmt} {GE : GatewayEnv} {GJ : GatewayJson} {SR : SetRange}.
Context (cfg : Config).

(** A step that answers the request or leaves nothing for the client. *)
Abbreviation answers_or_quiet m :=
  (gpost m (λ evs o, match o with None => outcome evs | Some _ => Forall quiet evs end)).

Lemma cancel_quiet peerID jobID err : all_events quiet (cancelJobIfRequestCanceled peerID jobID err).
Proof. by apply cancel_events. Qed.

Lemma headers_quiet peerID jobID quote : all_events quiet (writeLCPHeaders peerID jobID quote).
Proof. unfold writeLCPHeaders. by repeat all_events_step. Qed.

(** Quiet events, then a JSON error. *)
Lemma quiet_then_error {A} (m : GM A) (k : A → GM unit) :
  all_events quiet m → (∀ a, gpost (k a) (λ evs _, outcome evs)) → gpost (m ≫= k) (λ evs _, outcome evs).
Proof.
  intros Hm Hk. eapply gpost_bind; [exact Hm|]. intros evs a Hq. eapply gpost_conseq; [apply Hk|].
  intros. by apply outcome_after.
Qed.

Lemma step_then {A} (m : GM (option A)) (k : A → GM unit) :
  answers_or_quiet m → (∀ a, gpost (k a) (λ evs _, outcome evs)) → gpost (and_then m k) (λ evs _, outcome evs).
Proof.
  intros Hm Hk. eapply gpost_and_then; [exact Hm|done|]. intros evs a Hq. eapply gpost_conseq; [apply Hk|].
  intros. by apply outcome_after.
Qed.

Lemma write_error_outcome err : gpost (write_grpc_error err) (λ evs _, outcome evs).
Proof. apply gpost_emit, outcome_json. Qed.

Lemma reject_answers {A} status typ message : answers_or_quiet (@reject A status typ message).
Proof. intros t. apply outcome_json. Qed.

Lemma resolve_answers kind model : answers_or_quiet (resolvePeerForTaskKindAndModel cfg kind model).
Proof.
  unfold resolvePeerForTaskKindAndModel, listPeers.
  eapply (gpost_bind _ _ (λ evs _, Forall quiet evs)); [by apply gpost_rpc; repeat constructor|].
  intros evs [peers|e] Hq.
  - destruct (validateModelForTaskKind _ _ _ _); [destruct (resolvePeerIDForTaskKind _ _ _ _)|].
    + apply gpost_ret. by rewrite app_nil_r.
    + intros t. by apply outcome_after, outcome_json.
    + intros t. by apply outcome_after, outcome_json.
  - intros t. by apply outcome_after, outcome_json.
Qed.

Lemma quote_answers peerID task : answers_or_quiet (requestQuoteAndValidatePrice cfg peerID task).
Proof.
  unfold requestQuoteAndValidatePrice, requestQuote.
  eapply (gpost_bind _ _ (λ evs _, Forall quiet evs)); [by apply gpost_rpc; repeat constructor|].
  intros evs [terms|e] Hq; [destruct (_ && _)|].
  - intros t. by apply outcome_after, outcome_json.
  - apply gpost_ret. by rewrite app_nil_r.
  - intros t. by apply outcome_after, outcome_json.
Qed.

Lemma build_answers build model body : answers_or_quiet (buildTask_or_reject build model body).
Proof. unfold buildTask_or_reject. destruct (build model body); [by apply gpost_ret|apply reject_answers]. Qed.

(** The end of a streaming request, after the loop left [evs]. *)
Lemma stream_end_outcome peerID jobID r s evs streamed :
  Forall no_reply evs → sw_wroteBody streamed.1 = has_write evs →
  GExecuteStream r (Ok s) ∈ evs → written evs `prefix_of` chunk_data (rv_msgs s) →
  (streamed.2 = None → written evs = chunk_data (rv_msgs s) ∧ is_Some (terminal_of (rv_msgs s)) ∧
     sw_terminalResult streamed.1 = terminal_of (rv_msgs s)) →
  gpost match streamed.2 with
        | Some e =>
          _ ← cancelJobIfRequestCanceled peerID jobID e;
          if sw_wroteBody streamed.1 then mret tt else write_grpc_error e
        | None => _ ← validateStreamedTerminalResult streamed.1; mret tt
        end (λ evs' _, outcome (evs ++ evs')).
Proof.
  intros Hnr Hwb Hin Hp Hok.
  (* nothing but quiet events follows a streamed body *)
  assert (Hs : ∀ evs', has_write evs = true → Forall quiet evs' → outcome (evs ++ evs')).
  { intros evs' Hw Hq. apply (Streamed _ r s); [set_solver|by rewrite has_write_app, Hw| |].
    - apply Forall_app. split; [done|by apply quiet_no_reply].
    - by rewrite written_app, (quiet_written evs'), app_nil_r. }
  destruct streamed.2 as [e|].
  - eapply gpost_bind; [apply cancel_quiet|]. intros evs' u Hq. rewrite Hwb. destruct (has_write evs) eqn:Hw.
    + apply gpost_ret. rewrite app_nil_r. by apply Hs.
    + intros t. apply outcome_after; [by apply unwritten_quiet|]. apply outcome_after; [done|apply outcome_json].
  - destruct (Hok eq_refl) as (Hd & [res Hres] & Hterm). unfold validateStreamedTerminalResult, writeOpenAIErrorIfNoBody.
    rewrite Hterm, Hres, Hwb. case_bool_decide as Hst; destruct (has_write evs) eqn:Hw; intros t; cbn; rewrite ?app_nil_r.
    + rewrite <-(app_nil_r evs). by apply Hs.
    + pose proof (unwritten_quiet _ Hnr Hw) as Hq. rewrite quiet_written in Hd by done.
      by apply (Silent _ r s res).
    + rewrite <-(app_nil_r evs). by apply Hs.
    + apply outcome_after; [by apply unwritten_quiet|apply outcome_json].
Qed.

Lemma streaming_outcome peerID jobID quote :
  gpost (handleOpenAIStreaming peerID jobID quote) (λ evs _, outcome evs).
Proof.
  unfold handleOpenAIStreaming, acceptAndExecuteStream. eapply gpost_bind;
    [apply (gpost_rpc _ _ (λ evs a, evs = [GExecuteStream (accept_req peerID jobID) a])); done|].
  intros evs0 [s|e] ->.
  - eapply gpost_bind; [apply headers_quiet|]. intros evs1 u H1.
    eapply gpost_bind; [by apply (loop_post (rv_msgs s) newStreamWriteResult (rv_end s))|].
    intros evs2 streamed (K1 & K2 & _ & K4 & K5).
    assert (H0 : Forall quiet ([GExecuteStream (accept_req peerID jobID) (Ok s)] ++ evs1)) by by constructor.
    eapply gpost_conseq; [apply (stream_end_outcome peerID jobID (accept_req peerID jobID) s
      (([GExecuteStream (accept_req peerID jobID) (Ok s)] ++ evs1) ++ evs2) streamed)|].
    + apply Forall_app. split; [by apply quiet_no_reply|done].
    + by rewrite has_write_app, quiet_has_write.
    + set_solver.
    + by rewrite written_app, quiet_written.
    + by rewrite written_app, quiet_written.
    + intros evs' []. cbn beta. by rewrite <-!app_assoc.
  - eapply gpost_conseq; [apply quiet_then_error; [apply cancel_quiet|intros _; apply write_error_outcome]|].
    intros evs [] Ho. apply outcome_after; [by repeat constructor|done].
Qed.

Lemma result_outcome peerID jobID quote r res evs :
  Forall quiet evs → GExecute r (Ok (Some res)) ∈ evs → pr_Status res = STATUS_OK →
  gpost (logAndWriteResult peerID jobID quote res) (λ evs' _, outcome (evs ++ evs')).
Proof.
  intros Hq Hin Hs. unfold logAndWriteResult. eapply gpost_bind; [apply headers_quiet|]. intros evs1 u H1.
  destruct (unsupported_encoding _) as [m|]; intros t; cbn; rewrite app_assoc.
  - apply outcome_after; [by apply Forall_app|apply outcome_json].
  - eapply (Replied _ (evs ++ evs1) _ []); try done; [|by apply Forall_app].
    intros ? ? ? [= <- <- <-]. split; [done|]. exists r, res. split_and!; [set_solver|done..].
Qed.

Lemma non_streaming_outcome peerID jobID quote :
  gpost (handleOpenAINonStreaming peerID jobID quote) (λ evs _, outcome evs).
Proof.
  unfold handleOpenAINonStreaming, acceptAndExecuteWithCancelOnFailure, acceptAndExecute.
  eapply (gpost_and_then _ _ (λ evs o, match o with
    | None => outcome evs | Some a => evs = [GExecute (accept_req peerID jobID) (Ok a)] end)); [|done|].
  - eapply gpost_bind; [apply (gpost_rpc _ _ (λ evs a, evs = [GExecute (accept_req peerID jobID) a])); done|].
    intros evs [res|e] ->; [by apply gpost_ret|].
    eapply gpost_bind; [apply cancel_quiet|]. intros evs' u Hq. intros t.
    apply outcome_after; [by repeat constructor|]. apply outcome_after; [done|apply outcome_json].
  - intros evs [res|] ->; cbn.
    + case_bool_decide as Hs.
      * eapply (gpost_bind _ _ (λ evs o, evs = [] ∧ o = Some res)); [by apply gpost_ret|]. intros ? ? [-> ->].
        apply (result_outcome _ _ _ (accept_req peerID jobID) res [GExecute (accept_req peerID jobID) (Ok (Some res))]);
          [by repeat constructor|constructor|done].
      * intros t. apply (outcome_after [_]); [by repeat constructor|apply outcome_json].
    + intros t. apply (outcome_after [_]); [by repeat constructor|apply outcome_json].
Qed.

Lemma passthrough_outcome kind model body streaming build :
  gpost (handleOpenAIPassthrough cfg kind model body streaming (buildTask_or_reject build)) (λ evs _, outcome evs).
Proof.
  unfold handleOpenAIPassthrough. apply step_then; [apply resolve_answers|]. intros peerID.
  apply step_then; [apply build_answers|]. intros task. apply step_then; [apply quote_answers|]. intros quote.
  destruct streaming; [apply streaming_outcome|apply non_streaming_outcome].
Qed.

Lemma models_outcome q : gpost (handleModels cfg q) (λ evs _, outcome evs).
Proof.
  unfold handleModels, method_not_allowed. destruct (negb _); [apply gpost_emit, outcome_json|].
  apply quiet_then_error; [unfold discoverModels, listPeers; by repeat all_events_step|].
  intros [models|e]; [|apply gpost_emit, outcome_json].
  apply quiet_then_error; [apply all_ask|]. intros created. apply gpost_emit, outcome_json.
Qed.

Lemma serve_outcome q : gpost (serve cfg q) (λ evs _, outcome evs).
Proof.
  apply (serve_post cfg q outcome).
  - by apply (Replied _ [] GNoRoute []).
  - intros Hm. unfold handleHealthz. rewrite Hm. intros t.
    apply (outcome_after [_] [_]); [by repeat constructor|]. by eapply (Replied _ [] _ []).
  - intros message. by apply (outcome_after [_]); [repeat constructor|apply outcome_json].
  - intros _. apply models_outcome.
  - intros _. apply (chat_handler cfg q); [intros; apply outcome_json|]. intros. apply passthrough_outcome.
  - intros _. apply (responses_handler cfg q); [intros; apply outcome_json|]. intros. apply passthrough_outcome.
Qed.

(** C26: Every request is answered once: by one whole response and nothing after it,
    whose result, if it has one, is that of the job that was executed; by a streamed
    body, to which no error is appended, made of bytes the daemon streamed for the job;
    or, when an ok result came without data, by the headers alone. *)
Theorem every_request_answered_once q : outcome (trace (serve cfg q)).
Proof. apply (serve_outcome q). Qed.
End outcomes.
End HttpapiStream.
