(* ===== verification/GatewayTheorems.v ===== *)
(** * openai-serve: routing, authentication, tasks, configuration

    The remaining theorems about the gateway: where a request goes, who is served, that
    a forwarded task is one the daemon accepts, which jobs are cancelled, what a
    loaded configuration guarantees. *)

From stdpp Require Import pretty.
From S2P Require Import Prelude GoStd TlvLib Wire Stores Replay JobStore PeerDir Terms Pricing Validation Provider ResultSend Lightning Tasks ReqJobStore Waiter Requester Backend Daemon Gateway Httpapi HttpapiProofs Trace.

Module GatewayTheorems.
Import Gateway Httpapi HttpapiProofs.

(** ** Routing *)

Definition advertises (kind : LCPTaskKind) (model : string) (p : Peer) : Prop :=
  ∃ t, t ∈ gp_SupportedTasks p ∧ gt_Kind t = Some kind ∧ TrimSpace (modelFromTaskTemplate kind t) = model.

(** A listed peer with this id. *)
Definition connected (peers : list Peer) (peerID : string) : Prop :=
  TrimSpace peerID ≠ ""%string ∧ TrimSpace peerID ∈ gp_PeerId <$> peers.

Lemma peerInList_spec peers peerID : peerInList peers peerID = true ↔ connected peers peerID.
Proof.
  unfold peerInList, connected. rewrite andb_true_iff, negb_true_iff, bool_decide_eq_false, existsb_exists.
  apply and_iff_compat_l. rewrite list_elem_of_fmap. split.
  - intros (p & Hin & He%bool_decide_eq_true). exists p. by rewrite list_elem_of_In.
  - intros (p & -> & Hin). exists p. by rewrite bool_decide_eq_true, <-list_elem_of_In.
Qed.

Lemma advertises_spec kind model p :
  existsb (λ t, bool_decide (TrimSpace (modelFromTaskTemplate kind t) = model)) (templates_of kind p) = true ↔
  advertises kind model p.
Proof.
  rewrite existsb_exists. unfold advertises, templates_of. split.
  - intros (t & Hin & He%bool_decide_eq_true). rewrite <-list_elem_of_In, list_elem_of_filter in Hin. destruct Hin. by exists t.
  - intros (t & Hin & Hk & Hm). exists t. rewrite <-list_elem_of_In, list_elem_of_filter, bool_decide_eq_true. naive_solver.
Qed.

(** The first element a search finds. *)
Lemma find_split {A} (f : A → bool) l a :
  List.find f l = Some a ↔ ∃ pre post, l = pre ++ a :: post ∧ f a = true ∧ Forall (λ x, f x = false) pre.
Proof.
  induction l as [|x l IH]; simpl.
  - split; [done|]. by intros ([] & post & H & _).
  - destruct (f x) eqn:Hx; split.
    + intros [= ->]. by exists [], l.
    + intros ([|y pre] & post & [= -> ->] & Hf & Hpre); [done|]. apply Forall_cons_1 in Hpre as [? _]. congruence.
    + intros (pre & post & -> & Hf & Hpre)%IH. exists (x :: pre), post. auto.
    + intros ([|y pre] & post & [= -> ->] & Hf & Hpre); [congruence|]. apply IH. inv Hpre. by exists pre, post.
Qed.

Section routing.
Context {F : Fmt} (cfg : Config).

(** The documented order of the sources of a peer. *)
Inductive routed (model : string) (kind : LCPTaskKind) (peers : list Peer) : string → Prop :=
| RouteMapped p
    (_ : g_ModelMap cfg !! model = Some p) (_ : connected peers p) :
    routed model kind peers p
| RouteDefault
    (_ : g_ModelMap cfg !! model = None) (_ : connected peers (g_DefaultPeerID cfg)) :
    routed model kind peers (TrimSpace (g_DefaultPeerID cfg))
| RouteAdvertised pre p post
    (_ : g_ModelMap cfg !! model = None) (_ : TrimSpace (g_DefaultPeerID cfg) = ""%string)
    (_ : peers = pre ++ p :: post) (_ : advertises kind model p)
    (_ : Forall (λ p', ¬ advertises kind model p') pre) :
    routed model kind peers (gp_PeerId p)
| RouteFirst p rest
    (_ : g_ModelMap cfg !! model = None) (_ : TrimSpace (g_DefaultPeerID cfg) = ""%string)
    (_ : peers = p :: rest) (_ : Forall (λ p', ¬ advertises kind model p') peers) :
    routed model kind peers (gp_PeerId p).

Lemma not_advertises kind model l :
  Forall (λ p, ¬ advertises kind model p) l ↔
  Forall (λ p, existsb (λ t, bool_decide (TrimSpace (modelFromTaskTemplate kind t) = model)) (templates_of kind p) = false) l.
Proof. apply Forall_iff. intros p. by rewrite <-advertises_spec, not_true_iff_false. Qed.

Lemma supported_some peers kind model p :
  resolvePeerIDFromSupportedTasks peers kind model = Some p ↔
  ∃ pre a post, peers = pre ++ a :: post ∧ p = gp_PeerId a ∧ advertises kind model a ∧
    Forall (λ p', ¬ advertises kind model p') pre.
Proof.
  unfold resolvePeerIDFromSupportedTasks. rewrite fmap_Some. setoid_rewrite find_split.
  setoid_rewrite advertises_spec. setoid_rewrite not_advertises. naive_solver.
Qed.

Lemma supported_none peers kind model :
  resolvePeerIDFromSupportedTasks peers kind model = None ↔ Forall (λ p, ¬ advertises kind model p) peers.
Proof.
  unfold resolvePeerIDFromSupportedTasks. rewrite fmap_None, not_advertises. split; intros H.
  - apply Forall_forall. intros x Hx%list_elem_of_In. by eapply List.find_none in H.
  - destruct (List.find _ peers) as [a|] eqn:Hf; [|done]. apply find_split in Hf as (pre & post & -> & Ha & _).
    apply Forall_app in H as [_ H]. apply Forall_cons in H as [? _]. congruence.
Qed.

Lemma connected_trim peers p : connected peers (TrimSpace p) ↔ connected peers p.
Proof. unfold connected. by rewrite TrimSpace_idemp. Qed.

Lemma resolve_sound model kind peers p :
  resolvePeerIDForTaskKind cfg model kind peers = Ok p → routed (TrimSpace model) kind peers p.
Proof.
  unfold resolvePeerIDForTaskKind, resolvePeerIDFromModelMap, resolvePeerIDFromDefaultPeer.
  destruct (g_ModelMap cfg !! TrimSpace model) as [m|] eqn:Hmap; cbn [mbind option_bind].
  { destruct (peerInList peers m) eqn:Hin; [|done]. intros [= <-]. by apply RouteMapped; [|apply peerInList_spec]. }
  case_bool_decide as Hd.
  - destruct (resolvePeerIDFromSupportedTasks peers kind (TrimSpace model)) as [a|] eqn:Hs; intros H; invert_ok; subst.
    + apply supported_some in Hs as (pre & a' & post & -> & -> & Ha & Hpre). by eapply RouteAdvertised.
    + apply supported_none in Hs. unfold resolvePeerIDFromAnyPeer in H.
      destruct peers as [|a peers]; simplify_eq/=. by eapply RouteFirst.
  - destruct (peerInList _ _) eqn:Hin; [|done]. intros [= <-]. apply RouteDefault; [done|].
    by apply connected_trim, peerInList_spec.
Qed.

Lemma resolve_complete model kind peers p :
  routed (TrimSpace model) kind peers p → resolvePeerIDForTaskKind cfg model kind peers = Ok p.
Proof.
  unfold resolvePeerIDForTaskKind, resolvePeerIDFromModelMap, resolvePeerIDFromDefaultPeer.
  intros [q Hmap Hc|Hmap Hc|pre q post Hmap Hd Hp Ha Hpre|q rest Hmap Hd -> Hall]; rewrite Hmap; cbn [mbind option_bind].
  - apply peerInList_spec in Hc. by rewrite Hc.
  - rewrite bool_decide_eq_false_2 by apply Hc. apply connected_trim, peerInList_spec in Hc. by rewrite Hc.
  - rewrite bool_decide_eq_true_2 by done.
    assert (Hs : resolvePeerIDFromSupportedTasks peers kind (TrimSpace model) = Some (gp_PeerId q))
      by (apply supported_some; eauto 10). by rewrite Hs.
  - rewrite bool_decide_eq_true_2 by done. apply supported_none in Hall. by rewrite Hall.
Qed.

(** C28: The peer of a request is chosen in the documented order: the peer mapped to
    the model, the default peer, the first one that advertises the model for the task's
    kind, the first one at all; a mapped or default peer that is not connected fails the
    request instead of falling through.  A chosen peer is a listed one (the ids of the
    map being trimmed). *)
Theorem routing_order model kind peers p :
  (resolvePeerIDForTaskKind cfg model kind peers = Ok p ↔ routed (TrimSpace model) kind peers p) ∧
  (map_Forall (λ _ id, TrimSpace id = id) (g_ModelMap cfg) → routed (TrimSpace model) kind peers p →
   p ∈ gp_PeerId <$> peers).
Proof.
  split; [split; [apply resolve_sound|apply resolve_complete]|].
  intros Hmap Hr. destruct Hr as [q Hq [_ Hc]|_ [_ Hc]|pre q post _ _ -> _ _|q rest _ _ -> _]; try done.
  - by rewrite (Hmap _ _ Hq) in Hc.
  - rewrite fmap_app, fmap_cons. set_solver.
  - set_solver.
Qed.
End routing.

(** ** Who is served *)

Section server.
Context {F : Fmt} {GE : GatewayEnv} {GJ : GatewayJson} {SR : SetRange}.
Context (cfg : Config).

(** A request without an accepted key (keys being configured) makes no call of the
    daemon; outside of the health check it is answered 401, or not found by the
    router. *)
Theorem unauthorized_refused q :
  ¬ authorized cfg q →
  Forall (λ e, calls_daemon e = false) (trace (serve cfg q)) ∧
  (hr_Path q ≠ "/healthz"%string →
   trace (serve cfg q) = [GNoRoute] ∨ ∃ message, trace (serve cfg q) = deny_trace message).
Proof.
  intros Hn. split.
  - apply (serve_post cfg q (Forall _)); try (intros; done).
    + by repeat constructor.
    + intros _. by apply (health_events (λ e, calls_daemon e = false)).
    + by repeat constructor.
  - intros Hp. unfold serve. rewrite !(bool_decide_eq_false_2 (hr_Path q = "/healthz"%string)), !andb_false_r by done. simpl.
    assert (Hd : ∀ next, ∃ message, trace (authMiddleware cfg q next) = deny_trace message).
    { intros next. apply (auth_post cfg q next (λ evs, ∃ message, evs = deny_trace message)); [by eexists|done]. }
    destruct (_ || _); [right; apply Hd|]. destruct (_ && _); [right; apply Hd|].
    destruct (_ && _); [right; apply Hd|by left].
Qed.

(** ** The list of models *)

Lemma collected_spec peers kind m :
  m ∈ collectModelsFromPeersForKind peers kind ↔ m ≠ ""%string ∧ ∃ p, p ∈ peers ∧ advertises kind m p.
Proof.
  unfold collectModelsFromPeersForKind, advertises, templates_of. rewrite elem_of_list_to_set, list_elem_of_filter.
  apply and_iff_compat_l. rewrite list_elem_of_bind. setoid_rewrite list_elem_of_fmap. setoid_rewrite list_elem_of_filter.
  naive_solver.
Qed.

Lemma collected_kinds_spec peers m :
  m ∈ collectModelsFromPeersForKinds peers [KIND_OPENAI_CHAT_COMPLETIONS_V1; KIND_OPENAI_RESPONSES_V1] ↔
  ∃ kind, m ∈ collectModelsFromPeersForKind peers kind.
Proof.
  unfold collectModelsFromPeersForKinds. cbn. rewrite !elem_of_union. split.
  - intros [?|[?|?]]; [eauto..|set_solver].
  - intros [[] ?]; auto.
Qed.

Lemma advertised_trimmed kind m p : advertises kind m p → TrimSpace m = m.
Proof. intros (t & _ & _ & <-). apply TrimSpace_idemp. Qed.

(** A model that is discovered for a kind passes the check for that kind. *)
Lemma discovered_valid m kind peers :
  g_ModelAllowlist cfg = ∅ → m ∈ collectModelsFromPeersForKind peers kind →
  validateModelForTaskKind cfg m kind peers = Ok tt.
Proof.
  intros Ha Hm. pose proof Hm as (Hne & p & _ & Hp)%collected_spec. unfold validateModelForTaskKind.
  rewrite (advertised_trimmed _ _ _ Hp), (bool_decide_eq_false_2 (m = _)), (bool_decide_eq_true_2 (g_ModelAllowlist _ = _)) by done.
  simpl. rewrite bool_decide_eq_false_2 by set_solver. by rewrite (bool_decide_eq_true_2 (m ∈ _)).
Qed.

(** The ids of the models of a response. *)
Definition listed_ids (e : gev) : option (list string) :=
  match e with GJSON _ (ModelsResponse _ data) => Some (mi_ID <$> data) | _ => None end.
Definition no_models (e : gev) : Prop := listed_ids e = None.

Lemma passthrough_no_models kind model body streaming build :
  all_events no_models (handleOpenAIPassthrough cfg kind model body streaming (buildTask_or_reject build)).
Proof.
  unfold handleOpenAIPassthrough, resolvePeerForTaskKindAndModel, listPeers, buildTask_or_reject,
    requestQuoteAndValidatePrice, requestQuote, handleOpenAIStreaming, handleOpenAINonStreaming,
    acceptAndExecuteWithCancelOnFailure, acceptAndExecute, acceptAndExecuteStream, validateStreamedTerminalResult,
    writeOpenAIErrorIfNoBody, validateResult, logAndWriteResult, writeLCPHeaders, writeLCPStreamToHTTP,
    write_grpc_error, reject, writeOpenAIError.
  repeat first [all_events_step | apply cancel_events | apply loop_events]; try done; by intros [].
Qed.

Lemma sorted_ids X (ids : list string) :
  ids = merge_sort PeerDir.string_le (set_range X) →
  StronglySorted PeerDir.string_le ids ∧ NoDup ids ∧ ∀ m, m ∈ ids ↔ m ∈ X.
Proof.
  intros ->. split_and!.
  - apply StronglySorted_merge_sort; apply _.
  - rewrite merge_sort_Permutation, set_range_perm. apply NoDup_elements.
  - intros m. by rewrite merge_sort_Permutation, set_range_perm, elem_of_elements.
Qed.

(** What is listed, from the peers that were asked for (if any were). *)
Definition listed (peers : list Peer) (m : string) : Prop :=
  if bool_decide (g_ModelAllowlist cfg = ∅)
  then m ≠ ""%string ∧ ∃ kind p, p ∈ peers ∧ advertises kind m p else m ∈ g_ModelAllowlist cfg.

(** The events of the models endpoint, or none of its kind. *)
Definition models_shape (evs : list gev) : Prop :=
  Forall no_models evs ∨
  ∃ peers X created, evs = (if bool_decide (g_ModelAllowlist cfg = ∅) then [GListPeers (Ok peers)] else []) ++
      [GJSON 200 (ModelsResponse "list" ((λ id, {| mi_ID := id; mi_Object := "model"; mi_Created := created;
                                             mi_OwnedBy := "lcp" |}) <$> merge_sort PeerDir.string_le (set_range X)))] ∧
    (∀ m, m ∈ X ↔ listed peers m) ∧
    (g_ModelAllowlist cfg = ∅ → ∀ m, m ∈ X → ∃ kind, validateModelForTaskKind cfg m kind peers = Ok tt).

Lemma models_handler_shape q : gpost (handleModels cfg q) (λ evs _, models_shape evs).
Proof.
  intros t. unfold handleModels, method_not_allowed, discoverModels, listPeers, writeOpenAIError, models_shape, listed.
  destruct (negb (is_get_or_head q)); [left; by repeat constructor|].
  case_bool_decide as Ha; gm_run.
  - destruct (l_ListLCPPeers t) as [peers|e]; cbn; [|left; by repeat constructor]. right.
    exists peers, (collectModelsFromPeersForKinds peers [KIND_OPENAI_CHAT_COMPLETIONS_V1; KIND_OPENAI_RESPONSES_V1]),
      (time_unix (h_clock (S t))). split_and!; [done|..].
    + intros m. rewrite collected_kinds_spec. setoid_rewrite collected_spec. naive_solver.
    + intros _ m [kind Hk]%collected_kinds_spec. exists kind. by apply discovered_valid.
  - right. by eexists [], _, _.
Qed.

Lemma serve_models_shape q : gpost (serve cfg q) (λ evs _, models_shape evs).
Proof.
  apply (serve_post cfg q models_shape).
  - left. by repeat constructor.
  - intros _. eapply gpost_all; [by apply (health_events no_models)|by left].
  - left. by repeat constructor.
  - intros _. apply models_handler_shape.
  - intros _. apply (chat_handler cfg q); [left; by repeat constructor|]. intros.
    eapply gpost_all; [apply passthrough_no_models|by left].
  - intros _. apply (responses_handler cfg q); [left; by repeat constructor|]. intros.
    eapply gpost_all; [apply passthrough_no_models|by left].
Qed.

(** The models endpoint lists, sorted and without repetition whatever the order of
    Go's maps, the allowlist, or else the models some connected peer advertises; one
    of the latter passes the check of a request of the kind it is advertised for. *)
Theorem models_listed q pre e rest ids :
  trace (serve cfg q) = pre ++ e :: rest → listed_ids e = Some ids →
  rest = [] ∧ StronglySorted PeerDir.string_le ids ∧ NoDup ids ∧
  ∃ peers, pre = (if bool_decide (g_ModelAllowlist cfg = ∅) then [GListPeers (Ok peers)] else []) ∧
    (∀ m, m ∈ ids ↔ listed peers m) ∧
    (g_ModelAllowlist cfg = ∅ → ∀ m, m ∈ ids → ∃ kind, validateModelForTaskKind cfg m kind peers = Ok tt).
Proof.
  intros Ht He. destruct (serve_models_shape q 0%nat) as [Hall|(peers & X & created & Heq & HX & Hv)];
    unfold trace in Ht; rewrite Ht in *.
  - apply Forall_app in Hall as [_ Hall]. apply Forall_cons in Hall as [Hno _]. unfold no_models in Hno. congruence.
  - assert (Hrest : rest = []).
    { destruct rest as [|y rest _] using rev_ind; [done|]. rewrite app_comm_cons, app_assoc in Heq.
      apply app_inj_tail in Heq as [Hin _]. assert (Hmem : e ∈ pre ++ e :: rest) by set_solver.
      rewrite Hin in Hmem. case_bool_decide; [|by apply not_elem_of_nil in Hmem].
      apply list_elem_of_singleton in Hmem as ->. done. }
    subst rest. apply app_inj_tail in Heq as [-> ->]. simpl in He. rewrite <-list_fmap_compose in He.
    injection He as <-. unfold compose. cbn. rewrite list_fmap_id.
    destruct (sorted_ids X _ eq_refl) as (? & ? & Hin). split_and!; try done. exists peers.
    split_and!; [done|..]; intros; [|apply Hv; [done|]]; naive_solver.
Qed.

(** ** Cancelled jobs *)

Definition cancel_of (r : AcceptRequest) : CancelJobRequest :=
  {| cj_PeerId := ar_PeerId r; cj_JobId := ar_JobId r; cj_Reason := cancelReasonRequestCanceled |}.
(** The call ended because the request or its time did. *)
Definition gave_up (err : gerr) : bool :=
  match err with EStatus st => bool_decide (st_Code st ∈ [Canceled; DeadlineExceeded]) | _ => false end.
(** The error an execution returned. *)
Definition exec_error (e : gev) : option (AcceptRequest * gerr) :=
  match e with GExecute r (Err err) => Some (r, err) | GExecuteStream r (Err err) => Some (r, err) | _ => None end.

(** Only what was executed is cancelled, and it is when the execution gave up. *)
Definition cancels_ok (evs : list gev) : Prop :=
  (∀ c, GCancel c ∈ evs → ∃ e r, e ∈ evs ∧ executes e = Some r ∧ c = cancel_of r) ∧
  (∀ e r err, e ∈ evs → exec_error e = Some (r, err) → gave_up err = true → GCancel (cancel_of r) ∈ evs).

(** Events that neither execute nor cancel. *)
Definition neutral (e : gev) : Prop := executes e = None ∧ ∀ c, e ≠ GCancel c.

Lemma neutral_not_cancel c : ¬ neutral (GCancel c).
Proof. intros [_ H]. by apply (H c). Qed.

Lemma neutral_error e : neutral e → exec_error e = None.
Proof. by intros [? _]; destruct e. Qed.

Lemma neutral_cancels_ok evs : Forall neutral evs → cancels_ok evs.
Proof.
  rewrite Forall_forall. intros H. split.
  - intros c Hc. by destruct (neutral_not_cancel c (H _ Hc)).
  - intros e r err He Hx. by rewrite neutral_error in Hx by auto.
Qed.

Lemma cancels_ok_app_l evs evs' : Forall neutral evs → cancels_ok evs' → cancels_ok (evs ++ evs').
Proof.
  rewrite Forall_forall. intros H [H1 H2]. split.
  - intros c [Hc|Hc]%elem_of_app; [by destruct (neutral_not_cancel c (H _ Hc))|].
    destruct (H1 c Hc) as (e & r & ? & ? & ?). exists e, r. set_solver.
  - intros e r err [He|He]%elem_of_app Hx Hg; [by rewrite neutral_error in Hx by auto|]. set_solver.
Qed.

(** One execution, cancelled or not, among neutral events. *)
Lemma cancels_ok_exec e r (b : bool) evs1 evs2 :
  executes e = Some r → (∀ err, exec_error e = Some (r, err) → gave_up err = true → b = true) →
  Forall neutral evs1 → Forall neutral evs2 →
  cancels_ok (e :: evs1 ++ (if b then [GCancel (cancel_of r)] else []) ++ evs2).
Proof.
  rewrite !Forall_forall. intros He Hb H1 H2. split.
  - intros c Hc. exists e, r. split_and!; [constructor|done|].
    apply elem_of_cons in Hc as [<-|Hc]; [done|]. rewrite !elem_of_app in Hc.
    destruct Hc as [Hc|[Hc|Hc]]; [by destruct (neutral_not_cancel c (H1 _ Hc))| |by destruct (neutral_not_cancel c (H2 _ Hc))].
    destruct b; [|by apply not_elem_of_nil in Hc]. apply list_elem_of_singleton in Hc. congruence.
  - intros e' r' err Hin Hx Hg. apply elem_of_cons in Hin as [->|Hin].
    + assert (r' = r) as -> by (unfold exec_error in Hx; repeat case_match; by simplify_eq/=).
      rewrite (Hb _ Hx Hg). set_solver.
    + exfalso. rewrite !elem_of_app in Hin. destruct Hin as [Hin|[Hin|Hin]].
      * by rewrite neutral_error in Hx by auto.
      * destruct b; [|by apply not_elem_of_nil in Hin]. by apply list_elem_of_singleton in Hin as ->.
      * by rewrite neutral_error in Hx by auto.
Qed.

(** What [cancelJobIfRequestCanceled] leaves. *)
Lemma cancel_post peerID jobID err :
  gpost (cancelJobIfRequestCanceled peerID jobID err) (λ evs _, ∃ b : bool,
    evs = (if b then [GCancel (cancel_of (accept_req peerID jobID))] else []) ∧ (gave_up err = true → b = true)).
Proof.
  intros t. unfold cancelJobIfRequestCanceled, shouldCancelAfterExecuteError, cancelJobAsync, gave_up.
  gm_run. destruct (h_ctx t) as [[]|], (h_ctx (S t)) as [[]|], err as [st| |]; cbn;
    try (by exists true); try (by exists false).
  all: case_bool_decide; [by exists true|by exists false].
Qed.

Lemma http_neutral e : http_event e = true → neutral e.
Proof. by destruct e. Qed.

(** A failed execution: cancelled if it has to be, then neutral events. *)
Lemma failed_cancels e evs1 peerID jobID err (k : unit → GM unit) :
  executes e = Some (accept_req peerID jobID) → (∀ r err', exec_error e = Some (r, err') → err' = err) →
  Forall neutral evs1 → all_events neutral (k tt) →
  gpost (cancelJobIfRequestCanceled peerID jobID err ≫= k) (λ evs _, cancels_ok (e :: evs1 ++ evs)).
Proof.
  intros He Herr H1 Hk. eapply gpost_bind; [apply cancel_post|]. intros evs [] (b & -> & Hb).
  eapply gpost_all; [exact Hk|]. intros evs' [] Hevs. apply cancels_ok_exec; [done| |done..].
  intros err' Hx Hg. apply Hb. by rewrite <-(Herr _ _ Hx).
Qed.

Lemma streaming_cancels peerID jobID quote :
  gpost (handleOpenAIStreaming peerID jobID quote) (λ evs _, cancels_ok evs).
Proof.
  unfold handleOpenAIStreaming, acceptAndExecuteStream. eapply gpost_bind;
    [apply (gpost_rpc _ _ (λ evs a, evs = [GExecuteStream (accept_req peerID jobID) a])); done|].
  intros evs0 [s|err] ->.
  - eapply gpost_bind; [apply headers_events, http_neutral|]. intros evs1 [] H1.
    eapply gpost_bind; [apply loop_events, http_neutral|]. intros evs2 [streamed [err|]] H2; cbn [fst snd].
    + eapply gpost_conseq.
      * apply (failed_cancels (GExecuteStream (accept_req peerID jobID) (Ok s)) (evs1 ++ evs2)); try done;
          [by apply Forall_app|]. destruct (sw_wroteBody streamed); [apply all_ret|by apply all_emit].
      * intros evs []. cbn. by rewrite <-app_assoc.
    + apply (gpost_all neutral).
      * unfold validateStreamedTerminalResult, writeOpenAIErrorIfNoBody, writeOpenAIError. by repeat all_events_step.
      * intros evs [] H3. rewrite (app_assoc evs1). by apply (cancels_ok_exec _ (accept_req peerID jobID) false (evs1 ++ evs2) evs); [| |apply Forall_app|].
  - apply (failed_cancels _ []); [done|naive_solver|done|by apply all_emit].
Qed.

Lemma non_streaming_cancels peerID jobID quote :
  gpost (handleOpenAINonStreaming peerID jobID quote) (λ evs _, cancels_ok evs).
Proof.
  unfold handleOpenAINonStreaming, acceptAndExecuteWithCancelOnFailure, acceptAndExecute, and_then.
  eapply gpost_bind.
  - eapply (gpost_bind _ _ _ (λ evs (o : option (option PbResult)), match o with
      | None => cancels_ok evs | Some a => evs = [GExecute (accept_req peerID jobID) (Ok a)] end)).
    { apply (gpost_rpc _ _ (λ evs a, evs = [GExecute (accept_req peerID jobID) a])); done. }
    intros evs [res|err] ->; [by apply gpost_ret|]. intros t.
    eapply (failed_cancels (GExecute (accept_req peerID jobID) (Err err)) [] peerID jobID err
      (λ _, write_grpc_error err)); [done|naive_solver|done|by apply all_emit].
  - intros evs [res|] H; cbn beta iota in H; [|apply gpost_ret; by rewrite app_nil_r].
    subst evs. apply (gpost_all neutral).
    + unfold validateResult, logAndWriteResult, reject, writeOpenAIError, and_then.
      repeat first [all_events_step | apply headers_events, http_neutral]; done.
    + intros evs [] H. by apply (cancels_ok_exec _ (accept_req peerID jobID) false [] evs).
Qed.

(** Neutral steps before. *)
Lemma neutral_then {A} (m : GM (option A)) (k : A → GM unit) :
  all_events neutral m → (∀ a, gpost (k a) (λ evs _, cancels_ok evs)) → gpost (and_then m k) (λ evs _, cancels_ok evs).
Proof.
  intros Hm Hk. eapply gpost_and_then; [exact Hm|intros; by apply neutral_cancels_ok|].
  intros evs a H. eapply gpost_conseq; [apply Hk|]. intros. by apply cancels_ok_app_l.
Qed.

Lemma passthrough_cancels kind model body streaming build :
  gpost (handleOpenAIPassthrough cfg kind model body streaming (buildTask_or_reject build)) (λ evs _, cancels_ok evs).
Proof.
  unfold handleOpenAIPassthrough. apply neutral_then.
  { unfold resolvePeerForTaskKindAndModel, listPeers, write_grpc_error, reject, writeOpenAIError. by repeat all_events_step. }
  intros peerID. apply neutral_then; [unfold buildTask_or_reject, reject, writeOpenAIError; by repeat all_events_step|].
  intros task. apply neutral_then.
  { unfold requestQuoteAndValidatePrice, requestQuote, write_grpc_error, reject, writeOpenAIError. by repeat all_events_step. }
  intros quote. destruct streaming; [apply streaming_cancels|apply non_streaming_cancels].
Qed.

(** The gateway asks for the cancellation only of the job it had executed for the
    request, and it does ask when the execution ended with the request's cancellation
    or deadline. *)
Theorem cancels_match_executions q : cancels_ok (trace (serve cfg q)).
Proof.
  apply (serve_post cfg q cancels_ok).
  - by apply neutral_cancels_ok; repeat constructor.
  - intros _. eapply gpost_all; [by apply (health_events neutral)|]. intros. by apply neutral_cancels_ok.
  - intros message. by apply neutral_cancels_ok; repeat constructor.
  - intros _. eapply gpost_all; [by apply (models_events cfg neutral)|]. intros. by apply neutral_cancels_ok.
  - intros _. apply (chat_handler cfg q); [intros; by apply neutral_cancels_ok; repeat constructor|].
    intros. apply passthrough_cancels.
  - intros _. apply (responses_handler cfg q); [intros; by apply neutral_cancels_ok; repeat constructor|].
    intros. apply passthrough_cancels.
Qed.
End server.

(** ** Forwarded tasks *)

(** The gateway's decoder and the daemon's decode the same bytes with [encoding/json],
    the gateway into a struct with more fields: what decodes for the gateway decodes
    for the daemon, to the same model and as many messages.  Decoded strings are valid
    UTF-8. *)
Class DecodersAgree (GJ : GatewayJson) (TJ : Tasks.TaskJson) : Prop := {
  da_chat b r : gj_chat b = Ok r →
    utf8_valid (bytes_of_string (cr_Model r)) = true ∧
    ∃ messages, Tasks.json_chat b = Ok (cr_Model r, messages) ∧ length messages = length (cr_Messages r);
  da_responses b r : gj_responses b = Ok r →
    utf8_valid (bytes_of_string (gr_Model r)) = true ∧ Tasks.json_responses b = Ok (gr_Model r, gr_Input r);
}.

Section tasks.
Context {F : Fmt} {GE : GatewayEnv} {GJ : GatewayJson} {SR : SetRange} {TJ : Tasks.TaskJson} {DA : DecodersAgree GJ TJ}.
Context (cfg : Config).

(** The task of a quote request. *)
Definition quotes (P : Tasks.Task → Prop) (e : gev) : Prop :=
  match e with GQuote req _ => ∃ task, rq_Task req = Some task ∧ P task | _ => True end.

Lemma requested_valid q kind model body task :
  requested q kind model body → body ≠ [] → task_view task = Some (kind, model, body) →
  Tasks.ValidateTask (Some task) = Ok tt.
Proof.
  intros (_ & _ & Hne & Hk) Hbody Hv. assert (Hlen : (blen body =? 0) = false) by (rewrite Z.eqb_neq, blen_zero; done).
  unfold task_view in Hv. destruct task as [[[[[b [m|]]|]|[[b [m|]]|]]|]]; cbn in Hv; simplify_eq; cbn.
  - destruct Hk as (r & Hr & <- & Hms). destruct (da_chat _ _ Hr) as [Hu (ms & Hj & Hl)]. 
    unfold Tasks.validateOpenAIChatCompletionsV1. cbn.
    rewrite Hlen, Hu, Hj, !(bool_decide_eq_false_2 (_ = ""%string)) by done. cbn.
    assert (Hm0 : (blen ms =? 0) = false).
    { rewrite Z.eqb_neq. unfold blen. rewrite Hl. by destruct (cr_Messages r). }
    by rewrite Hm0, bool_decide_eq_true_2.
  - destruct Hk as (r & Hr & <- & Hin). destruct (da_responses _ _ Hr) as [Hu Hj]. 
    unfold Tasks.validateOpenAIResponsesV1. cbn.
    rewrite Hlen, Hu, Hj, !(bool_decide_eq_false_2 (_ = ""%string)) by done. cbn.
    by rewrite Hin, bool_decide_eq_true_2.
Qed.

Lemma built_nonempty spec model body task : built spec model body = Ok task → body ≠ [].
Proof. unfold built. intros H ->. by invert_ok. Qed.

Lemma passthrough_quotes (P : Tasks.Task → Prop) kind model body streaming build :
  (∀ task, build model body = Ok task → P task) →
  all_events (quotes P) (handleOpenAIPassthrough cfg kind model body streaming (buildTask_or_reject build)).
Proof.
  intros HP. unfold handleOpenAIPassthrough. apply all_and_then.
  { unfold resolvePeerForTaskKindAndModel, listPeers, write_grpc_error, reject, writeOpenAIError. by repeat all_events_step. }
  intros peerID. unfold buildTask_or_reject. destruct (build model body) as [task|m]; [|by intros t; repeat constructor].
  eapply (gpost_and_then _ _ (λ evs o, evs = [] ∧ o = Some task)); [by apply gpost_ret|by intros ? []|].
  intros evs a [-> [= ->]]. change (all_events (quotes P) (and_then (requestQuoteAndValidatePrice cfg peerID task) (λ quote,
    if streaming then handleOpenAIStreaming peerID (quote_job quote) quote
    else handleOpenAINonStreaming peerID (quote_job quote) quote))).
  unfold requestQuoteAndValidatePrice, requestQuote, handleOpenAIStreaming, handleOpenAINonStreaming,
    acceptAndExecuteWithCancelOnFailure, acceptAndExecute, acceptAndExecuteStream, validateStreamedTerminalResult,
    writeOpenAIErrorIfNoBody, validateResult, logAndWriteResult, writeLCPHeaders, writeLCPStreamToHTTP,
    write_grpc_error, reject, writeOpenAIError.
  repeat first [all_events_step | apply cancel_events | apply loop_events]; try done; try (by intros []).
  exists task. auto.
Qed.

(** Every task the gateway asks a quote for is one the daemon's validation accepts,
    the two JSON decoders agreeing as [encoding/json] makes them. *)
Theorem forwarded_task_valid q req ans :
  GQuote req ans ∈ trace (serve cfg q) → Tasks.ValidateTask (rq_Task req) = Ok tt.
Proof.
  assert (H : gpost (serve cfg q) (λ evs _, Forall (quotes (λ task, Tasks.ValidateTask (Some task) = Ok tt)) evs)).
  { apply (serve_post cfg q (Forall _)).
    - by repeat constructor.
    - intros _. by apply (health_events (quotes _)).
    - by repeat constructor.
    - intros _. by apply (models_events cfg (quotes _)).
    - intros _. apply (chat_handler cfg q (Forall _)); [by repeat constructor|]. intros model body streaming Hr.
      apply passthrough_quotes. intros task Ht. eapply requested_valid; [exact Hr|by eapply built_nonempty|by apply chat_task_view].
    - intros _. apply (responses_handler cfg q (Forall _)); [by repeat constructor|]. intros model body streaming Hr.
      apply passthrough_quotes. intros task Ht. eapply requested_valid; [exact Hr|by eapply built_nonempty|by apply responses_task_view]. }
  intros Hin. specialize (H 0%nat). rewrite Forall_forall in H. destruct (H _ Hin) as (task & -> & ?). done.
Qed.
End tasks.

(** ** Configuration *)

Lemma elem_of_parseCSVSet s k :
  k ∈ parseCSVSet s ↔ k ≠ ""%string ∧ ∃ v, v ∈ Split s 44 ∧ k = TrimSpace v.
Proof.
  unfold parseCSVSet. rewrite elem_of_list_to_set, list_elem_of_filter, list_elem_of_fmap. naive_solver.
Qed.

Definition valid_peer (p : string) : Prop :=
  TrimSpace p = p ∧ ∃ b, hex_decode p = Some b ∧ blen b = peerIDByteLen.

Lemma validatePeerID_valid p : validatePeerID (TrimSpace p) = Ok tt → valid_peer (TrimSpace p).
Proof.
  unfold validatePeerID. rewrite TrimSpace_idemp. intros H. invert_ok. bool_to_prop.
  split; [apply TrimSpace_idemp|]. eauto.
Qed.

(** A trimmed word that is not empty. *)
Definition word (s : string) : Prop := s ≠ ""%string ∧ TrimSpace s = s.

Lemma csv_words s : set_Forall word (parseCSVSet s).
Proof. intros k (? & v & _ & ->)%elem_of_parseCSVSet. split; [done|apply TrimSpace_idemp]. Qed.

Lemma csv_empty s : parseCSVSet s = ∅ ↔ Forall (λ v, TrimSpace v = ""%string) (Split s 44).
Proof.
  rewrite Forall_forall. split.
  - intros He v Hv. destruct (decide (TrimSpace v = ""%string)) as [|Hne]; [done|].
    assert (Hin : TrimSpace v ∈ parseCSVSet s) by (apply elem_of_parseCSVSet; eauto). by rewrite He in Hin.
  - intros H. apply set_eq. intros k. rewrite elem_of_parseCSVSet. split; [|set_solver].
    intros (Hne & v & Hv & ->). by destruct Hne; apply H.
Qed.

Lemma model_map_valid {F : Fmt} s m :
  parseModelMap s = Ok m → map_Forall (λ model p, word model ∧ valid_peer p) m.
Proof.
  unfold parseModelMap. apply fold_result_inv; [|apply map_Forall_empty].
  intros out part out' _ Hout. unfold modelMapEntry. case_bool_decide; [by intros [= <-]|].
  destruct (Cut _ _) as [[model peer]|]; [|done]. case_bool_decide; [done|].
  destruct (validatePeerID (TrimSpace peer)) as [[]|] eqn:Hv; [|done]. intros [= <-].
  apply map_Forall_insert_2; [|done]. split; [split; [done|apply TrimSpace_idemp]|by apply validatePeerID_valid].
Qed.

(** A configuration that loads has positive timeouts, a default peer (if any) and
    mapped peers that are trimmed ids of 33 bytes, and keys and models that are trimmed
    and not empty.  No key is configured, and so every request is served, exactly when
    every entry of the variable is blank: a variable that is set to a comma, say,
    disables the authentication. *)
Theorem loaded_config_wf {F : Fmt} splitHostPort processed cfg :
  LoadFromEnv splitHostPort processed = Ok cfg →
  0 < g_TimeoutQuote cfg ∧ 0 < g_TimeoutExecute cfg ∧
  (g_DefaultPeerID cfg = ""%string ∨ valid_peer (g_DefaultPeerID cfg)) ∧
  map_Forall (λ model p, word model ∧ valid_peer p) (g_ModelMap cfg) ∧
  set_Forall word (g_APIKeys cfg) ∧ set_Forall word (g_ModelAllowlist cfg) ∧
  ∃ env, processed = Ok env ∧
    (g_APIKeys cfg = ∅ ↔ Forall (λ v, TrimSpace v = ""%string) (Split (TrimSpace (ev_APIKeys env)) 44)).
Proof.
  unfold LoadFromEnv, validateConfig. intros H. invert_ok. subst cfg.
  destruct processed as [env|e]; [|done]. injection Hx as ->.
  repeat match goal with H : (_ <? _) = true |- _ => apply Z.ltb_lt in H end.
  clear Hx3 Hx4 Hx5. split_and!; try done; clear Hx6 Hx2;
    cbn [g_DefaultPeerID g_ModelMap g_APIKeys g_ModelAllowlist].
  - clear Hx1. case_bool_decide; [by left|]. destruct (validatePeerID _) as [[]|] eqn:Hv; [|done].
    right. by apply validatePeerID_valid.
  - clear Hx0. case_bool_decide; [simplify_eq; apply map_Forall_empty|]. destruct (parseModelMap _) eqn:Hp; [|done].
    simplify_eq. by eapply model_map_valid.
  - clear Hx0 Hx1. case_bool_decide; [apply set_Forall_empty|apply csv_words].
  - clear Hx0 Hx1. case_bool_decide; [apply set_Forall_empty|apply csv_words].
  - clear Hx0 Hx1. exists x. split; [done|]. case_bool_decide as Hb; [|apply csv_empty]. rewrite Hb. split; [|done].
    intros _. by repeat constructor.
Qed.
End GatewayTheorems.
