(* ===== verification/GatewayExamples.v ===== *)
(** * openai-serve: a request and its trace

    A gateway with one key, a price limit and a connected peer, against a daemon that
    answers; the theorems about the gateway applied to it. *)

From S2P Require Import Prelude GoStd TlvLib Wire Stores Replay JobStore PeerDir Terms Pricing Validation Provider ResultSend Lightning Tasks ReqJobStore Waiter Requester Backend Daemon Gateway Httpapi HttpapiProofs HttpapiStream GatewayTheorems Trace.

Module GatewayExamples.
Import Gateway Httpapi HttpapiProofs HttpapiStream GatewayTheorems.

#[local] Instance fmt : Fmt := {| fmt_q s := s |}.
#[local] Instance range : SetRange := {| set_range := elements; set_range_perm X := reflexivity _ |}.

(** Decoders that know one request. *)
#[local] Instance decoder : GatewayJson := {|
  gj_chat b := Ok {| cr_Model := "gpt"; cr_Messages := [{| cm_Role := "user"; cm_Content := "hi"; cm_Name := "" |}];
                     cr_Stream := if bool_decide (b = bytes_of_string "stream") then Some true else None |};
  gj_responses b := Err "json: cannot unmarshal"%string;
|}.
#[local] Instance daemon_decoder : Tasks.TaskJson := {|
  Tasks.json_chat b := Ok ("gpt"%string, [bytes_of_string "hi"]);
  Tasks.json_responses b := Err "invalid"%string;
|}.
#[local] Instance decoders_agree : DecodersAgree decoder daemon_decoder.
Proof. split; [|done]. intros b r [= <-]. split; [done|]. by eexists. Qed.

Definition peer_id : string := "peer1".
Definition the_peer : Peer :=
  {| gp_PeerId := peer_id;
     gp_SupportedTasks := [{| gt_Kind := Some KIND_OPENAI_CHAT_COMPLETIONS_V1; gt_Params := ParamsChat "gpt" |}] |}.
Definition the_terms : ReqJobStore.PbTerms :=
  {| ReqJobStore.pt_ProtocolVersion := 2; ReqJobStore.pt_JobId := bytes_of_string "job"; ReqJobStore.pt_PriceMsat := 900;
     ReqJobStore.pt_QuoteExpiry := None; ReqJobStore.pt_TermsHash := []; ReqJobStore.pt_PaymentRequest := "lnbc" |}.
Definition the_result : PbResult := MkPbResult STATUS_OK (bytes_of_string "hello") [] 5 "application/json" "identity" "".

#[local] Instance daemon : GatewayEnv := {|
  l_ListLCPPeers _ := Ok [the_peer];
  l_RequestQuote _ _ := Ok (Some the_terms);
  l_AcceptAndExecute _ _ := Ok (Some the_result);
  l_AcceptAndExecuteStream _ _ :=
    Ok {| rv_msgs := [Some (RespBegin "" "identity"); Some (RespChunk (bytes_of_string "hel")); None;
                      Some (RespChunk (bytes_of_string "lo")); Some (RespEnd [] 5); Some (RespResult the_result)];
          rv_end := EEOF |};
  h_ctx _ := None;
  h_write _ data := (blen data, None);
  h_clock _ := 0;
|}.

Definition cfg : Config :=
  {| g_HTTPAddr := defaultHTTPAddr; g_LCPDGRPCAddr := defaultLCPDGRPCAddr; g_APIKeys := {["k1"%string]};
     g_DefaultPeerID := ""; g_ModelMap := ∅; g_ModelAllowlist := ∅; g_AllowUnlistedModels := false;
     g_MaxPriceMsat := 1000; g_TimeoutQuote := defaultTimeoutQuote; g_TimeoutExecute := defaultTimeoutExecute;
     g_LogLevel := defaultLogLevel |}.

Definition request (authorization : string) (body : string) : HttpRequest :=
  {| hr_Method := "POST"; hr_Path := "/v1/chat/completions"; hr_Authorization := authorization;
     hr_ContentEncoding := ""; hr_Body := [MkRead (bytes_of_string body) (Some ReadEOF)] |}.
Definition good : HttpRequest := request "bearer k1" "body".
Definition streaming : HttpRequest := request "Bearer k1" "stream".

Definition the_task : Tasks.Task :=
  {| Tasks.tk_Spec := Some (Tasks.OpenaiChatCompletionsV1
       (Some {| Tasks.ts_RequestJson := bytes_of_string "body"; Tasks.ts_Params := Some "gpt"%string |})) |}.
Definition the_quote : RequestQuoteRequest := {| rq_PeerId := peer_id; rq_Task := Some the_task |}.

(** The trace of the request, up to the headers. *)
Example good_trace :
  take 3 (trace (serve cfg good)) =
    [GListPeers (Ok [the_peer]); GQuote the_quote (Ok (Some the_terms));
     GExecute (accept_req peer_id (bytes_of_string "job")) (Ok (Some the_result))] ∧
  last (trace (serve cfg good)) = Some (GData 200 "application/json" (bytes_of_string "hello")).
Proof. vm_compute. done. Qed.

(** The streamed body is the two chunks. *)
Example streamed_body : written (trace (serve cfg streaming)) = bytes_of_string "hello".
Proof. vm_compute. done. Qed.

Definition good_rest : list gev := drop 3 (trace (serve cfg good)).

Lemma gateway_execution_justified_witness :
  authorized cfg good ∧
  (∃ kind model body, requested good kind model body ∧
     justified cfg kind model body [GListPeers (Ok [the_peer]); GQuote the_quote (Ok (Some the_terms))]
       (accept_req peer_id (bytes_of_string "job"))) ∧
  Forall no_exec [GListPeers (Ok [the_peer]); GQuote the_quote (Ok (Some the_terms))] ∧ Forall no_exec good_rest.
Proof.
  apply (gateway_execution_justified cfg good
    [GListPeers (Ok [the_peer]); GQuote the_quote (Ok (Some the_terms))]
    (GExecute (accept_req peer_id (bytes_of_string "job")) (Ok (Some the_result)))); vm_compute; reflexivity.
Defined.

Lemma unauthorized_refused_witness :
  Forall (λ e, calls_daemon e = false) (trace (serve cfg (request "Bearer k2" "body"))) ∧
  (hr_Path (request "Bearer k2" "body") ≠ "/healthz"%string →
   trace (serve cfg (request "Bearer k2" "body")) = [GNoRoute] ∨
   ∃ message, trace (serve cfg (request "Bearer k2" "body")) = deny_trace message).
Proof.
  apply (unauthorized_refused cfg (request "Bearer k2" "body")).
  intros [H|(tok & H1 & H2)].
  - by apply (f_equal (λ X : gset string, bool_decide ("k1"%string ∈ X))) in H.
  - vm_compute in H1. injection H1 as <-. cbn in H2. set_solver.
Defined.

Lemma forwarded_task_valid_witness : Tasks.ValidateTask (Some the_task) = Ok tt.
Proof.
  apply (forwarded_task_valid cfg good the_quote (Ok (Some the_terms))).
  assert (Ht : trace (serve cfg good) = [GListPeers (Ok [the_peer]); GQuote the_quote (Ok (Some the_terms))] ++
    drop 2 (trace (serve cfg good))) by (vm_compute; reflexivity).
  rewrite Ht. right. left.
Defined.

(** An environment whose keys are a comma: no key is configured. *)
Definition comma_env : Gateway.envConfig :=
  {| ev_HTTPAddr := ""; ev_LCPDGRPCAddr := ""; ev_APIKeys := " , "; ev_DefaultPeerID := ""; ev_ModelMap := "";
     ev_ModelAllowlist := "gpt, gpt-mini"; ev_AllowUnlistedModels := false; ev_MaxPriceMsat := 0; ev_TimeoutQuote := 0;
     ev_TimeoutExecute := 0; ev_LogLevel := "" |}.
Definition comma_cfg : Config :=
  {| g_HTTPAddr := defaultHTTPAddr; g_LCPDGRPCAddr := defaultLCPDGRPCAddr; g_APIKeys := parseCSVSet ",";
     g_DefaultPeerID := ""; g_ModelMap := ∅; g_ModelAllowlist := parseCSVSet "gpt, gpt-mini";
     g_AllowUnlistedModels := false; g_MaxPriceMsat := 0; g_TimeoutQuote := defaultTimeoutQuote;
     g_TimeoutExecute := defaultTimeoutExecute;
     g_LogLevel := defaultLogLevel |}.

Lemma loaded_config_wf_witness :
  g_APIKeys comma_cfg = ∅ ∧ set_Forall word (g_ModelAllowlist comma_cfg) ∧ 0 < g_TimeoutQuote comma_cfg.
Proof.
  destruct (loaded_config_wf (λ _, None) (Ok comma_env) comma_cfg) as (H1 & _ & _ & _ & _ & H2 & env & [= <-] & H3).
  - vm_compute. reflexivity.
  - split_and!; [|exact H2|exact H1]. apply H3. vm_compute. by repeat constructor.
Defined.

(** Then a request without a key is served. *)
Example comma_keys_serve_everyone :
  calls_daemon <$> head (trace (serve comma_cfg (request "" "body"))) = Some true.
Proof. vm_compute. done. Qed.

(** A default peer in upper case loads, and matches no peer: the daemon's ids are
    hexadecimal in lower case. *)
Definition upper_id : string := "02ABABABABABABABABABABABABABABABABABABABABABABABABABABABABABABABAB".
Definition upper_env : Gateway.envConfig :=
  {| ev_HTTPAddr := ""; ev_LCPDGRPCAddr := ""; ev_APIKeys := ""; ev_DefaultPeerID := upper_id; ev_ModelMap := "";
     ev_ModelAllowlist := ""; ev_AllowUnlistedModels := false; ev_MaxPriceMsat := 0; ev_TimeoutQuote := 0;
     ev_TimeoutExecute := 0; ev_LogLevel := "" |}.
Definition lower_peer : Peer :=
  {| gp_PeerId := default ""%string (hex_encode <$> hex_decode upper_id); gp_SupportedTasks := [] |}.
Example upper_case_peer_not_found :
  match LoadFromEnv (λ _, None) (Ok upper_env) with
  | Ok c => ∃ e, resolvePeerIDForTaskKind c "gpt" KIND_OPENAI_CHAT_COMPLETIONS_V1 [lower_peer] = Err e
  | Err _ => False
  end.
Proof. vm_compute. by eexists. Qed.
End GatewayExamples.
