(* ===== verification/Logging.v ===== *)
(** * What the logs hold

    The log entries of the requester ([grpcservice/lcpd/observability.go]), of the
    provider's jobs ([provider/handler.go]) and of the gateway ([httpapi]), as values.
    The specification forbids prompts, outputs and invoices in the logs at any level. *)

From stdpp Require Import pretty.
From S2P Require Import Prelude GoStd TlvLib Wire Stores JobStore PeerDir Terms Pricing Validation Tasks Lightning Provider Runner ReqJobStore Waiter Requester RequesterRun RequesterTheorems Backend Gateway Httpapi.

Module Logging.

(** ** Entries *)

Inductive level := Debug | Info | Warn | Error.
#[export] Instance level_eq_dec : EqDecision level.
Proof. solve_decision. Defined.

Inductive field := FStr (s : string) | FNum (z : Z) | FCode (c : Code) | FStore (e : ReqJobStore.store_err).

Record entry := MkEntry { en_Level : level; en_Message : string; en_Fields : list (string * field) }.

(** ** The requester *)

(** What [json.Unmarshal] finds of the three limits: [None] is an error. *)
Class TokenJson := token_limits : bytes → option (option Z * option Z * option Z).

Record taskLogSummary := MkSummary {
  ls_taskKind : string;
  ls_model : string;
  ls_requestBytes : Z;
  ls_maxOutputTokens : Z;
}.

(** Milliseconds. *)
Record durations := { du_pay : Z; du_wait : Z; du_total : Z }.

Section requester.
Context {TJ : TokenJson}.

Definition maxOutputTokensFromOpenAIChatCompletionsRequestJSON (b : bytes) : Z :=
  match token_limits b with
  | None => 0
  | Some (MaxCompletionTokens, MaxTokens, MaxOutputTokens) =>
    match MaxCompletionTokens, MaxTokens, MaxOutputTokens with
    | Some n, _, _ | None, Some n, _ | None, None, Some n => n
    | None, None, None => 0
    end
  end.

Definition summarizeTask (task : option Tasks.Task) : taskLogSummary :=
  match task with
  | Some {| Tasks.tk_Spec := Some (Tasks.OpenaiChatCompletionsV1 (Some spec)) |} =>
    MkSummary "openai.chat_completions.v1" (default ""%string (Tasks.ts_Params spec))
      (blen (Tasks.ts_RequestJson spec))
      (maxOutputTokensFromOpenAIChatCompletionsRequestJSON (Tasks.ts_RequestJson spec))
  | _ => MkSummary "" "" 0 0
  end.

Definition summarizeStoredTask (jobs : JobStoreT) (peerID : string) (jobID : bytes) : taskLogSummary :=
  match ReqJobStore.Get peerID jobID jobs with
  | Some job => summarizeTask (Some (ReqJobStore.r_Task job))
  | None => MkSummary "" "" 0 0
  end.

Definition unixSeconds (ts : option Z) : Z := match ts with Some ts => timestampSeconds ts | None => 0 end.

Definition job_fields (peerID : string) (jobID : bytes) : list (string * field) :=
  [("peer_id", FStr peerID); ("job_id", FStr (Hash32_String jobID))]%string.
Definition task_fields (summary : taskLogSummary) : list (string * field) :=
  [("task_kind", FStr (ls_taskKind summary)); ("model", FStr (ls_model summary));
   ("request_bytes", FNum (ls_requestBytes summary)); ("max_output_tokens", FNum (ls_maxOutputTokens summary))]%string.
Definition terms_fields (terms : ReqJobStore.PbTerms) : list (string * field) :=
  [("price_msat", FNum (ReqJobStore.pt_PriceMsat terms));
   ("quote_expiry_unix", FNum (unixSeconds (ReqJobStore.pt_QuoteExpiry terms)));
   ("terms_hash", FStr (hex_encode (ReqJobStore.pt_TermsHash terms)))]%string.

Definition logQuoteReceived (peerID : string) (jobID : bytes) (summary : taskLogSummary) (payloadBytes : Z)
    (terms : ReqJobStore.PbTerms) (totalMs : Z) : entry :=
  MkEntry Info "quote received"
    (job_fields peerID jobID ++ task_fields summary ++ [("payload_bytes"%string, FNum payloadBytes)] ++
     terms_fields terms ++ [("total_ms"%string, FNum totalMs)]).

Definition resultLoggingFields (res : option PbResult) : string * Z :=
  match res with
  | None => (""%string, 0)
  | Some res =>
    if bool_decide (pr_Status res = STATUS_OK) && negb (pr_ResultLen res =? 0) then
      (pr_ContentType res, Z.min (pr_ResultLen res) max_i64)
    else (pr_ContentType res, blen (pr_Result res))
  end.

Definition logResultReceived (peerID : string) (jobID : bytes) (summary : taskLogSummary)
    (terms : ReqJobStore.PbTerms) (res : option PbResult) (d : durations) : entry :=
  let '(contentType, resultBytes) := resultLoggingFields res in
  MkEntry Info "result received"
    (job_fields peerID jobID ++ task_fields summary ++ terms_fields terms ++
     [("result_bytes", FNum resultBytes); ("content_type", FStr contentType); ("pay_ms", FNum (du_pay d));
      ("wait_ms", FNum (du_wait d)); ("total_ms", FNum (du_total d))]%string).

(** The error helpers: [request_quote failed] and [accept_and_execute failed]. *)
Definition failure (msg peerID : string) (jobID : bytes) (code : Code) (summary : taskLogSummary)
    (lcpErr : option Z) : entry :=
  MkEntry Warn msg
    (job_fields peerID jobID ++
     [("grpc_code", FCode code); ("task_kind", FStr (ls_taskKind summary)); ("model", FStr (ls_model summary))]%string ++
     match lcpErr with Some c => [("lcp_error_code"%string, FNum c)] | None => [] end).

Definition requestQuoteWaiterErrorLog (ctx : option ctx_err) (peerID : string) (jobID : bytes)
    (summary : taskLogSummary) (err : Waiter.wait_err) : entry :=
  failure "request_quote failed" peerID jobID (st_Code (grpcStatusFromWaiterError ctx err)) summary None.
Definition requestQuoteLCPErrorLog (peerID : string) (jobID : bytes) (summary : taskLogSummary) (lcpErr : LcpError) :
    entry :=
  failure "request_quote failed" peerID jobID FailedPrecondition summary (Some (er_Code lcpErr)).
Definition acceptAndExecuteVerifyErrorLog (peerID : string) (jobID : bytes) (summary : taskLogSummary)
    (verifyErr : Status) : entry :=
  failure "accept_and_execute failed" peerID jobID (st_Code verifyErr) summary None.
Definition acceptAndExecuteLightningErrorLog (ctx : option ctx_err) (peerID : string) (jobID : bytes)
    (summary : taskLogSummary) (payErr : ln_err) : entry :=
  failure "accept_and_execute failed" peerID jobID (st_Code (grpcStatusFromLightningError ctx payErr)) summary None.
Definition acceptAndExecuteWaiterErrorLog (ctx : option ctx_err) (peerID : string) (jobID : bytes)
    (summary : taskLogSummary) (err : Waiter.wait_err) : entry :=
  failure "accept_and_execute failed" peerID jobID (st_Code (grpcStatusFromWaiterError ctx err)) summary None.
Definition acceptAndExecuteLCPErrorLog (peerID : string) (jobID : bytes) (summary : taskLogSummary)
    (lcpErr : LcpError) : entry :=
  failure "accept_and_execute failed" peerID jobID FailedPrecondition summary (Some (er_Code lcpErr)).

Context {T : TlvLib} {W : WireText} {TX : TermsText} {RZ : MapRange Z bytes}.

(** What [RequestQuote] logs from the end of its wait; [put] is what [PutQuote] returns. *)
Definition requestQuoteLog (peerID : string) (jobID : bytes) (task : option Tasks.Task)
    (wireTask : Tasks.QuoteRequestTask) (inputStream : Tasks.InputStream) (payloadBytes : Z) (ctx : option ctx_err)
    (waited : result Waiter.wait_err Waiter.QuoteOutcome) (put : result ReqJobStore.store_err unit) (totalMs : Z) :
    list entry :=
  let summary := summarizeTask task in
  match waited with
  | Err e => [requestQuoteWaiterErrorLog ctx peerID jobID summary e]
  | Ok outcome =>
    match Waiter.qo_Error outcome, Waiter.qo_QuoteResponse outcome with
    | Some lcpErr, _ => [requestQuoteLCPErrorLog peerID jobID summary lcpErr]
    | None, None => []
    | None, Some resp =>
      match termsFromQuoteResponse wireTask inputStream resp with
      | Err _ => []
      | Ok terms =>
        match put with
        | Err e => [MkEntry Error "put quote failed" (job_fields peerID jobID ++ [("err"%string, FStore e)])]
        | Ok _ => [logQuoteReceived peerID jobID summary payloadBytes terms totalMs]
        end
      end
    end
  end.

(** What [AcceptAndExecute] logs once it has the terms: the invoice is verified, paid
    and the result waited for. *)
Definition acceptLog (jobs : JobStoreT) (peerID : string) (jobID : bytes) (terms : ReqJobStore.PbTerms)
    (ctx : option ctx_err) (verified : option Status) (paid : option ln_err)
    (waited : result Waiter.wait_err Waiter.ResultOutcome) (d : durations) : list entry :=
  let summary := summarizeStoredTask jobs peerID jobID in
  match verified, paid, waited with
  | Some st, _, _ => [acceptAndExecuteVerifyErrorLog peerID jobID summary st]
  | None, Some e, _ => [acceptAndExecuteLightningErrorLog ctx peerID jobID summary e]
  | None, None, Err e => [acceptAndExecuteWaiterErrorLog ctx peerID jobID summary e]
  | None, None, Ok outcome =>
    match Waiter.ro_Error outcome, Waiter.ro_Result outcome with
    | Some lcpErr, _ => [acceptAndExecuteLCPErrorLog peerID jobID summary lcpErr]
    | None, None => []
    | None, Some terminal =>
      match protoResultFromTerminal terminal (Waiter.ro_ResultBytes outcome) with
      | Err _ => []
      | Ok res => [logResultReceived peerID jobID summary terms (Some res) d]
      end
    end
  end.
End requester.

(** ** The provider's jobs *)

Record jobLogMeta := MkMeta {
  jm_peerPubKey : string;
  jm_jobID : string;
  jm_taskKind : string;
  jm_model : string;
  jm_inputBytes : Z;
  jm_priceMsat : Z;
  jm_termsHash : string;
}.

Definition errorKind (e : task_err) : string :=
  match e with
  | ErrUnsupportedTaskKind _ => "unsupported_task_kind"
  | ErrInvalidTask _ => "invalid_task"
  | ErrUnauthenticated _ => "unauthenticated"
  | ErrBackendUnavailable _ => "backend_unavailable"
  | _ => "unknown"
  end.

(** [strings.ReplaceAll] of a byte. *)
Definition replace (old : byte) (new : bytes) (s : bytes) : bytes :=
  flat_map (λ b, if bool_decide (b = old) then new else [b]) s.
Definition newline : byte := Byte.x0a.
Definition carriage_return : byte := Byte.x0d.

Definition maxLen : Z := 200.
Definition truncated_mark : string := "...(truncated)".

Definition safeErrMessage (err : option task_err) : string :=
  match err with
  | None => ""
  | Some e =>
    let msg := replace newline (bytes_of_string "\n") (bytes_of_string (err_text e)) in
    let msg := replace carriage_return (bytes_of_string "\r") msg in
    if maxLen <? blen msg then string_of_bytes (take (Z.to_nat maxLen) msg) +:+ truncated_mark
    else string_of_bytes msg
  end.

Definition clampUint64ToInt (v : Z) : Z := Z.min v max_i64.

(** Milliseconds. *)
Record job_times := { jt_settle : Z; jt_execute : Z; jt_total : Z }.

Definition meta_fields (meta : jobLogMeta) : list (string * field) :=
  [("peer_pub_key", FStr (jm_peerPubKey meta)); ("job_id", FStr (jm_jobID meta));
   ("task_kind", FStr (jm_taskKind meta)); ("model", FStr (jm_model meta));
   ("input_bytes", FNum (jm_inputBytes meta))]%string.

Definition logJobExecutionFailed (meta : jobLogMeta) (t : job_times) (code : Z) (err : task_err) : list entry :=
  [MkEntry Warn "job execution failed"
     (meta_fields meta ++
      [("price_msat", FNum (jm_priceMsat meta)); ("terms_hash", FStr (jm_termsHash meta));
       ("settle_ms", FNum (jt_settle t)); ("execute_ms", FNum (jt_execute t)); ("error_code", FNum code);
       ("err_kind", FStr (errorKind err))]%string);
   MkEntry Debug "job execution failed details"
     [("peer_pub_key", FStr (jm_peerPubKey meta)); ("job_id", FStr (jm_jobID meta));
      ("err", FStr (safeErrMessage (Some err)))]%string].

Definition logJobCompleted (meta : jobLogMeta) (t : job_times) (outputBytes : Z) (usage : Usage) : entry :=
  MkEntry Info "job completed"
    (meta_fields meta ++
     [("output_bytes", FNum outputBytes); ("price_msat", FNum (jm_priceMsat meta));
      ("terms_hash", FStr (jm_termsHash meta)); ("settle_ms", FNum (jt_settle t));
      ("execute_ms", FNum (jt_execute t)); ("total_ms", FNum (jt_total t));
      ("usage_input_units", FNum (us_InputUnits usage)); ("usage_output_units", FNum (us_OutputUnits usage));
      ("usage_total_units", FNum (us_TotalUnits usage))]%string).

Section provider.
Context {T : TlvLib} {J : JsonLib} {F : Fmt} {W : WireText}.
Context (cfg : Config) (policy : ExecutionPolicy).

(** [meta] at the start of [runJob]; the planned model replaces the one of the request. *)
Definition job_meta (r : runner) : jobLogMeta :=
  MkMeta (JobStore.k_PeerPubKey (r_key r)) (Hash32_String (env_JobID (qs_Envelope (r_quote r))))
    (qr_TaskKind (r_req r)) (modelFromRequest (r_req r)) (blen (JobStore.is_Buf (r_input r)))
    (qs_PriceMsat (r_quote r)) (Hash32_String (qs_TermsHash (r_quote r))).
Definition with_model (model : string) (m : jobLogMeta) : jobLogMeta :=
  MkMeta (jm_peerPubKey m) (jm_jobID m) (jm_taskKind m) model (jm_inputBytes m) (jm_priceMsat m) (jm_termsHash m).

Definition failLog (r : runner) (meta : jobLogMeta) (t : job_times) (e : task_err) : list entry :=
  if r_ctxDone r then [] else logJobExecutionFailed meta t (computeErrorCode e) e.

(** What the segments of [runJob] log, in the order of [Runner.v]; [err] is the text of the
    error of [WaitForSettlement], [sent] is what [sendResult] returned. *)
Definition settleLog (r : runner) (o : settle_outcome) (err : string) : list entry :=
  let fields := [("peer_pub_key", FStr (JobStore.k_PeerPubKey (r_key r))); ("job_id", FStr (jm_jobID (job_meta r)))]%string in
  match o with
  | SettleCanceled => [MkEntry Debug "job canceled before settlement" fields]
  | SettleFailed => [MkEntry Warn "wait invoice settlement failed" (fields ++ [("err"%string, FStr err)])]
  | SettleOK => []
  end.

Definition planLog (r : runner) (t : job_times) : list entry :=
  if r_ctxDone r then [] else
  match planTask cfg policy (r_req r) (JobStore.is_Buf (r_input r)) with
  | Err e => failLog r (job_meta r) t e
  | Ok _ => []
  end.

Definition execLog (r : runner) (task : Task) (streaming : bool) (o : exec_outcome) (sent : bool) (usage : Usage)
    (t : job_times) : list entry :=
  let meta := with_model (t_Model task) (job_meta r) in
  match streaming, o with
  | _, ExecErr e => failLog r meta t e
  | true, ExecNil => failLog r meta t (ErrBackendUnavailable "streaming output is nil")
  | false, ExecOutput output =>
    if blen output =? 0 then failLog r meta t (ErrBackendUnavailable "execute backend returned empty output")
    else if sent then [logJobCompleted meta t (blen output) usage] else []
  | _, _ => []
  end.

(** [res] is what [sendResultStreaming] returned. *)
Definition streamLog (r : runner) (task : Task) (res : Z * bool * option task_err) (usage : Usage) (t : job_times) :
    list entry :=
  let meta := with_model (t_Model task) (job_meta r) in
  match res with
  | (_, _, Some e) => failLog r meta t e
  | (outputLen, true, None) => [logJobCompleted meta t (clampUint64ToInt outputLen) usage]
  | (_, false, None) => []
  end.
End provider.

(** ** The gateway *)

Definition ApproxTokensFromBytes (n : Z) : Z := if n <=? 0 then 0 else (n + 3) / 4.

(** [logStreamResult] and the entry of [logAndWriteResult]: the field [what] and the bytes
    of the body. *)
Definition gatewayLog (operation what model peerID : string) (jobID : bytes) (quote : option ReqJobStore.PbTerms)
    (requestBytes bodyBytes quoteMs executeMs totalMs : Z) : entry :=
  let requestTokens := ApproxTokensFromBytes requestBytes in
  let bodyTokens := ApproxTokensFromBytes bodyBytes in
  MkEntry Info operation
    [("model", FStr model); ("peer_id", FStr peerID); ("job_id", FStr (hex_encode jobID));
     ("price_msat", FNum (default 0 (ReqJobStore.pt_PriceMsat <$> quote)));
     ("terms_hash", FStr (hex_encode (Httpapi.quote_hash quote))); ("request_bytes", FNum requestBytes);
     (what +:+ "_bytes", FNum bodyBytes); ("request_tokens_approx", FNum requestTokens);
     (what +:+ "_tokens_approx", FNum bodyTokens); ("total_tokens_approx", FNum (requestTokens + bodyTokens));
     ("quote_ms", FNum quoteMs); ("execute_ms", FNum executeMs); ("total_ms", FNum totalMs)]%string.
Definition logStreamResult (operation model peerID : string) := gatewayLog operation "streamed" model peerID.
Definition logResult (operation model peerID : string) := gatewayLog operation "completion" model peerID.

(** [requestLoggerMiddleware]; [debug] is whether the level is enabled. *)
Definition requestLoggerMiddleware (debug : bool) (method path clientIP : string) (status latencyMs : Z) : list entry :=
  let attrs := [("method", FStr method); ("path", FStr path); ("status", FNum status); ("latency_ms", FNum latencyMs);
                ("client_ip", FStr clientIP)]%string in
  if 500 <=? status then [MkEntry Error "http request failed" attrs]
  else if debug then [MkEntry Debug "http request" attrs] else [].

(** ** Metadata only *)

(** Every text of the entry is one of [allowed]; the other fields are numbers and codes. *)
Definition holds_only (allowed : list string) (en : entry) : Prop :=
  Forall (λ f : string * field, match f.2 with FStr s => s ∈ allowed | _ => True end) (en_Fields en).

(** The model a task declares beside its request. *)
Definition declared_model (task : option Tasks.Task) : string :=
  match task with
  | Some {| Tasks.tk_Spec := Some (Tasks.OpenaiChatCompletionsV1 (Some spec)) |}
  | Some {| Tasks.tk_Spec := Some (Tasks.OpenaiResponsesV1 (Some spec)) |} => default ""%string (Tasks.ts_Params spec)
  | _ => ""%string
  end.

(** Each field is a number, or a text that is in the list. *)
Ltac listed :=
  unfold holds_only; cbn [en_Fields app];
  repeat first [apply Forall_app_2 | apply Forall_cons_2 | apply Forall_nil_2]; cbn [snd]; try done;
  rewrite ?elem_of_app, ?elem_of_cons, ?elem_of_nil in *; tauto.

Section metadata.
Context {TJ : TokenJson} {T : TlvLib} {W : WireText} {TX : TermsText} {RZ : MapRange Z bytes}.

(** What an entry about a job of the requester may hold. *)
Definition job_metadata (peerID : string) (jobID : bytes) (task : option Tasks.Task) : list string :=
  [peerID; Hash32_String jobID; "openai.chat_completions.v1"; ""; declared_model task]%string.

Lemma summary_metadata peerID jobID task :
  ls_taskKind (summarizeTask task) ∈ job_metadata peerID jobID task ∧
  ls_model (summarizeTask task) ∈ job_metadata peerID jobID task.
Proof.
  unfold job_metadata. destruct task as [[[[[spec|]|[spec|]]|]]|]; cbn [summarizeTask declared_model ls_taskKind ls_model];
    rewrite !elem_of_cons; tauto.
Qed.

Lemma failure_metadata more msg peerID jobID code task lcp :
  holds_only (job_metadata peerID jobID task ++ more) (failure msg peerID jobID code (summarizeTask task) lcp).
Proof. destruct (summary_metadata peerID jobID task). unfold job_metadata, failure in *. destruct lcp; listed. Qed.

Lemma quote_metadata more peerID jobID task n terms ms :
  hex_encode (ReqJobStore.pt_TermsHash terms) ∈ more →
  holds_only (job_metadata peerID jobID task ++ more)
    (logQuoteReceived peerID jobID (summarizeTask task) n terms ms).
Proof. intros Hh. destruct (summary_metadata peerID jobID task). unfold job_metadata, logQuoteReceived in *. listed. Qed.

Lemma result_metadata more peerID jobID task terms res d :
  hex_encode (ReqJobStore.pt_TermsHash terms) ∈ more → pr_ContentType res ∈ more →
  holds_only (job_metadata peerID jobID task ++ more)
    (logResultReceived peerID jobID (summarizeTask task) terms (Some res) d).
Proof.
  intros Hh Ht. destruct (summary_metadata peerID jobID task). unfold job_metadata, logResultReceived, resultLoggingFields in *.
  destruct (_ && _); listed.
Qed.

(** The terms hash in a response, the content type in a result. *)
Definition response_hash (waited : result Waiter.wait_err Waiter.QuoteOutcome) : string :=
  match waited with
  | Ok o => match Waiter.qo_QuoteResponse o with Some resp => hex_encode (qs_TermsHash resp) | None => ""%string end
  | Err _ => ""%string
  end.
Definition result_type (waited : result Waiter.wait_err Waiter.ResultOutcome) : string :=
  match waited with
  | Ok o => match Waiter.ro_Result o with
            | Some t => match rs_OK t with Some ok => ro_ResultContentType ok | None => ""%string end
            | None => ""%string
            end
  | Err _ => ""%string
  end.

Lemma proto_type terminal bytes res :
  protoResultFromTerminal terminal bytes = Ok res →
  pr_ContentType res ∈ [""; match rs_OK terminal with Some ok => ro_ResultContentType ok | None => "" end]%string.
Proof.
  unfold protoResultFromTerminal, okResult. intros H. repeat case_match; simplify_eq; cbn; rewrite ?elem_of_cons; auto.
Qed.

Lemma request_quote_metadata peerID jobID task wt ins n ctx waited put ms :
  Forall (holds_only (job_metadata peerID jobID task ++ [response_hash waited]))
    (requestQuoteLog peerID jobID task wt ins n ctx waited put ms).
Proof.
  unfold requestQuoteLog, response_hash. destruct waited as [o|e]; [|by apply Forall_singleton, failure_metadata].
  destruct (Waiter.qo_Error o) as [lcp|]; [by apply Forall_singleton, failure_metadata|].
  destruct (Waiter.qo_QuoteResponse o) as [resp|]; [|constructor].
  destruct (termsFromQuoteResponse wt ins resp) as [terms|] eqn:Ht; [|constructor].
  destruct (terms_from_response _ _ _ _ Ht) as (_ & <- & _).
  destruct put as [u|e]; apply Forall_singleton; [apply quote_metadata; by left|].
  unfold job_metadata. listed.
Qed.

Lemma accept_metadata jobs peerID jobID terms ctx verified paid waited d :
  let task := ReqJobStore.r_Task <$> ReqJobStore.Get peerID jobID jobs in
  Forall (holds_only (job_metadata peerID jobID task ++
            [hex_encode (ReqJobStore.pt_TermsHash terms); ""%string; result_type waited]))
    (acceptLog jobs peerID jobID terms ctx verified paid waited d).
Proof.
  cbv zeta. unfold acceptLog. cbv zeta.
  replace (summarizeStoredTask jobs peerID jobID) with
    (summarizeTask (ReqJobStore.r_Task <$> ReqJobStore.Get peerID jobID jobs))
    by (unfold summarizeStoredTask; by destruct (ReqJobStore.Get peerID jobID jobs)).
  destruct verified as [st|]; [by apply Forall_singleton, failure_metadata|].
  destruct paid as [e|]; [by apply Forall_singleton, failure_metadata|].
  destruct waited as [o|e]; [|by apply Forall_singleton, failure_metadata]. cbn [result_type].
  destruct (Waiter.ro_Error o) as [lcp|]; [by apply Forall_singleton, failure_metadata|].
  destruct (Waiter.ro_Result o) as [t|]; [|constructor].
  destruct (protoResultFromTerminal t _) as [res|] eqn:Hr; [|constructor]. apply proto_type in Hr.
  apply Forall_singleton, result_metadata; [by left|by right].
Qed.
End metadata.

(** ** The text of an error *)

Lemma replace_other old new s b : b ≠ old → b ∈ replace old new s → b ∈ new ∨ b ∈ s.
Proof.
  intros Hne. induction s as [|x s IH]; [by intros ?%elem_of_nil|]. unfold replace. cbn [flat_map].
  rewrite elem_of_app, elem_of_cons. fold (replace old new s). intros [Hb|Hb]; [|naive_solver].
  case_bool_decide; [by left|]. right. left. by apply list_elem_of_singleton in Hb.
Qed.

Lemma replace_gone old new s : old ∉ new → old ∉ replace old new s.
Proof.
  intros Hn. induction s as [|x s IH]; [apply not_elem_of_nil|]. unfold replace. cbn [flat_map]. rewrite not_elem_of_app.
  split; [|done]. case_bool_decide; [done|]. rewrite list_elem_of_singleton. congruence.
Qed.

Lemma replace_absent old new s : old ∉ s → replace old new s = s.
Proof.
  induction s as [|x s IH]; [done|]. rewrite not_elem_of_cons. intros [Hne Hs]. unfold replace. cbn [flat_map].
  rewrite bool_decide_false by congruence. cbn. f_equal. by apply IH.
Qed.

(** One line, and short. *)
Definition one_line (s : string) : Prop :=
  (newline ∉ bytes_of_string s) ∧ (carriage_return ∉ bytes_of_string s) ∧ blen (bytes_of_string s) ≤ 214.

Definition escaped (e : task_err) : bytes :=
  replace carriage_return (bytes_of_string "\r") (replace newline (bytes_of_string "\n") (bytes_of_string (err_text e))).

Lemma escaped_lines e : (newline ∉ escaped e) ∧ (carriage_return ∉ escaped e).
Proof.
  unfold escaped. split.
  - intros [H|H]%replace_other; [by vm_compute in H; set_solver| |done]. revert H. apply replace_gone. vm_compute. set_solver.
  - apply replace_gone. vm_compute. set_solver.
Qed.

Lemma safe_err_one_line e : one_line (safeErrMessage (Some e)).
Proof.
  destruct (escaped_lines e) as [Hn Hc]. unfold one_line, safeErrMessage. fold (escaped e). cbv zeta.
  destruct (Z.ltb_spec maxLen (blen (escaped e))) as [Hlt|Hge].
  - rewrite bytes_of_string_append, bytes_of_string_of_bytes, !not_elem_of_app, blen_app. split_and!.
    + by intros (i & Hi%list_elem_of_lookup_2 & _)%elem_of_take.
    + vm_compute. set_solver.
    + by intros (i & Hi%list_elem_of_lookup_2 & _)%elem_of_take.
    + vm_compute. set_solver.
    + unfold blen at 1. rewrite length_take. vm_compute (blen (bytes_of_string truncated_mark)). unfold maxLen. lia.
  - rewrite bytes_of_string_of_bytes. split_and!; [done|done|]. unfold maxLen in Hge. lia.
Qed.

(** ** The provider's entries *)

Section jobs.
Context {T : TlvLib} {J : JsonLib} {F : Fmt} {W : WireText}.
Context (cfg : Config) (policy : ExecutionPolicy).

Definition error_kinds : list string :=
  ["unsupported_task_kind"; "invalid_task"; "unauthenticated"; "backend_unavailable"; "unknown"].

(** What an entry about a job of the provider may hold. *)
Definition meta_texts (m : jobLogMeta) : list string :=
  [jm_peerPubKey m; jm_jobID m; jm_taskKind m; jm_model m; jm_termsHash m].

(** Above the debug level, metadata and the class of an error; at the debug level also the
    error's text, on one short line. *)
Definition job_entry_ok (m : jobLogMeta) (en : entry) : Prop :=
  match en_Level en with
  | Debug => ∃ text, one_line text ∧ holds_only (meta_texts m ++ [text]) en
  | _ => holds_only (meta_texts m ++ error_kinds) en
  end.

Lemma error_kind_known e : errorKind e ∈ error_kinds.
Proof. by destruct e; repeat constructor. Qed.

Lemma failed_entries m t code e : Forall (job_entry_ok m) (logJobExecutionFailed m t code e).
Proof.
  pose proof (error_kind_known e) as He. unfold logJobExecutionFailed.
  apply Forall_cons_2; [|apply Forall_singleton]; unfold job_entry_ok; cbn [en_Level].
  - unfold meta_fields, meta_texts. listed.
  - exists (safeErrMessage (Some e)). split; [apply safe_err_one_line|]. unfold meta_texts. listed.
Qed.

Lemma completed_entry m t n usage : job_entry_ok m (logJobCompleted m t n usage).
Proof.
  unfold job_entry_ok, logJobCompleted, meta_fields, meta_texts. cbn [en_Level]. listed.
Qed.

Lemma fail_entries r m t e : Forall (job_entry_ok m) (failLog r m t e).
Proof. unfold failLog. destruct (r_ctxDone r); [constructor|apply failed_entries]. Qed.

Lemma exec_entries r task streaming o sent usage t :
  Forall (job_entry_ok (with_model (t_Model task) (job_meta r))) (execLog r task streaming o sent usage t).
Proof.
  unfold execLog. cbv zeta. destruct streaming, o; try constructor; try apply fail_entries.
  repeat case_match; [apply fail_entries|apply Forall_singleton, completed_entry|constructor].
Qed.

Lemma stream_entries r task res usage t :
  Forall (job_entry_ok (with_model (t_Model task) (job_meta r))) (streamLog r task res usage t).
Proof.
  unfold streamLog. cbv zeta. destruct res as [[n []] [e|]]; try apply fail_entries; [|constructor].
  apply Forall_singleton, completed_entry.
Qed.

Lemma settle_entries r o err : Forall (holds_only (meta_texts (job_meta r) ++ [err])) (settleLog r o err).
Proof.
  unfold settleLog, meta_texts. cbv zeta. destruct o; [constructor|apply Forall_singleton..]; cbn [jm_peerPubKey jm_jobID job_meta]; listed.
Qed.

Lemma plan_entries r t : Forall (job_entry_ok (job_meta r)) (planLog cfg policy r t).
Proof.
  unfold planLog. destruct (r_ctxDone r); [constructor|].
  destruct (planTask _ _ _ _); [constructor|apply fail_entries].
Qed.
End jobs.

Lemma gateway_entry operation what model peerID jobID quote n m t1 t2 t3 :
  holds_only [model; peerID; hex_encode jobID; hex_encode (Httpapi.quote_hash quote)]
    (gatewayLog operation what model peerID jobID quote n m t1 t2 t3).
Proof. unfold gatewayLog. cbv zeta. listed. Qed.

Section logs.
Context {TJ : TokenJson} {T : TlvLib} {W : WireText} {TX : TermsText} {RZ : MapRange Z bytes} {J : JsonLib} {F : Fmt}.


End logs.

(** A short line is logged as it is. *)
Lemma safe_err_kept e :
  newline ∉ bytes_of_string (err_text e) → carriage_return ∉ bytes_of_string (err_text e) →
  blen (bytes_of_string (err_text e)) ≤ maxLen → safeErrMessage (Some e) = err_text e.
Proof.
  intros Hn Hc Hl. unfold safeErrMessage. cbv zeta. rewrite (replace_absent newline) by done.
  rewrite (replace_absent carriage_return) by done.
  destruct (Z.ltb_spec maxLen (blen (bytes_of_string (err_text e)))); [lia|]. apply string_of_bytes_of_string.
Qed.

(** The statuses that [errorFromPassthroughHTTPResponse] names. *)
Definition named_status : list Z := [400; 401; 403; 429; 500; 502; 503; 504].

Lemma upstream_text statusCode body :
  statusCode ∈ named_status → TrimSpace (string_of_bytes body) ≠ ""%string →
  blen (bytes_of_string (TrimSpace (string_of_bytes body))) ≤ 128 →
  ∃ pre, err_text (errorFromPassthroughHTTPResponse statusCode body) = pre +:+ TrimSpace (string_of_bytes body) ∧
    (newline ∉ bytes_of_string pre) ∧ (carriage_return ∉ bytes_of_string pre) ∧ blen (bytes_of_string pre) ≤ 72.
Proof.
  intros Hs Hne Hl. unfold errorFromPassthroughHTTPResponse. cbv zeta. rewrite (bool_decide_false _ Hne).
  generalize dependent (TrimSpace (string_of_bytes body)). intros text Hne Hl.
  destruct (Z.ltb_spec maxUpstreamErrorMessageBytes (blen (bytes_of_string text))) as [Hlt|_];
    [unfold maxUpstreamErrorMessageBytes in Hlt; lia|].
  unfold named_status in Hs. rewrite !elem_of_cons in Hs.
  destruct Hs as [->|[->|[->|[->|[->|[->|[->|[->|Hs]]]]]]]]; [..|by apply elem_of_nil in Hs].
  1: exists "invalid task: http 400: "%string.
  2: exists "unauthenticated: http 401: "%string.
  3: exists "unauthenticated: http 403: "%string.
  4: exists "backend unavailable: http 429: "%string.
  5: exists "backend unavailable: http 500: "%string.
  6: exists "backend unavailable: http 502: "%string.
  7: exists "backend unavailable: http 503: "%string.
  8: exists "backend unavailable: http 504: "%string.
  all: split; [reflexivity|]; vm_compute; split_and!; [set_solver|set_solver|discriminate].
Qed.

(** What the model server answers with an error is in the debug log.  When a call fails
    with an HTTP error whose body is one line of at most 128 bytes, the debug entry of the
    job ends with the whole body, whatever it quotes of the request. *)
Theorem debug_log_quotes_upstream r m t statusCode body (text := TrimSpace (string_of_bytes body)) :
  statusCode ∈ named_status → text ≠ ""%string → newline ∉ bytes_of_string text →
  carriage_return ∉ bytes_of_string text → blen (bytes_of_string text) ≤ 128 → r_ctxDone r = false →
  ∃ en pre, en ∈ failLog r m t (errorFromPassthroughHTTPResponse statusCode body) ∧ en_Level en = Debug ∧
    ("err"%string, FStr (pre +:+ text)) ∈ en_Fields en.
Proof.
  intros Hs Hne Hn Hc Hl Hctx. destruct (upstream_text statusCode body Hs Hne Hl) as (pre & Hpre & Hpn & Hpc & Hpl).
  fold text in Hpre. unfold failLog. rewrite Hctx. eexists _, pre. split; [right; left|]. split; [done|].
  cbn [en_Fields]. rewrite safe_err_kept, Hpre; [by right; right; left|..]; rewrite Hpre, bytes_of_string_append.
  - by apply not_elem_of_app.
  - by apply not_elem_of_app.
  - rewrite blen_app. unfold maxLen. lia.
Qed.
End Logging.
