(* ===== verification/Startup.v ===== *)
(** * How the programs start and end

    [lndpeermsg/dial.go], the start and the end of [tools/lcpd-grpcd], the lnd adapter of
    the provider, and the start and the end of openai-serve: what is opened, what is
    closed, the exit codes.  Files, listeners, gRPC connections and the fx application are
    parameters ([Host]); a trace records what is opened and closed. *)

From stdpp Require Import pretty.
From S2P Require Import Prelude GoStd TlvLib Wire Stores Replay JobStore PeerDir PeerMsg Terms Pricing Validation Provider ResultSend Lightning Tasks ReqJobStore Waiter Requester Backend Daemon Gateway Trace.

Module Startup.

(** ** The world *)

Inductive ConnState := Idle | Connecting | Ready | TransientFailure | ShutdownState.

#[export] Instance ConnState_eq_dec : EqDecision ConnState.
Proof. solve_decision. Defined.

(** What a program holds. *)
Inductive resource := ResListener | ResApp | ResLndConn | ResLcpdConn | ResServer.

#[export] Instance resource_eq_dec : EqDecision resource.
Proof. solve_decision. Defined.

Inductive sev := SOpen (r : resource) | SClose (r : resource) | SStderr (msg : string).

(** Errors are their texts.  The states of a connection are those seen until its context
    ends, which it does: every dial has a deadline. *)
Class Host := {
  os_ReadFile : string → result string bytes;
  pem_ok : bytes → bool;
  net_SplitHostPort : string → result string string;
  grpc_NewClient : string → result string unit;
  conn_states : list ConnState;
  conn_ctxErr : ctx_err;
  net_Listen : string → result string unit;
  logger_Build : result string unit;
  app_Start : result string unit;
  run_ctxErr : ctx_err;
}.

Definition ctx_text (e : ctx_err) : string :=
  match e with CtxCanceled => "context canceled" | CtxDeadlineExceeded => "context deadline exceeded" end.

(** ** dial.go *)

(** The options of the connection; there is no way to build one without TLS. *)
Record LndConn := {
  cn_Addr : string;
  cn_ServerName : string;
  cn_RootCAs : option bytes;
  cn_macaroonHex : option string;
}.

(** [GetRequestMetadata]. *)
Definition GetRequestMetadata (c : LndConn) : list (string * string) :=
  match cn_macaroonHex c with
  | Some m => if bool_decide (m = ""%string) then [] else [("macaroon"%string, m)]
  | None => []
  end.

(** The loop over the states of a connection. *)
Fixpoint connect_loop (states : list ConnState) (ctxErr : string) : result string unit :=
  match states with
  | [] => Err ctxErr
  | Ready :: _ => Ok tt
  | _ :: rest => connect_loop rest ctxErr
  end.

Section startup.
Context {H : Host}.

Definition with_err {A} (prefix : string) (r : result string A) : result string A :=
  match r with Ok a => Ok a | Err e => Err (prefix +:+ e) end.

Definition rootCAs (cfg : LndConfig) : result string (option bytes) :=
  if bool_decide (TrimSpace (lc_TLSCertPath cfg) = ""%string) then Ok None else
  pem ← with_err "read lnd tls cert: " (os_ReadFile (lc_TLSCertPath cfg));
  if pem_ok pem then Ok (Some pem) else Err ("append lnd tls cert to pool: " +:+ lc_TLSCertPath cfg).

Definition macaroon (cfg : LndConfig) : result string (option string) :=
  if bool_decide (TrimSpace (lc_AdminMacaroonPath cfg) = ""%string) then Ok None else
  raw ← with_err "read lnd macaroon: " (os_ReadFile (lc_AdminMacaroonPath cfg));
  Ok (Some (hex_encode raw)).

(** What [grpc.NewClient] is given. *)
Definition dialOptions (cfg : LndConfig) : result string LndConn :=
  _ ← ensure (negb (bool_decide (TrimSpace (lc_RPCAddr cfg) = ""%string))) "lnd rpc_addr is required"%string;
  host ← with_err "parse lnd rpc_addr: " (net_SplitHostPort (lc_RPCAddr cfg));
  roots ← rootCAs cfg;
  mac ← macaroon cfg;
  Ok {| cn_Addr := lc_RPCAddr cfg; cn_ServerName := host; cn_RootCAs := roots; cn_macaroonHex := mac |}.

Definition dial (cfg : LndConfig) : TM sev (result string LndConn) :=
  match dialOptions cfg with
  | Err e => mret (Err e)
  | Ok conn =>
    match grpc_NewClient (lc_RPCAddr cfg) with
    | Err e => mret (Err ("grpc new client (" +:+ lc_RPCAddr cfg +:+ "): " +:+ e))
    | Ok _ =>
      _ ← emit (SOpen ResLndConn);
      match connect_loop conn_states (ctx_text conn_ctxErr) with
      | Ok _ => mret (Ok conn)
      | Err e =>
        _ ← emit (SClose ResLndConn);
        mret (Err ("grpc connect lnd (" +:+ lc_RPCAddr cfg +:+ "): " +:+ e))
      end
    end
  end.

(** ** provider/lnd_adapter.go: connecting and sending *)

(** [None] is an adapter without a connection. *)
Definition NewLNDAdapter (cfg : option LndConfig) : TM sev (result string (option LndConn)) :=
  match cfg with
  | None => mret (Ok None)
  | Some cfg => r ← dial cfg; mret match r with Ok c => Ok (Some c) | Err e => Err e end
  end.

Definition Close (adapter : option LndConn) : TM sev unit :=
  match adapter with Some _ => emit (SClose ResLndConn) | None => mret tt end.

(** The request lnd gets, and the error of the adapter (without the one of
    [encoding/hex]). *)
Record SendCustomMessageRequest := { sr_Peer : bytes; sr_Type : Z; sr_Data : bytes }.
Definition SendCustomMessage (adapter : option LndConn) (lnd : SendCustomMessageRequest → option string)
    (peerPubKey : string) (msgType : Z) (payload : bytes) :
    option SendCustomMessageRequest * option string :=
  match adapter with
  | None => (None, Some "lnd messenger not configured"%string)
  | Some _ =>
    match hex_decode peerPubKey with
    | None => (None, Some "decode peer pubkey"%string)
    | Some peerBytes =>
      let req := {| sr_Peer := peerBytes; sr_Type := msgType; sr_Data := payload |} in
      (Some req, (λ e, "SendCustomMessage: " +:+ e) <$> lnd req)
    end
  end.

(** ** tools/lcpd-grpcd/main.go *)

Inductive flag_err := ErrHelp | FlagErr (msg : string).

(** The flags after parsing. *)
Record daemonFlags := {
  df_grpcAddr : string;
  df_startupTimeout : Z;
  df_lndRPCAddr : string;
  df_lndTLSCertPath : string;
  df_lndAdminMacaroonPath : string;
  df_lndMacaroonPath : string;
}.
Record config := { dc_grpcAddr : string; dc_startupTimeout : Z; dc_lnd : option LndConfig }.

(** The text of an error leaves out the duration. *)
Definition parseFlags {EN : Environ} (interval : result string (option Z)) (parsed : result flag_err daemonFlags) :
    result flag_err config :=
  f ← parsed;
  _ ← ensure (0 <? df_startupTimeout f) (FlagErr "startup_timeout must be > 0");
  lnd ← match lndConfigFromFlagsOrEnv interval (df_lndRPCAddr f) (df_lndTLSCertPath f)
                (df_lndAdminMacaroonPath f) (df_lndMacaroonPath f) with
        | Ok c => Ok (Some c)
        | Err ErrLNDConnectionNotConfigured => Ok None
        | Err (ErrLnd m) => Err (FlagErr m)
        end;
  Ok {| dc_grpcAddr := df_grpcAddr f; dc_startupTimeout := df_startupTimeout f; dc_lnd := lnd |}.

Inductive zapLevel := DebugLevel | InfoLevel | WarnLevel | ErrorLevel.
Definition parseLogLevel (s : string) : zapLevel :=
  let level := string_of_bytes (lower_word (bytes_of_string (TrimSpace s))) in
  if bool_decide (level = "debug"%string) then DebugLevel
  else if bool_decide (level ∈ ["warn"; "warning"]%string) then WarnLevel
  else if bool_decide (level = "error"%string) then ErrorLevel
  else InfoLevel.

(** The application is stopped when the context ends. *)
Definition startAndWait : TM sev (result string unit) :=
  match app_Start with
  | Err e => mret (Err ("fx start: " +:+ e))
  | Ok _ =>
    _ ← emit (SOpen ResApp);
    _ ← emit (SClose ResApp);
    mret match run_ctxErr with CtxCanceled => Ok tt | e => Err (ctx_text e) end
  end.

Context {T : TlvLib} {F : Fmt} {Y : YamlFile} {RP : MapRange string priceTableEntryYAML}
        {RM : MapRange string modelYAMLConfig} {RC : MapRange string ModelConfig}.
Context {EN : Environ} (decode_error : string → string) (interval : result string (option Z)).

Definition run (cfg : config) (env : envConfig) : TM sev (result string unit) :=
  match net_Listen (dc_grpcAddr cfg) with
  | Err e => mret (Err ("grpc listen " +:+ dc_grpcAddr cfg +:+ ": " +:+ e))
  | Ok _ =>
    _ ← emit (SOpen ResListener);
    r ← match computeBackendFromEnvConfig decode_error env with
        | Err e => mret (Err e)
        | Ok backend =>
          match providerRuntime env backend (dc_lnd cfg) with
          | Err e => mret (Err e)
          | Ok _ => startAndWait
          end
        end;
    _ ← emit (SClose ResListener);
    mret r
  end.

Definition realMain (parsed : result flag_err daemonFlags) : TM sev Z :=
  match parseFlags interval parsed with
  | Err ErrHelp => mret 0
  | Err (FlagErr e) => _ ← emit (SStderr e); mret 1
  | Ok cfg =>
    match logger_Build with
    | Err e => _ ← emit (SStderr e); mret 1
    | Ok _ => r ← run cfg parseEnvConfig; mret match r with Ok _ => 0 | Err _ => 1 end
    end
  end.
End startup.

(** ** openai-serve *)

Fixpoint ready_loop (states : list ConnState) (ctxErr : string) : result string unit :=
  match states with
  | [] => Err ctxErr
  | Ready :: _ => Ok tt
  | ShutdownState :: _ => Err "connection is shutdown"%string
  | _ :: rest => ready_loop rest ctxErr
  end.

(** How [ListenAndServe] ends: by itself, with an error, or after a signal and the
    shutdown, with [ErrServerClosed] ([None]) or another error. *)
Inductive serve_outcome := ServeFailed (err : string) | ServeSignalled (after : option string).

Section gateway.
Context {H : Host} {F : Fmt}.

Definition waitForReady : result string unit := ready_loop conn_states (ctx_text conn_ctxErr).

(** [Close] of the connection does not fail. *)
Definition Dial (addr : string) : TM sev (result string unit) :=
  match grpc_NewClient addr with
  | Err e => mret (Err ("dial lcpd grpc: " +:+ e))
  | Ok _ =>
    _ ← emit (SOpen ResLcpdConn);
    match waitForReady with
    | Ok _ => mret (Ok tt)
    | Err e => _ ← emit (SClose ResLcpdConn); mret (Err ("dial lcpd grpc: " +:+ e))
    end
  end.

Definition exitOK : Z := 0.
Definition exitError : Z := 1.
Definition exitConfigError : Z := 2.

(** [loaded] is [LoadFromEnv], [api] is [httpapi.New].  Log output is left out. *)
Definition gatewayMain (loaded : result string Gateway.Config) (api : result string unit) (outcome : serve_outcome) :
    TM sev Z :=
  match loaded with
  | Err e => _ ← emit (SStderr ("config error: " +:+ e)); mret exitConfigError
  | Ok cfg =>
    match Gateway.parseLogLevel (Gateway.g_LogLevel cfg) with
    | Err e => _ ← emit (SStderr ("invalid log level: " +:+ e)); mret exitConfigError
    | Ok _ =>
      client ← Dial (Gateway.g_LCPDGRPCAddr cfg);
      match client with
      | Err _ => mret exitConfigError
      | Ok _ =>
        code ← match api with
               | Err _ => mret exitConfigError
               | Ok _ =>
                 _ ← emit (SOpen ResServer);
                 _ ← emit (SClose ResServer);
                 mret match outcome with
                      | ServeFailed _ | ServeSignalled (Some _) => exitError
                      | ServeSignalled None => exitOK
                      end
               end;
        _ ← emit (SClose ResLcpdConn);
        mret code
      end
    end
  end.
End gateway.

(** ** Theorems *)

(** How many of a resource are held. *)
Fixpoint held (r : resource) (evs : list sev) : Z :=
  match evs with
  | [] => 0
  | e :: rest =>
    match e with
    | SOpen x => if bool_decide (x = r) then 1 else 0
    | SClose x => if bool_decide (x = r) then -1 else 0
    | SStderr _ => 0
    end + held r rest
  end.
Definition released (evs : list sev) : Prop := ∀ r, held r evs = 0.

Lemma held_app r evs evs' : held r (evs ++ evs') = held r evs + held r evs'.
Proof. induction evs as [|e evs IH]; cbn; [done|]. rewrite IH. lia. Qed.

(** Evaluate [held] on a trace. *)
Ltac solve_held := intros []; cbn; rewrite ?held_app; cbn; done.

(** A program that ended before its application was started. *)
Ltac not_started :=
  split_and!; [solve_held|split; [done|]|]; [intros [?|[Hin _]]; [done|]|intros Hin]; set_solver.

Section theorems.
Context {H : Host}.

Lemma connected_ready states e : connect_loop states e = Ok tt ↔ Ready ∈ states.
Proof.
  induction states as [|[] rest IH]; cbn; rewrite ?elem_of_nil, ?elem_of_cons, ?IH; naive_solver.
Qed.

Lemma ready_loop_ready states e : ready_loop states e = Ok tt → Ready ∈ states.
Proof. induction states as [|[] rest IH]; cbn; rewrite ?elem_of_cons; naive_solver. Qed.

(** A connection to lnd is handed out only when it is ready, over TLS with the name of
    the configured host, with the certificate of the file exactly when a path is
    configured, and the macaroon of the file likewise; it is then the one thing that is
    open.  Every failure leaves nothing open. *)
Theorem dial_ready_or_closed cfg t :
  let r := dial cfg t in
  match r.2 with
  | Ok conn =>
    Ready ∈ conn_states ∧ r.1.2 = [SOpen ResLndConn] ∧
    cn_Addr conn = lc_RPCAddr cfg ∧ net_SplitHostPort (lc_RPCAddr cfg) = Ok (cn_ServerName conn) ∧
    (match cn_RootCAs conn with
     | Some pem => os_ReadFile (lc_TLSCertPath cfg) = Ok pem ∧ pem_ok pem = true
     | None => TrimSpace (lc_TLSCertPath cfg) = ""%string
     end) ∧
    match cn_macaroonHex conn with
    | Some mac => ∃ raw, os_ReadFile (lc_AdminMacaroonPath cfg) = Ok raw ∧ mac = hex_encode raw
    | None => TrimSpace (lc_AdminMacaroonPath cfg) = ""%string
    end
  | Err _ => released r.1.2
  end.
Proof.
  unfold dial. destruct (dialOptions cfg) as [conn|] eqn:Ho; [|done].
  destruct (grpc_NewClient _); [|done]. gm_run.
  destruct (connect_loop _ _) as [[]|] eqn:Hl; gm_run; [|solve_held].
  apply connected_ready in Hl. unfold dialOptions, with_err in Ho. invert_ok. subst conn. cbn.
  destruct (net_SplitHostPort _) as [host|]; [|done]. simplify_eq.
  split_and!; try done.
  - match goal with H : rootCAs _ = Ok _ |- _ => unfold rootCAs, with_err in H end. case_bool_decide; invert_ok; simplify_eq; [done|].
    destruct (os_ReadFile _); [|done]. simplify_eq. case_match; by simplify_eq.
  - match goal with H : macaroon _ = Ok _ |- _ => unfold macaroon, with_err in H end. case_bool_decide; invert_ok; simplify_eq; [done|].
    destruct (os_ReadFile _); [|done]. simplify_eq. by eexists.
Qed.

(** A message goes to the peer whose id it names: the id of a peer lnd reported is the
    hex text of its key. *)
Lemma send_to_peer conn lnd pk typ payload :
  (SendCustomMessage (Some conn) lnd (hex_encode pk) typ payload).1 =
    Some {| sr_Peer := pk; sr_Type := typ; sr_Data := payload |} ∧
  (SendCustomMessage None lnd (hex_encode pk) typ payload).2 ≠ None.
Proof. unfold SendCustomMessage. by rewrite hex_decode_encode. Qed.

Section daemon.
Context {T : TlvLib} {F : Fmt} {Y : YamlFile} {YW : YamlWidths Y} {RP : MapRange string priceTableEntryYAML}
        {RM : MapRange string modelYAMLConfig} {RC : MapRange string ModelConfig}.
Context {EN : Environ} (decode_error : string → string) (interval : result string (option Z)).

(** The life of lcpd-grpcd: whatever fails, everything it opened is closed when it
    ends; it exits with 0 exactly when help was asked for, or the application started and
    was interrupted; and the application is started only with a configuration that
    loaded, which has a connection to lnd and a backend if the provider is enabled. *)
Theorem daemon_lifecycle parsed t :
  let r := realMain decode_error interval parsed t in
  released r.1.2 ∧
  (r.2 = 0 ↔ parseFlags interval parsed = Err ErrHelp ∨ SOpen ResApp ∈ r.1.2 ∧ run_ctxErr = CtxCanceled) ∧
  (SOpen ResApp ∈ r.1.2 → ∃ cfg backend providerCfg policy manifest,
     parseFlags interval parsed = Ok cfg ∧ computeBackendFromEnvConfig decode_error parseEnvConfig = Ok backend ∧
     providerRuntime parseEnvConfig backend (dc_lnd cfg) = Ok (providerCfg, policy, manifest) ∧
     (cfg_Enabled providerCfg = true → is_Some (dc_lnd cfg) ∧ is_disabled backend = false)).
Proof using YW.
  unfold realMain. destruct (parseFlags interval parsed) as [cfg|[|e]] eqn:Hp.
  2: { split_and!; [done|by split; [left|]|by intros ?%elem_of_nil]. }
  2: by gm_run; not_started.
  destruct logger_Build; gm_run.
  2: by not_started.
  unfold run. destruct (net_Listen _); gm_run.
  2: by not_started.
  destruct (computeBackendFromEnvConfig _ _) as [backend|] eqn:Hb; gm_run.
  2: by not_started.
  destruct (providerRuntime _ _ _) as [[[pc pol] man]|] eqn:Hr; gm_run.
  2: by not_started.
  unfold startAndWait. destruct app_Start; gm_run.
  2: by not_started.
  split_and!; [solve_held| |].
  - destruct run_ctxErr; split; try done; [|by intros [?|[_ ?]]]. intros _. right. set_solver.
  - intros _. exists cfg, backend, pc, pol, man. split_and!; try done.
    apply runtime_inv in Hr as (y & _ & _ & _ & Hv & _). unfold validateProviderConfig in Hv. intros Hen.
    rewrite Hen in Hv. cbn [negb] in Hv. cbv zeta in Hv. invert_ok. by bool_to_prop.
Qed.
End daemon.

Context {F : Fmt}.

(** The life of openai-serve: everything it opened is closed when it ends, the server is
    started only on a connection to the daemon that is ready, and the exit code is 2 for
    a start that failed, 1 for a server that failed. *)
Theorem gateway_lifecycle loaded api outcome t :
  let r := gatewayMain loaded api outcome t in
  released r.1.2 ∧ (SOpen ResServer ∈ r.1.2 ↔ r.2 ≠ exitConfigError) ∧
  (SOpen ResServer ∈ r.1.2 → Ready ∈ conn_states ∧ ∃ cfg, loaded = Ok cfg) ∧
  (r.2 = exitOK → outcome = ServeSignalled None).
Proof.
  assert (Hfail : ∀ evs, released evs → SOpen ResServer ∉ evs →
    released evs ∧ (SOpen ResServer ∈ evs ↔ exitConfigError ≠ exitConfigError) ∧
    (SOpen ResServer ∈ evs → Ready ∈ conn_states ∧ ∃ cfg, loaded = Ok cfg) ∧
    (exitConfigError = exitOK → outcome = ServeSignalled None)) by naive_solver.
  unfold gatewayMain. destruct loaded as [cfg|e]; gm_run; [|apply Hfail; [solve_held|set_solver]].
  destruct (Gateway.parseLogLevel _); gm_run; [|apply Hfail; [solve_held|set_solver]].
  unfold Dial. destruct (grpc_NewClient _); gm_run; [|apply Hfail; [solve_held|set_solver]].
  destruct waitForReady as [[]|] eqn:Hw; gm_run; [|apply Hfail; [solve_held|set_solver]].
  destruct api; gm_run; [|apply Hfail; [solve_held|set_solver]].
  split_and!; [solve_held| | |by destruct outcome as [|[]]].
  - split; [by destruct outcome as [|[]]|]. set_solver.
  - intros _. split; [|by eexists]. by apply ready_loop_ready in Hw.
Qed.
End theorems.
End Startup.
