(* ===== verification/Discovery.v ===== *)
(** * From a provider's configuration to a request of the gateway

    The chain that makes a configured model usable: the manifest of a provider that
    started ([Daemon.v]) is encoded ([Wire.v]), reaches the requester's daemon as a
    custom message ([PeerMsg.v]), is listed by ListLCPPeers ([PeerDir.v],
    [Requester.v]), and is what openai-serve lists, checks and routes by
    ([Httpapi.v]). *)

From S2P Require Import Prelude GoStd TlvLib Wire WireProofs Stores Replay JobStore PeerDir PeerMsg Terms Pricing Validation Tasks Lightning Provider ResultSend ReqJobStore Waiter Requester Backend Daemon Gateway Httpapi HttpapiProofs GatewayTheorems Trace.

Module Discovery.
Import Gateway Httpapi HttpapiProofs GatewayTheorems.

(** ** The messages of the gRPC service, as the gateway reads them *)

Definition template_of_pb (t : PbTemplate) : Template :=
  {| gt_Kind := Some (pb_Kind t);
     gt_Params := match pb_Kind t with
                  | KIND_OPENAI_CHAT_COMPLETIONS_V1 => ParamsChat (pb_Model t)
                  | KIND_OPENAI_RESPONSES_V1 => ParamsResponses (pb_Model t)
                  end |}.
Definition peer_of_pb (p : PbPeer) : Peer :=
  {| gp_PeerId := pp_PeerId p; gp_SupportedTasks := template_of_pb <$> pb_SupportedTasks (pp_RemoteManifest p) |}.

(** The peers the gateway gets from a daemon with this directory. *)
Definition peers_seen {T : TlvLib} {W : WireText} {R : MapRange string PeerDir.Peer} (d : PeerDir.Directory) : list Peer :=
  peer_of_pb <$> (toPbPeer <$> PeerDir.ListLCPPeers d).

Definition kind_name (kind : LCPTaskKind) : string :=
  match kind with
  | KIND_OPENAI_CHAT_COMPLETIONS_V1 => taskKindOpenAIChatCompletionsV1
  | KIND_OPENAI_RESPONSES_V1 => taskKindOpenAIResponsesV1
  end.

Section discovery.
Context {T : TlvLib} {L : TlvLaws T} {W : WireText} {F : Fmt} {Y : YamlFile} {YW : YamlWidths Y}.
Context {RP : MapRange string priceTableEntryYAML} {RM : MapRange string modelYAMLConfig}.
Context {RC : MapRange string ModelConfig} {RD : MapRange string PeerDir.Peer}.

(** Both kinds of a model are advertised. *)
Lemma model_advertised model ps kind :
  TrimSpace model = model → model ≠ ""%string →
  EncodeOpenAIParams {| oa_Model := model; oa_Unknown := ∅ |} = Ok ps →
  {| tt_TaskKind := kind_name kind; tt_ParamsBytes := Some ps |} ∈ modelTemplates model.
Proof.
  intros Htrim Hne Henc. unfold modelTemplates. rewrite Htrim. rewrite bool_decide_false by done.
  unfold EncodeOpenAIChatCompletionsV1Params, EncodeOpenAIResponsesV1Params. rewrite Henc.
  destruct kind; set_solver.
Qed.

Lemma manifest_advertises cfg model c ps kind :
  Validation.cfg_Enabled cfg = true → Validation.cfg_Models cfg !! model = Some c → TrimSpace model = model → model ≠ ""%string →
  EncodeOpenAIParams {| oa_Model := model; oa_Unknown := ∅ |} = Ok ps →
  {| tt_TaskKind := kind_name kind; tt_ParamsBytes := Some ps |} ∈ mf_SupportedTasks (localManifestForProvider cfg).
Proof.
  intros Hen Hc Htrim Hne Henc. cbn [mf_SupportedTasks localManifestForProvider]. rewrite Hen.
  rewrite bool_decide_false by (intros He; by rewrite He, lookup_empty in Hc). cbn [negb orb].
  apply list_elem_of_bind. exists model. split; [by apply model_advertised|].
  unfold modelKeys. rewrite merge_sort_Permutation. apply list_elem_of_fmap. exists (model, c).
  split; [done|]. by apply elem_of_map_range.
Qed.

(** A listed peer with the template advertises the model. *)
Lemma listed_peer_advertises p model ps kind :
  {| tt_TaskKind := kind_name kind; tt_ParamsBytes := Some ps |} ∈ mf_SupportedTasks (PeerDir.l_RemoteManifest p) →
  DecodeOpenAIParams ps = Ok {| oa_Model := model; oa_Unknown := ∅ |} → TrimSpace model = model →
  advertises kind model (peer_of_pb (toPbPeer p)).
Proof.
  intros Hin Hdec Htrim.
  exists (template_of_pb {| pb_Kind := kind; pb_Model := model |}). split_and!; [|done|by destruct kind].
  cbn. apply list_elem_of_fmap_2. apply list_elem_of_omap. eexists. split; [exact Hin|].
  unfold toProtoTemplate, DecodeOpenAIChatCompletionsV1Params, DecodeOpenAIResponsesV1Params. cbn.
  rewrite Hdec. by destruct kind.
Qed.

(** The manifest that arrives first in a session makes the peer a listed one. *)
Lemma received_manifest_listed answers msg pm m (id := hex_encode (lm_Peer msg)) :
  PeerDir.dir_inv (pm_peerDirectory pm) → lm_Peer msg ≠ [] → lm_Type msg = MessageTypeManifest →
  DecodeManifest (lm_Data msg) = Ok m →
  (view pm id).2 = None → lnd_SendOK answers id = true →
  ∃ addr, PeerDir.MkLCPPeer id addr m ∈ PeerDir.ListLCPPeers (pm_peerDirectory (HandleCustomMessage answers (Some msg) pm).1).
Proof.
  intros Hi Hp Ht Hm Hv Hok. pose proof (first_manifest_answered answers msg pm m Hi Hp Ht Hm Hv) as H.
  pose proof (inv_handle (RA := canonical_range) answers (EMessage (Some msg)) pm Hi) as Hinv. cbn [handle] in Hinv.
  destruct (HandleCustomMessage answers (Some msg) pm) as [pm' acts]. destruct H as [_ H].
  destruct (H Hok) as (q & Hq & Hready & Hman). exists (PeerDir.p_RemoteAddr q).
  unfold PeerDir.ListLCPPeers. rewrite merge_sort_Permutation. apply PeerDir.elem_of_listed; [done|].
  exists q. split_and!; try done. destruct (Hinv _ _ Hq) as [_ Hr]. by rewrite <-Hr.
Qed.

(** An advertised model is listed and routed to a peer that advertises it. *)
Lemma advertised_routed gcfg model kind peers p :
  model ≠ ""%string → p ∈ peers → advertises kind model p →
  (g_ModelAllowlist gcfg = ∅ → listed gcfg peers model ∧ validateModelForTaskKind gcfg model kind peers = Ok tt) ∧
  (g_ModelMap gcfg !! model = None → TrimSpace (g_DefaultPeerID gcfg) = ""%string →
   ∃ q, q ∈ peers ∧ advertises kind model q ∧ resolvePeerIDForTaskKind gcfg model kind peers = Ok (gp_PeerId q)).
Proof.
  intros Hne Hin Hadv. pose proof (advertised_trimmed _ _ _ Hadv) as Htrim. split.
  - intros Ha. split.
    + unfold listed. rewrite bool_decide_true by done. eauto.
    + apply discovered_valid; [done|]. apply collected_spec. eauto.
  - intros Hmap Hd.
    destruct (resolvePeerIDFromSupportedTasks peers kind model) as [id|] eqn:Hs.
    + apply supported_some in Hs as (pre & q & post & -> & -> & Hq & Hpre). exists q. split_and!; [set_solver|done|].
      apply resolve_complete. rewrite Htrim. by eapply RouteAdvertised.
    + apply supported_none in Hs. rewrite Forall_forall in Hs. by destruct (Hs p Hin).
Qed.

(** The quote request made of a task. *)
Lemma wire_task_params {TJ : Tasks.TaskJson} task wt :
  Tasks.ToWireQuoteRequestTask task = Ok wt →
  openai_kind (Tasks.qt_TaskKind wt) ∧
  EncodeOpenAIParams {| oa_Model := Tasks.task_model task; oa_Unknown := ∅ |} = Ok (Tasks.qt_ParamsBytes wt).
Proof.
  unfold Tasks.ToWireQuoteRequestTask, Tasks.task_model, EncodeOpenAIChatCompletionsV1Params, EncodeOpenAIResponsesV1Params.
  intros H. invert_ok. destruct (Tasks.task_spec task) as [[spec|spec]|]; [| |done];
    destruct (EncodeOpenAIParams _) as [ps|]; [|done| |done]; injection H as <-; (split; [|done]); [by left|by right].
Qed.

End discovery.

(** ** A provider that is discovered *)

Module DiscoveryExamples.
#[local] Existing Instances DaemonExamples.tlv DaemonExamples.text DaemonExamples.fmt DaemonExamples.rp DaemonExamples.rm DaemonExamples.rc
  DaemonExamples.no_environ DaemonExamples.world DaemonExamples.file DaemonExamples.file_widths.
#[local] Instance directory_range : MapRange string PeerDir.Peer := canonical_range.
#[local] Instance task_json : Tasks.TaskJson := {|
  Tasks.json_chat _ := Ok ("llama"%string, [bytes_of_string "hi"]);
  Tasks.json_responses _ := Err "invalid"%string;
|}.

Definition payload : bytes := Eval vm_compute in
  match EncodeManifest DaemonExamples.manifest with Ok p => p | Err _ => [] end.
Definition msg : LndMessage := {| lm_Peer := PeerMsgExamples.peer; lm_Type := MessageTypeManifest; lm_Data := payload |}.
Definition gcfg : Config :=
  {| g_HTTPAddr := defaultHTTPAddr; g_LCPDGRPCAddr := defaultLCPDGRPCAddr; g_APIKeys := ∅;
     g_DefaultPeerID := ""; g_ModelMap := ∅; g_ModelAllowlist := ∅; g_AllowUnlistedModels := false;
     g_MaxPriceMsat := 0; g_TimeoutQuote := defaultTimeoutQuote; g_TimeoutExecute := defaultTimeoutExecute;
     g_LogLevel := defaultLogLevel |}.
Definition peers : list Peer :=
  peers_seen (pm_peerDirectory (HandleCustomMessage PeerMsgExamples.lnd (Some msg) PeerMsgExamples.pm0).1).

Example peers_evaluated : gp_PeerId <$> peers = ["02aa"%string] ∧
  resolvePeerIDForTaskKind gcfg "llama" KIND_OPENAI_RESPONSES_V1 peers = Ok "02aa"%string.
Proof. by vm_compute. Qed.

Definition llama_config : ModelConfig := Eval vm_compute in
  default {| mc_MaxOutputTokens := None; mc_Price := {| pe_Model := ""; pe_InputMsatPerMTok := 0;
    pe_CachedInputMsatPerMTok := None; pe_OutputMsatPerMTok := 0 |} |}
    (Validation.cfg_Models DaemonExamples.cfg !! "llama"%string).

End DiscoveryExamples.
End Discovery.
