(* ===== verification/Oneshot.v ===== *)
(** * lcpd-oneshot: the command-line client

    [go-lcpd/tools/lcpd-oneshot]: its options, the one-shot pipeline, the chat session
    with its prompt, and the plain REPL; the terminal interface is in [ChatTui.v].  The
    command writes its events to a trace ([Trace.v]); what the daemon answers is a
    parameter ([OneshotEnv]), and so are the flag parser and the JSON library. *)

From stdpp Require Import pretty.
From S2P Require Import Prelude GoStd TlvLib Wire Stores Replay JobStore PeerDir Terms Pricing Validation Provider ResultSend Lightning Tasks ReqJobStore Waiter Requester Backend Daemon Gateway Trace.

Module Oneshot.

(** ** Strings *)

Definition nl : string := string_of_bytes [Byte.x0a].
Definition is_crlf (b : byte) : bool := (Z_of_byte b =? 13) || (Z_of_byte b =? 10).
Fixpoint drop_crlf (bs : bytes) : bytes :=
  match bs with b :: rest => if is_crlf b then drop_crlf rest else bs | [] => [] end.
(** [strings.TrimLeft] and [strings.TrimRight] with the two line-end characters. *)
Definition TrimLeftCRLF (s : string) : string := string_of_bytes (drop_crlf (bytes_of_string s)).
Definition TrimRightCRLF (s : string) : string :=
  string_of_bytes (reverse (drop_crlf (reverse (bytes_of_string s)))).
(** [strings.Join(args, " ")]. *)
Fixpoint JoinSpace (args : list string) : string :=
  match args with
  | [] => ""
  | [a] => a
  | a :: rest => a +:+ " " +:+ JoinSpace rest
  end.
Definition slen (s : string) : Z := blen (bytes_of_string s).

(** ** Options *)

Definition defaultServerAddr : string := "127.0.0.1:50051".
Definition defaultModel : string := "gpt-5.2".
Definition defaultTimeout : Z := 30 * ns_per_sec.
Definition defaultChatMaxPromptBytes : Z := 12000.
Definition msatPerSat : Z := 1000.
Definition scannerMaxBufSize : Z := 1024 * 1024.
Definition errPromptEmpty : string := "prompt is empty".

Record runOptions := {
  op_ServerAddr : string;
  op_PeerID : string;
  op_Model : string;
  op_TemperatureMilli : Z;
  op_MaxOutputTokens : Z;
  op_PayInvoice : bool;
  op_Prompt : string;
  op_Timeout : Z;
  op_OutputJSON : bool;
  op_Chat : bool;
  op_SystemPrompt : string;
  op_MaxPromptBytes : Z;
}.

(** What the flag parser leaves: the flags with their defaults, and the arguments. *)
Record Flags := {
  fl_prompt : string;
  fl_chat : bool;
  fl_systemPrompt : string;
  fl_maxPromptBytes : Z;
  fl_serverAddr : string;
  fl_peerID : string;
  fl_model : string;
  fl_profile : string;
  fl_temperatureMilli : Z;
  fl_maxOutputTokens : Z;
  fl_payInvoice : bool;
  fl_timeout : Z;
  fl_json : bool;
  fl_args : list string;
}.

(** A prompt, an empty prompt, or an error of stdin. *)
Inductive prompt_err := PromptEmpty | PromptRead (msg : string).
Definition prompt_text (e : prompt_err) : string :=
  match e with PromptEmpty => errPromptEmpty | PromptRead m => "read stdin: " +:+ m end.

(** [stdin] is [None] for a nil reader. *)
Definition resolvePrompt (promptFlag : string) (args : list string) (stdin : option (list read)) :
    result prompt_err string :=
  if negb (bool_decide (TrimSpace promptFlag = ""%string)) then Ok promptFlag else
  let joined := TrimSpace (JoinSpace args) in
  if negb (bool_decide (args = [])) && negb (bool_decide (joined = ""%string)) then Ok joined else
  match stdin with
  | None => Err PromptEmpty
  | Some reads =>
    match ReadAll reads with
    | Err m => Err (PromptRead m)
    | Ok raw =>
      let trimmed := TrimRightCRLF (string_of_bytes raw) in
      if negb (bool_decide (TrimSpace trimmed = ""%string)) then Ok trimmed else Err PromptEmpty
    end
  end.

Definition resolvePromptByMode (chat : bool) (promptFlag : string) (args : list string) (stdin : list read) :
    result prompt_err string :=
  if negb chat then resolvePrompt promptFlag args (Some stdin) else
  match resolvePrompt promptFlag args None with
  | Ok prompt => Ok prompt
  | Err PromptEmpty => Ok ""%string
  | Err e => Err e
  end.

(** [parsed] is what the flag set answers. *)
Definition parseArgs (parsed : result string Flags) (stdin : list read) : result string runOptions :=
  f ← parsed;
  _ ← ensure (0 <=? fl_maxPromptBytes f) "max-prompt-bytes must be >= 0"%string;
  _ ← ensure (negb (fl_chat f && fl_json f)) "-json is not supported with -chat"%string;
  _ ← ensure (negb (fl_chat f && negb (fl_payInvoice f))) "-chat requires -pay-invoice=true"%string;
  prompt ← match resolvePromptByMode (fl_chat f) (fl_prompt f) (fl_args f) stdin with
           | Ok p => Ok p
           | Err e => Err (prompt_text e)
           end;
  let peerID := TrimSpace (fl_peerID f) in
  let model := TrimSpace (fl_model f) in
  let profile := TrimSpace (fl_profile f) in
  _ ← ensure (bool_decide (model = ""%string) || bool_decide (profile = ""%string) || bool_decide (model = profile))
        "-model and -profile must match when both are set"%string;
  let model := if bool_decide (model = ""%string) then profile else model in
  let model := if bool_decide (model = ""%string) then defaultModel else model in
  _ ← ensure (fl_temperatureMilli f <=? 2 ^ 32 - 1) "temperature-milli must be <= 4294967295"%string;
  _ ← ensure (fl_maxOutputTokens f <=? 2 ^ 32 - 1) "max-output-tokens must be <= 4294967295"%string;
  _ ← ensure (negb (bool_decide (peerID = ""%string))) "peer-id is required"%string;
  _ ← ensure (0 <? fl_timeout f) "timeout must be > 0"%string;
  _ ← ensure (negb (bool_decide (model = ""%string))) "model is required"%string;
  Ok {| op_ServerAddr := fl_serverAddr f; op_PeerID := peerID; op_Model := model;
        op_TemperatureMilli := fl_temperatureMilli f; op_MaxOutputTokens := fl_maxOutputTokens f;
        op_PayInvoice := fl_payInvoice f; op_Prompt := prompt; op_Timeout := fl_timeout f;
        op_OutputJSON := fl_json f; op_Chat := fl_chat f; op_SystemPrompt := fl_systemPrompt f;
        op_MaxPromptBytes := fl_maxPromptBytes f |}.

(** ** Prices *)

(** [%03d]. *)
Definition pad3 (n : Z) : string :=
  if n <? 10 then "00" +:+ pretty n else if n <? 100 then "0" +:+ pretty n else pretty n.
Definition formatMsatAsSat (msat : Z) : string :=
  let sat := msat / msatPerSat in
  let rem := msat mod msatPerSat in
  if rem =? 0 then pretty sat else pretty sat +:+ "." +:+ pad3 rem.

(** ** The request *)

Record openAIChatMessage := { om_Role : string; om_Content : string }.
(** The temperature is in thousandths of the float that is marshalled. *)
Record openAIChatCompletionsV1Request := {
  or_Model : string;
  or_Messages : list openAIChatMessage;
  or_Temperature : option Z;
  or_MaxTokens : option Z;
}.

(** [json.Marshal] of a request, and the contents of the choices [json.Unmarshal] reads
    from a response. *)
Class OneshotJson := {
  oj_marshal : openAIChatCompletionsV1Request → result string bytes;
  oj_choices : bytes → result string (list string);
}.

Section oneshot.
Context {OJ : OneshotJson}.

Definition non_zero (v : Z) : option Z := if v =? 0 then None else Some v.

Definition buildOpenAIChatCompletionsV1RequestJSON (model prompt : string) (temperatureMilli maxOutputTokens : Z) :
    result string bytes :=
  let model := TrimSpace model in
  _ ← ensure (negb (bool_decide (model = ""%string))) "model is required"%string;
  match oj_marshal {| or_Model := model; or_Messages := [{| om_Role := "user"; om_Content := prompt |}];
                      or_Temperature := non_zero temperatureMilli; or_MaxTokens := non_zero maxOutputTokens |} with
  | Err m => Err ("marshal OpenAI chat completions request: " +:+ m)
  | Ok out => Ok out
  end.

(** The task of the two callers. *)
Definition chat_task (opts : runOptions) (requestJSON : bytes) : Tasks.Task :=
  {| Tasks.tk_Spec := Some (Tasks.OpenaiChatCompletionsV1
       (Some {| Tasks.ts_RequestJson := requestJSON; Tasks.ts_Params := Some (op_Model opts) |})) |}.

(** ** The daemon and the trace *)

Inductive oev :=
| OQuote (req : RequestQuoteRequest) (ans : result string (option ReqJobStore.PbTerms))
| OAccept (req : AcceptRequest) (ans : result string (option (option PbResult)))
| OPrint (s : string)
| OErrPrint (s : string).

(** The terms of a quote, and the response of an execution (nil or not) with its
    result; an error is its text. *)
Class OneshotEnv := {
  oc_RequestQuote : nat → RequestQuoteRequest → result string (option ReqJobStore.PbTerms);
  oc_AcceptAndExecute : nat → AcceptRequest → result string (option (option PbResult));
}.
Context {OE : OneshotEnv}.

Definition requestQuote (opts : runOptions) (requestJSON : bytes) : TM oev (result string (option ReqJobStore.PbTerms)) :=
  let req := {| rq_PeerId := op_PeerID opts; rq_Task := Some (chat_task opts requestJSON) |} in
  rpc (OQuote req) (λ t, oc_RequestQuote t req).
Definition acceptAndExecute (opts : runOptions) (jobID : bytes) : TM oev (result string (option (option PbResult))) :=
  let req := {| ar_PeerId := op_PeerID opts; ar_JobId := jobID; ar_PayInvoice := true |} in
  rpc (OAccept req) (λ t, oc_AcceptAndExecute t req).

(** A call of [AcceptAndExecute] and the checks of its answer. *)
Definition executed (opts : runOptions) (terms : ReqJobStore.PbTerms) : TM oev (result string PbResult) :=
  ans ← acceptAndExecute opts (ReqJobStore.pt_JobId terms);
  mret match ans with
       | Err e => Err ("accept and execute: " +:+ e)
       | Ok None => Err "accept and execute: response is nil"%string
       | Ok (Some None) => Err "accept and execute: result is nil"%string
       | Ok (Some (Some res)) => Ok res
       end.
(** A call of [RequestQuote] and the checks of its answer. *)
Definition quoted (opts : runOptions) (requestJSON : bytes) : TM oev (result string ReqJobStore.PbTerms) :=
  ans ← requestQuote opts requestJSON;
  mret match ans with
       | Err e => Err ("request quote: " +:+ e)
       | Ok None => Err "request quote: response terms is nil"%string
       | Ok (Some terms) => Ok terms
       end.

(** ** The pipeline *)

Record pipelineResult := {
  pl_PeerID : string;
  pl_Terms : ReqJobStore.PbTerms;
  pl_Result : option PbResult;
}.

Definition runPipeline (opts : runOptions) : TM oev (result string pipelineResult) :=
  match buildOpenAIChatCompletionsV1RequestJSON (op_Model opts) (op_Prompt opts) (op_TemperatureMilli opts)
          (op_MaxOutputTokens opts) with
  | Err e => mret (Err e)
  | Ok requestJSON =>
    quote ← quoted opts requestJSON;
    match quote with
    | Err e => mret (Err e)
    | Ok terms =>
      if negb (op_PayInvoice opts)
      then mret (Ok {| pl_PeerID := op_PeerID opts; pl_Terms := terms; pl_Result := None |}) else
      res ← executed opts terms;
      mret match res with
           | Err e => Err e
           | Ok res => Ok {| pl_PeerID := op_PeerID opts; pl_Terms := terms; pl_Result := Some res |}
           end
    end
  end.

Definition formatHumanSummary (res : pipelineResult) : string :=
  let terms := pl_Terms res in
  "peer_id=" +:+ pl_PeerID res +:+ " protocol_version=" +:+ pretty (ReqJobStore.pt_ProtocolVersion terms) +:+ nl +:+
  "price_sat=" +:+ formatMsatAsSat (ReqJobStore.pt_PriceMsat terms) +:+
  " price_msat=" +:+ pretty (ReqJobStore.pt_PriceMsat terms) +:+ nl +:+
  "terms_hash=" +:+ hex_encode (ReqJobStore.pt_TermsHash terms) +:+
  " job_id=" +:+ hex_encode (ReqJobStore.pt_JobId terms) +:+ nl +:+
  "payment_request:" +:+ nl +:+ ReqJobStore.pt_PaymentRequest terms +:+ nl +:+
  match pl_Result res with
  | None => "result:" +:+ nl +:+ "(none)" +:+ nl
  | Some r =>
    let ct := TrimSpace (pr_ContentType r) in
    (if bool_decide (ct = ""%string) then ""%string else "content_type=" +:+ ct +:+ nl) +:+
    "result:" +:+ nl +:+ string_of_bytes (pr_Result r) +:+ nl
  end.

(** The payload of [writeJSONSummary]. *)
Record jsonSummary := {
  js_PeerID : string;
  js_ProtocolVersion : Z;
  js_PriceMsat : Z;
  js_PriceSat : string;
  js_TermsHashHex : string;
  js_JobIDHex : string;
  js_PaymentRequest : string;
  js_ResultText : string;
  js_ContentType : string;
}.
Definition jsonSummaryOf (res : pipelineResult) : jsonSummary :=
  let terms := pl_Terms res in
  {| js_PeerID := pl_PeerID res; js_ProtocolVersion := ReqJobStore.pt_ProtocolVersion terms;
     js_PriceMsat := ReqJobStore.pt_PriceMsat terms; js_PriceSat := formatMsatAsSat (ReqJobStore.pt_PriceMsat terms);
     js_TermsHashHex := hex_encode (ReqJobStore.pt_TermsHash terms);
     js_JobIDHex := hex_encode (ReqJobStore.pt_JobId terms);
     js_PaymentRequest := ReqJobStore.pt_PaymentRequest terms;
     js_ResultText := default ""%string (string_of_bytes ∘ pr_Result <$> pl_Result res);
     js_ContentType := default ""%string (pr_ContentType <$> pl_Result res) |}.

(** ** chat.go: the prompt *)

Inductive chatRole := chatRoleUser | chatRoleAssistant.
Record chatMessage := MkMessage { cm_Role : chatRole; cm_Content : string }.

Definition formatChatMessage (msg : chatMessage) : string :=
  (match cm_Role msg with chatRoleUser => "User" | chatRoleAssistant => "Assistant" end) +:+ ": " +:+
  cm_Content msg +:+ nl.

Definition assistantCue : string := "Assistant: ".
Definition systemBlockOf (systemPrompt : string) : string :=
  let systemPrompt := TrimSpace systemPrompt in
  if bool_decide (systemPrompt = ""%string) then "" else "System: " +:+ systemPrompt +:+ nl +:+ nl.

(** The blocks of the builder, written one after the other. *)
Definition transcript (history : list chatMessage) : string :=
  foldr (λ msg acc, formatChatMessage msg +:+ acc) ""%string history.
Definition promptOf (systemBlock : string) (history : list chatMessage) : string :=
  systemBlock +:+ transcript history +:+ assistantCue.

(** A prompt, the history it is made of and whether some was left out. *)
Abbreviation prompt_result := (result string (string * list chatMessage * bool)).

Definition buildChatPromptFromRev (systemBlock : string) (keptRev : list chatMessage) (trimmed : bool) (maxBytes : Z) :
    prompt_result :=
  match keptRev with
  | [] => Err ("prompt too large to fit max-prompt-bytes=" +:+ pretty maxBytes +:+
               " (shorten your message or increase the limit)")
  | _ => let keepHistory := reverse keptRev in Ok (promptOf systemBlock keepHistory, keepHistory, trimmed)
  end.

(** The loop from the newest message; [revHistory] is what is left to look at. *)
Fixpoint keep_loop (systemBlock : string) (maxBytes used : Z) (revHistory keptRev : list chatMessage) : prompt_result :=
  match revHistory with
  | [] => buildChatPromptFromRev systemBlock keptRev false maxBytes
  | msg :: rest =>
    let block := formatChatMessage msg in
    if maxBytes <? used + slen block then buildChatPromptFromRev systemBlock keptRev true maxBytes
    else keep_loop systemBlock maxBytes (used + slen block) rest (keptRev ++ [msg])
  end.

Definition buildChatPrompt (systemPrompt : string) (history : list chatMessage) (maxBytes : Z) : prompt_result :=
  let systemBlock := systemBlockOf systemPrompt in
  if maxBytes =? 0 then Ok (promptOf systemBlock history, history, false)
  else if maxBytes <? 0 then Err "maxBytes must be >= 0"%string
  else
    let baseLen := slen systemBlock + slen assistantCue in
    if maxBytes <? baseLen then
      Err ("max-prompt-bytes too small (" +:+ pretty maxBytes +:+ "): cannot fit system prompt + framing")
    else keep_loop systemBlock maxBytes baseLen (reverse history) [].

(** ** chat.go: replies *)

Definition normalizeAssistantReply (reply : string) : string :=
  let reply := TrimLeftCRLF reply in
  if slen reply <? 10 then reply
  else if bool_decide (take 10 (lower_word (bytes_of_string reply)) = bytes_of_string "assistant:")
  then TrimSpace (string_of_bytes (drop 10 (bytes_of_string reply)))
  else reply.

Definition extractAssistantContentFromChatCompletionsResponse (body : bytes) : string :=
  match oj_choices body with
  | Ok (content :: _) => content
  | _ => ""
  end.

(** The reply [Turn] makes of the bytes of a result. *)
Definition reply_of (replyBytes : bytes) : string :=
  let reply := TrimSpace (extractAssistantContentFromChatCompletionsResponse replyBytes) in
  TrimRightCRLF (normalizeAssistantReply
    (if bool_decide (reply = ""%string) then string_of_bytes replyBytes else reply)).

(** ** chat.go: the session *)

Record chatSession := MkSession {
  cs_opts : runOptions;
  cs_history : list chatMessage;
  cs_totalMsat : Z;
}.
Record chatTurnOutput := {
  to_Reply : string;
  to_PriceMsat : Z;
  to_TotalMsat : Z;
  to_Trimmed : bool;
}.

Definition newChatSession (opts : runOptions) : chatSession := MkSession opts [] 0.
Definition with_history (h : list chatMessage) (s : chatSession) : chatSession :=
  MkSession (cs_opts s) h (cs_totalMsat s).
(** [s.history[:len(s.history)-1]]. *)
Definition but_last (h : list chatMessage) : list chatMessage := take (length h - 1) h.
(** The output of a turn that failed. *)
Definition failed_output (trimmed : bool) : chatTurnOutput :=
  {| to_Reply := ""; to_PriceMsat := 0; to_TotalMsat := 0; to_Trimmed := trimmed |}.

(** The session afterwards, the output and the error. *)
Definition Turn (s : chatSession) (userText : string) :
    TM oev (chatSession * chatTurnOutput * option string) :=
  let opts := cs_opts s in
  let userText := TrimSpace userText in
  if bool_decide (userText = ""%string) then mret (s, failed_output false, None) else
  let history := cs_history s ++ [MkMessage chatRoleUser userText] in
  match buildChatPrompt (op_SystemPrompt opts) history (op_MaxPromptBytes opts) with
  | Err e => mret (with_history (but_last history) s, failed_output false, Some e)
  | Ok (prompt, keepHistory, trimmed) =>
    let history := if trimmed then keepHistory else history in
    let failed e := mret (with_history (but_last history) s, failed_output trimmed, Some e) in
    match buildOpenAIChatCompletionsV1RequestJSON (op_Model opts) prompt (op_TemperatureMilli opts)
            (op_MaxOutputTokens opts) with
    | Err e => failed e
    | Ok requestJSON =>
      quote ← quoted opts requestJSON;
      match quote with
      | Err e => failed e
      | Ok terms =>
        res ← executed opts terms;
        match res with
        | Err e => failed e
        | Ok res =>
          let reply := reply_of (pr_Result res) in
          let price := ReqJobStore.pt_PriceMsat terms in
          let total := wrap_u64 (cs_totalMsat s + price) in
          mret (MkSession opts (history ++ [MkMessage chatRoleAssistant reply]) total,
                {| to_Reply := reply; to_PriceMsat := price; to_TotalMsat := total; to_Trimmed := trimmed |}, None)
        end
      end
    end
  end.

Definition runTurn (s : chatSession) (userText : string) : TM oev (chatSession * option string) :=
  r ← Turn s userText;
  let '(s, turn, err) := r in
  _ ← (if to_Trimmed turn then emit (OErrPrint ("(history truncated to fit max-prompt-bytes)" +:+ nl)) else mret tt);
  match err with
  | Some e => mret (s, Some e)
  | None =>
    _ ← emit (OPrint (to_Reply turn +:+ nl));
    _ ← emit (OPrint ("paid=" +:+ formatMsatAsSat (to_PriceMsat turn) +:+ " sat total=" +:+
                      formatMsatAsSat (to_TotalMsat turn) +:+ " sat" +:+ nl));
    mret (s, None)
  end.

(** ** The REPL *)

(** The lines of a scanner and the error it ends with, of the reader or of a line that
    does not fit its buffer. *)
Record readLine := { rl_lines : list string; rl_err : option string }.

Definition drop_cr (bs : bytes) : bytes :=
  match reverse bs with b :: rest => if Z_of_byte b =? 13 then reverse rest else bs | [] => [] end.
Fixpoint scan_parts (parts : list bytes) (err : option string) : readLine :=
  match parts with
  | [] => {| rl_lines := []; rl_err := err |}
  | part :: rest =>
    if scannerMaxBufSize <=? blen part then
      {| rl_lines := []; rl_err := Some "bufio.Scanner: token too long"%string |}
    else if bool_decide (part = []) && bool_decide (rest = []) then {| rl_lines := []; rl_err := err |}
    else let r := scan_parts rest err in
         {| rl_lines := string_of_bytes (drop_cr part) :: rl_lines r; rl_err := rl_err r |}
  end.
(** The bytes a reader gives and its error, the end of the input being none. *)
Fixpoint read_until_error (reads : list read) : bytes * option string :=
  match reads with
  | [] => ([], None)
  | r :: rest =>
    match rd_err r with
    | Some ReadEOF => (rd_data r, None)
    | Some (ReadErr m) => (rd_data r, Some m)
    | None => let p := read_until_error rest in (rd_data r ++ p.1, p.2)
    end
  end.
Definition newReadLine (stdin : list read) : readLine :=
  let p := read_until_error stdin in scan_parts (Gateway.split_bytes 10 p.1) p.2.

Fixpoint repl_loop (s : chatSession) (lines : list string) (err : option string) :
    TM oev (chatSession * option string) :=
  _ ← emit (OPrint "> ");
  match lines with
  | [] => mret (s, (λ e, "read input: " +:+ e) <$> err)
  | line :: rest =>
    let line := TrimSpace line in
    if bool_decide (line = ""%string) then repl_loop s rest err
    else if bool_decide (line ∈ ["/exit"; "/quit"]%string) then mret (s, None)
    else
      r ← runTurn s line;
      _ ← match r.2 with Some e => emit (OErrPrint (e +:+ nl)) | None => mret tt end;
      repl_loop r.1 rest err
  end.

Definition Run (s : chatSession) (stdin : list read) : TM oev (chatSession * option string) :=
  _ ← emit (OPrint ("chat peer_id=" +:+ op_PeerID (cs_opts s) +:+ " model=" +:+ op_Model (cs_opts s) +:+
                    " (Ctrl-D or /exit)" +:+ nl));
  let initial := TrimSpace (op_Prompt (cs_opts s)) in
  r ← (if bool_decide (initial = ""%string) then mret (s, None) else runTurn s initial);
  match r.2 with
  | Some e => mret (r.1, Some e)
  | None => let input := newReadLine stdin in repl_loop r.1 (rl_lines input) (rl_err input)
  end.

(** ** The command *)

(** What was written to stdout and stderr is in the trace; the value is the exit code.
    The chat is the plain one: stdin is not a terminal. *)
Definition realMain (json_encode : jsonSummary → result string string) (parsed : result string Flags)
    (dialed : option string) (stdin : list read) : TM oev Z :=
  let fails e := _ ← emit (OErrPrint (e +:+ nl)); mret 1 in
  match parseArgs parsed stdin with
  | Err e => fails e
  | Ok opts =>
    match dialed with
    | Some e => fails e
    | None =>
      if op_Chat opts then
        r ← Run (newChatSession opts) stdin;
        match r.2 with Some e => fails e | None => mret 0 end
      else
        r ← runPipeline opts;
        match r with
        | Err e => fails e
        | Ok res =>
          if op_OutputJSON opts then
            match json_encode (jsonSummaryOf res) with
            | Err e => fails e
            | Ok out => _ ← emit (OPrint out); mret 0
            end
          else _ ← emit (OPrint (formatHumanSummary res)); mret 0
        end
    end
  end.
End oneshot.
End Oneshot.
