(* ===== verification/ChatTui.v ===== *)
(** * lcpd-oneshot: the terminal interface of the chat

    [chat_tui.go]: the model of a Bubble Tea program and its update function.  The text
    input and the styles are parameters.  The program is a transition system: a key, a
    new window size, or the end of a turn that runs in the background ([CmdTurn]); a turn
    takes effect when it ends, which [one_turn_in_flight] justifies: there is never a
    second one, and the interface does not read what it changes. *)

From stdpp Require Import pretty.
From S2P Require Import Prelude GoStd TlvLib Wire Stores Replay JobStore PeerDir Terms Pricing Validation Provider ResultSend Lightning Tasks ReqJobStore Waiter Requester Backend Daemon Gateway Trace Oneshot.

Module ChatTui.
Import Oneshot.

Definition tuiMinInputWidth : Z := 10.
Definition tuiInputWidthPadding : Z := 2.
Definition tuiLabelSeparator : string := ": ".

Inductive style := StyleHeader | StyleUser | StyleAssistant | StyleMeta | StyleErr.
Inductive key := KeyCtrlC | KeyCtrlD | KeyEsc | KeyEnter | KeyOther (k : string).

(** The text input: its value, whether it has the focus, its width. *)
Record textinput := { ti_Value : string; ti_Focused : bool; ti_Width : Z }.

(** [textinput.Model.Update] on the value, its [View], and [lipgloss.Style.Render]. *)
Class TuiLib := {
  input_key : string → key → string;
  input_view : textinput → string;
  render : style → string → string;
}.

Record chatTUIModel := MkModel {
  tm_input : textinput;
  tm_width : Z;
  tm_height : Z;
  tm_sending : bool;
  tm_totalMsat : Z;
  tm_lines : list string;
}.

Record chatTUITurnResultMsg := {
  tr_reply : string;
  tr_priceMsat : Z;
  tr_totalMsat : Z;
  tr_trimmed : bool;
  tr_err : option string;
}.

Inductive cmd := CmdNil | CmdInput | CmdQuit | CmdTurn (userText : string).
Inductive tmsg := WindowSizeMsg (width height : Z) | KeyMsg (k : key) | TurnResultMsg (r : chatTUITurnResultMsg).

Definition with_input (i : textinput) (m : chatTUIModel) : chatTUIModel :=
  MkModel i (tm_width m) (tm_height m) (tm_sending m) (tm_totalMsat m) (tm_lines m).
Definition with_sending (b : bool) (m : chatTUIModel) : chatTUIModel :=
  MkModel (tm_input m) (tm_width m) (tm_height m) b (tm_totalMsat m) (tm_lines m).
Definition with_total (t : Z) (m : chatTUIModel) : chatTUIModel :=
  MkModel (tm_input m) (tm_width m) (tm_height m) (tm_sending m) t (tm_lines m).
Definition with_lines (l : list string) (m : chatTUIModel) : chatTUIModel :=
  MkModel (tm_input m) (tm_width m) (tm_height m) (tm_sending m) (tm_totalMsat m) l.
Definition with_focus (b : bool) (m : chatTUIModel) : chatTUIModel :=
  with_input {| ti_Value := ti_Value (tm_input m); ti_Focused := b; ti_Width := ti_Width (tm_input m) |} m.
Definition with_value (v : string) (m : chatTUIModel) : chatTUIModel :=
  with_input {| ti_Value := v; ti_Focused := ti_Focused (tm_input m); ti_Width := ti_Width (tm_input m) |} m.

Definition newChatTUIModel : chatTUIModel :=
  MkModel {| ti_Value := ""; ti_Focused := true; ti_Width := 0 |} 0 0 false 0 [].

(** ** Lines *)

Definition blank_line (lines : list string) : list string :=
  match last lines with
  | None => lines
  | Some l => if bool_decide (l = ""%string) then lines else lines ++ [""%string]
  end.
Definition appendBlankLine (m : chatTUIModel) : chatTUIModel := with_lines (blank_line (tm_lines m)) m.
Definition appendLines (lines : list string) (m : chatTUIModel) : chatTUIModel :=
  let m := appendBlankLine m in with_lines (tm_lines m ++ lines) m.

Definition visibleBodyLines (m : chatTUIModel) : list string :=
  if tm_height m <=? 0 then tm_lines m else
  let available := tm_height m - 3 - 3 - 2 in
  if available <=? 0 then []
  else if blen (tm_lines m) <=? available then tm_lines m
  else drop (Z.to_nat (blen (tm_lines m) - available)) (tm_lines m).

(** [strings.Repeat(" ", n)]. *)
Definition spaces (n : Z) : string := string_of_bytes (repeat Byte.x20 (Z.to_nat n)).

Section tui.
Context {OJ : OneshotJson} {OE : OneshotEnv} {TL : TuiLib}.

Definition appendMessage (label : string) (st : style) (text : string) (m : chatTUIModel) : chatTUIModel :=
  let parts := Gateway.Split (TrimRightCRLF text) 10 in
  let m := appendBlankLine m in
  let prefix := render st (label +:+ ":") in
  match parts with
  | [] => with_lines (tm_lines m ++ [prefix]) m
  | part :: rest =>
    let indent := spaces (slen label + slen tuiLabelSeparator) in
    with_lines (tm_lines m ++ (prefix +:+ " " +:+ part) :: ((λ line, indent +:+ line) <$> rest)) m
  end.
Definition appendUser (text : string) : chatTUIModel → chatTUIModel := appendMessage "You" StyleUser text.
Definition appendAssistant (text : string) : chatTUIModel → chatTUIModel :=
  appendMessage "Assistant" StyleAssistant text.
Definition appendMeta (text : string) : chatTUIModel → chatTUIModel := appendLines [render StyleMeta text].
Definition appendError (err : string) : chatTUIModel → chatTUIModel :=
  appendLines [render StyleErr ("error: " +:+ err)].

(** ** Update *)

(** The turn is started: the message is shown and the input loses the focus. *)
Definition send (text : string) (m : chatTUIModel) : chatTUIModel * cmd :=
  (with_focus false (with_sending true (appendUser text m)), CmdTurn (TrimSpace text)).

Definition Init (opts : runOptions) (m : chatTUIModel) : chatTUIModel * cmd :=
  let initial := TrimSpace (op_Prompt opts) in
  if bool_decide (initial = ""%string) then (m, CmdNil) else send initial m.

Definition updateWindowSize (width height : Z) (m : chatTUIModel) : chatTUIModel :=
  let m := MkModel (tm_input m) width height (tm_sending m) (tm_totalMsat m) (tm_lines m) in
  if width <=? 0 then m else
  with_input {| ti_Value := ti_Value (tm_input m); ti_Focused := ti_Focused (tm_input m);
                ti_Width := Z.max tuiMinInputWidth (width - tuiInputWidthPadding) |} m.

Definition updateKey (k : key) (m : chatTUIModel) : chatTUIModel * cmd :=
  match k with
  | KeyCtrlC | KeyCtrlD | KeyEsc => (m, CmdQuit)
  | _ =>
    if tm_sending m then (m, CmdNil) else
    match k with
    | KeyEnter =>
      let text := TrimSpace (ti_Value (tm_input m)) in
      if bool_decide (text = ""%string) then (m, CmdNil) else
      let m := with_value "" m in
      if bool_decide (text ∈ ["/exit"; "/quit"]%string) then (m, CmdQuit) else send text m
    | _ => (with_value (input_key (ti_Value (tm_input m)) k) m, CmdInput)
    end
  end.

Definition updateTurnResult (r : chatTUITurnResultMsg) (m : chatTUIModel) : chatTUIModel :=
  let m := with_focus true (with_sending false m) in
  let m := if tr_trimmed r then appendMeta "(history truncated to fit max-prompt-bytes)" m else m in
  match tr_err r with
  | Some e => appendError e m
  | None =>
    let m := appendAssistant (tr_reply r) m in
    let m := appendMeta ("paid=" +:+ formatMsatAsSat (tr_priceMsat r) +:+ " sat total=" +:+
                         formatMsatAsSat (tr_totalMsat r) +:+ " sat") m in
    with_total (tr_totalMsat r) m
  end.

Definition Update (msg : tmsg) (m : chatTUIModel) : chatTUIModel * cmd :=
  match msg with
  | WindowSizeMsg w h => (updateWindowSize w h m, CmdNil)
  | KeyMsg k => updateKey k m
  | TurnResultMsg r => (updateTurnResult r m, CmdNil)
  end.

Definition View (opts : runOptions) (m : chatTUIModel) : string :=
  let header := render StyleHeader "lcpd-oneshot chat" +:+ " " +:+ render StyleMeta ("model=" +:+ op_Model opts) in
  let peer := render StyleMeta ("peer_id=" +:+ op_PeerID opts) in
  let help := render StyleMeta "Enter: send • Ctrl-D/Ctrl-C/Esc: quit • /exit" in
  let status := if tm_sending m then render StyleMeta "sending…"
                else render StyleMeta ("total=" +:+ formatMsatAsSat (tm_totalMsat m) +:+ " sat") in
  header +:+ nl +:+ peer +:+ nl +:+ help +:+ nl +:+ nl +:+
  foldr (λ line acc, line +:+ nl +:+ acc) ""%string (visibleBodyLines m) +:+
  nl +:+ status +:+ nl +:+ input_view (tm_input m).

(** What [turnCmd] sends when the turn has ended. *)
Definition turnResult (out : chatTurnOutput) (err : option string) : chatTUITurnResultMsg :=
  {| tr_reply := to_Reply out; tr_priceMsat := to_PriceMsat out; tr_totalMsat := to_TotalMsat out;
     tr_trimmed := to_Trimmed out; tr_err := err |}.

(** ** The program *)

(** The turns that were started and have not ended, and whether the program was told to
    quit; it handles no message afterwards. *)
Record program := MkProgram {
  pg_model : chatTUIModel;
  pg_session : chatSession;
  pg_turns : list string;
  pg_quit : bool;
  pg_tick : nat;
  pg_trace : list oev;
}.

Inductive tevent := EvResize (width height : Z) | EvKey (k : key) | EvTurn (i : nat).

(** The command of an update is run. *)
Definition run_cmd (p : program) (mc : chatTUIModel * cmd) : program :=
  match mc.2 with
  | CmdQuit => MkProgram mc.1 (pg_session p) (pg_turns p) true (pg_tick p) (pg_trace p)
  | CmdTurn text => MkProgram mc.1 (pg_session p) (pg_turns p ++ [text]) (pg_quit p) (pg_tick p) (pg_trace p)
  | CmdNil | CmdInput => MkProgram mc.1 (pg_session p) (pg_turns p) (pg_quit p) (pg_tick p) (pg_trace p)
  end.

Definition tstep (p : program) (e : tevent) : program :=
  if pg_quit p then p else
  match e with
  | EvResize w h => run_cmd p (Update (WindowSizeMsg w h) (pg_model p))
  | EvKey k => run_cmd p (Update (KeyMsg k) (pg_model p))
  | EvTurn i =>
    match pg_turns p !! i with
    | None => p
    | Some text =>
      let r := Turn (pg_session p) text (pg_tick p) in
      let '(session, out, err) := r.2 in
      let p := MkProgram (pg_model p) session (delete i (pg_turns p)) (pg_quit p) r.1.1 (pg_trace p ++ r.1.2) in
      run_cmd p (Update (TurnResultMsg (turnResult out err)) (pg_model p))
    end
  end.

Definition tstart (opts : runOptions) : program :=
  run_cmd (MkProgram newChatTUIModel (newChatSession opts) [] false 0 []) (Init opts newChatTUIModel).
Definition trun (opts : runOptions) (es : list tevent) : program := fold_left tstep es (tstart opts).
End tui.
End ChatTui.
