(* ===== verification/OneshotProofs.v ===== *)
(** * lcpd-oneshot: proofs

    The prompt of the chat is the longest transcript that fits; every payment is for the
    quote just received; the running total; the history of a session; the terminal
    interface never has two turns in flight. *)

From stdpp Require Import pretty.
From S2P Require Import Prelude GoStd TlvLib Wire Stores Replay JobStore PeerDir Terms Pricing Validation Provider ResultSend Lightning Tasks ReqJobStore Waiter Requester Backend Daemon Gateway Trace Oneshot ChatTui.

Module OneshotProofs.
Import Oneshot ChatTui.

(** ** Lengths *)

Lemma slen_append s t : slen (s +:+ t) = slen s + slen t.
Proof. unfold slen. by rewrite bytes_of_string_append, blen_app. Qed.

Lemma slen_nonneg s : 0 ≤ slen s.
Proof. apply blen_nonneg. Qed.

Lemma slen_prompt sb h : slen (promptOf sb h) = slen sb + slen assistantCue + slen (transcript h).
Proof. unfold promptOf. rewrite !slen_append. lia. Qed.

Lemma slen_transcript_cons m h : slen (transcript (m :: h)) = slen (formatChatMessage m) + slen (transcript h).
Proof. apply slen_append. Qed.

(** ** The prompt *)

(** What a prompt built from [history] is: the longest suffix that fits, the whole
    history when there is no limit. *)
Definition longest_fitting (sb : string) (maxBytes : Z) (history : list chatMessage)
    (r : string * list chatMessage * bool) : Prop :=
  let '(prompt, kept, trimmed) := r in
  prompt = promptOf sb kept ∧
  ∃ dropped, history = dropped ++ kept ∧ kept ≠ [] ∧ (trimmed = true ↔ dropped ≠ []) ∧
    (maxBytes = 0 → dropped = []) ∧
    (0 < maxBytes → slen prompt ≤ maxBytes ∧
       ∀ d x, dropped = d ++ [x] → maxBytes < slen (promptOf sb (x :: kept))).

Lemma from_rev_ok sb keptRev trimmed maxBytes :
  keptRev ≠ [] → buildChatPromptFromRev sb keptRev trimmed maxBytes = Ok (promptOf sb (reverse keptRev), reverse keptRev, trimmed).
Proof. by destruct keptRev. Qed.

Lemma keep_loop_spec sb maxBytes rest : ∀ used keptRev, 0 < maxBytes → keptRev ≠ [] →
  used = slen (promptOf sb (reverse keptRev)) → used ≤ maxBytes →
  ∃ r, keep_loop sb maxBytes used rest keptRev = Ok r ∧
    longest_fitting sb maxBytes (reverse rest ++ reverse keptRev) r.
Proof.
  induction rest as [|m rest IH]; intros used keptRev Hmax Hne Hused Hle; cbn [keep_loop].
  - rewrite from_rev_ok by done. eexists; split; [done|]. split; [done|]. exists []. split_and!; try done.
    + intros H%(f_equal reverse). by rewrite reverse_involutive in H.
    + intros _. split; [lia|]. by intros [] x.
  - destruct (Z.ltb_spec maxBytes (used + slen (formatChatMessage m))) as [Hgt|Hfit].
    + rewrite from_rev_ok by done. eexists; split; [done|]. split; [done|]. exists (reverse (m :: rest)). split_and!; try done.
      * intros H%(f_equal reverse). by rewrite reverse_involutive in H.
      * split; [|done]. intros _ H%(f_equal reverse). by rewrite reverse_involutive in H.
      * lia.
      * intros _. split; [lia|]. intros d x. rewrite reverse_cons. intros [_ ->]%app_inj_tail.
        rewrite slen_prompt, slen_transcript_cons in *. lia.
    + destruct (IH (used + slen (formatChatMessage m)) (keptRev ++ [m])) as (r & -> & Hr); try done.
      * by destruct keptRev.
      * rewrite reverse_app. cbn. rewrite slen_prompt, slen_transcript_cons in *. lia.
      * exists r. split; [done|]. rewrite reverse_cons, <-app_assoc. by rewrite reverse_app in Hr.
Qed.

Lemma chat_prompt_fits systemPrompt h m maxBytes :
  0 ≤ maxBytes →
  match buildChatPrompt systemPrompt (h ++ [m]) maxBytes with
  | Ok r => longest_fitting (systemBlockOf systemPrompt) maxBytes (h ++ [m]) r
  | Err _ => 0 < maxBytes < slen (promptOf (systemBlockOf systemPrompt) [m])
  end.
Proof.
  intros Hmax. unfold buildChatPrompt. set (sb := systemBlockOf systemPrompt).
  assert (Hm : slen (promptOf sb [m]) = slen sb + slen assistantCue + slen (formatChatMessage m)).
  { rewrite slen_prompt, slen_transcript_cons. change (slen (transcript [])) with 0. lia. }
  pose proof (slen_nonneg (formatChatMessage m)).
  destruct (Z.eqb_spec maxBytes 0) as [->|Hne].
  - split; [done|]. exists []. split_and!; try done. by destruct h.
  - destruct (Z.ltb_spec maxBytes 0); [lia|]. destruct (Z.ltb_spec maxBytes (slen sb + slen assistantCue)); [lia|].
    rewrite reverse_app. cbn [keep_loop reverse rev_append app].
    change (reverse [m] ++ reverse h) with (m :: reverse h). cbn [keep_loop].
    destruct (Z.ltb_spec maxBytes (slen sb + slen assistantCue + slen (formatChatMessage m))); [cbn [buildChatPromptFromRev]; lia|].
    destruct (keep_loop_spec sb maxBytes (reverse h) (slen sb + slen assistantCue + slen (formatChatMessage m)) [m])
      as (r & Hr & Hl); [lia|done|by rewrite <-Hm|lia|].
    cbn [app]. rewrite Hr. by rewrite reverse_involutive in Hl.
Qed.

(** ** What the client asks and pays *)

Section client.
Context {OJ : OneshotJson} {OE : OneshotEnv}.

(** The request of a quote: the chosen peer and model, and one user message with a
    prompt that satisfies [P]. *)
Definition quote_for (opts : runOptions) (P : string → Prop) (req : RequestQuoteRequest) : Prop :=
  ∃ prompt json, P prompt ∧
    buildOpenAIChatCompletionsV1RequestJSON (op_Model opts) prompt (op_TemperatureMilli opts)
      (op_MaxOutputTokens opts) = Ok json ∧
    req = {| rq_PeerId := op_PeerID opts; rq_Task := Some (chat_task opts json) |}.

Definition accept_of (opts : runOptions) (terms : ReqJobStore.PbTerms) : AcceptRequest :=
  {| ar_PeerId := op_PeerID opts; ar_JobId := ReqJobStore.pt_JobId terms; ar_PayInvoice := true |}.

(** The price of an execution that returned a result. *)
Definition charged (terms : ReqJobStore.PbTerms) (ans : result string (option (option PbResult))) : Z :=
  match ans with Ok (Some (Some _)) => ReqJobStore.pt_PriceMsat terms | _ => 0 end.

(** What a trace spent: the prices of the quotes whose execution, the next event,
    returned a result. *)
Fixpoint spent (evs : list oev) : Z :=
  match evs with
  | [] => 0
  | e :: rest =>
    match e, rest with
    | OQuote _ (Ok (Some terms)), OAccept _ ans :: _ => charged terms ans
    | _, _ => 0
    end + spent rest
  end.

(** The traces of the client and what they spend: prints, quotes, and quotes followed by
    the execution of their job. *)
Inductive paid_trace (opts : runOptions) (P : string → Prop) : list oev → Z → Prop :=
| paid_nil : paid_trace opts P [] 0
| paid_print s evs v : paid_trace opts P evs v → paid_trace opts P (OPrint s :: evs) v
| paid_err s evs v : paid_trace opts P evs v → paid_trace opts P (OErrPrint s :: evs) v
| paid_quote req ans evs v : quote_for opts P req → paid_trace opts P evs v →
    paid_trace opts P (OQuote req ans :: evs) v
| paid_accept req terms ans evs v : quote_for opts P req → paid_trace opts P evs v →
    paid_trace opts P (OQuote req (Ok (Some terms)) :: OAccept (accept_of opts terms) ans :: evs)
      (charged terms ans + v).
#[local] Hint Constructors paid_trace : core.

Lemma paid_app opts P evs v evs' v' :
  paid_trace opts P evs v → paid_trace opts P evs' v' → paid_trace opts P (evs ++ evs') (v + v').
Proof.
  intros H H'. induction H; cbn [app]; eauto. rewrite <-Z.add_assoc. eauto.
Qed.

Lemma paid_head opts P evs v : paid_trace opts P evs v → ∀ req ans rest, evs ≠ OAccept req ans :: rest.
Proof. by destruct 1. Qed.

Lemma paid_spent opts P evs v : paid_trace opts P evs v → spent evs = v.
Proof.
  induction 1 as [| | |req ans evs v Hq H IH|req terms ans evs v Hq H IH]; cbn [spent]; try lia.
  rewrite IH. destruct ans as [[terms|]|]; [|lia|lia]. destruct evs as [|[]]; try lia.
  by destruct (paid_head _ _ _ _ H _ _ _ eq_refl).
Qed.

Lemma paid_accept_inv opts P evs v : paid_trace opts P evs v → ∀ pre areq ans post,
  evs = pre ++ OAccept areq ans :: post →
  ∃ pre' req terms, pre = pre' ++ [OQuote req (Ok (Some terms))] ∧ quote_for opts P req ∧ areq = accept_of opts terms.
Proof.
  induction 1 as [|s evs v H IH|s evs v H IH|req ans0 evs v Hq H IH|req terms ans0 evs v Hq H IH];
    intros pre areq ans post Heq.
  1: by destruct pre.
  1-3: destruct pre as [|e pre]; [done|]; injection Heq as <- Heq;
    destruct (IH _ _ _ _ Heq) as (pre' & req' & terms' & -> & ?); by eexists (_ :: pre'), _, _.
  destruct pre as [|e [|e' pre]]; [done| |].
  - injection Heq as <- <- <- <-. by exists [], req, terms.
  - injection Heq as <- <- Heq. destruct (IH _ _ _ _ Heq) as (pre' & req' & terms' & -> & ?).
    by eexists (_ :: _ :: pre'), _, _.
Qed.

(** ** The history of a session *)

(** Roles alternate and the last message is the assistant's. *)
Definition settled (h : list chatMessage) : Prop :=
  (∀ i a b, h !! i = Some a → h !! S i = Some b → cm_Role a ≠ cm_Role b) ∧
  (∀ m, last h = Some m → cm_Role m = chatRoleAssistant).

Lemma settled_suffix d h : settled (d ++ h) → settled h.
Proof.
  intros [Halt Hlast]. split.
  - intros i a b Ha Hb. apply (Halt (length d + i)%nat); rewrite ?Nat.add_succ_r.
    + by rewrite lookup_app_r, Nat.add_sub_swap, Nat.sub_diag by lia.
    + rewrite lookup_app_r by lia. by replace (S (length d + i) - length d)%nat with (S i) by lia.
  - intros m Hm. apply Hlast. by rewrite last_app, Hm.
Qed.

Lemma settled_turn h u r : settled h →
  settled (h ++ [MkMessage chatRoleUser u; MkMessage chatRoleAssistant r]).
Proof.
  intros [Halt Hlast]. split.
  - intros i a b Ha Hb.
    destruct (decide (S i < length h)%nat) as [Hi|Hi].
    { rewrite lookup_app_l in Ha, Hb by lia. by eapply Halt. }
    rewrite lookup_app_r in Hb by lia.
    destruct (decide (S i = length h)) as [Hs|Hs].
    { rewrite Hs, Nat.sub_diag in Hb. simplify_eq/=. rewrite lookup_app_l in Ha by lia.
      rewrite (Hlast a); [done|]. rewrite last_lookup. by replace (pred (length h)) with i by lia. }
    rewrite lookup_app_r in Ha by lia. destruct (i - length h)%nat as [|k] eqn:Hk.
    { replace (S i - length h)%nat with 1%nat in Hb by lia. by simplify_eq/=. }
    replace (S i - length h)%nat with (S (S k)) in Hb by lia. done.
  - intros m. rewrite last_app. by intros [= <-].
Qed.

(** What [buildChatPrompt] keeps of a history with a new message. *)
Lemma prompt_keeps systemPrompt h m maxBytes prompt kept trimmed :
  buildChatPrompt systemPrompt (h ++ [m]) maxBytes = Ok (prompt, kept, trimmed) →
  (∃ d h', h = d ++ h' ∧ (if trimmed then kept else h ++ [m]) = h' ++ [m]) ∧
  (0 < maxBytes → slen prompt ≤ maxBytes).
Proof.
  intros Hb. destruct (Z_lt_le_dec maxBytes 0) as [Hneg|Hmax].
  { unfold buildChatPrompt in Hb. destruct (Z.eqb_spec maxBytes 0), (Z.ltb_spec maxBytes 0); try lia. done. }
  pose proof (chat_prompt_fits systemPrompt h m maxBytes Hmax) as H. rewrite Hb in H.
  destruct H as (_ & d & Hd & Hne & _ & _ & Hfit). split; [|intros; by apply Hfit].
  destruct trimmed; [|by exists [], h].
  destruct kept as [|x kept _] using rev_ind; [done|]. rewrite app_assoc in Hd.
  apply app_inj_tail in Hd as [-> ->]. by exists d, kept.
Qed.

Lemma but_last_snoc h m : but_last (h ++ [m]) = h.
Proof. unfold but_last. rewrite length_app. cbn [length]. by rewrite Nat.add_sub, take_app_length. Qed.

(** ** Calls and turns *)

Lemma quoted_spec opts json :
  gpost (quoted opts json) (λ evs r, ∃ ans,
    evs = [OQuote {| rq_PeerId := op_PeerID opts; rq_Task := Some (chat_task opts json) |} ans] ∧
    ∀ terms, r = Ok terms → ans = Ok (Some terms)).
Proof. intros t. eexists. split; [reflexivity|]. intros terms.
  unfold quoted, requestQuote. gm_run. destruct (oc_RequestQuote _ _) as [[]|]; congruence.
Qed.

Lemma executed_spec opts terms :
  gpost (executed opts terms) (λ evs r, ∃ ans, evs = [OAccept (accept_of opts terms) ans] ∧
    charged terms ans = match r with Ok _ => ReqJobStore.pt_PriceMsat terms | Err _ => 0 end).
Proof. intros t. eexists. split; [reflexivity|]. 
  unfold executed, acceptAndExecute. gm_run. by destruct (oc_AcceptAndExecute _ _) as [[[]|]|].
Qed.

(** The prompts of a chat. *)
Definition fits (opts : runOptions) (prompt : string) : Prop :=
  0 < op_MaxPromptBytes opts → slen prompt ≤ op_MaxPromptBytes opts.

(** What the steps of a session do to it. *)
Definition advances (s : chatSession) (evs : list oev) (s' : chatSession) : Prop :=
  cs_opts s' = cs_opts s ∧ (settled (cs_history s) → settled (cs_history s')) ∧
  ∃ v, paid_trace (cs_opts s) (fits (cs_opts s)) evs v ∧
    (wrap_u64 (cs_totalMsat s) = cs_totalMsat s → cs_totalMsat s' = wrap_u64 (cs_totalMsat s + v)).

Lemma advances_quiet s evs : paid_trace (cs_opts s) (fits (cs_opts s)) evs 0 → advances s evs s.
Proof. intros H. split_and!; [done..|]. exists 0. split; [done|]. intros. by rewrite Z.add_0_r. Qed.

Lemma advances_trans s evs s' evs' s'' :
  advances s evs s' → advances s' evs' s'' → advances s (evs ++ evs') s''.
Proof.
  intros (Ho & Hh & v & Hp & Ht) (Ho' & Hh' & v' & Hp' & Ht'). split_and!; [congruence|auto|].
  exists (v + v'). split; [apply paid_app; [done|by rewrite <-Ho]|].
  intros Hw. rewrite Ht'; rewrite (Ht Hw); unfold wrap_u64.
  - rewrite Zplus_mod_idemp_l. f_equal. lia.
  - apply Zmod_mod.
Qed.

(** A turn that failed: the new message is taken back. *)
Lemma advances_failed s h d evs m :
  cs_history s = d ++ h → paid_trace (cs_opts s) (fits (cs_opts s)) evs 0 →
  advances s evs (with_history (but_last (h ++ [m])) s).
Proof.
  intros Hh Hp. rewrite but_last_snoc. split_and!; [done|rewrite Hh; apply settled_suffix|].
  exists 0. split; [done|]. intros. cbn. by rewrite Z.add_0_r.
Qed.

Lemma turn_advances s userText : gpost (Turn s userText) (λ evs r, advances s evs r.1.1).
Proof.
  unfold Turn. set (u := TrimSpace userText). destruct (bool_decide_reflect (u = ""%string)).
  { apply gpost_ret, advances_quiet. constructor. }
  set (m := MkMessage chatRoleUser u).
  destruct (buildChatPrompt _ _ _) as [[[prompt kept] trimmed]|e] eqn:Hb;
    [|apply gpost_ret, (advances_failed _ _ []); [done|constructor]].
  destruct (prompt_keeps _ _ _ _ _ _ _ Hb) as ((d & h' & Hd & ->) & Hfit).
  destruct (buildOpenAIChatCompletionsV1RequestJSON _ _ _ _) as [json|e] eqn:Hj;
    [|apply gpost_ret, (advances_failed _ _ d); [done|constructor]].
  assert (Hq : quote_for (cs_opts s) (fits (cs_opts s))
    {| rq_PeerId := op_PeerID (cs_opts s); rq_Task := Some (chat_task (cs_opts s) json) |}) by by exists prompt, json.
  eapply gpost_bind; [apply quoted_spec|]. intros ? [terms|e] (ans & -> & Hans).
  - rewrite (Hans _ eq_refl). eapply gpost_bind; [apply executed_spec|]. intros ? [res|e] (acc & -> & Hc);
      apply gpost_ret; cbn [app].
    + split_and!; [done| |].
      * cbn. rewrite Hd, <-app_assoc. intros Hs. by apply settled_turn, (settled_suffix d).
      * exists (charged terms acc + 0). split; [by repeat constructor|]. cbn. rewrite Hc, Z.add_0_r. done.
    + apply (advances_failed _ _ d); [done|]. rewrite <-(Z.add_0_r 0). rewrite <-Hc at 1. by repeat constructor.
  - apply gpost_ret, (advances_failed _ _ d); [done|]. by repeat constructor.
Qed.

Lemma runTurn_advances s userText : gpost (runTurn s userText) (λ evs r, advances s evs r.1).
Proof.
  unfold runTurn. eapply gpost_bind; [apply turn_advances|]. intros evs [[s' out] err] H.
  eapply gpost_bind with (P := λ evs' _, advances s' evs' s').
  { destruct (to_Trimmed out); [apply gpost_emit|apply gpost_ret]; apply advances_quiet; repeat constructor. }
  intros evs' [] H'. pose proof (advances_trans _ _ _ _ _ H H') as H''. destruct err as [e|].
  - apply gpost_ret. by rewrite app_nil_r.
  - intros t. rewrite app_assoc. apply (advances_trans _ _ _ _ _ H''), advances_quiet. repeat constructor.
Qed.

Lemma advances_print s x : advances s [OPrint x] s.
Proof. apply advances_quiet. by apply paid_print. Qed.

Lemma repl_advances lines : ∀ s err, gpost (repl_loop s lines err) (λ evs r, advances s evs r.1).
Proof.
  induction lines as [|line rest IH]; intros s err; cbn [repl_loop];
    (eapply gpost_bind; [apply (gpost_emit _ (λ evs _, advances s evs s)), advances_print|]);
    intros evs [] H; repeat case_bool_decide;
    try (apply gpost_ret; rewrite app_nil_r; done).
  - eapply gpost_conseq; [apply IH|]. intros evs' r. by apply advances_trans.
  - eapply gpost_bind; [apply runTurn_advances|]. intros evs' [s' e] H'.
    eapply gpost_bind with (P := λ evs' _, advances s' evs' s').
    { destruct e; [apply gpost_emit|apply gpost_ret]; apply advances_quiet; repeat constructor. }
    intros evs'' [] H''. eapply gpost_conseq; [apply IH|]. intros evs3 r H3. cbn in *.
    eauto using advances_trans.
Qed.

Lemma run_advances s stdin : gpost (Run s stdin) (λ evs r, advances s evs r.1).
Proof.
  unfold Run. eapply gpost_bind; [apply (gpost_emit _ (λ evs _, advances s evs s)), advances_print|].
  intros evs [] H. eapply gpost_bind with (P := λ evs r, advances s evs r.1).
  { case_bool_decide; [apply gpost_ret, advances_quiet; constructor|apply runTurn_advances]. }
  intros evs' [s' [e|]] H'; cbn in *.
  - apply gpost_ret. rewrite app_nil_r. eauto using advances_trans.
  - eapply gpost_conseq; [apply repl_advances|]. intros. cbn in *. eauto using advances_trans.
Qed.
End client.

(** ** The terminal interface *)

Section tui.
Context {OJ : OneshotJson} {OE : OneshotEnv} {TL : TuiLib}.

(** The output of a turn with a message: an error leaves the total, a reply shows the
    new one. *)
Lemma turn_total s userText : TrimSpace userText ≠ ""%string →
  gpost (Turn s userText) (λ _ r,
    match r.2 with
    | Some _ => cs_totalMsat r.1.1 = cs_totalMsat s
    | None => cs_totalMsat r.1.1 = to_TotalMsat r.1.2
    end).
Proof.
  intros Hu. unfold Turn. rewrite bool_decide_false by done.
  destruct (buildChatPrompt _ _ _) as [[[prompt kept] trimmed]|e]; [|by apply gpost_ret].
  destruct (buildOpenAIChatCompletionsV1RequestJSON _ _ _ _); [|by apply gpost_ret].
  eapply gpost_bind; [apply quoted_spec|]. intros ? [terms|] _; [|by apply gpost_ret].
  eapply gpost_bind; [apply executed_spec|]. intros ? [res|] _; by apply gpost_ret.
Qed.

(** The fields of the model that the updates of lines keep. *)
Definition same_control (m m' : chatTUIModel) : Prop :=
  tm_input m' = tm_input m ∧ tm_sending m' = tm_sending m ∧ tm_totalMsat m' = tm_totalMsat m.

Lemma append_message_control label st text m : same_control m (appendMessage label st text m).
Proof. unfold appendMessage. by destruct (Gateway.Split _ _). Qed.

(** The interface: at most one turn runs, exactly when the input is blurred; the total
    shown is the session's. *)
Record tui_ok (opts : runOptions) (p : program) : Prop := {
  tk_turns : (length (pg_turns p) ≤ 1)%nat;
  tk_texts : Forall (λ t, TrimSpace t ≠ ""%string) (pg_turns p);
  tk_sending : tm_sending (pg_model p) = true ↔ pg_turns p ≠ [];
  tk_focus : ti_Focused (tm_input (pg_model p)) = negb (tm_sending (pg_model p));
  tk_total : tm_totalMsat (pg_model p) = cs_totalMsat (pg_session p);
  tk_session : advances (newChatSession opts) (pg_trace p) (pg_session p);
}.

Lemma send_ok opts p text : tui_ok opts p → tm_sending (pg_model p) = false → TrimSpace text ≠ ""%string →
  tui_ok opts (run_cmd p (send text (pg_model p))).
Proof.
  intros [Ht Htx Hs Hf Hto Hse] Hns Htext. destruct (append_message_control "You" StyleUser text (pg_model p)) as (_ & _ & Htot).
  assert (pg_turns p = []) as Hnil by (destruct (pg_turns p); [done|]; destruct Hs as [_ Hs]; by rewrite Hs in Hns).
  unfold send, run_cmd. cbn. rewrite Hnil. split; cbn.
  - done.
  - constructor; [|done]. by rewrite TrimSpace_idemp.
  - done.
  - done.
  - by rewrite <-Hto.
  - done.
Qed.

(** An update of the model that starts nothing. *)
Lemma keep_ok opts p m q : tui_ok opts p → tm_sending m = tm_sending (pg_model p) →
  ti_Focused (tm_input m) = ti_Focused (tm_input (pg_model p)) → tm_totalMsat m = tm_totalMsat (pg_model p) →
  tui_ok opts (MkProgram m (pg_session p) (pg_turns p) q (pg_tick p) (pg_trace p)).
Proof. intros [] Hm Hf Ht. split; cbn; rewrite ?Hm, ?Hf, ?Ht; done. Qed.

Lemma key_ok opts p k : tui_ok opts p → tui_ok opts (run_cmd p (updateKey k (pg_model p))).
Proof.
  intros Hp. unfold updateKey. destruct k; try by apply keep_ok.
  - destruct (tm_sending (pg_model p)) eqn:Hs; [by apply keep_ok|].
    case_bool_decide as Hempty; [by apply keep_ok|]. case_bool_decide; [by apply keep_ok|].
    apply (send_ok opts (MkProgram (with_value "" (pg_model p)) (pg_session p) (pg_turns p) (pg_quit p) (pg_tick p) (pg_trace p)));
      [by apply keep_ok|done|by rewrite TrimSpace_idemp].
  - destruct (tm_sending (pg_model p)) eqn:Hs; by apply keep_ok.
Qed.

Lemma update_result_control r m : let m' := updateTurnResult r m in
  tm_sending m' = false ∧ ti_Focused (tm_input m') = true ∧
  tm_totalMsat m' = match tr_err r with Some _ => tm_totalMsat m | None => tr_totalMsat r end.
Proof.
  unfold updateTurnResult. set (m1 := with_focus true (with_sending false m)).
  set (m2 := if tr_trimmed r then _ else _).
  assert (H2 : same_control m1 m2) by (by subst m2; destruct (tr_trimmed r)). destruct H2 as (Hi & Hs & Ht).
  destruct (tr_err r); cbn.
  - by rewrite Hi, Hs, Ht.
  - destruct (append_message_control "Assistant" StyleAssistant (tr_reply r) m2) as (Hi' & Hs' & _).
    unfold appendAssistant. by rewrite Hi', Hs', Hi, Hs.
Qed.

Lemma turn_ok opts p text q : tui_ok opts p → pg_turns p = [text] →
  let r := Turn (pg_session p) text (pg_tick p) in
  tui_ok opts (MkProgram (updateTurnResult (turnResult r.2.1.2 r.2.2) (pg_model p)) r.2.1.1 [] q r.1.1
                 (pg_trace p ++ r.1.2)).
Proof.
  intros [Ht Htx Hs Hf Hto Hse] Hturns r. rewrite Hturns in Htx.
  pose proof (turn_total (pg_session p) text (Forall_inv Htx) (pg_tick p)) as Htotal. fold r in Htotal. cbn beta in Htotal.
  destruct (update_result_control (turnResult r.2.1.2 r.2.2) (pg_model p)) as (Hs' & Hf' & Ht').
  split; cbn.
  - lia.
  - constructor.
  - by rewrite Hs'.
  - by rewrite Hf', Hs'.
  - rewrite Ht'. cbn. destruct r.2.2; by rewrite Htotal.
  - eapply advances_trans; [exact Hse|]. apply (turn_advances (pg_session p) text (pg_tick p)).
Qed.

Lemma tstep_ok opts p e : tui_ok opts p → tui_ok opts (tstep p e).
Proof.
  intros Hp. unfold tstep. destruct (pg_quit p) eqn:Hq; [done|]. destruct e as [w h|k|i].
  - unfold Update, run_cmd, updateWindowSize. cbn. case_match; by apply keep_ok.
  - by apply key_ok.
  - destruct (pg_turns p !! i) as [text|] eqn:Hi; [|done]. pose proof (tk_turns _ _ Hp) as Hlen.
    destruct (pg_turns p) as [|text' []] eqn:Hturns; [done| |cbn in Hlen; lia].
    destruct i; [|done]. injection Hi as ->.
    pose proof (turn_ok opts p text false Hp Hturns) as H. cbn zeta in H.
    destruct (Turn (pg_session p) text (pg_tick p)) as [[t evs] [[s' out] err]]. exact H.
Qed.

Lemma trun_ok opts es : tui_ok opts (trun opts es).
Proof.
  unfold trun. set (p := tstart opts). assert (Hp : tui_ok opts p).
  { assert (H0 : tui_ok opts (MkProgram newChatTUIModel (newChatSession opts) [] false 0 [])).
    { split; cbn; try (done || lia). apply advances_quiet. constructor. }
    unfold p, tstart, Init. case_bool_decide as Hi; [by apply (keep_ok opts _ newChatTUIModel false H0)|].
    apply (send_ok opts _ _ H0); [done|by rewrite TrimSpace_idemp]. }
  clearbody p. revert p Hp. induction es as [|e es IH]; intros p Hp; [done|]. by apply IH, tstep_ok.
Qed.
End tui.
End OneshotProofs.
