(* ===== verification/OneshotTheorems.v ===== *)
(** * lcpd-oneshot: theorems

    What the command may ask and pay, the chat's prompt, total and history, and the
    terminal interface; then a daemon that answers, on which they are evaluated. *)

From stdpp Require Import pretty.
From S2P Require Import Prelude GoStd TlvLib Wire Stores Replay JobStore PeerDir Terms Pricing Validation Provider ResultSend Lightning Tasks ReqJobStore Waiter Requester Backend Daemon Gateway Trace Oneshot ChatTui OneshotProofs.

Module OneshotTheorems.
Import Oneshot ChatTui OneshotProofs.

(** ** Options *)

(** What the options that [parseArgs] accepts satisfy. *)
Record opts_ok (opts : runOptions) : Prop := {
  oo_chat_pays : op_Chat opts = true → op_PayInvoice opts = true ∧ op_OutputJSON opts = false;
  oo_prompt : op_Chat opts = false → TrimSpace (op_Prompt opts) ≠ ""%string;
  oo_max : 0 ≤ op_MaxPromptBytes opts;
  oo_peer : op_PeerID opts ≠ ""%string;
  oo_model : op_Model opts ≠ ""%string ∧ TrimSpace (op_Model opts) = op_Model opts;
  oo_timeout : 0 < op_Timeout opts;
  oo_widths : op_TemperatureMilli opts ≤ 2 ^ 32 - 1 ∧ op_MaxOutputTokens opts ≤ 2 ^ 32 - 1;
}.

Lemma resolved_prompt p args stdin prompt :
  resolvePrompt p args stdin = Ok prompt → TrimSpace prompt ≠ ""%string.
Proof.
  unfold resolvePrompt. case_bool_decide as Hp; cbn [negb]; [|by intros [= <-]].
  case_bool_decide; cbn [negb andb].
  2: case_bool_decide as Hj; cbn [negb]; [|intros [= <-]; by rewrite TrimSpace_idemp].
  all: destruct stdin as [reads|]; [|done]; destruct (ReadAll reads); [|done];
    case_bool_decide; [done|]; by intros [= <-].
Qed.

Lemma parse_args_ok parsed stdin opts : parseArgs parsed stdin = Ok opts → opts_ok opts.
Proof.
  unfold parseArgs. intros H. invert_ok. destruct (resolvePromptByMode _ _ _ _) as [p|] eqn:Hr; [|done].
  simplify_eq. bool_to_prop.
  split; cbn [op_Chat op_PayInvoice op_OutputJSON op_Prompt op_MaxPromptBytes op_PeerID op_Model op_Timeout
              op_TemperatureMilli op_MaxOutputTokens]; try done.
  - intros Hc. rewrite Hc in *. by destruct (fl_payInvoice x), (fl_json x).
  - intros Hc. rewrite Hc in Hr. exact (resolved_prompt _ _ _ _ Hr).
  - split; [done|]. repeat case_bool_decide; by rewrite ?TrimSpace_idemp.
Qed.

(** What [encoding/json] writes it reads back: the model, and one raw message for each
    message. *)
Class OneshotJsonLaws (OJ : OneshotJson) (TJ : Tasks.TaskJson) : Prop := {
  oj_decodes r b : utf8_valid (bytes_of_string (or_Model r)) = true → oj_marshal r = Ok b →
    b ≠ [] ∧ ∃ ms, Tasks.json_chat b = Ok (or_Model r, ms) ∧ length ms = length (or_Messages r);
}.

Section theorems.
Context {OJ : OneshotJson} {OE : OneshotEnv}.

(** ** The trace of the command *)

Lemma pipeline_trace opts :
  gpost (runPipeline opts) (λ evs _, (∃ v, paid_trace opts (λ p, p = op_Prompt opts) evs v) ∧
    (op_PayInvoice opts = false → ∀ req ans, OAccept req ans ∉ evs)).
Proof.
  unfold runPipeline. destruct (buildOpenAIChatCompletionsV1RequestJSON _ _ _ _) as [json|] eqn:Hj.
  2: { apply gpost_ret. split; [exists 0; constructor|]. intros _ req ans. apply not_elem_of_nil. }
  assert (Hq : quote_for opts (λ p, p = op_Prompt opts)
    {| rq_PeerId := op_PeerID opts; rq_Task := Some (chat_task opts json) |}) by by exists (op_Prompt opts), json.
  eapply gpost_bind; [apply quoted_spec|]. intros ? [terms|] (ans & -> & Hans).
  2: { apply gpost_ret. split; [exists 0; by repeat constructor|]. set_solver. }
  rewrite (Hans _ eq_refl). destruct (op_PayInvoice opts); cbn [negb].
  2: { apply gpost_ret. split; [exists 0; by repeat constructor|]. set_solver. }
  eapply gpost_bind; [apply executed_spec|]. intros ? r (acc & -> & _). apply gpost_ret.
  split; [|done]. exists (charged terms acc + 0). by repeat constructor.
Qed.

Lemma settled_nil : settled [].
Proof. by split. Qed.

Lemma paid_quote_inv opts P evs v : paid_trace opts P evs v → ∀ req ans, OQuote req ans ∈ evs → quote_for opts P req.
Proof. induction 1; intros req' ans'; rewrite ?elem_of_cons; naive_solver (by rewrite elem_of_nil in *). Qed.

Lemma built_task_valid {TJ : Tasks.TaskJson} {OL : OneshotJsonLaws OJ TJ} opts prompt json :
  opts_ok opts → utf8_valid (bytes_of_string (op_Model opts)) = true →
  buildOpenAIChatCompletionsV1RequestJSON (op_Model opts) prompt (op_TemperatureMilli opts)
    (op_MaxOutputTokens opts) = Ok json →
  Tasks.ValidateTask (Some (chat_task opts json)) = Ok tt.
Proof.
  intros Hok Hu. unfold buildOpenAIChatCompletionsV1RequestJSON. destruct (oo_model _ Hok) as [Hne ->].
  rewrite bool_decide_false by done. cbn [negb ensure mbind result_bind].
  destruct (oj_marshal _) as [out|] eqn:Hm; [|done]. intros [= <-].
  edestruct (λ H, oj_decodes _ _ H Hm) as (Hout & ms & Hj & Hms); [exact Hu|]. cbn [or_Model or_Messages] in *.
  unfold Tasks.ValidateTask, Tasks.validateOpenAIChatCompletionsV1, chat_task.
  cbn [Tasks.tk_Spec or_err mbind result_bind Tasks.ts_RequestJson Tasks.ts_Params].
  rewrite Hj, Hu, (bool_decide_false (op_Model opts = ""%string)), bool_decide_true by done.
  destruct out; [done|]. by destruct ms as [|? []].
Qed.

(** The prompts the command may send. *)
Definition may_send (opts : runOptions) (prompt : string) : Prop :=
  if op_Chat opts then fits opts prompt else prompt = op_Prompt opts.

Lemma main_trace json_encode parsed dialed stdin :
  gpost (realMain json_encode parsed dialed stdin) (λ evs _,
    match parseArgs parsed stdin with
    | Ok opts => (∃ v, paid_trace opts (may_send opts) evs v) ∧
        (op_PayInvoice opts = false → ∀ req ans, OAccept req ans ∉ evs)
    | Err e => evs = [OErrPrint (e +:+ nl)]
    end).
Proof.
  unfold realMain. destruct (parseArgs parsed stdin) as [opts|e] eqn:Hp; [|done].
  pose proof (parse_args_ok _ _ _ Hp) as Hok.
  destruct dialed as [e|].
  { intros t. split; [exists 0; by repeat constructor|]. cbn. set_solver. }
  unfold may_send. destruct (op_Chat opts) eqn:Hc.
  - destruct (oo_chat_pays _ Hok Hc) as [-> _].
    eapply gpost_bind; [apply run_advances|]. intros evs [s [e|]] (_ & _ & v & Hv & _); intros t; (split; [|done]).
    + exists (v + 0). apply paid_app; [done|]. by repeat constructor.
    + exists v. cbn. by rewrite app_nil_r.
  - eapply gpost_bind; [apply pipeline_trace|]. intros evs r [[v Hv] Hno].
    assert (Hend : ∀ e, (∃ s, e = OPrint s ∨ e = OErrPrint s) →
      (∃ v, paid_trace opts (λ p, p = op_Prompt opts) (evs ++ [e]) v) ∧
      (op_PayInvoice opts = false → ∀ req ans, OAccept req ans ∉ evs ++ [e])).
    { intros e [x Hx]. split.
      - exists (v + 0). apply paid_app; [done|]. by destruct Hx as [-> | ->]; repeat constructor.
      - intros Hpay req ans. rewrite elem_of_app, list_elem_of_singleton. intros [Hin|<-]; [by eapply Hno|].
        by destruct Hx. }
    destruct r as [res|e]; [|intros t; apply Hend; eauto].
    destruct (op_OutputJSON opts); [destruct (json_encode _)|]; intros t; apply Hend; eauto.
Qed.

(** Lcpd-oneshot pays only for the quote it has just received: whatever the daemon
    answers, every AcceptAndExecute the command calls comes immediately after a
    RequestQuote that returned terms, and is for the job of these terms, at the peer that
    was asked, which is the one of -peer-id; the options have -pay-invoice set; and the
    quote asked for was for the prompt of the options or, in a chat, for a prompt within
    -max-prompt-bytes. *)
Theorem oneshot_pays_quoted json_encode parsed dialed stdin pre areq ans post :
  trace (realMain json_encode parsed dialed stdin) = pre ++ OAccept areq ans :: post →
  ∃ opts pre' req terms, parseArgs parsed stdin = Ok opts ∧ op_PayInvoice opts = true ∧
    pre = pre' ++ [OQuote req (Ok (Some terms))] ∧
    quote_for opts (may_send opts) req ∧ areq = accept_of opts terms.
Proof.
  intros Htr. pose proof (main_trace json_encode parsed dialed stdin 0%nat) as H.
  change ((realMain json_encode parsed dialed stdin 0%nat).1.2) with (trace (realMain json_encode parsed dialed stdin)) in H.
  destruct (parseArgs parsed stdin) as [opts|e]; [|by rewrite H in Htr; destruct pre as [|? []]].
  destruct H as [[v Hv] Hno]. destruct (paid_accept_inv _ _ _ _ Hv _ _ _ _ Htr) as (pre' & req & terms & -> & Hq & ->).
  exists opts, pre', req, terms. split_and!; try done. destruct (op_PayInvoice opts); [done|].
  destruct (Hno eq_refl (accept_of opts terms) ans). rewrite Htr. set_solver.
Qed.

(** The requests of lcpd-oneshot are valid: where encoding/json reads back the model
    and the messages it wrote, every quote the command asks the daemon for, in the
    pipeline and in every turn of a chat, has a task that the daemon's ValidateTask
    accepts. *)
Theorem oneshot_requests_valid {TJ : Tasks.TaskJson} {OL : OneshotJsonLaws OJ TJ} json_encode parsed dialed stdin opts req ans :
  parseArgs parsed stdin = Ok opts → utf8_valid (bytes_of_string (op_Model opts)) = true →
  OQuote req ans ∈ trace (realMain json_encode parsed dialed stdin) →
  Tasks.ValidateTask (rq_Task req) = Ok tt.
Proof.
  intros Hp Hu Hin. pose proof (main_trace json_encode parsed dialed stdin 0%nat) as H.
  rewrite Hp in H. destruct H as [[v Hv] _].
  destruct (paid_quote_inv _ _ _ _ Hv _ _ Hin) as (prompt & json & _ & Hj & ->).
  by apply (built_task_valid opts prompt), Hj; [apply (parse_args_ok _ _ _ Hp)|].
Qed.

(** C34: The session of a plain chat, at its end and whatever the daemon answered: the
    total is the sum, at 64 bits, of the prices of the executions that returned a result,
    and of no other; the history alternates between user and assistant and ends with the
    assistant, so that a turn that failed left nothing behind; and every prompt sent was
    within -max-prompt-bytes. *)
Theorem chat_session_exact opts stdin t :
  let r := Run (newChatSession opts) stdin t in
  cs_totalMsat r.2.1 = wrap_u64 (spent r.1.2) ∧ settled (cs_history r.2.1) ∧
  ∀ req ans, OQuote req ans ∈ r.1.2 → quote_for opts (fits opts) req.
Proof.
  intros r. destruct (run_advances (newChatSession opts) stdin t) as (_ & Hh & v & Hv & Ht).
  split_and!.
  - unfold r. rewrite (paid_spent _ _ _ _ Hv). by apply Ht.
  - apply Hh, settled_nil.
  - apply (paid_quote_inv _ _ _ _ Hv).
Qed.

(** The terminal interface, after any sequence of keys, window sizes and ends of
    turns: at most one turn is in flight, so that a session never has two payments at
    once; the interface is sending exactly then, and the input has the focus exactly
    otherwise; the total it shows is the sum of the prices of the executions that
    returned a result; and every payment is for the quote just received. *)
Theorem one_turn_in_flight {TL : TuiLib} opts es :
  let p := trun opts es in
  (length (pg_turns p) ≤ 1)%nat ∧ (tm_sending (pg_model p) = true ↔ pg_turns p ≠ []) ∧
  ti_Focused (tm_input (pg_model p)) = negb (tm_sending (pg_model p)) ∧
  tm_totalMsat (pg_model p) = wrap_u64 (spent (pg_trace p)) ∧
  settled (cs_history (pg_session p)) ∧
  ∀ pre areq ans post, pg_trace p = pre ++ OAccept areq ans :: post →
    ∃ pre' req terms, pre = pre' ++ [OQuote req (Ok (Some terms))] ∧ areq = accept_of opts terms.
Proof.
  destruct (trun_ok opts es) as [Ht _ Hs Hf Hto (_ & Hh & v & Hv & Htot)].
  split_and!; try done.
  - rewrite Hto, (paid_spent _ _ _ _ Hv). by apply Htot.
  - apply Hh, settled_nil.
  - intros pre areq ans post Heq.
    destruct (paid_accept_inv _ _ _ _ Hv _ _ _ _ Heq) as (pre' & req & terms & ? & _ & ?). by exists pre', req, terms.
Qed.

(** The prompt of a turn is the transcript of the longest suffix of the history that
    fits -max-prompt-bytes with the system prompt and the cue, the newest message
    included, and it is marked trimmed exactly when something was left out; the turn
    fails exactly when the newest message does not fit; without a limit nothing is left
    out. *)
Theorem chat_prompt_longest_suffix systemPrompt h m maxBytes :
  0 ≤ maxBytes →
  match buildChatPrompt systemPrompt (h ++ [m]) maxBytes with
  | Ok r => longest_fitting (systemBlockOf systemPrompt) maxBytes (h ++ [m]) r
  | Err _ => 0 < maxBytes < slen (promptOf (systemBlockOf systemPrompt) [m])
  end.
Proof. apply chat_prompt_fits. Qed.
End theorems.

(** ** The terminal's body *)

(** What is visible is the end of the lines, and leaves room for the header and the
    input. *)
Lemma visible_suffix m :
  (∃ hidden, tm_lines m = hidden ++ visibleBodyLines m) ∨ visibleBodyLines m = [].
Proof.
  unfold visibleBodyLines. repeat case_match; eauto using app_nil_l; left; try by exists [].
  eexists. by rewrite take_drop.
Qed.

Lemma visible_bounded m : 0 < tm_height m → blen (visibleBodyLines m) ≤ Z.max 0 (tm_height m - 8).
Proof.
  intros Hh. unfold visibleBodyLines, blen.
  destruct (Z.leb_spec (tm_height m) 0), (Z.leb_spec (tm_height m - 3 - 3 - 2) 0),
    (Z.leb_spec (Z.of_nat (length (tm_lines m))) (tm_height m - 3 - 3 - 2));
    cbn [length]; rewrite ?length_drop; lia.
Qed.

(** ** A daemon that answers *)

Module Sample.
(** A request is the length of its model, the number of its messages, the model and the
    first message; the whole of a response is its first choice. *)
Definition first_content (r : openAIChatCompletionsV1Request) : bytes :=
  bytes_of_string (default ""%string (om_Content <$> head (or_Messages r))).
Definition encode (r : openAIChatCompletionsV1Request) : bytes :=
  let model := bytes_of_string (or_Model r) in
  repeat Byte.x01 (length model) ++ Byte.x00 :: repeat Byte.x01 (length (or_Messages r)) ++ Byte.x00 ::
  model ++ first_content r.
Fixpoint ones (bs : bytes) : nat * bytes :=
  match bs with
  | Byte.x01 :: rest => let r := ones rest in (S r.1, r.2)
  | _ :: rest => (0%nat, rest)
  | [] => (0%nat, [])
  end.
Lemma ones_repeat n bs : ones (repeat Byte.x01 n ++ Byte.x00 :: bs) = (n, bs).
Proof. induction n as [|n IH]; [done|]. cbn. by rewrite IH. Qed.

#[local] Instance client_json : OneshotJson :=
  {| oj_marshal r := Ok (encode r); oj_choices b := Ok [string_of_bytes b] |}.
#[local] Instance daemon_json : Tasks.TaskJson := {|
  Tasks.json_chat b :=
    let r := ones b in let r' := ones r.2 in
    Ok (string_of_bytes (take r.1 r'.2), repeat (drop r.1 r'.2) r'.1);
  Tasks.json_responses b := Err "no"%string;
|}.
#[local] Instance client_laws : OneshotJsonLaws client_json daemon_json.
Proof.
  split. intros r b _ [= <-]. split; [by unfold encode; destruct (repeat _ _)|].
  exists (repeat (first_content r) (length (or_Messages r))). split; [|by rewrite repeat_length].
  cbn [Tasks.json_chat daemon_json]. unfold encode. rewrite ones_repeat. cbn [fst snd]. rewrite ones_repeat. cbn [fst snd].
  by rewrite take_app_length, drop_app_length, string_of_bytes_of_string.
Qed.

(** Each call is answered; the price grows; the second execution fails. *)
Definition terms_at (t : nat) : ReqJobStore.PbTerms :=
  {| ReqJobStore.pt_ProtocolVersion := 2; ReqJobStore.pt_JobId := [byte_of_Z (Z.of_nat t)];
     ReqJobStore.pt_PriceMsat := 1500 + Z.of_nat t; ReqJobStore.pt_QuoteExpiry := None;
     ReqJobStore.pt_TermsHash := [Byte.xab]; ReqJobStore.pt_PaymentRequest := "lnbc1" |}.
Definition answer (status : ResultStatus) (text : string) : PbResult :=
  MkPbResult status (bytes_of_string text) [] 0 "text/plain" "identity" "".
#[local] Instance daemon : OneshotEnv := {|
  oc_RequestQuote t _ := Ok (Some (terms_at t));
  oc_AcceptAndExecute t _ :=
    if (t =? 3)%nat then Err "payment failed"%string else Ok (Some (Some (answer STATUS_OK "Assistant: hello")));
|}.

Definition flags : Flags :=
  {| fl_prompt := ""; fl_chat := true; fl_systemPrompt := "be brief"; fl_maxPromptBytes := 64;
     fl_serverAddr := defaultServerAddr; fl_peerID := " 02ab "; fl_model := ""; fl_profile := "";
     fl_temperatureMilli := 700; fl_maxOutputTokens := 0; fl_payInvoice := true; fl_timeout := defaultTimeout;
     fl_json := false; fl_args := ["hi"%string; "there"%string] |}.
Definition stdin : list read :=
  [MkRead (bytes_of_string ("what is new?" +:+ nl +:+ nl +:+ "and now?" +:+ nl +:+ "/quit" +:+ nl)) (Some ReadEOF)].
Definition command : TM oev Z := realMain (λ _, Ok ""%string) (Ok flags) None stdin.
Definition opts : runOptions :=
  {| op_ServerAddr := defaultServerAddr; op_PeerID := "02ab"; op_Model := defaultModel; op_TemperatureMilli := 700;
     op_MaxOutputTokens := 0; op_PayInvoice := true; op_Prompt := "hi there"; op_Timeout := defaultTimeout;
     op_OutputJSON := false; op_Chat := true; op_SystemPrompt := "be brief"; op_MaxPromptBytes := 64 |}.

Example options_parsed : parseArgs (Ok flags) stdin = Ok opts.
Proof. by vm_compute. Qed.

(** The first turn and the third are paid. *)
Example chat_evaluated : spent (trace command) = 3004.
Proof. by vm_compute. Qed.

Lemma oneshot_pays_quoted_witness : ∃ pre areq ans post,
  trace command = pre ++ OAccept areq ans :: post ∧
  ∃ opts pre' req terms, parseArgs (Ok flags) stdin = Ok opts ∧ op_PayInvoice opts = true ∧
    pre = pre' ++ [OQuote req (Ok (Some terms))] ∧
    quote_for opts (may_send opts) req ∧ areq = accept_of opts terms.
Proof.
  pose (H := oneshot_pays_quoted (λ _, Ok ""%string) (Ok flags) None stdin (take 7 (trace command))
    {| ar_PeerId := "02ab"; ar_JobId := [Byte.x02]; ar_PayInvoice := true |} (Err "payment failed"%string)
    (drop 8 (trace command))).
  do 4 eexists. split; [|apply H]; by vm_compute.
Defined.

Lemma oneshot_requests_valid_witness :
  Forall (λ e, match e with OQuote req _ => Tasks.ValidateTask (rq_Task req) = Ok tt | _ => True end) (trace command).
Proof.
  apply Forall_forall. intros [req ans| | |] Hin; try done.
  apply (oneshot_requests_valid (λ _, Ok ""%string) (Ok flags) None stdin opts req ans); [by vm_compute|by vm_compute|done].
Defined.

Definition history : list chatMessage :=
  [MkMessage chatRoleUser "hi there"; MkMessage chatRoleAssistant "hello"].
Lemma chat_prompt_longest_suffix_witness :
  match buildChatPrompt "be brief" (history ++ [MkMessage chatRoleUser "what is new?"]) 64 with
  | Ok r => longest_fitting (systemBlockOf "be brief") 64 (history ++ [MkMessage chatRoleUser "what is new?"]) r
  | Err _ => 0 < 64 < slen (promptOf (systemBlockOf "be brief") [MkMessage chatRoleUser "what is new?"])
  end.
Proof. apply chat_prompt_longest_suffix. lia. Defined.
Example prompt_trimmed :
  buildChatPrompt "be brief" (history ++ [MkMessage chatRoleUser "what is new?"]) 64 =
  Ok ("System: be brief" +:+ nl +:+ nl +:+ "User: what is new?" +:+ nl +:+ "Assistant: ",
      [MkMessage chatRoleUser "what is new?"], true).
Proof. by vm_compute. Qed.

(** A key is ignored while a turn is in flight: the second Enter sends nothing. *)
#[local] Instance terminal : TuiLib := {|
  input_key v k := match k with KeyOther c => v +:+ c | _ => v end;
  input_view i := ti_Value i;
  render _ s := s;
|}.
Definition session_keys : list tevent :=
  [EvResize 80 24; EvTurn 0; EvKey (KeyOther "again"); EvKey KeyEnter; EvKey (KeyOther "and again"); EvKey KeyEnter].
Example tui_evaluated :
  pg_turns (trun opts session_keys) = ["again"%string] ∧
  tm_totalMsat (pg_model (trun opts session_keys)) = 1500 ∧
  ti_Value (tm_input (pg_model (trun opts session_keys))) = ""%string.
Proof. by vm_compute. Qed.

(** Neither the pipeline nor a turn looks at the status of a result: a job that failed
    is a reply, empty here, and the command succeeds. *)
Example failed_result_is_reply :
  let env := {| oc_RequestQuote t _ := Ok (Some (terms_at t));
                oc_AcceptAndExecute _ _ := Ok (Some (Some (answer STATUS_FAILED ""))) |} in
  (runPipeline (OE := env) opts 0%nat).2 =
    Ok {| pl_PeerID := "02ab"; pl_Terms := terms_at 0; pl_Result := Some (answer STATUS_FAILED "") |} ∧
  (Turn (OE := env) (newChatSession opts) "hi" 0%nat).2.2 = None.
Proof. by vm_compute. Qed.
End Sample.
End OneshotTheorems.
