(* ===== verification/EndToEnd.v ===== *)
(** * The clients on top of the requester's daemon

    openai-serve and lcpd-oneshot call the RPCs of the daemon.  Here the daemon of their
    models is not arbitrary any more: the answers are those of the calls of a run of the
    requester ([RequesterRun.v]).  What a client asked for is then what the daemon paid
    for, and what the provider executed for that payment. *)

From stdpp Require Import pretty.
From S2P Require Import Prelude GoStd TlvLib Wire WireProofs Stores Replay JobStore PeerDir Terms Pricing Validation Tasks Lightning Provider ResultSend Runner ReqJobStore Waiter WaiterInv WaiterRoute Requester RequesterRun RequesterLogic RequesterCalls RequesterRequests RequesterSafety RequesterTheorems Composition Backend Daemon Gateway Httpapi HttpapiProofs HttpapiStream Oneshot OneshotProofs OneshotTheorems Discovery Trace.

Module EndToEnd.
Import Gateway Httpapi HttpapiProofs HttpapiStream.

Section end_to_end.
Context {T : TlvLib} {L : TlvLaws T} {W : WireText} {TJ : Tasks.TaskJson} {TX : TermsText} {E : RequesterEnv}
        {V : Validator} {LN : LightningRPC} {LL : LightningLaws LN} {EN : Environ}
        {RQ : MapRange ReqJobStore.key JobEntryT} {RP : MapRange string PeerDir.Peer}
        {RZ : MapRange Z bytes}.
Context (hasMessenger hasLightning : bool) (localManifest : Manifest) (maxEntries : Z).

Abbreviation requester := (after_events hasMessenger hasLightning localManifest maxEntries).
Abbreviation job_of_ := (job_of hasMessenger hasLightning localManifest maxEntries).

(** ** The payment of a quoted job *)

(** The job ids drawn for the quote requests of the run are distinct. *)
Definition distinct_jobs (evs : list revent) : Prop :=
  ∀ c1 c2 j, job_of_ evs c1 = Some j → job_of_ evs c2 = Some j → c1 = c2.

(** Call [cid] of the run was the request [e] and returned [r]. *)
Definition call_returned (evs : list revent) (e : revent) (cid : nat) (r : Reply) : Prop :=
  request_of evs cid = Some e ∧ RReturn cid (Ok r) ∈ s_out (requester evs).

Lemma returned_once evs cid r1 r2 :
  RReturn cid r1 ∈ s_out (requester evs) → RReturn cid r2 ∈ s_out (requester evs) → r1 = r2.
Proof.
  intros H1 H2. set (s := requester evs) in *.
  assert (Hin : ∀ r, RReturn cid r ∈ s_out s → r ∈ replies cid s).
  { intros r Hr. unfold replies. apply list_elem_of_omap. exists (RReturn cid r). split; [done|]. simpl.
    by rewrite decide_True. }
  assert (Hlen : (length (replies cid s) ≤ 1)%nat).
  { pose proof (rrun_accounted hasMessenger hasLightning localManifest evs _
      (New_accounted localManifest (ReqJobStore.NewWithClockAndMaxEntries maxEntries)) cid) as Ha.
    change (accounted_for cid s) in Ha. unfold accounted_for in Ha. case_decide.
    - rewrite Ha. repeat case_match; lia.
    - destruct Ha as [-> _]. simpl. lia. }
  apply Hin in H1, H2. destruct (replies cid s) as [|r [|]]; set_solver by (simpl in *; lia).
Qed.

(** The invoice that is paid for a job is the one of the quote for that job, checked
    against its terms. *)
Definition pays_quote (evs : list revent) (p : string) (j : bytes) (task : option Tasks.Task)
    (terms : ReqJobStore.PbTerms) (pr : string) : Prop :=
  quoted (msgs evs) (s_out (requester evs)) p j task terms ∧ pr = ReqJobStore.pt_PaymentRequest terms ∧
  ∃ n info, rpc_DecodePaymentRequest n pr = Ok info ∧ invoice_matches p terms info.

Lemma payment_of_quote evs qcid req p0 terms cid p j pr :
  sane_limits (Some localManifest) → distinct_jobs evs →
  call_returned evs (EvQuote (Some req)) qcid (ReplyQuote p0 terms) →
  RPay cid p j pr ∈ s_out (requester evs) → j = ReqJobStore.pt_JobId terms →
  p = TrimSpace (rq_PeerId req) ∧ pays_quote evs p j (rq_Task req) terms pr.
Proof using L LL.
  intros Hl Hd [Hreq Hret] Hpay Hj.
  destruct (payment_payable _ _ _ _ _ _ _ _ _ Hl Hpay) as
    [(task & terms' & n & info & Hq & Hpr & Hinfo & Hm & c & Hc & Hret') _].
  destruct (events_out _ _ _ _ _ _ Hl Hret) as (task0 & (req0 & H1 & H2 & H3 & H4) & _).
  destruct Hc as (req1 & K1 & K2 & K3 & K4). rewrite <-Hj in H4. pose proof (Hd _ _ _ H4 K4) as <-.
  rewrite Hreq in H1, K1. simplify_eq. pose proof (returned_once _ _ _ _ Hret Hret') as ?. simplify_eq.
  split; [done|]. split_and!; [done..|]. by exists n, info.
Qed.

(** What a task is on the wire. *)
Lemma wire_task task kind model body wt ins :
  task_view task = Some (kind, model, body) →
  Tasks.ToWireQuoteRequestTask (Some task) = Ok wt → Tasks.ToWireInputStream (Some task) = Ok ins →
  Tasks.qt_TaskKind wt = Discovery.kind_name kind ∧ Tasks.in_DecodedBytes ins = body ∧
  EncodeOpenAIParams {| oa_Model := model; oa_Unknown := ∅ |} = Ok (Tasks.qt_ParamsBytes wt).
Proof.
  destruct task as [[[[[json [m|]]|]|[[json [m|]]|]]|]]; try done; intros [= <- <- <-];
    unfold Tasks.ToWireQuoteRequestTask, Tasks.ToWireInputStream, EncodeOpenAIChatCompletionsV1Params,
      EncodeOpenAIResponsesV1Params; simpl; intros H1 H2; invert_ok; subst ins;
    destruct (EncodeOpenAIParams _) as [ps|] eqn:Hp; try done; invert_ok; by subst wt.
Qed.

(** ** openai-serve *)

Section gateway.
Context {F : Fmt} {GE : GatewayEnv} {GJ : GatewayJson} {SR : SetRange}.
Context (cfg : Gateway.Config).

(** What call [cid] has streamed. *)
Definition streamed_by (cid : nat) (o : rout) : option StreamResponse :=
  match o with RStream c resp None => if decide (c = cid) then Some resp else None | _ => None end.

(** The daemon is the requester: the answer is the one of a call of the run with that
    request.  (An error may come from the connection.) *)
Definition answered_by (evs : list revent) (e : gev) : Prop :=
  match e with
  | GListPeers (Ok peers) => ∃ cid ps, peers = Discovery.peer_of_pb <$> ps ∧
      call_returned evs (EvListPeers true) cid (ReplyPeers ps)
  | GQuote req (Ok ans) => ∃ cid p terms, ans = Some terms ∧
      call_returned evs (EvQuote (Some req)) cid (ReplyQuote p terms)
  | GExecute req (Ok ans) => ∃ cid res, ans = Some res ∧
      call_returned evs (EvAccept (Some req)) cid (ReplyResult res)
  | GExecuteStream req (Ok s) => ∃ cid, request_of evs cid = Some (EvStream (Some req)) ∧
      rv_msgs s `prefix_of` (Some <$> omap (streamed_by cid) (s_out (requester evs)))
  | _ => True
  end.

(** The invoice [pr] of job [j] is for the body of the HTTP request: the task of the
    request was sent to the peer, its quote commits to it, and the invoice to the quote,
    within the price limit. *)
Definition for_request (evs : list revent) (q : HttpRequest) (p : string) (j : bytes) (pr : string)
    (body : bytes) (wt : Tasks.QuoteRequestTask) (ins : Tasks.InputStream) (resp : QuoteResponse) : Prop :=
  ∃ kind model task info n,
    HttpapiProofs.requested q kind model body ∧
    RequesterSafety.requested (s_out (requester evs)) p j task wt ins ∧
    Tasks.qt_TaskKind wt = Discovery.kind_name kind ∧
    EncodeOpenAIParams {| oa_Model := model; oa_Unknown := ∅ |} = Ok (Tasks.qt_ParamsBytes wt) ∧
    Tasks.in_DecodedBytes ins = body ∧
    quote_from (msgs evs) (Waiter.MkKey p j) resp ∧
    ComputeTermsHash (response_terms resp) (request_commit wt ins) = Ok (qs_TermsHash resp) ∧
    qs_PaymentRequest resp = pr ∧ rpc_DecodePaymentRequest n pr = Ok info ∧
    pi_DescriptionHash info = qs_TermsHash resp ∧ pi_AmountMsat info = qs_PriceMsat resp ∧
    (0 < g_MaxPriceMsat cfg → pi_AmountMsat info ≤ g_MaxPriceMsat cfg).

Lemma gateway_payment evs q e r cid p j pr :
  sane_limits (Some localManifest) → distinct_jobs evs →
  Forall (answered_by evs) (trace (serve cfg q)) → e ∈ trace (serve cfg q) → executes e = Some r →
  request_of evs cid = Some (EvAccept (Some r)) ∨ request_of evs cid = Some (EvStream (Some r)) →
  RPay cid p j pr ∈ s_out (requester evs) →
  authorized cfg q ∧ p = TrimSpace (ar_PeerId r) ∧
  ∃ body wt ins resp terms, for_request evs q p j pr body wt ins resp ∧
    termsFromQuoteResponse wt ins resp = Ok terms ∧ pr = ReqJobStore.pt_PaymentRequest terms ∧
    ∃ n info, rpc_DecodePaymentRequest n pr = Ok info ∧ pi_DescriptionHash info = ReqJobStore.pt_TermsHash terms.
Proof using L LL.
  intros Hl Hd Hans [pre [rest Ht]]%list_elem_of_split He Hcall Hpay.
  destruct (execution_justified cfg q pre e rest r Ht He) as
    (Ha & (kind & model & body & Hreq & peers & task & terms & -> & _ & _ & Hview & Hjob & _ & Hmax) & _ & _).
  split; [done|]. rewrite Ht in Hans. simpl in Hans. apply Forall_cons in Hans as [_ Hans].
  apply Forall_cons in Hans as [(qcid & p0 & ts & -> & Hret) _].
  destruct (payment_payable _ _ _ _ _ _ _ _ _ Hl Hpay) as [_ (r' & Hr' & Hp & Hj)].
  assert (r' = r) as -> by (destruct Hcall, Hr'; congruence). split; [done|].
  simpl in Hjob. rewrite Hjob in Hj.
  destruct (payment_of_quote _ _ _ _ _ _ _ _ _ Hl Hd Hret Hpay Hj) as
    (_ & (wt & ins & resp & Hasked & Hfrom & Hterms) & Hpr & n & info & Hinfo & Hm).
  destruct (wire_task _ _ _ _ _ _ Hview (proj1 Hasked) (proj1 (proj2 Hasked))) as (Hkind & Hbody & Hparams).
  destruct (terms_from_response _ _ _ _ Hterms) as (Hhash & Hth & Hprice & Hpayreq & _).
  exists body, wt, ins, resp, ts. split_and!; [|done..|by exists n, info; split; [|apply Hm]].
  exists kind, model, (Some task), info, n. destruct Hm as (Hdesc & _ & _ & Ham & _).
  split_and!; try done; try congruence. simpl in Hmax. rewrite Ham. done.
Qed.

(** C8: what the daemon pays for the gateway is what the HTTP client asked for.  When
    the answers the gateway got are those of the daemon, every invoice that a call of
    the gateway pays was quoted for the very bytes of the HTTP request's body, by the
    peer the request was routed to: the request was authorized, its task (kind, model,
    body) was sent to that peer, the quote's terms hash commits to it, the invoice's
    description hash is the terms hash, and its amount is the quoted price, within the
    gateway's limit. *)
Theorem http_body_is_paid_for evs q e r cid p j pr :
  sane_limits (Some localManifest) → distinct_jobs evs →
  Forall (answered_by evs) (trace (serve cfg q)) → e ∈ trace (serve cfg q) → executes e = Some r →
  request_of evs cid = Some (EvAccept (Some r)) ∨ request_of evs cid = Some (EvStream (Some r)) →
  RPay cid p j pr ∈ s_out (requester evs) →
  authorized cfg q ∧ p = TrimSpace (ar_PeerId r) ∧
  ∃ body wt ins resp, for_request evs q p j pr body wt ins resp.
Proof using L LL.
  intros Hl Hd Hans He Hx Hcall Hpay.
  destruct (gateway_payment _ _ _ _ _ _ _ _ Hl Hd Hans He Hx Hcall Hpay) as (? & ? & body & wt & ins & resp & _ & ? & _).
  eauto 10.
Qed.

Lemma data_executed q st ct data :
  GData st ct data ∈ trace (serve cfg q) → st = 200 ∧
  ∃ r res, GExecute r (Ok (Some res)) ∈ trace (serve cfg q) ∧ pr_Status res = STATUS_OK ∧ data = pr_Result res.
Proof.
  intros Hin. pose proof (serve_outcome cfg q 0%nat : outcome (trace (serve cfg q))) as
    [pre e post Heq He Hj Hpre Hpost|r s _ _ Hn _|r s res _ Hq _ _ _].
  - assert (e = GData st ct data) as ->.
    { rewrite Forall_forall in Hpre, Hpost. rewrite Heq in Hin. apply elem_of_app in Hin as [Hin|Hin].
      - by destruct (Hpre _ Hin).
      - apply elem_of_cons in Hin as [Hin|Hin]; [done|]. by destruct (Hpost _ Hin). }
    destruct (Hj _ _ _ eq_refl) as (-> & r & res & Hr & Hs & ->). split; [done|]. exists r, res.
    split_and!; try done. rewrite Heq. apply elem_of_app. by left.
  - rewrite Forall_forall in Hn. by specialize (Hn _ Hin).
  - rewrite Forall_forall in Hq. by destruct (Hq _ Hin).
Qed.

(** C7: what the HTTP client receives was bought for it.  A response with a body of
    data has status 200 and answers an authorized request; the daemon paid an invoice
    for the bytes of the request; the peer that was paid sent a result for that job with
    status ok; and the data are the bytes it committed to: they hash to its
    [result_hash] and have its [result_len]. *)
Theorem http_response_is_bought evs q st ct data :
  sane_limits (Some localManifest) → distinct_jobs evs →
  Forall (answered_by evs) (trace (serve cfg q)) → GData st ct data ∈ trace (serve cfg q) →
  st = 200 ∧ authorized cfg q ∧
  ∃ cid p j pr body wt ins resp payload terminal ok,
    RPay cid p j pr ∈ s_out (requester evs) ∧ for_request evs q p j pr body wt ins resp ∧
    EvMessage p MessageTypeResult payload ∈ evs ∧ DecodeResult payload = Ok terminal ∧
    env_JobID (rs_Envelope terminal) = j ∧ rs_Status terminal = ResultStatusOK ∧ rs_OK terminal = Some ok ∧
    sha256_sum data = ro_ResultHash ok ∧ blen data = ro_ResultLen ok.
Proof using L LL.
  intros Hl Hd Hans Hin. destruct (data_executed _ _ _ _ Hin) as (-> & r & res & Hexec & Hst & ->). split; [done|].
  pose proof (proj1 (Forall_forall _ _) Hans _ Hexec) as (cid & res' & [= <-] & Hreq & Hret).
  destruct (events_out _ _ _ _ _ _ Hl Hret) as (p & j & pr & o & t & Hp & [Hr Hv] & He & Ht & Hres).
  unfold result_routed in Hr. rewrite Ht in Hr. destruct Hr as [[Hj (payload & Hm & Hdec)] _].
  destruct (gateway_payment _ _ _ _ _ _ _ _ Hl Hd Hans Hexec eq_refl (or_introl Hreq) Hp) as
    (Ha & _ & body & wt & ins & resp & _ & Hfor & _).
  pose proof (proto_faithful _ _ _ _ Hv He Ht Hres) as Hf. unfold result_faithful in Hf. rewrite Hst in Hf.
  destruct Hf as (Hok & ok & Hs & Hh & Hn & Hsum & Hlen & _).
  split; [done|]. exists cid, p, j, pr, body, wt, ins, resp, payload, t, ok.
  split_and!; try done; congruence.
Qed.

(** *** And the provider *)

Section provider.
Context {J : JsonLib} {PE : ProviderEnv} {RJ : MapRange JobStore.Key JobStore.Job}
        {RR : MapRange ReplayStore.Key Z} {RM : MapRange string ModelConfig}.
Context (pcfg : Validation.Config) (policy : ExecutionPolicy) (backendDisabled backendStreams : bool).

End provider.
End gateway.

(** ** lcpd-oneshot *)

Section oneshot.
Context {OJ : Oneshot.OneshotJson} {OE : Oneshot.OneshotEnv}.
Import Oneshot OneshotProofs OneshotTheorems.

Definition client_answered_by (evs : list revent) (e : oev) : Prop :=
  match e with
  | OQuote req (Ok ans) => ∃ cid p terms, ans = Some terms ∧
      call_returned evs (EvQuote (Some req)) cid (ReplyQuote p terms)
  | _ => True
  end.

End oneshot.
End end_to_end.
End EndToEnd.
