(* ===== verification/EndToEndExamples.v ===== *)
(** * A request of an HTTP client, all the way

    The gateway serves a request with the daemon's run of [RequesterExamples], extended
    by the call that lists the peers; the daemon's peer is the provider of
    [ProviderExamples].  The command-line client asks the same daemon. *)

From S2P Require Import Prelude GoStd TlvLib Wire WireProofs Stores Replay JobStore PeerDir Terms Pricing Validation Tasks Lightning Provider ResultSend Runner ProviderTheorems ReqJobStore Waiter WaiterInv WaiterRoute Requester RequesterRun RequesterRequests RequesterSafety RequesterTheorems Composition RequesterExamples Backend Daemon Gateway Httpapi HttpapiProofs Oneshot OneshotProofs OneshotTheorems Discovery EndToEnd Trace.

Module EndToEndExamples.
Import Gateway Httpapi HttpapiProofs EndToEnd.
#[local] Existing Instances RequesterExamples.tlv RequesterExamples.no_environ RequesterExamples.rq
  RequesterExamples.rp RequesterExamples.rz RequesterExamples.text RequesterExamples.terms_error
  RequesterExamples.task_json RequesterExamples.no_validator RequesterExamples.world
  RequesterExamples.lightning RequesterExamples.lightning_laws.
Import RequesterExamples(provider, asked, quote_payload, result_payloads, peer_events, the_terms, the_result, manifest_limits).
Import ProviderExamples(jobID, input, manifest, id32).

(** ** The daemon *)

Definition quote_req : RequestQuoteRequest := {| rq_PeerId := provider; rq_Task := Some asked |}.
Definition pay_req : AcceptRequest := {| ar_PeerId := provider; ar_JobId := jobID; ar_PayInvoice := true |}.
Definition served_events : list revent :=
  peer_events ++
  [EvListPeers true; EvQuote (Some quote_req); EvMessage provider MessageTypeQuoteResponse quote_payload; EvWake 1;
   EvAccept (Some pay_req); EvPaid 2 (Ok (id32 Byte.x77))] ++
  ((λ m, EvMessage provider m.1 m.2) <$> result_payloads) ++ [EvWake 2].

Abbreviation after_ evs := (after_events true true manifest 16 evs).
Definition served_out := Eval vm_compute in s_out (after_ served_events).
Lemma served_trace : s_out (after_ served_events) = served_out.
Proof. vm_compute. reflexivity. Qed.

Definition pb_peers : list PbPeer := Eval vm_compute in
  match head served_out with Some (RReturn _ (Ok (ReplyPeers ps))) => ps | _ => [] end.

Lemma returned n cid r e :
  request_of served_events cid = Some e → served_out !! n = Some (RReturn cid (Ok r)) →
  call_returned true true manifest 16 served_events e cid r.
Proof. intros He Hn. split; [done|]. rewrite served_trace. by eapply list_elem_of_lookup_2. Qed.

Lemma peers_call : call_returned true true manifest 16 served_events (EvListPeers true) 0 (ReplyPeers pb_peers).
Proof. apply (returned 0); vm_compute; reflexivity. Qed.
Lemma quote_returned :
  call_returned true true manifest 16 served_events (EvQuote (Some quote_req)) 1 (ReplyQuote provider the_terms).
Proof. apply (returned 5); vm_compute; reflexivity. Qed.
Lemma result_returned :
  call_returned true true manifest 16 served_events (EvAccept (Some pay_req)) 2 (ReplyResult the_result).
Proof. apply (returned 7); vm_compute; reflexivity. Qed.
Lemma paid_call : RPay 2 provider jobID "lnbc1" ∈ s_out (after_ served_events).
Proof. rewrite served_trace. apply list_elem_of_lookup. exists 6%nat. vm_compute. reflexivity. Qed.

(** One quote was asked for. *)
Lemma one_job : distinct_jobs true true manifest 16 served_events.
Proof.
  assert (H : ∀ c j, job_of true true manifest 16 served_events c = Some j → c = 1%nat).
  { intros [|[|[|c]]] j Hj; vm_compute in Hj; done. }
  intros c1 c2 j H1%H H2%H. congruence.
Qed.

(** ** The gateway *)

#[local] Existing Instance ProviderExamples.fmt.
#[local] Instance range : SetRange := {| set_range := elements; set_range_perm X := reflexivity _ |}.
#[local] Instance decoder : GatewayJson := {|
  gj_chat b := Ok {| cr_Model := "gpt-5.2"; cr_Messages := [{| cm_Role := "user"; cm_Content := "hi"; cm_Name := "" |}];
                     cr_Stream := None |};
  gj_responses b := Err "json: cannot unmarshal"%string;
|}.
#[local] Instance daemon : GatewayEnv := {|
  l_ListLCPPeers _ := Ok (Discovery.peer_of_pb <$> pb_peers);
  l_RequestQuote _ _ := Ok (Some the_terms);
  l_AcceptAndExecute _ _ := Ok (Some the_result);
  l_AcceptAndExecuteStream _ _ := Err EEOF;
  h_ctx _ := None;
  h_write _ data := (blen data, None);
  h_clock _ := 0;
|}.

Definition gateway : Gateway.Config :=
  {| g_HTTPAddr := defaultHTTPAddr; g_LCPDGRPCAddr := defaultLCPDGRPCAddr; g_APIKeys := {["k1"%string]};
     g_DefaultPeerID := ""; g_ModelMap := ∅; g_ModelAllowlist := ∅; g_AllowUnlistedModels := false;
     g_MaxPriceMsat := 1000000; g_TimeoutQuote := defaultTimeoutQuote; g_TimeoutExecute := defaultTimeoutExecute;
     g_LogLevel := defaultLogLevel |}.
Definition http_request : HttpRequest :=
  {| hr_Method := "POST"; hr_Path := "/v1/chat/completions"; hr_Authorization := "Bearer k1";
     hr_ContentEncoding := ""; hr_Body := [MkRead input (Some ReadEOF)] |}.

Definition exec_event : gev := GExecute pay_req (Ok (Some the_result)).
Definition http_trace : list gev := Eval vm_compute in trace (serve gateway http_request).
Lemma http_traced : trace (serve gateway http_request) = http_trace.
Proof. vm_compute. reflexivity. Qed.

Lemma http_answered :
  Forall (answered_by true true manifest 16 served_events) (trace (serve gateway http_request)).
Proof.
  assert (Ht : trace (serve gateway http_request) =
    [GListPeers (Ok (Discovery.peer_of_pb <$> pb_peers)); GQuote quote_req (Ok (Some the_terms)); exec_event] ++
    drop 3 (trace (serve gateway http_request))) by (vm_compute; reflexivity).
  rewrite Ht. cbn [app]. apply Forall_cons_2; [|apply Forall_cons_2; [|apply Forall_cons_2]].
  - exists 0%nat, pb_peers. split; [done|exact peers_call].
  - exists 1%nat, provider, the_terms. split; [done|exact quote_returned].
  - exists 2%nat, the_result. split; [done|exact result_returned].
  - rewrite http_traced. cbn [drop]. unfold http_trace. by repeat constructor.
Qed.

Lemma executed_event : exec_event ∈ trace (serve gateway http_request).
Proof. rewrite http_traced. apply list_elem_of_lookup. exists 2%nat. vm_compute. reflexivity. Qed.

Lemma http_body_is_paid_for_witness :
  authorized gateway http_request ∧ provider = TrimSpace (ar_PeerId pay_req) ∧
  ∃ body wt ins resp, for_request true true manifest 16 gateway served_events http_request provider jobID "lnbc1"
    body wt ins resp.
Proof.
  apply (http_body_is_paid_for true true manifest 16 gateway served_events http_request exec_event pay_req 2
           provider jobID "lnbc1" manifest_limits one_job http_answered executed_event eq_refl (or_introl eq_refl) paid_call).
Defined.

Lemma http_response_is_bought_witness :
  200 = 200 ∧ authorized gateway http_request ∧
  ∃ cid p j pr body wt ins resp payload terminal ok,
    RPay cid p j pr ∈ s_out (after_ served_events) ∧
    for_request true true manifest 16 gateway served_events http_request p j pr body wt ins resp ∧
    EvMessage p MessageTypeResult payload ∈ served_events ∧ DecodeResult payload = Ok terminal ∧
    env_JobID (rs_Envelope terminal) = j ∧ rs_Status terminal = ResultStatusOK ∧ rs_OK terminal = Some ok ∧
    sha256_sum (bytes_of_string "world") = ro_ResultHash ok ∧ blen (bytes_of_string "world") = ro_ResultLen ok.
Proof.
  apply (http_response_is_bought true true manifest 16 gateway served_events http_request 200
           "application/json; charset=utf-8" (bytes_of_string "world") manifest_limits one_job http_answered).
  rewrite http_traced. apply list_elem_of_lookup. exists 7%nat. vm_compute. reflexivity.
Defined.

(** ** The provider *)

#[local] Existing Instances ProviderExamples.rj ProviderExamples.rr ProviderExamples.rm ProviderExamples.json
  ProviderExamples.world.
Import ProviderExamples(key, task, policy, events, paid, paid_reachable).

Lemma example_invoices_decode : invoices_decode paid.
Proof.
  intros ireq inv n info Hin [= <-]. rewrite ProviderExamples.paid_out in Hin. unfold events in Hin.
  repeat (apply elem_of_cons in Hin as [Hin|Hin]; [try discriminate Hin|]).
  - injection Hin as -> _. vm_compute. reflexivity.
  - by apply not_elem_of_nil in Hin.
Qed.


(** ** The command line *)

Module CommandLine.
Import Oneshot OneshotProofs OneshotTheorems.

(** The request of the prompt is the provider's input. *)
#[local] Instance client_json : OneshotJson := {| oj_marshal _ := Ok input; oj_choices _ := Ok ["world"%string] |}.
#[local] Instance client_daemon : OneshotEnv := {|
  oc_RequestQuote _ _ := Ok (Some the_terms);
  oc_AcceptAndExecute _ _ := Ok (Some (Some the_result));
|}.

Definition flags : Flags :=
  {| fl_prompt := "hello"; fl_chat := false; fl_systemPrompt := ""; fl_maxPromptBytes := 0;
     fl_serverAddr := defaultServerAddr; fl_peerID := provider; fl_model := "gpt-5.2"; fl_profile := "";
     fl_temperatureMilli := 0; fl_maxOutputTokens := 0; fl_payInvoice := true; fl_timeout := defaultTimeout;
     fl_json := false; fl_args := [] |}.
Definition command : TM oev Z := realMain (λ _, Ok ""%string) (Ok flags) None [].
Definition command_trace : list oev := Eval vm_compute in trace command.
Lemma command_traced : trace command = command_trace.
Proof. vm_compute. reflexivity. Qed.

Lemma command_answered : Forall (client_answered_by true true manifest 16 served_events) (trace command).
Proof.
  assert (Ht : trace command = [OQuote quote_req (Ok (Some the_terms))] ++ drop 1 (trace command))
    by (vm_compute; reflexivity).
  rewrite Ht. cbn [app]. apply Forall_cons_2.
  - exists 1%nat, provider, the_terms. split; [done|exact quote_returned].
  - rewrite command_traced. cbn [drop]. unfold command_trace. by repeat constructor.
Qed.

End CommandLine.
End EndToEndExamples.
